(* ===== verification/_CoqProject ===== *)
-Q . S2P
Prelude.v
Outcome.v
Ids.v
Lifecycle.v
Capacity.v
Policy.v
Wire.v
Utf8.v
Model.v
Codecs.v
State.v
Ledger.v
Changes.v
Invariants.v
Rebalance.v
PlanFabric.v
PlanGrants.v
Operations.v
Digest.v
Frames.v
WellFormed.v
Snapshot.v
Store.v
Journal.v
Compaction.v
Recovery.v
Protocol.v
Replies.v
Daemon.v
Failures.v
Applicable.v
Steps.v
Accounting.v
Fencing.v
Fit.v
Crash.v
Reload.v
Service.v
Incarnations.v
Net.v
Sockets.v
Server.v
Sessions.v
Client.v
Dialogue.v
Cli.v
Programs.v
Agent.v
Control.v
Restart.v
Blocked.v
Isfd.v
Divergences.v
