(* ===== verification/Prelude.v ===== *)
(** * Inter-Site Fabric: a verification library

    The repository implements a capacity authority for links between sites.  A
    daemon owns one [Authority] (src/authority.cpp, src/authority_plan.cpp): it
    registers sites and paths, takes attestations of what a path can carry, and
    hands out grants, leases of an amount of capacity on a path to a site.  A
    request is planned (the [plan_] functions, which only reads and returns the images of the
    records to change), made durable, and applied ([apply], which decodes the
    images and writes them into the tables).  Everything a plan changes travels
    as encoded records, so that the codecs are part of the state machine.

    ** Files and what they model

    - Prelude: byte strings, automation, iteration of finite maps in key order
      (the tables are [std::map]s, modelled as [gmap]s visited by [values]), sums.
    - Outcome: [Status], [Expected], checked and saturating 64-bit arithmetic
      (include/isf/status.hpp, checked.hpp, src/status.cpp).  Fallible code is in
      the error monad [Expected]; [fail_if b with s ;; k] is an early return.
    - Ids: 128-bit identities, their text forms, derivation from seeds,
      generations, epochs, arbitration sequences (ids.hpp, ids.cpp).
    - Lifecycle: grant, site and path states and the transition table
      (lifecycle.hpp, lifecycle.cpp).
    - Capacity, Policy: the ledger record and its closure check, basis-point
      arithmetic, the policy document (capacity.hpp/cpp, policy.hpp/cpp).
    - Wire, Utf8: the little-endian reader and writer with their limits, the
      UTF-8 validator, the [Codec] class (wire.hpp, wire.cpp).
    - Model, Codecs: the records and their encoders and decoders (model.hpp, model.cpp); every
      codec is an instance of [Codec], whose law is the round trip.
    - State, Ledger, Changes: the tables, the requests and the lookups; totals,
      ledgers and allocatable capacity; state changes, [apply] and the recovery
      marks (authority.hpp, authority.cpp).
    - Invariants: [verify_invariants] and [check_binding].
    - Rebalance, PlanFabric, PlanGrants: [rebalance_path], [append_downgrades]
      and every [plan_] operation (authority_plan.cpp).
    - Operations: the operations as one type [Op], and what a plan may do to a
      grant ([lawful], [plan_evolution]).
    - WellFormed, Applicable: well-formed states and requests; plans decode and
      apply.
    - Steps: one committed operation as a step relation, histories, and what they
      keep.
    - Accounting, Fencing, Fit: no overbooking, withdrawal and expiry,
      rebalancing.
    - Digest: CRC-32C and SHA-256 as the code streams them (digest.hpp, digest.cpp).
    - Snapshot: the snapshot of an authority, its codec and the reconstruction
      (authority.cpp).
    - Store: the durable log, its records, appending, the scan and [open]
      (store.hpp, store.cpp); what the operating system answers is an argument.
    - Journal: the log as a list of entries, which the bytes of a store represent
      ([represents]); crashes as cuts of the bytes.
    - Compaction: [compact] and the settling of its files (store.cpp).
    - Recovery: [apply_replay] (daemon.cpp) and the equivalence of authorities up
      to recovery marks.
    - Frames: the framing of payloads and the incremental [FrameDecoder]
      (protocol.hpp, protocol.cpp).
    - Protocol, Replies: message types, envelopes, the bodies of requests and of
      replies (protocol.cpp); [decode_op] reads a body as an [Op].
    - Daemon: start, stop, [commit], the dispatch of requests and the expiry tick
      (daemon.hpp, daemon.cpp).
    - Failures: no failure of a plan or a decoder carries the status Ok.
    - Crash, Reload, Service, Incarnations: a mutation across a crash, a compaction
      that cannot open its log again, the invariant of a daemon in service
      ([serves]), and recovery under another incarnation.
    - Net, Sockets: endpoints and the loops of [send_all] and [recv_some]; the
      descriptors of listeners and sockets, and who owns them (net.hpp, net.cpp).
    - Server, Sessions: accepting, the handshake, one pass of a worker's loop, the
      answers, reaping and [stop] as steps of an interleaving; what a session hands
      to the daemon (server.hpp, server.cpp).
    - Client, Dialogue: [connect], [round_trip] and the typed calls of the client;
      a client and a server turn against each other (client.hpp, client.cpp).
    - Cli: the command line, numbers, report files (apps/common/cli.hpp, cli.cpp).
    - Programs: what a program asks of the authority as a tree of calls, answers and
      reports, and the class [AuthorityService] a client's theorems rest on.
    - Agent, Control: the site agent and the control program (apps/isfsited/main.cpp,
      apps/isfctl/main.cpp).
    - Restart, Blocked: the daemon over the files it has left, and the accepted
      requests behind which no later start succeeds.
    - Isfd: the daemon program with its server, ticker, signals and shutdown
      (apps/isfd/main.cpp), from the start of the daemon on as one state machine.
    - Divergences: concrete runs in which the code leaves what its comments and
      documents promise.

    A request travels through them in this order.  A program (Control, Agent) calls
    an operation of the client; [request_for] and [encode_request] build its frame,
    and [send_all] sends it.  The server's worker takes the frame from its decoder
    ([serve_turn]), checks the sequence ([serve_request]) and hands it on
    ([dispatch]) to the daemon: [handle], [decode_op], [plan], [append_intent],
    [apply], [append_commit].  The answer goes back through [send_response] and
    [await_frame] to [accept_reply], which matches it with the request, and
    [read_report], which reads the objects it carries.

    ** What the theorems show

    - Encoding: all record codecs round trip; [apply] on encoded objects is
      exactly the installation of the objects; undecodable change sets change
      nothing.
    - Messages: every request and every reply body survives the wire; a body read
      from any bytes is a well-formed operation; the frame decoder gives the same
      payloads however the stream is cut, in bounded memory.
    - Log: appending refines the list of entries, the scan ends on every input,
      and a log cut anywhere by a crash opens with the entries written in full; a
      crash behind any call of a compaction leaves the old log or the new one.
    - Recovery: an authority rebuilt from a snapshot has the tables and the
      ledgers it had, and what is recovered of open grants is marked historical;
      a crash while a mutation is committed never frees capacity.
    - Service: a run of the daemon, its compactions included, refines a history of
      the authority; an answer Ok means applied and durable.  A run ends in service,
      or behind a commit that has failed, or behind a compaction that has lost its
      file; in each case the next start gives the authority of the history back,
      under any incarnation and whether the daemon was stopped or killed, when the
      log has room to close an open intent, the authority is in order and its policy
      does not demand verified grants.  Two accepted requests go beyond these
      conditions, and no start succeeds behind them: one that fills the log, and an
      epoch change while a proposal is open.
    - Connections: no descriptor leaks; a session hands its daemon the requests of
      its stream, once each and in order, and none before the handshake; the
      interleaved workers of a server refine one history; a client's call is the
      operation it names, and a reply is only taken for the request it answers.
    - Programs: isfctl makes the one call its command names and its exit code tells
      the outcome; the site agent reports an acknowledged grant only when it holds
      the capacity it asked for; the daemon program serves what its files kept, and
      at any time between two steps of its threads the files keep what it serves.
    - Tables: whatever is applied, records stay under their identities, a request
      belongs to one grant and the tables keep their bounds; every plan of a
      well-formed request applies.
    - Lifecycle: over any history a grant keeps its identity and follows the
      transition table, release flags mark exactly the returns of capacity, and
      epochs, generations and arbitration sequences never go back.
    - Capacity: the ledger is its closed formula and closes; [verify_invariants]
      decides [consistent]; grant operations never overbook ([budgeted] is
      inductive although [consistent] alone is not); capacity and policy changes
      withdraw until the rest fits; epoch changes and new incarnations withdraw
      without freeing capacity; the tick expires exactly what is over.

    ** The operating system and other threads

    What the operating system answers (of files, sockets, names, clocks and random
    numbers) is an argument of the operation that asks, a record of answers such as
    [CommitAnswers] or [BindAnswers]; the theorems hold for every answer except
    where a hypothesis says otherwise.  Locks serialise the operations of a daemon,
    so that each is one function of its state; threads are steps of an interleaving,
    each a turn of a loop ([server_run], [host_run]), and the theorems hold for every
    interleaving.  What other clients do between two calls of a program is any
    history of operations ([conversation]).

    ** Integers, bounds and fuel

    C++ integers are [N]; sums saturate or fail where the code's do, [wrap64] and
    [wrap32] stand where the code wraps, and [u64_ok] and [u32_ok] are the ranges
    the well-formedness predicates demand.  Recursion is structural except where
    the code consumes a buffer: the UTF-8 validator runs on the length of the text
    as fuel ([is_valid_utf8_fuel]), the scan of a log on the length of the log
    ([scan_from_ends] shows the fuel is never used up), the frame parser and the
    drain of a decoder on the length of the stream, since each turn takes at least
    a header, SHA-256 on the length of its input, and [send_all] on the bytes to
    send, since each successful call sends one ([send_loop_spec]).  The loops that wait (for the
    bytes of a frame, for the next pass of a worker, for a heartbeat) are structural
    over the answers they get, a list that may have any length.

    ** Not modelled

    - The diagnostic texts (outcome details, mutation summaries, the explanation of
      [verify_invariants]) and what the programs print; where such a text travels in
      a message it is an argument, and the record [Diagnostics] stands for those of a
      status report.  The log sink, the version text and the
      fault-injection hook of the daemon, whose stages are the crash points of Crash.
    - Instruction-level interleaving: memory orders and the mutexes themselves.
    - The Windows branches of net.cpp and store.cpp, and the example programs under
      src/examples, which only call the library. *)

From Stdlib Require Export NArith Lia.
From Stdlib Require Import Strings.Byte.
From stdpp Require Export base tactics numbers option list sorting gmap strings.

Declare Scope isf_scope.
Delimit Scope isf_scope with isf.
Global Open Scope N_scope.
Global Open Scope isf_scope.

(** ** Byte strings

    [std::string], [std::vector<Byte>] and [ByteSpan] are all sequences of
    bytes; they share the type [bytes].  [str "..."] is a string literal. *)

Abbreviation bytes := (list Byte.byte).
Definition str (s : string) : bytes := String.list_byte_of_string s.
Definition blen {A : Type} (l : list A) : N := N.of_nat (length l).

#[export] Instance byte_eq_dec : EqDecision Byte.byte := Byte.byte_eq_dec.

(** ** Automation *)

Create HintDb isf.
Create Rewrite HintDb isf.

(** Case analysis on every [match] and [if] of the hypothesis [H], dropping
    the branches that contradict it. *)
Ltac break_in H :=
  repeat (match type of H with
          | context [match ?x with _ => _ end] => destruct x eqn:?
          end; try discriminate H);
  simplify_eq.

(** One [match] or [if] of the goal at a time. *)
Ltac break_goal :=
  match goal with
  | |- context [match ?x with _ => _ end] => destruct x eqn:?
  end.

(** Turns boolean comparisons on [N] in the context into propositions. *)
Ltac to_prop :=
  repeat match goal with
  | H : (_ <? _) = true |- _ => apply N.ltb_lt in H
  | H : (_ <? _) = false |- _ => apply N.ltb_ge in H
  | H : (_ <=? _) = true |- _ => apply N.leb_le in H
  | H : (_ <=? _) = false |- _ => apply N.leb_gt in H
  | H : (_ =? _) = true |- _ => apply N.eqb_eq in H
  | H : (_ =? _) = false |- _ => apply N.eqb_neq in H
  | H : (_ && _)%bool = true |- _ => apply andb_prop in H as [? ?]
  | H : (_ || _)%bool = false |- _ => apply orb_false_elim in H as [? ?]
  | H : negb _ = true |- _ => apply negb_true_iff in H
  | H : negb _ = false |- _ => apply negb_false_iff in H
  | H : bool_decide _ = true |- _ => apply bool_decide_eq_true in H
  | H : bool_decide _ = false |- _ => apply bool_decide_eq_false in H
  end.

(** ** Ordered iteration over finite maps

    The code keeps its tables in [std::map], whose iteration visits the keys
    in ascending order.  A table is modelled as a [gmap]; [entries] is its
    iteration order. *)

Class KeyOrder (K : Type) := {
  key_le : relation K;
  key_le_dec :: RelDecision key_le;
  key_le_total :: Total key_le;
  key_le_trans :: Transitive key_le;
  key_le_antisym :: AntiSymm eq key_le;
}.

Section Entries.
Context {K V : Type} `{Countable K} `{!KeyOrder K}.

Definition entry_le (a b : K * V) : Prop := key_le a.1 b.1.

#[export] Instance entry_le_dec : RelDecision entry_le.
Proof. intros a b. unfold entry_le. apply _. Defined.

Definition entries (m : gmap K V) : list (K * V) :=
  merge_sort entry_le (map_to_list m).

(** The values in iteration order. *)
Definition values (m : gmap K V) : list V := (entries m).*2.

#[export] Instance entry_le_total : Total entry_le.
Proof. intros a b. unfold entry_le. apply total, _. Qed.

#[export] Instance entry_le_trans : Transitive entry_le.
Proof. intros a b c. unfold entry_le. apply transitivity. Qed.

Lemma entries_perm (m : gmap K V) : entries m ≡ₚ map_to_list m.
Proof. apply merge_sort_Permutation. Qed.

Lemma elem_of_entries (m : gmap K V) k v : (k, v) ∈ entries m <-> m !! k = Some v.
Proof. rewrite entries_perm. apply elem_of_map_to_list. Qed.

Lemma elem_of_values (m : gmap K V) v :
  v ∈ values m <-> exists k, m !! k = Some v.
Proof.
  unfold values. rewrite list_elem_of_fmap. split.
  - intros [[k v'] [-> Hin]]. exists k. by apply elem_of_entries.
  - intros [k Hk]. exists (k, v). split; [done|]. by apply elem_of_entries.
Qed.

Lemma length_values (m : gmap K V) : length (values m) = size m.
Proof. unfold values. rewrite length_fmap, entries_perm. apply length_map_to_list. Qed.

Lemma entries_sorted (m : gmap K V) : StronglySorted entry_le (entries m).
Proof. apply StronglySorted_merge_sort; apply _. Qed.

Lemma NoDup_entries (m : gmap K V) : NoDup (entries m).*1.
Proof. rewrite entries_perm. apply NoDup_fst_map_to_list. Qed.

(** The values of a table whose records are stored under their own identity. *)
Lemma keyed_values (id_of : V -> K) (m : gmap K V) :
  (forall k x, m !! k = Some x -> id_of x = k) -> NoDup (id_of <$> values m).
Proof.
  intros Hk. unfold values.
  assert (id_of <$> (entries m).*2 = (entries m).*1) as ->; [|apply NoDup_entries].
  rewrite <-list_fmap_compose. apply list_fmap_ext. intros i [k x] Hi. cbn.
  apply Hk, elem_of_entries. by eapply list_elem_of_lookup_2.
Qed.
End Entries.

#[export] Hint Rewrite @elem_of_entries @elem_of_values using apply _ : isf.

(** ** Sums over lists and maps *)

Definition sumN {A : Type} (f : A -> N) (l : list A) : N :=
  foldr (fun a n => f a + n) 0 l.

Lemma sumN_app {A} (f : A -> N) l k : sumN f (l ++ k) = sumN f l + sumN f k.
Proof. unfold sumN. induction l; cbn in *; lia. Qed.

Lemma sumN_snoc {A} (f : A -> N) l x : sumN f (l ++ [x]) = sumN f l + f x.
Proof. rewrite sumN_app. unfold sumN. cbn. lia. Qed.

#[export] Instance sumN_perm {A} (f : A -> N) : Proper ((≡ₚ) ==> eq) (sumN f).
Proof. intros l l' Hl. unfold sumN. induction Hl; simpl in *; lia. Qed.

Lemma sumN_fmap {A B} (g : A -> B) (f : B -> N) l : sumN f (g <$> l) = sumN (f ∘ g) l.
Proof. unfold sumN. induction l as [|x l IH]; [done|]. csimpl. by rewrite IH. Qed.

Lemma sumN_ext {A} (f g : A -> N) l :
  (forall x, x ∈ l -> f x = g x) -> sumN f l = sumN g l.
Proof.
  unfold sumN. induction l as [|x l IH]; simpl; intros Hfg; [done|].
  rewrite Hfg by constructor. f_equal. apply IH. intros y Hy. apply Hfg. by constructor.
Qed.

Lemma sumN_le {A} (f g : A -> N) l :
  (forall x, x ∈ l -> f x <= g x) -> sumN f l <= sumN g l.
Proof.
  unfold sumN. induction l as [|x l IH]; simpl; intros Hfg; [done|].
  apply N.add_le_mono; [apply Hfg; constructor|].
  apply IH. intros y Hy. apply Hfg. by constructor.
Qed.

Lemma sumN_add {A} (f g : A -> N) l : sumN f l + sumN g l = sumN (fun x => f x + g x) l.
Proof. unfold sumN. induction l as [|x l IH]; simpl in *; lia. Qed.

Section MapSum.
Context {K V : Type} `{Countable K} `{!KeyOrder K}.

(** The sum of [f] over the values of a table. *)
Definition map_sum (f : V -> N) (m : gmap K V) : N := sumN f (values m).

Lemma map_sum_to_list (f : V -> N) (m : gmap K V) :
  map_sum f m = sumN (f ∘ snd) (map_to_list m).
Proof. unfold map_sum, values. by rewrite sumN_fmap, entries_perm. Qed.

Lemma map_sum_fmap (g : V -> V) (f : V -> N) (m : gmap K V) :
  map_sum f (g <$> m) = map_sum (f ∘ g) m.
Proof. rewrite !map_sum_to_list, map_to_list_fmap, sumN_fmap. by apply sumN_ext. Qed.

Lemma map_sum_insert_new (f : V -> N) (m : gmap K V) k v :
  m !! k = None -> map_sum f (<[k:=v]> m) = f v + map_sum f m.
Proof.
  intros Hk. rewrite !map_sum_to_list, map_to_list_insert by done. done.
Qed.

Lemma map_sum_lookup (f : V -> N) (m : gmap K V) k v :
  m !! k = Some v -> map_sum f m = f v + map_sum f (delete k m).
Proof.
  intros Hk. rewrite <-(insert_delete_id m k v) at 1 by done.
  apply map_sum_insert_new, lookup_delete_eq.
Qed.

Lemma map_sum_insert_upd (f : V -> N) (m : gmap K V) k old v :
  m !! k = Some old -> map_sum f (<[k:=v]> m) + f old = f v + map_sum f m.
Proof.
  intros Hk. rewrite <-insert_delete_eq.
  rewrite map_sum_insert_new by apply lookup_delete_eq.
  rewrite (map_sum_lookup f m k old) by done. lia.
Qed.

Lemma map_sum_lookup_le (f : V -> N) (m : gmap K V) k v :
  m !! k = Some v -> f v <= map_sum f m.
Proof. intros Hk. rewrite (map_sum_lookup f m k v) by done. lia. Qed.
End MapSum.
