(* ===== verification/Outcome.v ===== *)
(** * Typed outcomes (include/isf/status.hpp, src/status.cpp, include/isf/checked.hpp)

    [Status] is the closed list of outcomes, [Expected] a value or a failing
    status.  The diagnostic text that [Outcome] carries is not modelled: the
    code states that program logic branches on the status only.  The checked
    arithmetic on 64-bit amounts is here too. *)

From S2P Require Import Prelude.

Module Status.
Inductive t :=
  | Ok | Unknown | Unsupported | Stale | Conflicting | Incomplete
  | Indeterminate | Refused | Cancelled | Invalid | NotFound | Duplicate
  | Exhausted | Denied | LimitExceeded | InvalidTransition | Corrupt
  | VersionMismatch | Unauthorized | Busy | Expired | Fenced | Unavailable
  | Ambiguous.

#[export] Instance t_eq_dec : EqDecision t.
Proof. solve_decision. Defined.

(** The enumerator values, in declaration order from 0. *)
Definition all : list t :=
  [Ok; Unknown; Unsupported; Stale; Conflicting; Incomplete; Indeterminate;
 Refused; Cancelled; Invalid; NotFound; Duplicate; Exhausted; Denied;
 LimitExceeded; InvalidTransition; Corrupt; VersionMismatch; Unauthorized;
 Busy; Expired; Fenced; Unavailable; Ambiguous].
End Status.
Export (hints) Status.
Abbreviation Status := Status.t.

(** [kStatusNames]: the table both name functions scan. *)
Definition kStatusNames : list (Status * bytes) :=
  [(Status.Ok, str "OK"); (Status.Unknown, str "UNKNOWN");
   (Status.Unsupported, str "UNSUPPORTED"); (Status.Stale, str "STALE");
   (Status.Conflicting, str "CONFLICTING"); (Status.Incomplete, str "INCOMPLETE");
   (Status.Indeterminate, str "INDETERMINATE"); (Status.Refused, str "REFUSED");
   (Status.Cancelled, str "CANCELLED"); (Status.Invalid, str "INVALID");
   (Status.NotFound, str "NOT_FOUND"); (Status.Duplicate, str "DUPLICATE");
   (Status.Exhausted, str "EXHAUSTED"); (Status.Denied, str "DENIED");
   (Status.LimitExceeded, str "LIMIT_EXCEEDED");
   (Status.InvalidTransition, str "INVALID_TRANSITION");
   (Status.Corrupt, str "CORRUPT"); (Status.VersionMismatch, str "VERSION_MISMATCH");
   (Status.Unauthorized, str "UNAUTHORIZED"); (Status.Busy, str "BUSY");
   (Status.Expired, str "EXPIRED"); (Status.Fenced, str "FENCED");
   (Status.Unavailable, str "UNAVAILABLE"); (Status.Ambiguous, str "AMBIGUOUS")].

(** Linear scan of a table; the loops of [status_name] and [status_from_name]. *)
Fixpoint find_entry {A} (p : A -> bool) (l : list A) : option A :=
  match l with
  | [] => None
  | x :: l => if p x then Some x else find_entry p l
  end.

Definition status_name (s : Status) : bytes :=
  match find_entry (fun e => bool_decide (e.1 = s)) kStatusNames with
  | Some e => e.2
  | None => str "INVALID"
  end.

(** The status, and the [recognized] out-parameter. *)
Definition status_from_name (name : bytes) : Status * bool :=
  match find_entry (fun e => bool_decide (name = e.2)) kStatusNames with
  | Some e => (e.1, true)
  | None => (Status.Invalid, false)
  end.

Definition is_ok (s : Status) : bool := bool_decide (s = Status.Ok).

Definition is_refusal (s : Status) : bool :=
  match s with
  | Status.Refused | Status.Denied | Status.Exhausted | Status.LimitExceeded => true
  | _ => false
  end.

Definition is_indeterminate (s : Status) : bool :=
  match s with
  | Status.Unknown | Status.Incomplete | Status.Indeterminate | Status.Conflicting
  | Status.Ambiguous | Status.Unavailable => true
  | _ => false
  end.

(** [Expected<T>]: a value, or the failing status of its [Outcome]. *)
Inductive Expected (A : Type) :=
| Ok (a : A)
| Fail (s : Status).
Arguments Ok {A} _.
Arguments Fail {A} _.

Definition expected_ok {A} (e : Expected A) : bool :=
  match e with Ok _ => true | Fail _ => false end.

Definition expected_status {A} (e : Expected A) : Status :=
  match e with Ok _ => Status.Ok | Fail s => s end.

Definition value_or {A} (e : Expected A) (fallback : A) : A :=
  match e with Ok a => a | Fail _ => fallback end.

(** [if (!x.ok()) return x.status();] is the bind of this monad. *)
#[export] Instance expected_ret : MRet Expected := fun A a => Ok a.
#[export] Instance expected_bind : MBind Expected := fun A B f e =>
  match e with Ok a => f a | Fail s => Fail s end.

(** [if (c) return s;] *)
Definition guard_fail {A} (c : bool) (s : Status) (k : Expected A) : Expected A :=
  if c then Fail s else k.
Notation "'fail_if' c 'with' s ;; k" := (guard_fail c s k)
  (at level 100, c at next level, s at next level, k at level 200, right associativity) : isf_scope.

(** ** Checked arithmetic *)

Abbreviation Amount := N.
Definition kAmountMax : Amount := 2 ^ 64 - 1.

(** Values that fit a 64-bit and a 32-bit unsigned integer. *)
Definition u64_ok (n : N) : Prop := n < 2 ^ 64.
Definition u32_ok (n : N) : Prop := n < 2 ^ 32.

Definition checked_add (a b : Amount) : Expected Amount :=
  fail_if kAmountMax - b <? a with Status.LimitExceeded ;;
  Ok (a + b).

Definition checked_sub (a b : Amount) : Expected Amount :=
  fail_if a <? b with Status.Invalid ;;
  Ok (a - b).

Definition checked_mul (a b : Amount) : Expected Amount :=
  if (a =? 0) || (b =? 0) then Ok 0
  else fail_if kAmountMax / b <? a with Status.LimitExceeded ;;
  Ok (a * b).

Definition saturating_add (a b : Amount) : Amount :=
  if kAmountMax - b <? a then kAmountMax else a + b.

Definition narrow_u32 (value : N) : Expected N :=
  fail_if 2 ^ 32 - 1 <? value with Status.LimitExceeded ;;
  Ok value.

(** ** Lemmas *)

Lemma expected_bind_ok {A B} (f : A -> Expected B) e b :
  (e ≫= f) = Ok b <-> exists a, e = Ok a /\ f a = Ok b.
Proof.
  destruct e as [a|s]; cbn; split; [by eauto|by intros (a' & [= ->] & ?)|done|by intros (a' & ? & ?)].
Qed.

Lemma guard_fail_ok {A} c s (k : Expected A) a :
  guard_fail c s k = Ok a <-> c = false /\ k = Ok a.
Proof. unfold guard_fail. destruct c; split; [done|by intros [? ?]|done|by intros [? ?]]. Qed.

Lemma guard_fail_false {A} c s (k : Expected A) : c = false -> guard_fail c s k = k.
Proof. by intros ->. Qed.

#[export] Hint Rewrite @expected_bind_ok @guard_fail_ok : isf.

Lemma checked_add_spec a b :
  u64_ok b ->
  checked_add a b = if decide (a + b <= kAmountMax) then Ok (a + b) else Fail Status.LimitExceeded.
Proof.
  unfold checked_add, guard_fail, u64_ok, kAmountMax. intros Hb.
  destruct (N.ltb_spec (2 ^ 64 - 1 - b) a); case_decide; done || lia.
Qed.

Lemma checked_add_Ok a b c : checked_add a b = Ok c -> c = a + b.
Proof. unfold checked_add, guard_fail. intros H. by break_in H. Qed.

Lemma checked_add_bound a b c : u64_ok b -> checked_add a b = Ok c -> c = a + b /\ u64_ok c.
Proof.
  intros Hb. rewrite checked_add_spec by done. unfold u64_ok, kAmountMax in *.
  case_decide; intros [= <-]; lia.
Qed.

Lemma checked_add_intro a b : a + b <= kAmountMax -> checked_add a b = Ok (a + b).
Proof.
  unfold checked_add, guard_fail, kAmountMax. intros Hab.
  destruct (N.ltb_spec (2 ^ 64 - 1 - b) a); [lia|done].
Qed.

Lemma checked_mul_spec a b :
  checked_mul a b = if decide (a * b <= kAmountMax) then Ok (a * b) else Fail Status.LimitExceeded.
Proof.
  unfold checked_mul, guard_fail.
  destruct (N.eqb_spec a 0) as [->|Ha]; cbn [orb].
  { rewrite N.mul_0_l. case_decide; [done|lia]. }
  destruct (N.eqb_spec b 0) as [->|Hb]; cbn [orb].
  { rewrite N.mul_0_r. case_decide; [done|lia]. }
  assert (kAmountMax / b < a <-> kAmountMax < a * b) as Hiff.
  { rewrite (N.mul_comm a b). split; intros Hlt.
    - pose proof (N.mul_succ_div_gt kAmountMax b Hb). nia.
    - apply N.Div0.div_lt_upper_bound; lia. }
  destruct (N.ltb_spec (kAmountMax / b) a); case_decide; done || lia.
Qed.

Lemma saturating_add_spec a b :
  u64_ok a -> u64_ok b -> saturating_add a b = N.min kAmountMax (a + b).
Proof.
  unfold saturating_add, u64_ok, kAmountMax. intros Ha Hb.
  destruct (N.ltb_spec (2 ^ 64 - 1 - b) a); lia.
Qed.

Lemma saturating_add_u64 a b : u64_ok a -> u64_ok b -> u64_ok (saturating_add a b).
Proof. intros Ha Hb. rewrite saturating_add_spec by done. unfold u64_ok, kAmountMax. lia. Qed.

#[export] Hint Resolve saturating_add_u64 : isf.

(** The saturating sum of a list of amounts, accumulated from the left as the
    loops of the code do, is the exact sum capped at the 64-bit maximum. *)
Definition sat_sum (l : list Amount) : Amount := foldl saturating_add 0 l.

Lemma foldl_saturating_add acc l :
  u64_ok acc -> Forall u64_ok l ->
  foldl saturating_add acc l = N.min kAmountMax (acc + sumN id l).
Proof.
  intros Hacc Hl. revert acc Hacc.
  induction Hl as [|x l Hx Hl IH]; intros acc Hacc; cbn [foldl].
  - unfold sumN, u64_ok, kAmountMax in *. cbn. lia.
  - rewrite IH by auto with isf. rewrite saturating_add_spec by done.
    change (sumN id (x :: l)) with (x + sumN id l). lia.
Qed.

Lemma status_name_roundtrip s : status_from_name (status_name s) = (s, true).
Proof. by destruct s. Qed.
