(* ===== verification/Ids.v ===== *)
(** * Identities (include/isf/ids.hpp, src/ids.cpp)

    128-bit identities, the phantom-typed [TypedId], the monotonic counters
    [Generation], [Epoch] and [ArbSeq], the canonical text forms and their
    parser, and the deterministic SplitMix64 construction. *)

From Stdlib Require Import Strings.Byte.
From S2P Require Import Prelude Outcome.

(** Truncation to an unsigned 64-bit integer. *)
Definition wrap64 (n : N) : N := n mod 2 ^ 64.

(** Truncation to an unsigned 32-bit integer. *)
Definition wrap32 (n : N) : N := n mod 2 ^ 32.

Lemma wrap64_u64 x : u64_ok (wrap64 x).
Proof. unfold u64_ok, wrap64. by apply N.mod_lt. Qed.

(** ** The identity value *)

Record Id128 := mkId128 { hi : N; lo : N }.

#[export] Instance Id128_eq_dec : EqDecision Id128.
Proof. solve_decision. Defined.

#[export] Instance Id128_countable : Countable Id128.
Proof.
  refine (inj_countable' (fun i => (hi i, lo i)) (fun p => mkId128 p.1 p.2) _).
  by intros [].
Defined.

(** [operator<=>] on [Id128]: lexicographic on [hi], [lo]. *)
Definition id_le (a b : Id128) : Prop := hi a < hi b \/ hi a = hi b /\ lo a <= lo b.
Definition id_ltb (a b : Id128) : bool :=
  (hi a <? hi b) || ((hi a =? hi b) && (lo a <? lo b)).

#[export] Instance id_le_dec : RelDecision id_le.
Proof. intros a b. unfold id_le. apply _. Defined.

#[export] Program Instance id_key_order : KeyOrder Id128 := {| key_le := id_le |}.
Next Obligation. intros [] []. unfold id_le. cbn. lia. Qed.
Next Obligation. intros [] [] []. unfold id_le. cbn. lia. Qed.
Next Obligation. intros [] []. unfold id_le. cbn. intros. f_equal; lia. Qed.

Definition nil_id : Id128 := mkId128 0 0.
Definition is_nil (i : Id128) : bool := (hi i =? 0) && (lo i =? 0).

Definition id_wf (i : Id128) : Prop := u64_ok (hi i) /\ u64_ok (lo i).

(** ** Text forms *)

Definition kHexDigits : bytes := str "0123456789abcdef".

(** Digit [i] of the first 16 is bits [(15 - i) * 4 ..] of [x]. *)
Definition hex_digit_values (k : nat) (x : N) : list N :=
  (fun i => N.land (N.shiftr x (N.of_nat (k - 1 - i) * 4)) 15) <$> seq 0 k.

Definition hex_char (d : N) : Byte.byte := default x30 (kHexDigits !! N.to_nat d).

Definition to_hex (i : Id128) : bytes :=
  (hex_char <$> hex_digit_values 16 (hi i)) ++ (hex_char <$> hex_digit_values 16 (lo i)).

(** [std::string::append(s, pos, n)] appends this slice of [s]. *)
Definition slice (pos n : nat) (s : bytes) : bytes := take n (drop pos s).

Definition to_canonical (i : Id128) : bytes :=
  let flat := to_hex i in
  slice 0 8 flat ++ str "-" ++ slice 8 4 flat ++ str "-" ++ slice 12 4 flat ++
  str "-" ++ slice 16 4 flat ++ str "-" ++ slice 20 12 flat.

Definition hex_value (c : Byte.byte) : option N :=
  let c := Byte.to_N c in
  if (48 <=? c) && (c <=? 57) then Some (c - 48)
  else if (97 <=? c) && (c <=? 102) then Some (10 + (c - 97))
  else if (65 <=? c) && (c <=? 70) then Some (10 + (c - 65))
  else None.

(** [target = (target << 4) | v] *)
Definition push_nibble (target v : N) : N := N.lor (wrap64 (N.shiftl target 4)) v.

(** The digit loop of [Id128::parse]; [i] is the loop counter. *)
Fixpoint parse_digits (i : nat) (l : bytes) (out : Id128) : Expected Id128 :=
  match l with
  | [] => Ok out
  | c :: l =>
      match hex_value c with
      | None => Fail Status.Invalid
      | Some v =>
          parse_digits (S i) l
            (if (i <? 16)%nat then mkId128 (push_nibble (hi out) v) (lo out)
             else mkId128 (hi out) (push_nibble (lo out) v))
      end
  end.

Definition parse_id (text : bytes) : Expected Id128 :=
  let compact := filter (fun c => c <> x2d) text in
  fail_if negb (blen compact =? 32) with Status.Invalid ;;
  parse_digits 0 compact nil_id.

(** ** Deterministic construction *)

(** One SplitMix64 step: the new state and the output. *)
Definition splitmix64 (state : N) : N * N :=
  let state := wrap64 (state + 0x9E3779B97F4A7C15) in
  let z := wrap64 (N.lxor state (N.shiftr state 30) * 0xBF58476D1CE4E5B9) in
  let z := wrap64 (N.lxor z (N.shiftr z 27) * 0x94D049BB133111EB) in
  (state, N.lxor z (N.shiftr z 31)).

Definition from_seed128 (a b : N) : Id128 :=
  let state := N.lxor a (wrap64 (b * 0xD6E8FEB86659FD93)) in
  let '(state, h) := splitmix64 state in
  let '(state, l) := splitmix64 state in
  let out := mkId128 h l in
  if is_nil out then mkId128 (hi out) 1 else out.

Definition id_hash (i : Id128) : N :=
  let x := N.lxor (hi i)
    (wrap64 (lo i + 0x9E3779B97F4A7C15 + wrap64 (N.shiftl (hi i) 6) + N.shiftr (hi i) 2)) in
  let x := N.lxor x (N.shiftr x 33) in
  let x := wrap64 (x * 0xFF51AFD7ED558CCD) in
  N.lxor x (N.shiftr x 33).

(** ** Typed identities *)

Inductive IdTag :=
| SiteIdTag | PathIdTag | EdgeIdTag | GrantIdTag | LeaseIdTag | RequestIdTag
| SessionIdTag | DomainIdTag | PrincipalIdTag | IncarnationTag | PolicyIdTag
| StoreIdTag | VerificationIdTag | OversubscriptionIdTag | AttestationIdTag
| AttemptIdTag.

Definition prefix (t : IdTag) : bytes :=
  match t with
  | SiteIdTag => str "site" | PathIdTag => str "path" | EdgeIdTag => str "edge"
  | GrantIdTag => str "grant" | LeaseIdTag => str "lease" | RequestIdTag => str "req"
  | SessionIdTag => str "sess" | DomainIdTag => str "srd"
  | PrincipalIdTag => str "principal" | IncarnationTag => str "inc"
  | PolicyIdTag => str "policy" | StoreIdTag => str "store"
  | VerificationIdTag => str "verify" | OversubscriptionIdTag => str "oversub"
  | AttestationIdTag => str "attest" | AttemptIdTag => str "attempt"
  end.

(** The tag is a phantom parameter: identities of different tags have
    different types, as the instantiations of the template have. *)
Record TypedId (tag : IdTag) := from_raw { raw : Id128 }.
Arguments from_raw {tag} _.
Arguments raw {tag} _.

#[export] Instance TypedId_eq_dec tag : EqDecision (TypedId tag).
Proof. solve_decision. Defined.

Definition id_eqb {tag} (a b : TypedId tag) : bool := bool_decide (a = b).
Definition tid_nil {tag} : TypedId tag := from_raw nil_id.
Definition tid_is_nil {tag} (i : TypedId tag) : bool := is_nil (raw i).
Definition tid_wf {tag} (i : TypedId tag) : Prop := id_wf (raw i).
Definition from_seed {tag} (a b : N) : TypedId tag := from_raw (from_seed128 a b).

Definition tid_to_string {tag} (i : TypedId tag) : bytes :=
  prefix tag ++ str ":" ++ to_canonical (raw i).

Definition strip_prefix (tag : IdTag) (text : bytes) : bytes :=
  let pfx := prefix tag in
  if (blen pfx + 1 <? blen text) && bool_decide (take (length pfx) text = pfx) &&
     bool_decide (text !! length pfx = Some x3a)
  then drop (length pfx + 1) text
  else text.

Definition parse_typed (tag : IdTag) (text : bytes) : Expected (TypedId tag) :=
  parsed ← parse_id (strip_prefix tag text);
  Ok (from_raw parsed).

Abbreviation SiteId := (TypedId SiteIdTag).
Abbreviation PathId := (TypedId PathIdTag).
Abbreviation EdgeId := (TypedId EdgeIdTag).
Abbreviation GrantId := (TypedId GrantIdTag).
Abbreviation LeaseId := (TypedId LeaseIdTag).
Abbreviation RequestId := (TypedId RequestIdTag).
Abbreviation DomainId := (TypedId DomainIdTag).
Abbreviation PrincipalId := (TypedId PrincipalIdTag).
Abbreviation Incarnation := (TypedId IncarnationTag).
Abbreviation PolicyId := (TypedId PolicyIdTag).
Abbreviation StoreId := (TypedId StoreIdTag).
Abbreviation SessionId := (TypedId SessionIdTag).
Abbreviation VerificationId := (TypedId VerificationIdTag).
Abbreviation OversubscriptionId := (TypedId OversubscriptionIdTag).
Abbreviation AttestationId := (TypedId AttestationIdTag).

(** ** Monotonic counters *)

Record Generation := mkGeneration { gen_value : N }.
Record Epoch := mkEpoch { epoch_value : N }.
Record ArbSeq := mkArbSeq { arb_value : N }.

#[export] Instance Generation_eq_dec : EqDecision Generation.
Proof. solve_decision. Defined.
#[export] Instance Epoch_eq_dec : EqDecision Epoch.
Proof. solve_decision. Defined.
#[export] Instance ArbSeq_eq_dec : EqDecision ArbSeq.
Proof. solve_decision. Defined.

Definition gen_eqb (a b : Generation) : bool := gen_value a =? gen_value b.
Definition gen_is_nil (g : Generation) : bool := gen_value g =? 0.
Definition gen_next (g : Generation) : Generation := mkGeneration (wrap64 (gen_value g + 1)).

(** [std::to_string] of an unsigned integer: its decimal digits. *)
Definition to_decimal (n : N) : bytes := String.list_byte_of_string (pretty.pretty n).

(** ** Lemmas *)

Lemma tid_is_nil_spec {tag} (i : TypedId tag) : tid_is_nil i = true <-> i = tid_nil.
Proof.
  destruct i as [[h l]]. unfold tid_is_nil, is_nil, tid_nil, nil_id. cbn.
  rewrite andb_true_iff, !N.eqb_eq. split; [by intros [-> ->]|by intros [= -> ->]].
Qed.

Lemma gen_eqb_spec a b : gen_eqb a b = true <-> a = b.
Proof.
  destruct a, b. unfold gen_eqb. cbn. rewrite N.eqb_eq.
  split; [by intros ->|by intros [= ->]].
Qed.

Lemma id_eqb_spec {tag} (a b : TypedId tag) : id_eqb a b = true <-> a = b.
Proof. apply bool_decide_eq_true. Qed.

Lemma id_ltb_spec a b : id_ltb a b = true <-> id_le a b /\ a <> b.
Proof.
  destruct a as [ha la], b as [hb lb]. unfold id_ltb, id_le. cbn.
  rewrite orb_true_iff, andb_true_iff, !N.ltb_lt, N.eqb_eq. split.
  - intros Hlt. split; [lia|]. intros [= -> ->]. lia.
  - intros [Hle Hne]. assert (~ (ha = hb /\ la = lb)) by (intros [-> ->]; done). lia.
Qed.

Lemma from_seed128_not_nil a b : is_nil (from_seed128 a b) = false.
Proof.
  unfold from_seed128. repeat destruct (splitmix64 _).
  destruct (is_nil (mkId128 _ _)) eqn:E; [|done].
  unfold is_nil. cbn. apply andb_false_r.
Qed.

Lemma hex_value_char d : d < 16 -> hex_value (hex_char d) = Some d.
Proof.
  intros Hd. rewrite <-(N2Nat.id d). assert (N.to_nat d < 16)%nat as Hk by lia.
  generalize dependent (N.to_nat d). clear. intros k Hk.
  do 16 (destruct k; [reflexivity|]). lia.
Qed.

Lemma hex_digit_values_S k x :
  hex_digit_values (S k) x = N.land (N.shiftr x (N.of_nat k * 4)) 15 :: hex_digit_values k x.
Proof.
  unfold hex_digit_values. cbn [seq]. rewrite fmap_cons. f_equal.
  - replace (S k - 1 - 0)%nat with k by lia. done.
  - rewrite <-fmap_S_seq, <-list_fmap_compose. apply list_fmap_ext. intros i j _. cbn.
    by replace (k - 0 - S j)%nat with (k - 1 - j)%nat by lia.
Qed.

Lemma hex_digit_values_lt k x : Forall (fun d => d < 16) (hex_digit_values k x).
Proof.
  unfold hex_digit_values. apply Forall_fmap, Forall_forall. intros i _. cbn.
  change 15 with (N.ones 4). rewrite N.land_ones. by apply N.mod_lt.
Qed.

Lemma length_hex_digit_values k x : length (hex_digit_values k x) = k.
Proof. unfold hex_digit_values. by rewrite length_fmap, length_seq. Qed.

Lemma push_nibble_spec t v : v < 16 -> push_nibble t v = wrap64 (t * 16) + v.
Proof.
  intros Hv. unfold push_nibble, wrap64. rewrite N.shiftl_mul_pow2.
  change (2 ^ 4) with 16. change (2 ^ 64) with (2 ^ 60 * 16).
  rewrite N.Div0.mul_mod_distr_r. set (q := t mod 2 ^ 60).
  replace (q * 16) with (N.shiftl q 4) by by rewrite N.shiftl_mul_pow2.
  apply N.bits_inj. intros i.
  rewrite N.lor_spec. destruct (N.lt_ge_cases i 4) as [Hi|Hi].
  - rewrite N.shiftl_spec_low by done. cbn [orb].
    rewrite <-(N.mod_pow2_bits_low (N.shiftl q 4 + v) 4 i) by done.
    rewrite N.shiftl_mul_pow2, N.add_comm. change (2 ^ 4) with 16.
    rewrite N.Div0.mod_add. by rewrite N.mod_small.
  - rewrite N.shiftl_spec_high' by done.
    replace (N.testbit v i) with false; cycle 1.
    { symmetry. destruct (N.eq_dec v 0) as [->|Hv0]; [apply N.bits_0|].
      apply N.bits_above_log2. apply N.log2_lt_pow2; [lia|].
      apply N.lt_le_trans with (2 ^ 4); [done|]. apply N.pow_le_mono_r; lia. }
    rewrite orb_false_r.
    replace i with (i - 4 + 4) at 2 by lia. rewrite <-N.div_pow2_bits.
    rewrite N.shiftl_mul_pow2, N.div_add_l by done. change (2 ^ 4) with 16.
    rewrite N.div_small by done. by rewrite N.add_0_r.
Qed.

(** Sixteen pushed digits rebuild the low 64 bits. *)
Lemma foldl_push_nibble k t x :
  (k <= 16)%nat -> t < 16 ^ N.of_nat (16 - k) ->
  foldl push_nibble t (hex_digit_values k x) =
  t * 16 ^ N.of_nat k + x mod 16 ^ N.of_nat k.
Proof.
  revert t. induction k as [|k IH]; intros t Hk Ht.
  { cbn. rewrite N.mod_1_r. lia. }
  rewrite hex_digit_values_S. cbn [foldl].
  set (d := N.land (N.shiftr x (N.of_nat k * 4)) 15).
  assert (d = (x / 16 ^ N.of_nat k) mod 16) as Hd.
  { unfold d. change 15 with (N.ones 4). rewrite N.land_ones, N.shiftr_div_pow2.
    by rewrite (N.mul_comm _ 4), N.pow_mul_r. }
  assert (d < 16) as Hd16 by (rewrite Hd; by apply N.mod_lt).
  assert (t * 16 < 2 ^ 64) as Ht64.
  { apply N.lt_le_trans with (16 ^ N.of_nat (16 - S k) * 16); [lia|].
    replace (16 ^ N.of_nat (16 - S k) * 16) with (16 ^ N.of_nat (16 - k)).
    - change (2 ^ 64) with (16 ^ 16). apply N.pow_le_mono_r; lia.
    - replace (16 - k)%nat with (S (16 - S k)) by lia. rewrite Nat2N.inj_succ, N.pow_succ_r'. lia. }
  rewrite push_nibble_spec by done. unfold wrap64. rewrite N.mod_small by done.
  rewrite IH; [|lia|]; cycle 1.
  { replace (16 - k)%nat with (S (16 - S k)) by lia. rewrite Nat2N.inj_succ, N.pow_succ_r'. lia. }
  rewrite Nat2N.inj_succ, N.pow_succ_r', (N.mul_comm 16 (16 ^ _)).
  rewrite N.Div0.mod_mul_r, <-Hd. lia.
Qed.

Lemma parse_digits_app i l k out :
  parse_digits i (l ++ k) out =
  (out' ← parse_digits i l out; parse_digits (i + length l) k out').
Proof.
  revert i out. induction l as [|c l IH]; intros i out; cbn.
  { by rewrite Nat.add_0_r. }
  destruct (hex_value c); [|done]. rewrite IH. by rewrite <-Nat.add_succ_comm.
Qed.

Lemma parse_digits_hi i ds out :
  Forall (fun d => d < 16) ds -> (i + length ds <= 16)%nat ->
  parse_digits i (hex_char <$> ds) out = Ok (mkId128 (foldl push_nibble (hi out) ds) (lo out)).
Proof.
  intros Hds. revert i out. induction Hds as [|d ds Hd Hds IH]; intros i out Hi; [by destruct out|].
  rewrite fmap_cons. cbn [parse_digits foldl length] in *.
  rewrite hex_value_char by done.
  rewrite (proj2 (Nat.ltb_lt i 16)) by lia. rewrite IH by lia. done.
Qed.

Lemma parse_digits_lo i ds out :
  Forall (fun d => d < 16) ds -> (16 <= i)%nat ->
  parse_digits i (hex_char <$> ds) out = Ok (mkId128 (hi out) (foldl push_nibble (lo out) ds)).
Proof.
  intros Hds. revert i out. induction Hds as [|d ds Hd Hds IH]; intros i out Hi; [by destruct out|].
  rewrite fmap_cons. cbn [parse_digits foldl length] in *.
  rewrite hex_value_char by done.
  rewrite (proj2 (Nat.ltb_ge i 16)) by lia. rewrite IH by lia. done.
Qed.

Lemma foldl_push_nibble_16 x : u64_ok x -> foldl push_nibble 0 (hex_digit_values 16 x) = x.
Proof.
  intros Hx. rewrite foldl_push_nibble by done. cbn [N.of_nat].
  rewrite N.mul_0_l, N.add_0_l. apply N.mod_small, Hx.
Qed.

Lemma parse_digits_to_hex i : id_wf i -> parse_digits 0 (to_hex i) nil_id = Ok i.
Proof.
  intros [Hh Hl]. unfold to_hex.
  rewrite parse_digits_app, parse_digits_hi by (apply hex_digit_values_lt || by rewrite length_hex_digit_values).
  cbn [mbind expected_bind].
  rewrite parse_digits_lo by (apply hex_digit_values_lt || by rewrite length_fmap, length_hex_digit_values).
  cbn [hi lo nil_id]. rewrite !foldl_push_nibble_16 by done. by destruct i.
Qed.

Lemma length_to_hex i : length (to_hex i) = 32%nat.
Proof. unfold to_hex. by rewrite length_app, !length_fmap, !length_hex_digit_values. Qed.

Lemma to_hex_no_dash i : Forall (fun c => c <> x2d) (to_hex i).
Proof.
  assert (forall ds, Forall (fun d => d < 16) ds -> Forall (fun c => c <> x2d) (hex_char <$> ds)) as Hd.
  { intros ds Hds. apply Forall_fmap. eapply Forall_impl; [exact Hds|]. intros d Hd Heq.
    cbn in Heq. pose proof (hex_value_char d Hd) as Hv. rewrite Heq in Hv. discriminate Hv. }
  unfold to_hex. apply Forall_app. split; apply Hd, hex_digit_values_lt.
Qed.

Lemma filter_no_dash (l : bytes) :
  Forall (fun c => c <> x2d) l -> filter (fun c => c <> x2d) l = l.
Proof.
  induction 1 as [|c l Hc Hl IH]; [done|]. by rewrite filter_cons_True, IH.
Qed.

Lemma slice_0 n s : slice 0 n s = take n s.
Proof. unfold slice. by rewrite drop_0. Qed.

Lemma slices_32 (s : bytes) :
  length s = 32%nat ->
  slice 0 8 s ++ slice 8 4 s ++ slice 12 4 s ++ slice 16 4 s ++ slice 20 12 s = s.
Proof.
  intros Hs. unfold slice.
  assert (forall p n q, q = (p + n)%nat -> take n (drop p s) ++ drop q s = drop p s) as Hstep.
  { intros p n q ->. rewrite <-(take_drop n (drop p s)) at 2. by rewrite drop_drop. }
  replace (take 12 (drop 20 s)) with (drop 20 s)
    by (symmetry; apply take_ge; rewrite length_drop; lia).
  by rewrite !Hstep by done.
Qed.

(** The canonical text is the flat text with dashes put in. *)
Lemma filter_canonical i :
  filter (fun c => c <> x2d) (to_canonical i) = to_hex i.
Proof.
  unfold to_canonical. set (flat := to_hex i).
  assert (forall p n, filter (fun c => c <> x2d) (slice p n flat) = slice p n flat) as Hs.
  { intros p n. apply filter_no_dash. unfold slice.
    apply Forall_take, Forall_drop, to_hex_no_dash. }
  assert (filter (fun c => c <> x2d) (str "-") = []) as Hd by done.
  rewrite !filter_app, Hd, !Hs. cbn [app].
  apply slices_32, length_to_hex.
Qed.

Lemma parse_id_compact text i :
  id_wf i -> filter (fun c => c <> x2d) text = to_hex i -> parse_id text = Ok i.
Proof.
  intros Hi Ht. unfold parse_id. rewrite Ht. unfold blen. rewrite length_to_hex.
  by apply parse_digits_to_hex.
Qed.

Lemma strip_prefix_to_string {tag} (i : TypedId tag) :
  strip_prefix tag (tid_to_string i) = to_canonical (raw i).
Proof.
  unfold strip_prefix, tid_to_string.
  assert (length (to_canonical (raw i)) = 36%nat) as Hl.
  { unfold to_canonical, slice.
    repeat rewrite ?length_app, ?length_take, ?length_drop, ?length_to_hex. done. }
  rewrite (proj2 (N.ltb_lt _ _)); cycle 1.
  { unfold blen. rewrite !length_app, Hl. cbn. lia. }
  rewrite take_app_length, bool_decide_eq_true_2 by done.
  rewrite lookup_app_r, Nat.sub_diag by lia. cbn [lookup list_lookup str app].
  cbn [andb]. rewrite bool_decide_eq_true_2 by done.
  rewrite drop_app_ge by lia. by rewrite Nat.add_comm, Nat.add_sub.
Qed.

(** ** Properties *)

(** The canonical text "<prefix>:<8-4-4-4-12>" of an identity parses back
    to the same typed identity, and so do the bare canonical form and the flat
    32-digit form. *)
Theorem typed_id_text_roundtrip {tag} (i : TypedId tag) :
  tid_wf i ->
  parse_typed tag (tid_to_string i) = Ok i /\
  parse_id (to_canonical (raw i)) = Ok (raw i) /\
  parse_id (to_hex (raw i)) = Ok (raw i).
Proof.
  intros Hi.
  assert (parse_id (to_canonical (raw i)) = Ok (raw i)) as Hc
    by (apply parse_id_compact; [done|apply filter_canonical]).
  split_and!; [|done|].
  - unfold parse_typed. rewrite strip_prefix_to_string, Hc. by destruct i.
  - apply parse_id_compact; [done|]. apply filter_no_dash, to_hex_no_dash.
Qed.

Lemma typed_id_text_roundtrip_witness :
  let i : SiteId := from_seed 7 9 in
  tid_wf i /\ parse_typed SiteIdTag (tid_to_string i) = Ok i.
Proof.
  assert (tid_wf (from_seed 7 9 : SiteId)) as Hi by (split; vm_compute; reflexivity).
  split; [exact Hi|]. exact (proj1 (typed_id_text_roundtrip (from_seed 7 9) Hi)).
Defined.
