(* ===== verification/Lifecycle.v ===== *)
(** * Lifecycle state machines (include/isf/lifecycle.hpp, src/lifecycle.cpp)

    The grant, site and path states, the transition table of grants with its
    two readers [can_transition] and [successor_mask], the classification
    predicates, and the name functions.  [GrantStep] is the transition relation
    the table denotes. *)

From S2P Require Import Prelude Outcome.

Module GrantState.
Inductive t :=
  | Proposed | Eligible | Reserved | Active | Degraded | Withdrawing
  | Retired | Refused | Cancelled | Expired.
#[export] Instance t_eq_dec : EqDecision t.
Proof. solve_decision. Defined.
End GrantState.
Export (hints) GrantState.
Abbreviation GrantState := GrantState.t.

Module SiteState.
Inductive t :=
  | Unknown | Up | Degraded | Partitioned | Maintenance | Draining | Down | Fenced.
#[export] Instance t_eq_dec : EqDecision t.
Proof. solve_decision. Defined.
End SiteState.
Export (hints) SiteState.
Abbreviation SiteState := SiteState.t.

Module PathState.
Inductive t := Unknown | Up | Degraded | Down | Maintenance | Draining | Fenced.
#[export] Instance t_eq_dec : EqDecision t.
Proof. solve_decision. Defined.
End PathState.
Export (hints) PathState.
Abbreviation PathState := PathState.t.

Module VerificationState.
Inductive t := Unverified | Verified | Failed | Indeterminate.
#[export] Instance t_eq_dec : EqDecision t.
Proof. solve_decision. Defined.
End VerificationState.
Export (hints) VerificationState.
Abbreviation VerificationState := VerificationState.t.

Module Provenance.
Inductive t :=
  | Live | RecoveredFromSnapshot | RecoveredFromLog | PartitionRecovery
  | OperatorReconcile | AmbiguousCommit | FencedIncarnation.
#[export] Instance t_eq_dec : EqDecision t.
Proof. solve_decision. Defined.
End Provenance.
Export (hints) Provenance.
Abbreviation Provenance := Provenance.t.

(** ** The transition table *)

(** One row of [kGrantTransitions]; the successor array has five slots and
    [count] says how many are in use (unused slots hold the zero enumerator,
    [Proposed]). *)
Record GrantTransition := mkGrantTransition {
  gt_from : GrantState;
  gt_to : list GrantState;
  gt_count : nat;
}.

Definition pad5 (l : list GrantState) : list GrantState :=
  take 5 (l ++ replicate 5 GrantState.Proposed).

Definition kGrantTransitions : list GrantTransition :=
  [ mkGrantTransition GrantState.Proposed
      (pad5 [GrantState.Eligible; GrantState.Refused; GrantState.Cancelled]) 3;
    mkGrantTransition GrantState.Eligible
      (pad5 [GrantState.Reserved; GrantState.Refused; GrantState.Cancelled; GrantState.Expired]) 4;
    mkGrantTransition GrantState.Reserved
      (pad5 [GrantState.Active; GrantState.Withdrawing; GrantState.Cancelled; GrantState.Expired]) 4;
    mkGrantTransition GrantState.Active
      (pad5 [GrantState.Degraded; GrantState.Withdrawing; GrantState.Expired]) 3;
    mkGrantTransition GrantState.Degraded
      (pad5 [GrantState.Active; GrantState.Withdrawing; GrantState.Expired]) 3;
    mkGrantTransition GrantState.Withdrawing
      (pad5 [GrantState.Retired; GrantState.Expired]) 2;
    mkGrantTransition GrantState.Retired (pad5 []) 0;
    mkGrantTransition GrantState.Refused (pad5 []) 0;
    mkGrantTransition GrantState.Cancelled (pad5 []) 0;
    mkGrantTransition GrantState.Expired (pad5 []) 0 ].

Definition find_transition (from : GrantState) : option GrantTransition :=
  find_entry (fun e => bool_decide (gt_from e = from)) kGrantTransitions.

Definition can_transition (from to : GrantState) : bool :=
  match find_transition from with
  | None => false
  | Some e => existsb (fun s => bool_decide (s = to)) (take (gt_count e) (gt_to e))
  end.

(** The numeric value of an enumerator. *)
Definition grant_state_value (s : GrantState) : N :=
  match s with
  | GrantState.Proposed => 0 | GrantState.Eligible => 1 | GrantState.Reserved => 2
  | GrantState.Active => 3 | GrantState.Degraded => 4 | GrantState.Withdrawing => 5
  | GrantState.Retired => 6 | GrantState.Refused => 7 | GrantState.Cancelled => 8
  | GrantState.Expired => 9
  end.

Definition successor_mask (s : GrantState) : N :=
  match find_transition s with
  | None => 0
  | Some e =>
      foldl (fun mask t => N.lor mask (N.shiftl 1 (grant_state_value t))) 0
        (take (gt_count e) (gt_to e))
  end.

(** ** Classification *)

Definition is_terminal (s : GrantState) : bool :=
  match s with
  | GrantState.Retired | GrantState.Refused | GrantState.Cancelled | GrantState.Expired => true
  | _ => false
  end.

Definition holds_capacity (s : GrantState) : bool :=
  match s with
  | GrantState.Reserved | GrantState.Active | GrantState.Degraded | GrantState.Withdrawing => true
  | _ => false
  end.

Definition is_reclaimable (s : GrantState) : bool :=
  match s with
  | GrantState.Reserved | GrantState.Degraded | GrantState.Withdrawing => true
  | _ => false
  end.

Definition is_live_obligation (s : GrantState) : bool :=
  match s with GrantState.Active | GrantState.Degraded => true | _ => false end.

Definition site_accepts_new_reservations (s : SiteState) : bool :=
  match s with SiteState.Up | SiteState.Degraded => true | _ => false end.

Definition site_requires_degradation (s : SiteState) : bool :=
  match s with
  | SiteState.Partitioned | SiteState.Down | SiteState.Fenced | SiteState.Maintenance => true
  | _ => false
  end.

Definition path_accepts_new_reservations (s : PathState) : bool :=
  match s with PathState.Up | PathState.Degraded => true | _ => false end.

Definition path_requires_degradation (s : PathState) : bool :=
  match s with PathState.Down | PathState.Fenced | PathState.Maintenance => true | _ => false end.

Definition provenance_is_historical (p : Provenance) : bool :=
  negb (bool_decide (p = Provenance.Live)).

(** ** Names *)

Definition grant_state_name (s : GrantState) : bytes :=
  match s with
  | GrantState.Proposed => str "PROPOSED" | GrantState.Eligible => str "ELIGIBLE"
  | GrantState.Reserved => str "RESERVED" | GrantState.Active => str "ACTIVE"
  | GrantState.Degraded => str "DEGRADED" | GrantState.Withdrawing => str "WITHDRAWING"
  | GrantState.Retired => str "RETIRED" | GrantState.Refused => str "REFUSED"
  | GrantState.Cancelled => str "CANCELLED" | GrantState.Expired => str "EXPIRED"
  end.

Definition grant_states : list GrantState :=
  [GrantState.Proposed; GrantState.Eligible; GrantState.Reserved; GrantState.Active;
   GrantState.Degraded; GrantState.Withdrawing; GrantState.Retired; GrantState.Refused;
   GrantState.Cancelled; GrantState.Expired].

Definition grant_state_from_name (name : bytes) : option GrantState :=
  find_entry (fun s => bool_decide (name = grant_state_name s)) grant_states.

Definition site_state_name (s : SiteState) : bytes :=
  match s with
  | SiteState.Unknown => str "UNKNOWN" | SiteState.Up => str "UP"
  | SiteState.Degraded => str "DEGRADED" | SiteState.Partitioned => str "PARTITIONED"
  | SiteState.Maintenance => str "MAINTENANCE" | SiteState.Draining => str "DRAINING"
  | SiteState.Down => str "DOWN" | SiteState.Fenced => str "FENCED"
  end.

Definition site_states : list SiteState :=
  [SiteState.Unknown; SiteState.Up; SiteState.Degraded; SiteState.Partitioned;
   SiteState.Maintenance; SiteState.Draining; SiteState.Down; SiteState.Fenced].

Definition site_state_from_name (name : bytes) : option SiteState :=
  find_entry (fun s => bool_decide (name = site_state_name s)) site_states.

Definition path_state_name (s : PathState) : bytes :=
  match s with
  | PathState.Unknown => str "UNKNOWN" | PathState.Up => str "UP"
  | PathState.Degraded => str "DEGRADED" | PathState.Down => str "DOWN"
  | PathState.Maintenance => str "MAINTENANCE" | PathState.Draining => str "DRAINING"
  | PathState.Fenced => str "FENCED"
  end.

Definition path_states : list PathState :=
  [PathState.Unknown; PathState.Up; PathState.Degraded; PathState.Down;
   PathState.Maintenance; PathState.Draining; PathState.Fenced].

Definition path_state_from_name (name : bytes) : option PathState :=
  find_entry (fun s => bool_decide (name = path_state_name s)) path_states.

Definition verification_state_name (s : VerificationState) : bytes :=
  match s with
  | VerificationState.Unverified => str "UNVERIFIED"
  | VerificationState.Verified => str "VERIFIED"
  | VerificationState.Failed => str "FAILED"
  | VerificationState.Indeterminate => str "INDETERMINATE"
  end.

Definition provenance_name (p : Provenance) : bytes :=
  match p with
  | Provenance.Live => str "LIVE"
  | Provenance.RecoveredFromSnapshot => str "RECOVERED_FROM_SNAPSHOT"
  | Provenance.RecoveredFromLog => str "RECOVERED_FROM_LOG"
  | Provenance.PartitionRecovery => str "PARTITION_RECOVERY"
  | Provenance.OperatorReconcile => str "OPERATOR_RECONCILE"
  | Provenance.AmbiguousCommit => str "AMBIGUOUS_COMMIT"
  | Provenance.FencedIncarnation => str "FENCED_INCARNATION"
  end.

(** ** The transition relation *)

(** The steps the table allows, and the states a sequence of them reaches. *)
Inductive GrantStep : relation GrantState :=
| grant_step s t : can_transition s t = true -> GrantStep s t.

Abbreviation GrantSteps := (rtc GrantStep).

(** [grant_visits s l]: from [s] the sequence [l] of states is a legal history. *)
Inductive grant_visits : GrantState -> list GrantState -> Prop :=
| visits_here s : grant_visits s [s]
| visits_step s t l : GrantStep s t -> grant_visits t l -> grant_visits s (s :: l).

(** ** Lemmas *)

Lemma can_transition_terminal s t : is_terminal s = true -> can_transition s t = false.
Proof. by destruct s, t. Qed.

Lemma holds_not_terminal s : holds_capacity s = true -> is_terminal s = false.
Proof. by destruct s. Qed.

#[export] Hint Resolve holds_not_terminal can_transition_terminal : isf.

(** A rank that every legal step between distinct phases increases; only
    [Active] and [Degraded] share one. *)
Definition grant_rank (s : GrantState) : nat :=
  match s with
  | GrantState.Proposed => 0 | GrantState.Eligible => 1 | GrantState.Reserved => 2
  | GrantState.Active | GrantState.Degraded => 3 | GrantState.Withdrawing => 4
  | _ => 5
  end.

Lemma grant_step_rank s t : GrantStep s t -> (grant_rank s <= grant_rank t)%nat.
Proof. intros [s' t' Hst]. destruct s', t'; cbn; first [lia | discriminate Hst]. Qed.

Lemma grant_steps_rank s t : GrantSteps s t -> (grant_rank s <= grant_rank t)%nat.
Proof. induction 1 as [|s u t Hs _ IH]; [done|]. apply grant_step_rank in Hs. lia. Qed.

Lemma grant_visits_last s l x : grant_visits s l -> last (x :: l) = last l.
Proof. by inversion 1. Qed.

Lemma grant_visits_head s l : grant_visits s l -> s ∈ l.
Proof. inversion 1; constructor. Qed.

Lemma grant_visits_terminal s l : grant_visits s l -> is_terminal s = true -> l = [s].
Proof.
  inversion 1 as [|? t ? Hst]; [done|]; subst. intros Hs.
  destruct Hst as [s t Hst]. by rewrite can_transition_terminal in Hst.
Qed.

(** ** Properties *)

(** The two readers of the transition table agree: bit [t] of
    [successor_mask s] is set exactly when [can_transition s t] holds, and the
    mask has no other bits. *)
Theorem successor_mask_can_transition s t :
  N.testbit (successor_mask s) (grant_state_value t) = can_transition s t /\
  successor_mask s < 2 ^ 10.
Proof. by destruct s, t. Qed.

(** Along every legal history of a grant that starts as proposed, a state
    holding capacity is entered only through [Reserved]: a grant that ends up
    holding capacity has been reserved before or is reserved now.  Terminal
    states have no successor, so once one is reached the history is over. *)
Theorem capacity_only_through_reserved l t :
  grant_visits GrantState.Proposed l -> last l = Some t ->
  holds_capacity t = true ->
  GrantState.Reserved ∈ l.
Proof.
  intros Hl Ht Hh.
  enough (forall s, grant_visits s l -> last l = Some t -> (grant_rank s <= 1)%nat ->
                    GrantState.Reserved ∈ l) as Henough
    by (apply (Henough GrantState.Proposed); done || (cbn; lia)).
  clear Hl Ht. intros s Hl. revert Hh.
  induction Hl as [s|s u l Hs Hl IH]; intros Hh Ht Hr.
  - injection Ht as ->. destruct t; cbn in Hr; discriminate Hh || lia.
  - rewrite (grant_visits_last u) in Ht by done.
    apply elem_of_cons. right. destruct Hs as [s u Hsu].
    destruct s; cbn in Hr; try lia; destruct u; try discriminate Hsu;
      try (apply IH; solve [done | cbn; lia]);
      try (eapply grant_visits_head; eassumption);
      apply grant_visits_terminal in Hl as ->; try done;
      injection Ht as <-; discriminate Hh.
Qed.

Lemma capacity_only_through_reserved_witness :
  let l := [GrantState.Proposed; GrantState.Eligible; GrantState.Reserved; GrantState.Active] in
  grant_visits GrantState.Proposed l /\ GrantState.Reserved ∈ l.
Proof.
  assert (grant_visits GrantState.Proposed
    [GrantState.Proposed; GrantState.Eligible; GrantState.Reserved; GrantState.Active]) as Hl.
  { apply (visits_step _ GrantState.Eligible); [by apply grant_step|].
    apply (visits_step _ GrantState.Reserved); [by apply grant_step|].
    apply (visits_step _ GrantState.Active); [by apply grant_step|]. apply visits_here. }
  split; [exact Hl|].
  exact (capacity_only_through_reserved _ GrantState.Active Hl eq_refl eq_refl).
Defined.

(** The lifecycle makes progress: no legal step returns to an earlier
    phase, and a terminal state has no successor. *)
Theorem grant_lifecycle_monotone s t :
  GrantSteps s t ->
  (grant_rank s <= grant_rank t)%nat /\ (is_terminal s = true -> t = s).
Proof.
  intros Hst. split; [by apply grant_steps_rank|].
  intros Hs. inversion Hst as [|? u ? Hstep]; subst; [done|].
  destruct Hstep as [s u Hsu]. by rewrite can_transition_terminal in Hsu.
Qed.

Lemma grant_lifecycle_monotone_witness :
  GrantSteps GrantState.Retired GrantState.Retired /\
  (grant_rank GrantState.Retired <= grant_rank GrantState.Retired)%nat.
Proof.
  split; [apply rtc_refl|].
  exact (proj1 (grant_lifecycle_monotone GrantState.Retired GrantState.Retired (rtc_refl _ _))).
Defined.

(** Every state name is read back by the matching parser, for grants,
    sites and paths, and the parsers accept no other text. *)
Theorem state_names_roundtrip :
  (forall s, grant_state_from_name (grant_state_name s) = Some s) /\
  (forall s, site_state_from_name (site_state_name s) = Some s) /\
  (forall s, path_state_from_name (path_state_name s) = Some s) /\
  (forall n s, grant_state_from_name n = Some s -> n = grant_state_name s) /\
  (forall n s, site_state_from_name n = Some s -> n = site_state_name s) /\
  (forall n s, path_state_from_name n = Some s -> n = path_state_name s).
Proof.
  assert (forall A (p : A -> bool) l x, find_entry p l = Some x -> p x = true) as Hfind.
  { intros A p l x. induction l as [|y l IH]; cbn; [done|].
    destruct (p y) eqn:Hy; [by intros [= <-]|done]. }
  split_and!; try (intros s; by destruct s);
    intros n s Hs; apply Hfind in Hs; by apply bool_decide_eq_true in Hs.
Qed.
