(* ===== verification/Capacity.v ===== *)
(** * Capacity accounting (include/isf/capacity.hpp, src/capacity.cpp)

    The derived ledger of one path with its closure check, and the basis-point
    fractions that the protected floor, the free headroom and authorised
    oversubscription are computed with. *)

From S2P Require Import Prelude Outcome.

Module CapacityClass.
Inductive t := Free | Reserved | Committed | Protected | Unavailable.
End CapacityClass.
Abbreviation CapacityClass := CapacityClass.t.

Definition capacity_class_name (c : CapacityClass) : bytes :=
  match c with
  | CapacityClass.Free => str "FREE"
  | CapacityClass.Reserved => str "RESERVED"
  | CapacityClass.Committed => str "COMMITTED"
  | CapacityClass.Protected => str "PROTECTED"
  | CapacityClass.Unavailable => str "UNAVAILABLE"
  end.

Record CapacityLedger := mkCapacityLedger {
  led_usable : Amount;
  led_committed : Amount;
  led_withdrawing : Amount;
  led_reserved : Amount;
  led_protected_headroom : Amount;
  led_unavailable : Amount;
  led_free : Amount;
  led_allocatable : Amount;
  led_reclaimable : Amount;
  led_oversubscribed : Amount;
  led_authorized_extension : Amount;
}.

Definition allocated (l : CapacityLedger) : Expected Amount :=
  sum ← checked_add (led_committed l) (led_withdrawing l);
  checked_add sum (led_reserved l).

Definition basis (l : CapacityLedger) : Expected Amount :=
  checked_add (led_usable l) (led_authorized_extension l).

(** The loop over [parts]. *)
Definition add_parts (sum : Amount) (parts : list Amount) : Expected Amount :=
  foldl (fun acc part => s ← acc; checked_add s part) (Ok sum) parts.

Definition verify_closure_steps (l : CapacityLedger) : Expected unit :=
  sum ← checked_add (led_free l) (led_committed l);
  sum ← add_parts sum [led_reserved l; led_protected_headroom l; led_unavailable l];
  expected ← basis l;
  with_over ← checked_add expected (led_oversubscribed l);
  fail_if negb (sum =? with_over) with Status.Incomplete ;;
  held ← allocated l;
  fail_if held <? led_reclaimable l with Status.Conflicting ;;
  Ok tt.

Definition verify_closure (l : CapacityLedger) : Status :=
  expected_status (verify_closure_steps l).

(** A basis-point fraction; saturates at the 64-bit maximum. *)
Definition fraction_bps (value : Amount) (basis_points : N) : Amount :=
  if (basis_points =? 0) || (value =? 0) then 0
  else
    let kScale := 10000 in
    let whole := value / kScale in
    let remainder := value mod kScale in
    if kAmountMax / basis_points <? whole then kAmountMax
    else
      match checked_mul whole basis_points with
      | Fail _ => kAmountMax
      | Ok scaled =>
          match checked_mul remainder basis_points with
          | Fail _ => kAmountMax
          | Ok tail =>
              match checked_add scaled (tail / kScale) with
              | Fail _ => kAmountMax
              | Ok total => total
              end
          end
      end.

Definition oversubscription_extension (usable : Amount) (ratio_bps : N) : Amount :=
  if ratio_bps <=? 10000 then 0 else fraction_bps usable (ratio_bps - 10000).

Definition max_amount (a b : Amount) : Amount := if b <? a then a else b.

(** ** Lemmas *)

Definition ledger_wf (l : CapacityLedger) : Prop :=
  u64_ok (led_usable l) /\ u64_ok (led_committed l) /\ u64_ok (led_withdrawing l) /\
  u64_ok (led_reserved l) /\ u64_ok (led_protected_headroom l) /\
  u64_ok (led_unavailable l) /\ u64_ok (led_free l) /\ u64_ok (led_oversubscribed l) /\
  u64_ok (led_authorized_extension l).

(** The closure identity as the code checks it. *)
Definition ledger_closed (l : CapacityLedger) : Prop :=
  led_free l + led_committed l + led_reserved l + led_protected_headroom l + led_unavailable l =
  led_usable l + led_authorized_extension l + led_oversubscribed l /\
  led_reclaimable l <= led_committed l + led_withdrawing l + led_reserved l.

(** No intermediate sum of the check exceeds 64 bits. *)
Definition ledger_in_range (l : CapacityLedger) : Prop :=
  led_usable l + led_authorized_extension l + led_oversubscribed l <= kAmountMax /\
  led_committed l + led_withdrawing l + led_reserved l <= kAmountMax.

Lemma expected_status_ok (e : Expected unit) : expected_status e = Status.Ok -> e = Ok tt \/ e = Fail Status.Ok.
Proof. destruct e as [[]|s]; cbn; intros H; [by left|right; by f_equal]. Qed.

Lemma checked_add_iff a b c :
  u64_ok b -> checked_add a b = Ok c <-> c = a + b /\ a + b <= kAmountMax.
Proof.
  intros Hb. rewrite checked_add_spec by done. case_decide; split; [by intros [= <-]|by intros [-> _]|done|by intros [_ ?]].
Qed.

Lemma checked_add_not_Ok a b : checked_add a b <> Fail Status.Ok.
Proof. unfold checked_add, guard_fail. by destruct (_ <? _). Qed.

Lemma max_amount_spec a b : max_amount a b = N.max a b.
Proof. unfold max_amount. destruct (N.ltb_spec b a); lia. Qed.

Lemma verify_closure_steps_not_Ok l : verify_closure_steps l <> Fail Status.Ok.
Proof.
  unfold verify_closure_steps, add_parts, basis, allocated, guard_fail. cbn [foldl].
  unfold mbind, expected_bind, checked_add, guard_fail.
  repeat case_match; simplify_eq; discriminate.
Qed.

(** Division by the scale splits as the code computes it. *)
Lemma scale_split value bp :
  value / 10000 * bp + value mod 10000 * bp / 10000 = value * bp / 10000.
Proof.
  rewrite (N.div_mod' value 10000) at 3.
  replace ((10000 * (value / 10000) + value mod 10000) * bp)
    with (value mod 10000 * bp + (value / 10000 * bp) * 10000) by lia.
  rewrite N.div_add by done. lia.
Qed.

Lemma fraction_bps_spec value bp :
  u64_ok value -> u32_ok bp ->
  fraction_bps value bp = N.min kAmountMax (value * bp / 10000).
Proof.
  intros Hv Hb. unfold u64_ok, u32_ok in *. unfold fraction_bps.
  destruct (N.eqb_spec bp 0) as [->|Hbp].
  { cbn [orb]. rewrite N.mul_0_r. unfold kAmountMax. rewrite N.Div0.div_0_l. lia. }
  destruct (N.eqb_spec value 0) as [->|Hvn].
  { cbn [orb]. rewrite N.mul_0_l. unfold kAmountMax. rewrite N.Div0.div_0_l. lia. }
  cbn [orb]. pose proof (scale_split value bp) as Hsplit.
  pose proof (N.mod_lt value 10000 ltac:(done)) as Hmod.
  assert (value mod 10000 * bp <= kAmountMax) as Htail.
  { apply N.le_trans with (10000 * 2 ^ 32); [apply N.mul_le_mono; lia|done]. }
  destruct (N.ltb_spec (kAmountMax / bp) (value / 10000)) as [Hlt|Hle].
  { pose proof (N.mul_succ_div_gt kAmountMax bp Hbp) as Hgt.
    pose proof (N.mul_le_mono_l (N.succ (kAmountMax / bp)) (value / 10000) bp ltac:(lia)) as Hmono.
    rewrite (N.mul_comm bp (value / 10000)) in Hmono. rewrite <-Hsplit.
    symmetry. apply N.min_l, N.lt_le_incl, N.lt_le_trans with (1 := Hgt).
    etrans; [exact Hmono|apply N.le_add_r]. }
  assert (value mod 10000 * bp / 10000 <= kAmountMax) as Htail'
    by (apply N.Div0.div_le_upper_bound; etrans; [exact Htail|done]).
  rewrite !checked_mul_spec, (decide_True (P := value mod 10000 * bp <= _)) by done.
  rewrite <-Hsplit. clear Hsplit Htail Hle Hmod.
  set (tail := value mod 10000 * bp / 10000) in *. set (whole := value / 10000 * bp).
  clearbody tail whole.
  destruct (decide (whole <= kAmountMax)); [|lia].
  rewrite checked_add_spec by (unfold u64_ok, kAmountMax in *; lia).
  case_decide; lia.
Qed.

Lemma verify_closure_spec l :
  ledger_wf l ->
  verify_closure l = Status.Ok <-> ledger_closed l /\ ledger_in_range l.
Proof.
  intros (? & ? & ? & ? & ? & ? & ? & ? & ?).
  trans (verify_closure_steps l = Ok tt).
  { unfold verify_closure. split; [|by intros ->]. intros Hs.
    destruct (expected_status_ok _ Hs) as [?|?%verify_closure_steps_not_Ok]; done. }
  unfold verify_closure_steps, add_parts, basis, allocated, ledger_closed, ledger_in_range.
  cbn [foldl mbind expected_bind].
  repeat setoid_rewrite expected_bind_ok.
  split.
  - intros (s1 & Hs1 & s5 & (s4 & (s3 & Hs3 & Hs4) & Hs5) & e & He & w & Hw & Hrest).
    apply guard_fail_ok in Hrest as [Heq (h & (h1 & Hh1 & Hh)%expected_bind_ok & Hr)%expected_bind_ok].
    apply guard_fail_ok in Hr as [Hr _].
    repeat match goal with Hc : checked_add _ _ = Ok _ |- _ => apply checked_add_bound in Hc as [-> ?]; [|done] end.
    to_prop. unfold u64_ok, kAmountMax in *. lia.
  - intros [[Heq Hr] [Hover Hheld]].
    eexists; split; [apply checked_add_intro; lia|].
    eexists; split.
    { eexists; split; [eexists; split; apply checked_add_intro; lia|apply checked_add_intro; lia]. }
    eexists; split; [apply checked_add_intro; lia|].
    eexists; split; [apply checked_add_intro; lia|].
    rewrite (proj2 (N.eqb_eq _ _)) by lia. apply guard_fail_ok; split; [done|].
    apply expected_bind_ok. eexists; split;
      [apply expected_bind_ok; eexists; split; apply checked_add_intro; lia|].
    apply guard_fail_ok. split; [by apply N.ltb_ge|done].
Qed.

(** ** Properties *)

(** [fraction_bps] is the exact fraction value * bps / 10000, rounded down
    and saturated at the 64-bit maximum, although it never forms the product:
    no 64-bit intermediate of it wraps. *)
Theorem fraction_bps_exact value bp :
  u64_ok value -> u32_ok bp ->
  fraction_bps value bp = N.min kAmountMax (value * bp / 10000).
Proof. apply fraction_bps_spec. Qed.

Lemma fraction_bps_exact_witness :
  u64_ok 12345 /\ u32_ok 1000 /\ fraction_bps 12345 1000 = 1234.
Proof.
  assert (u64_ok 12345) as Hv by (unfold u64_ok; lia).
  assert (u32_ok 1000) as Hb by (unfold u32_ok; lia).
  split_and!; [exact Hv|exact Hb|]. rewrite (fraction_bps_exact 12345 1000 Hv Hb). reflexivity.
Defined.

(** [verify_closure] accepts a ledger exactly when free + committed +
    reserved + protected headroom + unavailable equals usable + authorised
    extension + oversubscribed, the reclaimable amount is at most the allocated
    one, and none of the sums exceeds 64 bits. *)
Theorem verify_closure_iff l :
  ledger_wf l ->
  verify_closure l = Status.Ok <-> ledger_closed l /\ ledger_in_range l.
Proof. apply verify_closure_spec. Qed.

Lemma verify_closure_iff_witness :
  let l := mkCapacityLedger 100 30 5 20 10 0 40 35 25 0 0 in
  ledger_wf l /\ verify_closure l = Status.Ok /\ ledger_closed l.
Proof.
  assert (ledger_wf (mkCapacityLedger 100 30 5 20 10 0 40 35 25 0 0)) as Hwf
    by (unfold ledger_wf, u64_ok; cbn; lia).
  split_and!; [exact Hwf|reflexivity|].
  exact (proj1 (proj1 (verify_closure_iff _ Hwf) eq_refl)).
Defined.
