(* ===== verification/Policy.v ===== *)
(** * Fabric policy (include/isf/policy.hpp, src/policy.cpp)

    The policy document, its structural validation and the conservative
    default. *)

From S2P Require Import Prelude Outcome Ids.

Definition kMaxOversubscriptionBps : N := 100000.
Definition kMaxLeaseDurationMs : N := 30 * 24 * 60 * 60 * 1000.
Definition kMaxGrantsPerPathLimit : N := N.shiftl 1 20.
Definition kMinSiteLeaseTimeoutMs : N := 100.
Definition kMaxSiteLeaseTimeoutMs : N := 60 * 60 * 1000.

Record Policy := mkPolicy {
  pol_id : PolicyId;
  pol_generation : Generation;
  protected_floor_units : Amount;
  protected_floor_bps : N;
  min_free_units : Amount;
  min_free_bps : N;
  max_oversubscription_bps : N;
  max_lease_duration_ms : N;
  max_grants_per_path : N;
  max_grants_per_site : N;
  max_srd_concentration_bps : N;
  allow_degraded_activation : bool;
  allow_partition_optimistic_recovery : bool;
  require_verification_for_active : bool;
  auto_reconcile_on_restart : bool;
  site_lease_timeout_ms : N;
}.

#[export] Instance Policy_eq_dec : EqDecision Policy.
Proof. solve_decision. Defined.

Definition validate (p : Policy) : Status :=
  if gen_is_nil (pol_generation p) then Status.Invalid
  else if 10000 <? protected_floor_bps p then Status.Invalid
  else if 10000 <? min_free_bps p then Status.Invalid
  else if kMaxOversubscriptionBps <? max_oversubscription_bps p then Status.LimitExceeded
  else if 10000 <? max_srd_concentration_bps p then Status.Invalid
  else if (max_lease_duration_ms p =? 0) || (kMaxLeaseDurationMs <? max_lease_duration_ms p)
    then Status.LimitExceeded
  else if (max_grants_per_path p =? 0) || (kMaxGrantsPerPathLimit <? max_grants_per_path p)
    then Status.LimitExceeded
  else if (max_grants_per_site p <? max_grants_per_path p) ||
          (N.shiftl 1 24 <? max_grants_per_site p)
    then Status.LimitExceeded
  else if (site_lease_timeout_ms p <? kMinSiteLeaseTimeoutMs) ||
          (kMaxSiteLeaseTimeoutMs <? site_lease_timeout_ms p)
    then Status.LimitExceeded
  else if allow_partition_optimistic_recovery p && negb (auto_reconcile_on_restart p)
    then Status.Conflicting
  else Status.Ok.

Definition conservative_default : Policy := {|
  pol_id := from_seed 0x15F0000000000001 0;
  pol_generation := mkGeneration 1;
  protected_floor_units := 0;
  protected_floor_bps := 1000;
  min_free_units := 0;
  min_free_bps := 0;
  max_oversubscription_bps := 0;
  max_lease_duration_ms := 3600000;
  max_grants_per_path := 1024;
  max_grants_per_site := 4096;
  max_srd_concentration_bps := 10000;
  allow_degraded_activation := false;
  allow_partition_optimistic_recovery := false;
  require_verification_for_active := false;
  auto_reconcile_on_restart := false;
  site_lease_timeout_ms := 30000;
|}.

(** The bounds an installed policy obeys. *)
Definition policy_bounds (p : Policy) : Prop :=
  0 < gen_value (pol_generation p) /\
  protected_floor_bps p <= 10000 /\ min_free_bps p <= 10000 /\
  max_oversubscription_bps p <= 100000 /\ max_srd_concentration_bps p <= 10000 /\
  0 < max_lease_duration_ms p <= 2592000000 /\
  0 < max_grants_per_path p <= 1048576 /\
  max_grants_per_path p <= max_grants_per_site p <= 16777216 /\
  100 <= site_lease_timeout_ms p <= 3600000 /\
  (allow_partition_optimistic_recovery p = true -> auto_reconcile_on_restart p = true).

(** A policy passes validation exactly when every field is within its
    bound and optimistic partition recovery comes with restart reconciliation. *)
Theorem validate_iff p : validate p = Status.Ok <-> policy_bounds p.
Proof.
  unfold validate, policy_bounds, gen_is_nil, kMaxOversubscriptionBps, kMaxLeaseDurationMs,
    kMaxGrantsPerPathLimit, kMinSiteLeaseTimeoutMs, kMaxSiteLeaseTimeoutMs.
  change (N.shiftl 1 20) with 1048576. change (N.shiftl 1 24) with 16777216.
  change (30 * 24 * 60 * 60 * 1000) with 2592000000. change (60 * 60 * 1000) with 3600000.
  split.
  - intros Hv. break_in Hv; to_prop. split_and!; try lia.
    intros Hp. rewrite Hp in *. cbn [andb] in *. by destruct (auto_reconcile_on_restart p).
  - intros (Hg & Hpf & Hmf & Hmo & Hms & Hl & Hgp & Hgs & Hlt & Hrec).
    repeat match goal with
      | |- context [?a <? ?b] => rewrite (proj2 (N.ltb_ge a b)) by lia
      | |- context [?a =? ?b] => rewrite (proj2 (N.eqb_neq a b)) by lia
      end. cbn [orb].
    destruct (allow_partition_optimistic_recovery p); cbn [andb]; [|done].
    by rewrite Hrec.
Qed.

Lemma conservative_default_valid : validate conservative_default = Status.Ok.
Proof. reflexivity. Qed.
