(* ===== verification/Wire.v ===== *)
(** * Canonical binary encoding (include/isf/wire.hpp, src/wire.cpp)

    The little-endian [Writer], the bounds-checked [Reader], the UTF-8
    validation of string fields, and [Codec], the interface every record
    encoder of the system implements.

    A [Writer] only ever appends to its buffer, so a [Writer] operation is
    modelled by the bytes it appends and a sequence of them by concatenation.
    A [Reader] is a state-passing function over the bytes not consumed yet
    ([remaining()] is their number); it fails with a status, after which no
    caller reads on. *)

From Stdlib Require Import Strings.Byte.
From S2P Require Import Prelude Outcome Ids.

Record WireLimits := mkWireLimits {
  max_bytes : N;
  max_string : N;
  max_container : N;
  max_nesting : N;
}.

Definition default_limits : WireLimits := mkWireLimits (N.shiftl 1 20) 4096 4096 8.

Definition byte_of_N (n : N) : Byte.byte := default x00 (Byte.of_N (n mod 256)).

(** A SHA-256 digest value: an array of 32 bytes. *)
Record Digest256 := mkDigest256 { digest_bytes : bytes }.
#[export] Instance Digest256_eq_dec : EqDecision Digest256.
Proof. solve_decision. Defined.

Definition digest_wf (d : Digest256) : Prop := length (digest_bytes d) = 32%nat.
Definition digest_is_zero (d : Digest256) : bool :=
  forallb (fun b => Byte.to_N b =? 0) (digest_bytes d).

(** ** UTF-8 validation *)

(** The leading byte of a multi-byte sequence: the number of continuation
    bytes and the payload bits; [None] where the code returns false. *)
Definition utf8_lead (lead : N) : option (nat * N) :=
  if N.land lead 0xE0 =? 0xC0 then
    let code := N.land lead 0x1F in
    if code =? 0 then None else Some (1%nat, code)
  else if N.land lead 0xF0 =? 0xE0 then Some (2%nat, N.land lead 0x0F)
  else if N.land lead 0xF8 =? 0xF0 then Some (3%nat, N.land lead 0x07)
  else None.

(** The loop over the continuation bytes. *)
Fixpoint utf8_continuation (l : bytes) (code : N) : option N :=
  match l with
  | [] => Some code
  | cont :: l =>
      if negb (N.land (Byte.to_N cont) 0xC0 =? 0x80) then None
      else utf8_continuation l (N.lor (N.shiftl code 6) (N.land (Byte.to_N cont) 0x3F))
  end.

(** The checks after the continuation bytes. *)
Definition utf8_code_ok (extra : nat) (code : N) : bool :=
  if (extra =? 2)%nat && (code <? 0x800) then false
  else if (extra =? 3)%nat && (code <? 0x10000) then false
  else if 0x10FFFF <? code then false
  else if (0xD800 <=? code) && (code <=? 0xDFFF) then false
  else true.

(** The main loop; [s] is the text from index [i] on, and every iteration
    advances by at least one byte, so [length s] iterations are enough. *)
Fixpoint utf8_loop (fuel : nat) (s : bytes) : bool :=
  match s with
  | [] => true
  | lead :: s =>
      match fuel with
      | O => false
      | S fuel =>
          if Byte.to_N lead <? 0x80 then utf8_loop fuel s
          else
            match utf8_lead (Byte.to_N lead) with
            | None => false
            | Some (extra, code) =>
                if (length s <? extra)%nat then false
                else
                  match utf8_continuation (take extra s) code with
                  | None => false
                  | Some code =>
                      if utf8_code_ok extra code then utf8_loop fuel (drop extra s) else false
                  end
            end
      end
  end.

Definition is_valid_utf8 (text : bytes) : bool := utf8_loop (length text) text.

(** ** Writer *)

Definition w_le (k : nat) (value : N) : bytes :=
  (fun i => byte_of_N (N.land (N.shiftr value (N.of_nat i * 8)) 0xFF)) <$> seq 0 k.

Definition w_u8 (value : N) : bytes := [byte_of_N value].
Definition w_u16 (value : N) : bytes := w_le 2 value.
Definition w_u32 (value : N) : bytes := w_le 4 value.
Definition w_u64 (value : N) : bytes := w_le 8 value.
Definition w_boolean (value : bool) : bytes := w_u8 (if value then 1 else 0).
(** The length is cast to 32 bits. *)
Definition w_bytes (value : bytes) : bytes := w_u32 (blen value mod 2 ^ 32) ++ value.
Definition w_str (value : bytes) : bytes := w_u32 (blen value mod 2 ^ 32) ++ value.
Definition w_id128 (value : Id128) : bytes := w_u64 (hi value) ++ w_u64 (lo value).
Definition w_digest (value : Digest256) : bytes := digest_bytes value.
Definition w_generation (value : Generation) : bytes := w_u64 (gen_value value).
Definition w_epoch (value : Epoch) : bytes := w_u64 (epoch_value value).

(** ** Reader *)

Definition reader (A : Type) : Type := WireLimits -> bytes -> Expected (A * bytes).

#[export] Instance reader_ret : MRet reader := fun A a lim data => Ok (a, data).
#[export] Instance reader_bind : MBind reader := fun A B f m lim data =>
  match m lim data with
  | Ok (a, data) => f a lim data
  | Fail s => Fail s
  end.

Definition r_fail {A} (s : Status) : reader A := fun lim data => Fail s.
Definition r_limits : reader WireLimits := fun lim data => Ok (lim, data).
Definition r_remaining : reader N := fun lim data => Ok (blen data, data).

Definition r_take (count : N) : reader bytes := fun lim data =>
  if blen data <? count then Fail Status.Invalid
  else Ok (take (N.to_nat count) data, drop (N.to_nat count) data).

(** [out |= span[i] << (i * 8)] over the bytes of the span. *)
Definition le_value (span : bytes) : N :=
  foldl (fun out p => N.lor out (N.shiftl (Byte.to_N p.2) (N.of_nat p.1 * 8))) 0
    (imap pair span).

Definition r_le (k : nat) : reader N :=
  span ← r_take (N.of_nat k);
  mret (le_value span).

Definition r_u8 : reader N := r_le 1.
Definition r_u16 : reader N := r_le 2.
Definition r_u32 : reader N := r_le 4.
Definition r_u64 : reader N := r_le 8.

Definition r_boolean : reader bool :=
  value ← r_u8;
  if 1 <? value then r_fail Status.Invalid else mret (value =? 1).

Definition r_bytes : reader bytes :=
  count ← r_u32;
  limits ← r_limits;
  if max_bytes limits <? count then r_fail Status.LimitExceeded else r_take count.

Definition r_str : reader bytes :=
  count ← r_u32;
  limits ← r_limits;
  if max_string limits <? count then r_fail Status.LimitExceeded
  else
    span ← r_take count;
    if negb (is_valid_utf8 span) then r_fail Status.Invalid else mret span.

Definition r_id128 : reader Id128 :=
  high ← r_u64;
  low ← r_u64;
  mret (mkId128 high low).

Definition r_digest : reader Digest256 :=
  span ← r_take 32;
  mret (mkDigest256 span).

Definition r_generation : reader Generation := value ← r_u64; mret (mkGeneration value).
Definition r_epoch : reader Epoch := value ← r_u64; mret (mkEpoch value).

Definition r_container_count : reader N :=
  count ← r_u32;
  limits ← r_limits;
  remaining ← r_remaining;
  if max_container limits <? count then r_fail Status.LimitExceeded
  else if remaining + 1 <? count then r_fail Status.Invalid
  else mret count.

(** [require_end]: no byte is left. *)
Definition at_end (data : bytes) : bool := bool_decide (data = []).

(** An enumerator byte: [if (v > last) return Invalid; static_cast<E>(v)],
    where [all] lists the enumerators by value. *)
Definition r_enum {A} (all : list A) : reader A :=
  value ← r_u8;
  match all !! N.to_nat value with
  | None => r_fail Status.Invalid
  | Some e => mret e
  end.

(** ** The codec interface *)

(** A record type with a canonical byte image.  [codec_wf lim v] is what a
    value must satisfy to survive the trip: integers within their width,
    strings within the limits. *)
Class Codec (A : Type) := {
  encode : A -> bytes;
  decode : reader A;
  codec_wf : WireLimits -> A -> Prop;
  codec_roundtrip lim v rest :
    codec_wf lim v -> decode lim (encode v ++ rest) = Ok (v, rest);
}.

(** ** Bytes and little-endian integers *)

Lemma to_N_byte_of_N n : Byte.to_N (byte_of_N n) = n mod 256.
Proof.
  unfold byte_of_N. pose proof (N.mod_lt n 256 ltac:(done)) as Hlt.
  destruct (Byte.of_N (n mod 256)) as [b|] eqn:E; cbn.
  - by apply Byte.to_of_N in E.
  - apply Byte.of_N_None_iff in E. lia.
Qed.

Lemma byte_of_N_to_N b : byte_of_N (Byte.to_N b) = b.
Proof. by destruct b. Qed.

Lemma to_N_lt b : Byte.to_N b < 256.
Proof. by destruct b. Qed.

Lemma byte_of_N_mod n : byte_of_N (n mod 256) = byte_of_N n.
Proof. unfold byte_of_N. by rewrite N.Div0.mod_mod. Qed.

Lemma w_le_S k v : w_le (S k) v = byte_of_N v :: w_le k (v / 256).
Proof.
  unfold w_le. cbn [seq]. rewrite fmap_cons. f_equal.
  - change 255 with (N.ones 8). rewrite N.mul_0_l, N.shiftr_0_r, N.land_ones.
    apply byte_of_N_mod.
  - rewrite <-fmap_S_seq, <-list_fmap_compose. apply list_fmap_ext. intros i j _. cbn.
    f_equal. f_equal. rewrite !N.shiftr_div_pow2. change 256 with (2 ^ 8).
    rewrite N.Div0.div_div, <-N.pow_add_r. f_equal. f_equal. lia.
Qed.

Lemma length_w_le k v : length (w_le k v) = k.
Proof. unfold w_le. by rewrite length_fmap, length_seq. Qed.

(** The value of a span, byte by byte from the least significant one. *)
Lemma le_value_aux (l : bytes) (off : nat) acc :
  acc < 2 ^ (N.of_nat off * 8) ->
  foldl (fun out p => N.lor out (N.shiftl (Byte.to_N p.2) (N.of_nat p.1 * 8))) acc
    (imap (fun i => pair (off + i)%nat) l) =
  acc + 2 ^ (N.of_nat off * 8) * foldr (fun b n => Byte.to_N b + 256 * n) 0 l.
Proof.
  revert off acc. induction l as [|b l IH]; intros off acc Hacc; cbn [imap foldl foldr].
  { lia. }
  assert (N.lor acc (N.shiftl (Byte.to_N b) (N.of_nat off * 8)) =
          acc + 2 ^ (N.of_nat off * 8) * Byte.to_N b) as Hlor.
  { rewrite <-N.lxor_lor, <-N.add_nocarry_lxor; [rewrite N.shiftl_mul_pow2; lia|..];
      apply N.bits_inj_0; intros i; rewrite N.land_spec;
      (destruct (N.lt_ge_cases i (N.of_nat off * 8));
       [rewrite N.shiftl_spec_low by done; apply andb_false_r|];
       rewrite <-(N.mod_small acc (2 ^ (N.of_nat off * 8))) by done;
       by rewrite N.mod_pow2_bits_high). }
  rewrite Nat.add_0_r. cbn [fst snd]. rewrite Hlor.
  rewrite (imap_ext _ (fun i => pair (S off + i)%nat)).
  2:{ intros i x _. cbn. f_equal. lia. }
  rewrite IH.
  - rewrite Nat2N.inj_succ, N.mul_succ_l, N.pow_add_r. change (2 ^ 8) with 256. lia.
  - rewrite Nat2N.inj_succ, N.mul_succ_l, N.pow_add_r. change (2 ^ 8) with 256.
    pose proof (to_N_lt b). nia.
Qed.

Lemma le_value_foldr (l : bytes) :
  le_value l = foldr (fun b n => Byte.to_N b + 256 * n) 0 l.
Proof.
  unfold le_value. rewrite (imap_ext _ (fun i => pair (0 + i)%nat)) by done.
  rewrite le_value_aux by done. cbn. lia.
Qed.

Lemma le_value_cons b l : le_value (b :: l) = Byte.to_N b + 256 * le_value l.
Proof. by rewrite !le_value_foldr. Qed.

Lemma le_value_w_le k v : le_value (w_le k v) = v mod 2 ^ (N.of_nat k * 8).
Proof.
  revert v. induction k as [|k IH]; intros v.
  { cbn. by rewrite N.mod_1_r. }
  rewrite w_le_S, le_value_cons, IH, to_N_byte_of_N.
  rewrite Nat2N.inj_succ, N.mul_succ_l, N.pow_add_r, N.mul_comm. change (2 ^ 8) with 256.
  rewrite (N.mul_comm (2 ^ _) 256), N.Div0.mod_mul_r. lia.
Qed.

Lemma le_value_bound l : le_value l < 2 ^ (blen l * 8).
Proof.
  unfold blen. induction l as [|b l IH]; [done|].
  rewrite le_value_cons. cbn [length]. rewrite Nat2N.inj_succ, N.mul_succ_l, N.pow_add_r.
  change (2 ^ 8) with 256. pose proof (to_N_lt b). nia.
Qed.

Lemma w_le_le_value l : w_le (length l) (le_value l) = l.
Proof.
  induction l as [|b l IH]; [done|].
  cbn [length]. rewrite w_le_S, le_value_cons. f_equal.
  - rewrite <-byte_of_N_mod, (N.mul_comm 256), N.Div0.mod_add.
    rewrite N.mod_small by apply to_N_lt. apply byte_of_N_to_N.
  - rewrite (N.mul_comm 256), N.div_add by done.
    rewrite N.div_small by apply to_N_lt. done.
Qed.

(** ** Primitive readers undo the writers *)

Lemma r_take_app lim (span rest : bytes) n :
  n = blen span -> r_take n lim (span ++ rest) = Ok (span, rest).
Proof.
  intros ->. unfold r_take, blen. rewrite length_app.
  rewrite (proj2 (N.ltb_ge _ _)) by lia.
  by rewrite Nat2N.id, take_app_length, drop_app_length.
Qed.

Lemma r_le_w_le lim k v rest :
  v < 2 ^ (N.of_nat k * 8) -> r_le k lim (w_le k v ++ rest) = Ok (v, rest).
Proof.
  intros Hv. unfold r_le, mbind, reader_bind.
  rewrite r_take_app by (unfold blen; by rewrite length_w_le).
  unfold mret, reader_ret. by rewrite le_value_w_le, N.mod_small.
Qed.

Lemma r_u8_w lim v rest : v < 256 -> r_u8 lim (w_u8 v ++ rest) = Ok (v, rest).
Proof.
  intros Hv. unfold r_u8, w_u8.
  replace [byte_of_N v] with (w_le 1 v) by (by rewrite w_le_S). by apply r_le_w_le.
Qed.

Lemma r_u16_w lim v rest : v < 2 ^ 16 -> r_u16 lim (w_u16 v ++ rest) = Ok (v, rest).
Proof. apply (r_le_w_le lim 2). Qed.

Lemma r_u32_w lim v rest : u32_ok v -> r_u32 lim (w_u32 v ++ rest) = Ok (v, rest).
Proof. apply (r_le_w_le lim 4). Qed.

Lemma r_u64_w lim v rest : u64_ok v -> r_u64 lim (w_u64 v ++ rest) = Ok (v, rest).
Proof. apply (r_le_w_le lim 8). Qed.

Lemma r_boolean_w lim b rest : r_boolean lim (w_boolean b ++ rest) = Ok (b, rest).
Proof.
  unfold r_boolean, w_boolean, mbind, reader_bind.
  rewrite r_u8_w by (by destruct b). by destruct b.
Qed.

Lemma r_id128_w lim i rest : id_wf i -> r_id128 lim (w_id128 i ++ rest) = Ok (i, rest).
Proof.
  intros [Hh Hl]. unfold r_id128, w_id128, mbind, reader_bind. rewrite <-app_assoc.
  rewrite r_u64_w, r_u64_w by done. by destruct i.
Qed.

Lemma r_digest_w lim d rest : digest_wf d -> r_digest lim (w_digest d ++ rest) = Ok (d, rest).
Proof.
  intros Hd. unfold r_digest, w_digest, mbind, reader_bind.
  rewrite r_take_app; [by destruct d|]. unfold blen. by rewrite Hd.
Qed.

Lemma r_generation_w lim g rest :
  u64_ok (gen_value g) -> r_generation lim (w_generation g ++ rest) = Ok (g, rest).
Proof.
  intros Hg. unfold r_generation, w_generation, mbind, reader_bind.
  rewrite r_u64_w by done. by destruct g.
Qed.

Lemma r_epoch_w lim e rest :
  u64_ok (epoch_value e) -> r_epoch lim (w_epoch e ++ rest) = Ok (e, rest).
Proof.
  intros He. unfold r_epoch, w_epoch, mbind, reader_bind.
  rewrite r_u64_w by done. by destruct e.
Qed.

(** A string field that its reader accepts under the limits. *)
Definition str_wf (lim : WireLimits) (s : bytes) : Prop :=
  blen s <= max_string lim /\ u32_ok (blen s) /\ is_valid_utf8 s = true.

Lemma r_str_w lim s rest : str_wf lim s -> r_str lim (w_str s ++ rest) = Ok (s, rest).
Proof.
  intros (Hmax & Hlen & Hutf). unfold r_str, w_str, mbind, reader_bind. rewrite <-app_assoc.
  unfold u32_ok in Hlen. rewrite N.mod_small by done.
  rewrite r_u32_w by done. cbn. rewrite (proj2 (N.ltb_ge _ _)) by done.
  rewrite r_take_app by done. by rewrite Hutf.
Qed.

Definition bytes_wf (lim : WireLimits) (s : bytes) : Prop :=
  blen s <= max_bytes lim /\ u32_ok (blen s).

Lemma r_bytes_w lim s rest : bytes_wf lim s -> r_bytes lim (w_bytes s ++ rest) = Ok (s, rest).
Proof.
  intros (Hmax & Hlen). unfold r_bytes, w_bytes, mbind, reader_bind. rewrite <-app_assoc.
  unfold u32_ok in Hlen. rewrite N.mod_small by done.
  rewrite r_u32_w by done. cbn. rewrite (proj2 (N.ltb_ge _ _)) by done.
  by rewrite r_take_app by done.
Qed.

(** An enumerator whose index in the list of enumerators is written. *)
Lemma r_enum_w {A} lim (all : list A) (e : A) v rest :
  all !! N.to_nat v = Some e -> v < 256 -> r_enum all lim (w_u8 v ++ rest) = Ok (e, rest).
Proof.
  intros He Hv. unfold r_enum, mbind, reader_bind. rewrite r_u8_w by done. by rewrite He.
Qed.

(** One step of a decoder that starts with a reader known to succeed. *)
Lemma reader_bind_Ok {A B} (m : reader A) (f : A -> reader B) lim data a data' :
  m lim data = Ok (a, data') -> (m ≫= f) lim data = f a lim data'.
Proof. intros Hm. unfold mbind, reader_bind. by rewrite Hm. Qed.

Lemma reader_bind_inv {A B} (m : reader A) (f : A -> reader B) lim data b data'' :
  (m ≫= f) lim data = Ok (b, data'') <->
  exists a data', m lim data = Ok (a, data') /\ f a lim data' = Ok (b, data'').
Proof.
  unfold mbind, reader_bind. destruct (m lim data) as [[a data']|s]; split.
  - eauto.
  - by intros (? & ? & [= -> ->] & ?).
  - done.
  - by intros (? & ? & ? & ?).
Qed.

(** ** Fields at fixed offsets *)

(** [get_u16], [get_u32] and [get_u64] at an offset. *)
Definition get_le (k off : nat) (data : bytes) : N := le_value (take k (drop off data)).

Lemma get_le_skip (a : bytes) k off l :
  (length a <= off)%nat -> get_le k off (a ++ l) = get_le k (off - length a) l.
Proof. intros Ha. unfold get_le. by rewrite drop_app_ge. Qed.

Lemma get_le_here k v l : get_le k 0 (w_le k v ++ l) = v mod 2 ^ (N.of_nat k * 8).
Proof.
  unfold get_le. rewrite drop_0, take_app_length' by (by rewrite length_w_le). apply le_value_w_le.
Qed.

Lemma get_le_take k off n l : (off + k <= n)%nat -> get_le k off (take n l) = get_le k off l.
Proof.
  intros Hn. unfold get_le. rewrite !take_drop_commute, take_take.
  by rewrite Nat.min_l by lia.
Qed.

Lemma get_le_app k off l rest :
  (off + k <= length l)%nat -> get_le k off (l ++ rest) = get_le k off l.
Proof.
  intros Hl. rewrite <-(get_le_take k off (length l) (l ++ rest)) by done. by rewrite take_app_length.
Qed.

(** Reads a field of a concatenation of fixed-width fields. *)
Ltac read_field :=
  unfold w_id128, w_u64, w_u32, w_u16, w_u8; rewrite <-?app_assoc;
  repeat (rewrite get_le_skip by (rewrite ?length_w_le; cbn [length]; lia);
          rewrite ?length_w_le; cbn [length Nat.sub]).
