(* ===== verification/Utf8.v ===== *)
(** * UTF-8 validation of string fields

    What [is_valid_utf8] (Wire.v, src/wire.cpp) accepts: every UTF-8 encoding
    of a sequence of Unicode scalar values, and concatenations of accepted
    texts.  It also accepts two-byte overlong forms of the code points 64..127. *)

From Stdlib Require Import Strings.Byte.
From S2P Require Import Prelude Outcome Ids Wire.

(** ** The reference encoder of Unicode scalar values *)

Definition scalar_value (c : N) : Prop := c <= 0x10FFFF /\ ~ (0xD800 <= c <= 0xDFFF).

Definition utf8_encode (c : N) : bytes :=
  if c <? 0x80 then [byte_of_N c]
  else if c <? 0x800 then [byte_of_N (0xC0 + c / 64); byte_of_N (0x80 + c mod 64)]
  else if c <? 0x10000 then
    [byte_of_N (0xE0 + c / 64 / 64); byte_of_N (0x80 + c / 64 mod 64);
     byte_of_N (0x80 + c mod 64)]
  else
    [byte_of_N (0xF0 + c / 64 / 64 / 64); byte_of_N (0x80 + c / 64 / 64 mod 64);
     byte_of_N (0x80 + c / 64 mod 64); byte_of_N (0x80 + c mod 64)].

(** ** Lemmas *)

(** The fuel of the loop is irrelevant once it covers the text. *)
Lemma utf8_loop_fuel s f g :
  (length s <= f)%nat -> (length s <= g)%nat -> utf8_loop f s = utf8_loop g s.
Proof.
  revert g s. induction f as [|f IH]; intros g s Hf Hg.
  { destruct s; [by destruct g|cbn in Hf; lia]. }
  destruct s as [|b s]; [by destruct g|]. destruct g as [|g]; [cbn in Hg; lia|].
  cbn [utf8_loop length] in *.
  destruct (_ <? _); [apply IH; lia|].
  destruct (utf8_lead _) as [[extra code]|]; [|done].
  destruct (length s <? extra)%nat; [done|].
  destruct (utf8_continuation _ _); [|done].
  destruct (utf8_code_ok _ _); [|done].
  apply IH; rewrite length_drop; lia.
Qed.

Lemma is_valid_utf8_fuel s f : (length s <= f)%nat -> utf8_loop f s = is_valid_utf8 s.
Proof. intros Hf. by apply utf8_loop_fuel. Qed.

Lemma utf8_loop_app f a b :
  (length a <= f)%nat -> utf8_loop f a = true ->
  is_valid_utf8 (a ++ b) = is_valid_utf8 b.
Proof.
  revert a. induction f as [|f IH]; intros a Hf Ha.
  { by destruct a; [|cbn in Hf; lia]. }
  destruct a as [|c a]; [done|]. unfold is_valid_utf8. cbn [app length utf8_loop] in *.
  destruct (Byte.to_N c <? 128) eqn:E.
  { apply IH; [lia|done]. }
  destruct (utf8_lead _) as [[extra code]|]; [|done].
  destruct (length a <? extra)%nat eqn:Hx; [done|]. apply Nat.ltb_ge in Hx.
  rewrite (proj2 (Nat.ltb_ge _ _)) by (rewrite length_app; lia).
  rewrite take_app_le, drop_app_le by done.
  destruct (utf8_continuation _ _); [|done].
  destruct (utf8_code_ok _ _); [|done].
  rewrite is_valid_utf8_fuel by (rewrite !length_app, length_drop; lia).
  apply IH; [rewrite length_drop; lia|done].
Qed.

Lemma is_valid_utf8_app a b : is_valid_utf8 a = true -> is_valid_utf8 (a ++ b) = is_valid_utf8 b.
Proof. intros Ha. by apply (utf8_loop_app (length a)). Qed.

(** Texts of ASCII bytes. *)
Definition ascii_text (s : bytes) : Prop := Forall (fun b => Byte.to_N b < 0x80) s.

Lemma ascii_is_valid s : ascii_text s -> is_valid_utf8 s = true.
Proof.
  unfold is_valid_utf8. induction 1 as [|b s Hb Hs IH]; [done|].
  cbn [length utf8_loop]. by rewrite (proj2 (N.ltb_lt _ _)).
Qed.

(** Bit facts of the encoder's bytes, by enumeration of their payload. *)
Definition below (n : nat) : list N := N.of_nat <$> seq 0 n.

Lemma forall_below (P : N -> bool) n x :
  forallb P (below n) = true -> x < N.of_nat n -> P x = true.
Proof.
  intros HP Hx. rewrite forallb_forall in HP. apply HP.
  apply list_elem_of_In, list_elem_of_fmap. exists (N.to_nat x).
  split; [by rewrite N2Nat.id|]. apply elem_of_seq. lia.
Qed.

Lemma continuation_byte x :
  x < 64 ->
  N.land (Byte.to_N (byte_of_N (0x80 + x))) 0xC0 = 0x80 /\
  N.land (Byte.to_N (byte_of_N (0x80 + x))) 0x3F = x.
Proof.
  intros Hx.
  pose proof (forall_below (fun x =>
    (N.land (Byte.to_N (byte_of_N (0x80 + x))) 0xC0 =? 0x80) &&
    (N.land (Byte.to_N (byte_of_N (0x80 + x))) 0x3F =? x)) 64 x eq_refl Hx) as Hb.
  cbn beta in Hb. to_prop. done.
Qed.

Definition lead_is (base : N) (extra : nat) (x : N) : bool :=
  let l := Byte.to_N (byte_of_N (base + x)) in
  negb (l <? 0x80) &&
  match utf8_lead l with
  | Some (e, code) => (e =? extra)%nat && (code =? x)
  | None => false
  end.

Lemma lead_is_spec base extra x rest f :
  lead_is base extra x = true ->
  utf8_loop (S f) (byte_of_N (base + x) :: rest) =
  if (length rest <? extra)%nat then false
  else match utf8_continuation (take extra rest) x with
       | None => false
       | Some code => if utf8_code_ok extra code then utf8_loop f (drop extra rest) else false
       end.
Proof.
  unfold lead_is. intros Hl. apply andb_prop in Hl as [H1 H2]. apply negb_true_iff in H1.
  cbn [utf8_loop]. rewrite H1. destruct (utf8_lead _) as [[e code]|]; [|done].
  apply andb_prop in H2 as [He%Nat.eqb_eq Hc%N.eqb_eq]. by subst.
Qed.

Lemma utf8_continuation_step x l code :
  x < 64 ->
  utf8_continuation (byte_of_N (0x80 + x) :: l) code = utf8_continuation l (code * 64 + x).
Proof.
  intros Hx. cbn [utf8_continuation]. destruct (continuation_byte x Hx) as [-> ->].
  cbn [N.eqb negb Pos.eqb]. f_equal. rewrite <-N.lxor_lor, <-N.add_nocarry_lxor.
  - by rewrite N.shiftl_mul_pow2.
  - apply N.bits_inj_0. intros i. rewrite N.land_spec.
    destruct (N.lt_ge_cases i 6); [by rewrite N.shiftl_spec_low|].
    rewrite <-(N.mod_small x (2 ^ 6)) by done. rewrite N.mod_pow2_bits_high by done.
    apply andb_false_r.
  - apply N.bits_inj_0. intros i. rewrite N.land_spec.
    destruct (N.lt_ge_cases i 6); [by rewrite N.shiftl_spec_low|].
    rewrite <-(N.mod_small x (2 ^ 6)) by done. rewrite N.mod_pow2_bits_high by done.
    apply andb_false_r.
Qed.

Lemma mod64_lt x : x mod 64 < 64.
Proof. by apply N.mod_lt. Qed.

Lemma div64_join x : x / 64 * 64 + x mod 64 = x.
Proof. pose proof (N.div_mod' x 64). lia. Qed.

#[local] Hint Resolve mod64_lt : isf.

Lemma utf8_code_ok_spec extra c :
  scalar_value c -> (extra = 2%nat -> 0x800 <= c) -> (extra = 3%nat -> 0x10000 <= c) ->
  utf8_code_ok extra c = true.
Proof.
  intros [Hmax Hsur] H2 H3. unfold utf8_code_ok.
  destruct (Nat.eqb_spec extra 2); cbn [andb].
  { rewrite (proj2 (N.ltb_ge c 0x800)) by auto. subst. cbn [Nat.eqb andb].
    rewrite (proj2 (N.ltb_ge _ _)) by done.
    destruct (N.leb_spec 0xD800 c), (N.leb_spec c 0xDFFF); cbn; lia || done. }
  destruct (Nat.eqb_spec extra 3); cbn [andb].
  { rewrite (proj2 (N.ltb_ge c 0x10000)) by auto.
    rewrite (proj2 (N.ltb_ge _ _)) by done.
    destruct (N.leb_spec 0xD800 c), (N.leb_spec c 0xDFFF); cbn; lia || done. }
  rewrite (proj2 (N.ltb_ge _ _)) by done.
  destruct (N.leb_spec 0xD800 c), (N.leb_spec c 0xDFFF); cbn; lia || done.
Qed.

Lemma utf8_encode_valid c rest :
  scalar_value c -> is_valid_utf8 (utf8_encode c ++ rest) = is_valid_utf8 rest.
Proof.
  intros Hc. pose proof Hc as [Hmax _]. unfold utf8_encode.
  destruct (N.ltb_spec c 0x80) as [H1|H1].
  { apply is_valid_utf8_app, ascii_is_valid. constructor; [|constructor].
    rewrite to_N_byte_of_N, N.mod_small; lia. }
  destruct (N.ltb_spec c 0x800) as [H2|H2]; [|destruct (N.ltb_spec c 0x10000) as [H3|H3]];
    unfold is_valid_utf8 at 1; cbn [app length].
  - assert (2 <= c / 64 < 32) as Hd.
    { split; [apply N.div_le_lower_bound; lia|apply N.Div0.div_lt_upper_bound; lia]. }
    rewrite (lead_is_spec 0xC0 1).
    2:{ pose proof (forall_below (fun x => (x <? 2) || lead_is 0xC0 1 x) 32 (c / 64) eq_refl
          ltac:(lia)) as Hl. cbn beta in Hl. apply orb_prop in Hl as [Hl|Hl]; [to_prop; lia|done]. }
    cbn [length Nat.ltb Nat.leb firstn skipn]. rewrite utf8_continuation_step by auto with isf.
    rewrite take_0, drop_0. cbn [utf8_continuation]. rewrite div64_join, utf8_code_ok_spec by done.
    apply is_valid_utf8_fuel. lia.
  - assert (c / 64 / 64 < 16) as Hd by (repeat (apply N.Div0.div_lt_upper_bound); lia).
    rewrite (lead_is_spec 0xE0 2) by (by apply (forall_below (lead_is 0xE0 2) 16)).
    cbn [length Nat.ltb Nat.leb firstn skipn]. rewrite !utf8_continuation_step by auto with isf.
    rewrite take_0, drop_0. cbn [utf8_continuation]. rewrite !div64_join, utf8_code_ok_spec by done.
    apply is_valid_utf8_fuel. lia.
  - assert (c / 64 / 64 / 64 < 8) as Hd by (repeat (apply N.Div0.div_lt_upper_bound); lia).
    rewrite (lead_is_spec 0xF0 3) by (by apply (forall_below (lead_is 0xF0 3) 8)).
    cbn [length Nat.ltb Nat.leb firstn skipn]. rewrite !utf8_continuation_step by auto with isf.
    rewrite take_0, drop_0. cbn [utf8_continuation]. rewrite !div64_join, utf8_code_ok_spec by done.
    apply is_valid_utf8_fuel. lia.
Qed.

(** ** Properties *)

(** String validation accepts the UTF-8 encoding of every sequence of
    Unicode scalar values, of any length and with every form from one to four
    bytes. *)
Theorem utf8_accepts_scalar_texts cs :
  Forall scalar_value cs -> is_valid_utf8 (mjoin (utf8_encode <$> cs)) = true.
Proof.
  induction 1 as [|c cs Hc Hcs IH]; [done|]. csimpl. by rewrite utf8_encode_valid.
Qed.

Lemma utf8_accepts_scalar_texts_witness :
  Forall scalar_value [0x41; 0xE9; 0x20AC; 0x1F600] /\
  is_valid_utf8 (mjoin (utf8_encode <$> [0x41; 0xE9; 0x20AC; 0x1F600])) = true.
Proof.
  assert (Forall scalar_value [0x41; 0xE9; 0x20AC; 0x1F600]) as Hs
    by (repeat constructor; cbn; lia).
  split; [exact Hs|exact (utf8_accepts_scalar_texts _ Hs)].
Defined.

(** String validation accepts an overlong form: the two bytes C1 81 pass,
    and their payload is the code point 0x41, whose encoding is the single byte
    41.  Two different byte strings can therefore denote one name. *)
Theorem utf8_accepts_overlong :
  is_valid_utf8 [xc1; x81] = true /\
  utf8_lead (Byte.to_N xc1) = Some (1%nat, 1) /\
  utf8_continuation [x81] 1 = Some 0x41 /\
  utf8_encode 0x41 = [x41].
Proof. by vm_compute. Qed.
