(* ===== verification/Model.v ===== *)
(** * Authoritative records (include/isf/model.hpp)

    Sites, inter-site paths, shared risk domains, capacity attestations,
    grants with their binding, verifications and oversubscription authorities.
    [set_<field>] is the assignment to one member of a record copy. *)

From S2P Require Import Prelude Outcome Ids Lifecycle Wire.

Module GrantClass.
Inductive t := General | Protected.
#[export] Instance t_eq_dec : EqDecision t.
Proof. solve_decision. Defined.
End GrantClass.
Export (hints) GrantClass.
Abbreviation GrantClass := GrantClass.t.

Definition grant_class_name (c : GrantClass) : bytes :=
  match c with
  | GrantClass.General => str "GENERAL"
  | GrantClass.Protected => str "PROTECTED"
  end.

Record SiteRecord := mkSiteRecord {
  site_id : SiteId;
  site_name : bytes;
  site_incarnation : Incarnation;
  site_generation : Generation;
  site_epoch : Epoch;
  site_state : SiteState;
  site_advertised_capacity : Amount;
  site_registered_at_ms : N;
  site_last_heartbeat_ms : N;
  site_missed_heartbeats : N;
  site_fence_reason : bytes;
  site_provenance : Provenance;
}.

Record PathRecord := mkPathRecord {
  path_id : PathId;
  path_name : bytes;
  path_edge : EdgeId;
  path_shared_risk_domain : DomainId;
  path_endpoint_a : SiteId;
  path_endpoint_b : SiteId;
  path_generation : Generation;
  path_capacity_generation : Generation;
  path_state : PathState;
  path_advertised : Amount;
  path_observed : Amount;
  path_authoritative_usable : Amount;
  path_unavailable : Amount;
  path_updated_at_ms : N;
  path_provenance : Provenance;
}.

Record GrantBinding := mkGrantBinding {
  b_holder : SiteId;
  b_holder_incarnation : Incarnation;
  b_holder_generation : Generation;
  b_path : PathId;
  b_path_generation : Generation;
  b_capacity_generation : Generation;
  b_policy_generation : Generation;
  b_epoch : Epoch;
  b_lease : LeaseId;
}.

Record GrantRecord := mkGrantRecord {
  g_id : GrantId;
  g_request : RequestId;
  g_arbitration : ArbSeq;
  g_binding : GrantBinding;
  g_class : GrantClass;
  g_amount : Amount;
  g_state : GrantState;
  g_verification : VerificationState;
  g_acknowledged : bool;
  g_ack_count : N;
  g_created_at_ms : N;
  g_updated_at_ms : N;
  g_expires_at_ms : N;
  g_reason : bytes;
  g_provenance : Provenance;
  g_historical : bool;
  g_ambiguous : bool;
}.

Record SharedRiskDomain := mkSharedRiskDomain {
  dom_id : DomainId;
  dom_name : bytes;
  dom_description : bytes;
}.

Record CapacityAttestation := mkCapacityAttestation {
  att_id : AttestationId;
  att_path : PathId;
  att_path_generation : Generation;
  att_capacity_generation : Generation;
  att_usable : Amount;
  att_advertised : Amount;
  att_observed : Amount;
  att_issuer : Incarnation;
  att_epoch : Epoch;
  att_principal : PrincipalId;
  att_observed_at_ms : N;
  att_evidence : Digest256;
  att_source : bytes;
}.

Record VerificationRecord := mkVerificationRecord {
  ver_id : VerificationId;
  ver_grant : GrantId;
  ver_binding : GrantBinding;
  ver_result : VerificationState;
  ver_verifier : PrincipalId;
  ver_evidence : Digest256;
  ver_at_ms : N;
  ver_detail : bytes;
}.

Record OversubscriptionAuthority := mkOversubscriptionAuthority {
  ovs_id : OversubscriptionId;
  ovs_path : PathId;
  ovs_path_generation : Generation;
  ovs_capacity_generation : Generation;
  ovs_policy_generation : Generation;
  ovs_epoch : Epoch;
  ovs_issuer : Incarnation;
  ovs_ratio_bps : N;
  ovs_issued_at_ms : N;
  ovs_not_after_ms : N;
  ovs_principal : PrincipalId;
}.

Definition is_live_at (o : OversubscriptionAuthority) (now_ms : N) : bool :=
  (ovs_not_after_ms o =? 0) || (now_ms <=? ovs_not_after_ms o).

Record SiteDescriptor := mkSiteDescriptor {
  sd_id : SiteId;
  sd_name : bytes;
  sd_advertised_capacity : Amount;
}.

Record PathDescriptor := mkPathDescriptor {
  pd_id : PathId;
  pd_name : bytes;
  pd_edge : EdgeId;
  pd_shared_risk_domain : DomainId;
  pd_endpoint_a : SiteId;
  pd_endpoint_b : SiteId;
}.

(** ** Member assignments *)

Definition set_site_name (v : bytes) (r : SiteRecord) : SiteRecord :=
  mkSiteRecord
    (site_id r) v (site_incarnation r) (site_generation r) (site_epoch r)
    (site_state r) (site_advertised_capacity r) (site_registered_at_ms r)
    (site_last_heartbeat_ms r) (site_missed_heartbeats r) (site_fence_reason r)
    (site_provenance r).

Definition set_site_incarnation (v : Incarnation) (r : SiteRecord) : SiteRecord :=
  mkSiteRecord
    (site_id r) (site_name r) v (site_generation r) (site_epoch r) (site_state r)
    (site_advertised_capacity r) (site_registered_at_ms r) (site_last_heartbeat_ms r)
    (site_missed_heartbeats r) (site_fence_reason r) (site_provenance r).

Definition set_site_generation (v : Generation) (r : SiteRecord) : SiteRecord :=
  mkSiteRecord
    (site_id r) (site_name r) (site_incarnation r) v (site_epoch r) (site_state r)
    (site_advertised_capacity r) (site_registered_at_ms r) (site_last_heartbeat_ms r)
    (site_missed_heartbeats r) (site_fence_reason r) (site_provenance r).

Definition set_site_epoch (v : Epoch) (r : SiteRecord) : SiteRecord :=
  mkSiteRecord
    (site_id r) (site_name r) (site_incarnation r) (site_generation r) v (site_state r)
    (site_advertised_capacity r) (site_registered_at_ms r) (site_last_heartbeat_ms r)
    (site_missed_heartbeats r) (site_fence_reason r) (site_provenance r).

Definition set_site_state (v : SiteState) (r : SiteRecord) : SiteRecord :=
  mkSiteRecord
    (site_id r) (site_name r) (site_incarnation r) (site_generation r) (site_epoch r) v
    (site_advertised_capacity r) (site_registered_at_ms r) (site_last_heartbeat_ms r)
    (site_missed_heartbeats r) (site_fence_reason r) (site_provenance r).

Definition set_site_advertised_capacity (v : Amount) (r : SiteRecord) : SiteRecord :=
  mkSiteRecord
    (site_id r) (site_name r) (site_incarnation r) (site_generation r) (site_epoch r)
    (site_state r) v (site_registered_at_ms r) (site_last_heartbeat_ms r)
    (site_missed_heartbeats r) (site_fence_reason r) (site_provenance r).

Definition set_site_registered_at_ms (v : N) (r : SiteRecord) : SiteRecord :=
  mkSiteRecord
    (site_id r) (site_name r) (site_incarnation r) (site_generation r) (site_epoch r)
    (site_state r) (site_advertised_capacity r) v (site_last_heartbeat_ms r)
    (site_missed_heartbeats r) (site_fence_reason r) (site_provenance r).

Definition set_site_last_heartbeat_ms (v : N) (r : SiteRecord) : SiteRecord :=
  mkSiteRecord
    (site_id r) (site_name r) (site_incarnation r) (site_generation r) (site_epoch r)
    (site_state r) (site_advertised_capacity r) (site_registered_at_ms r) v
    (site_missed_heartbeats r) (site_fence_reason r) (site_provenance r).

Definition set_site_missed_heartbeats (v : N) (r : SiteRecord) : SiteRecord :=
  mkSiteRecord
    (site_id r) (site_name r) (site_incarnation r) (site_generation r) (site_epoch r)
    (site_state r) (site_advertised_capacity r) (site_registered_at_ms r)
    (site_last_heartbeat_ms r) v (site_fence_reason r) (site_provenance r).

Definition set_site_fence_reason (v : bytes) (r : SiteRecord) : SiteRecord :=
  mkSiteRecord
    (site_id r) (site_name r) (site_incarnation r) (site_generation r) (site_epoch r)
    (site_state r) (site_advertised_capacity r) (site_registered_at_ms r)
    (site_last_heartbeat_ms r) (site_missed_heartbeats r) v (site_provenance r).

Definition set_site_provenance (v : Provenance) (r : SiteRecord) : SiteRecord :=
  mkSiteRecord
    (site_id r) (site_name r) (site_incarnation r) (site_generation r) (site_epoch r)
    (site_state r) (site_advertised_capacity r) (site_registered_at_ms r)
    (site_last_heartbeat_ms r) (site_missed_heartbeats r) (site_fence_reason r) v.

Definition set_path_name (v : bytes) (r : PathRecord) : PathRecord :=
  mkPathRecord
    (path_id r) v (path_edge r) (path_shared_risk_domain r) (path_endpoint_a r)
    (path_endpoint_b r) (path_generation r) (path_capacity_generation r) (path_state r)
    (path_advertised r) (path_observed r) (path_authoritative_usable r)
    (path_unavailable r) (path_updated_at_ms r) (path_provenance r).

Definition set_path_edge (v : EdgeId) (r : PathRecord) : PathRecord :=
  mkPathRecord
    (path_id r) (path_name r) v (path_shared_risk_domain r) (path_endpoint_a r)
    (path_endpoint_b r) (path_generation r) (path_capacity_generation r) (path_state r)
    (path_advertised r) (path_observed r) (path_authoritative_usable r)
    (path_unavailable r) (path_updated_at_ms r) (path_provenance r).

Definition set_path_shared_risk_domain (v : DomainId) (r : PathRecord) : PathRecord :=
  mkPathRecord
    (path_id r) (path_name r) (path_edge r) v (path_endpoint_a r) (path_endpoint_b r)
    (path_generation r) (path_capacity_generation r) (path_state r) (path_advertised r)
    (path_observed r) (path_authoritative_usable r) (path_unavailable r)
    (path_updated_at_ms r) (path_provenance r).

Definition set_path_endpoint_a (v : SiteId) (r : PathRecord) : PathRecord :=
  mkPathRecord
    (path_id r) (path_name r) (path_edge r) (path_shared_risk_domain r) v
    (path_endpoint_b r) (path_generation r) (path_capacity_generation r) (path_state r)
    (path_advertised r) (path_observed r) (path_authoritative_usable r)
    (path_unavailable r) (path_updated_at_ms r) (path_provenance r).

Definition set_path_endpoint_b (v : SiteId) (r : PathRecord) : PathRecord :=
  mkPathRecord
    (path_id r) (path_name r) (path_edge r) (path_shared_risk_domain r)
    (path_endpoint_a r) v (path_generation r) (path_capacity_generation r)
    (path_state r) (path_advertised r) (path_observed r) (path_authoritative_usable r)
    (path_unavailable r) (path_updated_at_ms r) (path_provenance r).

Definition set_path_generation (v : Generation) (r : PathRecord) : PathRecord :=
  mkPathRecord
    (path_id r) (path_name r) (path_edge r) (path_shared_risk_domain r)
    (path_endpoint_a r) (path_endpoint_b r) v (path_capacity_generation r)
    (path_state r) (path_advertised r) (path_observed r) (path_authoritative_usable r)
    (path_unavailable r) (path_updated_at_ms r) (path_provenance r).

Definition set_path_capacity_generation (v : Generation) (r : PathRecord) : PathRecord :=
  mkPathRecord
    (path_id r) (path_name r) (path_edge r) (path_shared_risk_domain r)
    (path_endpoint_a r) (path_endpoint_b r) (path_generation r) v (path_state r)
    (path_advertised r) (path_observed r) (path_authoritative_usable r)
    (path_unavailable r) (path_updated_at_ms r) (path_provenance r).

Definition set_path_state (v : PathState) (r : PathRecord) : PathRecord :=
  mkPathRecord
    (path_id r) (path_name r) (path_edge r) (path_shared_risk_domain r)
    (path_endpoint_a r) (path_endpoint_b r) (path_generation r)
    (path_capacity_generation r) v (path_advertised r) (path_observed r)
    (path_authoritative_usable r) (path_unavailable r) (path_updated_at_ms r)
    (path_provenance r).

Definition set_path_advertised (v : Amount) (r : PathRecord) : PathRecord :=
  mkPathRecord
    (path_id r) (path_name r) (path_edge r) (path_shared_risk_domain r)
    (path_endpoint_a r) (path_endpoint_b r) (path_generation r)
    (path_capacity_generation r) (path_state r) v (path_observed r)
    (path_authoritative_usable r) (path_unavailable r) (path_updated_at_ms r)
    (path_provenance r).

Definition set_path_observed (v : Amount) (r : PathRecord) : PathRecord :=
  mkPathRecord
    (path_id r) (path_name r) (path_edge r) (path_shared_risk_domain r)
    (path_endpoint_a r) (path_endpoint_b r) (path_generation r)
    (path_capacity_generation r) (path_state r) (path_advertised r) v
    (path_authoritative_usable r) (path_unavailable r) (path_updated_at_ms r)
    (path_provenance r).

Definition set_path_authoritative_usable (v : Amount) (r : PathRecord) : PathRecord :=
  mkPathRecord
    (path_id r) (path_name r) (path_edge r) (path_shared_risk_domain r)
    (path_endpoint_a r) (path_endpoint_b r) (path_generation r)
    (path_capacity_generation r) (path_state r) (path_advertised r) (path_observed r) v
    (path_unavailable r) (path_updated_at_ms r) (path_provenance r).

Definition set_path_unavailable (v : Amount) (r : PathRecord) : PathRecord :=
  mkPathRecord
    (path_id r) (path_name r) (path_edge r) (path_shared_risk_domain r)
    (path_endpoint_a r) (path_endpoint_b r) (path_generation r)
    (path_capacity_generation r) (path_state r) (path_advertised r) (path_observed r)
    (path_authoritative_usable r) v (path_updated_at_ms r) (path_provenance r).

Definition set_path_updated_at_ms (v : N) (r : PathRecord) : PathRecord :=
  mkPathRecord
    (path_id r) (path_name r) (path_edge r) (path_shared_risk_domain r)
    (path_endpoint_a r) (path_endpoint_b r) (path_generation r)
    (path_capacity_generation r) (path_state r) (path_advertised r) (path_observed r)
    (path_authoritative_usable r) (path_unavailable r) v (path_provenance r).

Definition set_path_provenance (v : Provenance) (r : PathRecord) : PathRecord :=
  mkPathRecord
    (path_id r) (path_name r) (path_edge r) (path_shared_risk_domain r)
    (path_endpoint_a r) (path_endpoint_b r) (path_generation r)
    (path_capacity_generation r) (path_state r) (path_advertised r) (path_observed r)
    (path_authoritative_usable r) (path_unavailable r) (path_updated_at_ms r) v.

Definition set_b_path_generation (v : Generation) (r : GrantBinding) : GrantBinding :=
  mkGrantBinding
    (b_holder r) (b_holder_incarnation r) (b_holder_generation r) (b_path r) v
    (b_capacity_generation r) (b_policy_generation r) (b_epoch r) (b_lease r).

Definition set_b_capacity_generation (v : Generation) (r : GrantBinding) : GrantBinding :=
  mkGrantBinding
    (b_holder r) (b_holder_incarnation r) (b_holder_generation r) (b_path r)
    (b_path_generation r) v (b_policy_generation r) (b_epoch r) (b_lease r).

Definition set_b_policy_generation (v : Generation) (r : GrantBinding) : GrantBinding :=
  mkGrantBinding
    (b_holder r) (b_holder_incarnation r) (b_holder_generation r) (b_path r)
    (b_path_generation r) (b_capacity_generation r) v (b_epoch r) (b_lease r).

Definition set_g_binding (v : GrantBinding) (r : GrantRecord) : GrantRecord :=
  mkGrantRecord
    (g_id r) (g_request r) (g_arbitration r) v (g_class r) (g_amount r) (g_state r)
    (g_verification r) (g_acknowledged r) (g_ack_count r) (g_created_at_ms r)
    (g_updated_at_ms r) (g_expires_at_ms r) (g_reason r) (g_provenance r)
    (g_historical r) (g_ambiguous r).

Definition set_g_state (v : GrantState) (r : GrantRecord) : GrantRecord :=
  mkGrantRecord
    (g_id r) (g_request r) (g_arbitration r) (g_binding r) (g_class r) (g_amount r) v
    (g_verification r) (g_acknowledged r) (g_ack_count r) (g_created_at_ms r)
    (g_updated_at_ms r) (g_expires_at_ms r) (g_reason r) (g_provenance r)
    (g_historical r) (g_ambiguous r).

Definition set_g_verification (v : VerificationState) (r : GrantRecord) : GrantRecord :=
  mkGrantRecord
    (g_id r) (g_request r) (g_arbitration r) (g_binding r) (g_class r) (g_amount r)
    (g_state r) v (g_acknowledged r) (g_ack_count r) (g_created_at_ms r)
    (g_updated_at_ms r) (g_expires_at_ms r) (g_reason r) (g_provenance r)
    (g_historical r) (g_ambiguous r).

Definition set_g_acknowledged (v : bool) (r : GrantRecord) : GrantRecord :=
  mkGrantRecord
    (g_id r) (g_request r) (g_arbitration r) (g_binding r) (g_class r) (g_amount r)
    (g_state r) (g_verification r) v (g_ack_count r) (g_created_at_ms r)
    (g_updated_at_ms r) (g_expires_at_ms r) (g_reason r) (g_provenance r)
    (g_historical r) (g_ambiguous r).

Definition set_g_ack_count (v : N) (r : GrantRecord) : GrantRecord :=
  mkGrantRecord
    (g_id r) (g_request r) (g_arbitration r) (g_binding r) (g_class r) (g_amount r)
    (g_state r) (g_verification r) (g_acknowledged r) v (g_created_at_ms r)
    (g_updated_at_ms r) (g_expires_at_ms r) (g_reason r) (g_provenance r)
    (g_historical r) (g_ambiguous r).

Definition set_g_updated_at_ms (v : N) (r : GrantRecord) : GrantRecord :=
  mkGrantRecord
    (g_id r) (g_request r) (g_arbitration r) (g_binding r) (g_class r) (g_amount r)
    (g_state r) (g_verification r) (g_acknowledged r) (g_ack_count r)
    (g_created_at_ms r) v (g_expires_at_ms r) (g_reason r) (g_provenance r)
    (g_historical r) (g_ambiguous r).

Definition set_g_reason (v : bytes) (r : GrantRecord) : GrantRecord :=
  mkGrantRecord
    (g_id r) (g_request r) (g_arbitration r) (g_binding r) (g_class r) (g_amount r)
    (g_state r) (g_verification r) (g_acknowledged r) (g_ack_count r)
    (g_created_at_ms r) (g_updated_at_ms r) (g_expires_at_ms r) v (g_provenance r)
    (g_historical r) (g_ambiguous r).

Definition set_g_provenance (v : Provenance) (r : GrantRecord) : GrantRecord :=
  mkGrantRecord
    (g_id r) (g_request r) (g_arbitration r) (g_binding r) (g_class r) (g_amount r)
    (g_state r) (g_verification r) (g_acknowledged r) (g_ack_count r)
    (g_created_at_ms r) (g_updated_at_ms r) (g_expires_at_ms r) (g_reason r) v
    (g_historical r) (g_ambiguous r).

Definition set_g_historical (v : bool) (r : GrantRecord) : GrantRecord :=
  mkGrantRecord
    (g_id r) (g_request r) (g_arbitration r) (g_binding r) (g_class r) (g_amount r)
    (g_state r) (g_verification r) (g_acknowledged r) (g_ack_count r)
    (g_created_at_ms r) (g_updated_at_ms r) (g_expires_at_ms r) (g_reason r)
    (g_provenance r) v (g_ambiguous r).

Definition set_g_ambiguous (v : bool) (r : GrantRecord) : GrantRecord :=
  mkGrantRecord
    (g_id r) (g_request r) (g_arbitration r) (g_binding r) (g_class r) (g_amount r)
    (g_state r) (g_verification r) (g_acknowledged r) (g_ack_count r)
    (g_created_at_ms r) (g_updated_at_ms r) (g_expires_at_ms r) (g_reason r)
    (g_provenance r) (g_historical r) v.

