(* ===== verification/Codecs.v ===== *)
(** * Record codecs (src/model.cpp)

    The canonical encoder and decoder of every authoritative record, each an
    instance of [Codec]: decoding the encoding of a well-formed record gives
    the record back and leaves the rest of the input. *)

From Stdlib Require Import Strings.Byte.
From S2P Require Import Prelude Outcome Ids Lifecycle Policy Wire Model.

(** ** Enumerators as bytes *)

(** [static_cast<std::uint8_t>(e)]: the position in the enumeration. *)
Definition enum_value {A} `{EqDecision A} (all : list A) (e : A) : N :=
  match list_find (eq e) all with
  | Some (i, _) => N.of_nat i
  | None => 0
  end.

Definition verification_states : list VerificationState :=
  [VerificationState.Unverified; VerificationState.Verified; VerificationState.Failed;
   VerificationState.Indeterminate].

Definition provenances : list Provenance :=
  [Provenance.Live; Provenance.RecoveredFromSnapshot; Provenance.RecoveredFromLog;
   Provenance.PartitionRecovery; Provenance.OperatorReconcile; Provenance.AmbiguousCommit;
   Provenance.FencedIncarnation].

Definition grant_classes : list GrantClass := [GrantClass.General; GrantClass.Protected].

Definition w_enum {A} `{EqDecision A} (all : list A) (e : A) : bytes := w_u8 (enum_value all e).

Definition kMaxReasonBytes : nat := 512.

Definition encode_string_bounded (v : bytes) : bytes :=
  w_str (if (kMaxReasonBytes <? length v)%nat then take kMaxReasonBytes v else v).

(** ** Encoders and decoders *)

Definition encode_site (v : SiteRecord) : bytes :=
  w_id128 (raw (site_id v)) ++
  w_str (site_name v) ++
  w_id128 (raw (site_incarnation v)) ++
  w_generation (site_generation v) ++
  w_epoch (site_epoch v) ++
  w_enum site_states (site_state v) ++
  w_u64 (site_advertised_capacity v) ++
  w_u64 (site_registered_at_ms v) ++
  w_u64 (site_last_heartbeat_ms v) ++
  w_u32 (site_missed_heartbeats v) ++
  encode_string_bounded (site_fence_reason v) ++
  w_enum provenances (site_provenance v).

Definition decode_site : reader SiteRecord :=
  id ← r_id128;
  name ← r_str;
  incarnation ← r_id128;
  generation ← r_generation;
  epoch ← r_epoch;
  state ← r_enum site_states;
  advertised ← r_u64;
  registered ← r_u64;
  heartbeat ← r_u64;
  missed ← r_u32;
  reason ← r_str;
  provenance ← r_enum provenances;
  mret (mkSiteRecord (from_raw id) name (from_raw incarnation) generation epoch state
          advertised registered heartbeat missed reason provenance).

Definition encode_path (v : PathRecord) : bytes :=
  w_id128 (raw (path_id v)) ++
  w_str (path_name v) ++
  w_id128 (raw (path_edge v)) ++
  w_id128 (raw (path_shared_risk_domain v)) ++
  w_id128 (raw (path_endpoint_a v)) ++
  w_id128 (raw (path_endpoint_b v)) ++
  w_generation (path_generation v) ++
  w_generation (path_capacity_generation v) ++
  w_enum path_states (path_state v) ++
  w_u64 (path_advertised v) ++
  w_u64 (path_observed v) ++
  w_u64 (path_authoritative_usable v) ++
  w_u64 (path_unavailable v) ++
  w_u64 (path_updated_at_ms v) ++
  w_enum provenances (path_provenance v).

Definition decode_path : reader PathRecord :=
  id ← r_id128;
  name ← r_str;
  edge ← r_id128;
  domain ← r_id128;
  a ← r_id128;
  b ← r_id128;
  generation ← r_generation;
  capacity_generation ← r_generation;
  state ← r_enum path_states;
  advertised ← r_u64;
  observed ← r_u64;
  usable ← r_u64;
  unavailable ← r_u64;
  if usable <? unavailable then r_fail Status.Conflicting
  else
  updated ← r_u64;
  provenance ← r_enum provenances;
  mret (mkPathRecord (from_raw id) name (from_raw edge) (from_raw domain) (from_raw a)
          (from_raw b) generation capacity_generation state advertised observed usable
          unavailable updated provenance).

Definition encode_domain (v : SharedRiskDomain) : bytes :=
  w_id128 (raw (dom_id v)) ++ w_str (dom_name v) ++ w_str (dom_description v).

Definition decode_domain : reader SharedRiskDomain :=
  id ← r_id128;
  name ← r_str;
  description ← r_str;
  mret (mkSharedRiskDomain (from_raw id) name description).

Definition encode_attestation (v : CapacityAttestation) : bytes :=
  w_id128 (raw (att_id v)) ++
  w_id128 (raw (att_path v)) ++
  w_generation (att_path_generation v) ++
  w_generation (att_capacity_generation v) ++
  w_u64 (att_usable v) ++
  w_u64 (att_advertised v) ++
  w_u64 (att_observed v) ++
  w_id128 (raw (att_issuer v)) ++
  w_epoch (att_epoch v) ++
  w_id128 (raw (att_principal v)) ++
  w_u64 (att_observed_at_ms v) ++
  w_digest (att_evidence v) ++
  encode_string_bounded (att_source v).

Definition decode_attestation : reader CapacityAttestation :=
  id ← r_id128;
  path ← r_id128;
  path_generation ← r_generation;
  capacity_generation ← r_generation;
  usable ← r_u64;
  advertised ← r_u64;
  observed ← r_u64;
  issuer ← r_id128;
  epoch ← r_epoch;
  principal ← r_id128;
  observed_at ← r_u64;
  evidence ← r_digest;
  source ← r_str;
  mret (mkCapacityAttestation (from_raw id) (from_raw path) path_generation
          capacity_generation usable advertised observed (from_raw issuer) epoch
          (from_raw principal) observed_at evidence source).

Definition encode_binding (v : GrantBinding) : bytes :=
  w_id128 (raw (b_holder v)) ++
  w_id128 (raw (b_holder_incarnation v)) ++
  w_generation (b_holder_generation v) ++
  w_id128 (raw (b_path v)) ++
  w_generation (b_path_generation v) ++
  w_generation (b_capacity_generation v) ++
  w_generation (b_policy_generation v) ++
  w_epoch (b_epoch v) ++
  w_id128 (raw (b_lease v)).

Definition decode_binding : reader GrantBinding :=
  holder ← r_id128;
  incarnation ← r_id128;
  holder_generation ← r_generation;
  path ← r_id128;
  path_generation ← r_generation;
  capacity_generation ← r_generation;
  policy_generation ← r_generation;
  epoch ← r_epoch;
  lease ← r_id128;
  mret (mkGrantBinding (from_raw holder) (from_raw incarnation) holder_generation
          (from_raw path) path_generation capacity_generation policy_generation epoch
          (from_raw lease)).

Definition encode_grant (v : GrantRecord) : bytes :=
  w_id128 (raw (g_id v)) ++
  w_id128 (raw (g_request v)) ++
  w_u64 (arb_value (g_arbitration v)) ++
  encode_binding (g_binding v) ++
  w_enum grant_classes (g_class v) ++
  w_u64 (g_amount v) ++
  w_enum grant_states (g_state v) ++
  w_enum verification_states (g_verification v) ++
  w_boolean (g_acknowledged v) ++
  w_u32 (g_ack_count v) ++
  w_u64 (g_created_at_ms v) ++
  w_u64 (g_updated_at_ms v) ++
  w_u64 (g_expires_at_ms v) ++
  encode_string_bounded (g_reason v) ++
  w_enum provenances (g_provenance v) ++
  w_boolean (g_historical v) ++
  w_boolean (g_ambiguous v).

Definition decode_grant : reader GrantRecord :=
  id ← r_id128;
  request ← r_id128;
  arbitration ← r_u64;
  binding ← decode_binding;
  grant_class ← r_enum grant_classes;
  amount ← r_u64;
  state ← r_enum grant_states;
  verification ← r_enum verification_states;
  ack ← r_boolean;
  ack_count ← r_u32;
  created ← r_u64;
  updated ← r_u64;
  expires ← r_u64;
  reason ← r_str;
  provenance ← r_enum provenances;
  historical ← r_boolean;
  ambiguous ← r_boolean;
  mret (mkGrantRecord (from_raw id) (from_raw request) (mkArbSeq arbitration) binding
          grant_class amount state verification ack ack_count created updated expires
          reason provenance historical ambiguous).

Definition encode_verification (v : VerificationRecord) : bytes :=
  w_id128 (raw (ver_id v)) ++
  w_id128 (raw (ver_grant v)) ++
  encode_binding (ver_binding v) ++
  w_enum verification_states (ver_result v) ++
  w_id128 (raw (ver_verifier v)) ++
  w_digest (ver_evidence v) ++
  w_u64 (ver_at_ms v) ++
  encode_string_bounded (ver_detail v).

Definition decode_verification : reader VerificationRecord :=
  id ← r_id128;
  grant ← r_id128;
  binding ← decode_binding;
  result ← r_enum verification_states;
  verifier ← r_id128;
  evidence ← r_digest;
  at_ms ← r_u64;
  detail ← r_str;
  mret (mkVerificationRecord (from_raw id) (from_raw grant) binding result
          (from_raw verifier) evidence at_ms detail).

Definition encode_oversubscription (v : OversubscriptionAuthority) : bytes :=
  w_id128 (raw (ovs_id v)) ++
  w_id128 (raw (ovs_path v)) ++
  w_generation (ovs_path_generation v) ++
  w_generation (ovs_capacity_generation v) ++
  w_generation (ovs_policy_generation v) ++
  w_epoch (ovs_epoch v) ++
  w_id128 (raw (ovs_issuer v)) ++
  w_u32 (ovs_ratio_bps v) ++
  w_u64 (ovs_issued_at_ms v) ++
  w_u64 (ovs_not_after_ms v) ++
  w_id128 (raw (ovs_principal v)).

Definition decode_oversubscription : reader OversubscriptionAuthority :=
  id ← r_id128;
  path ← r_id128;
  path_generation ← r_generation;
  capacity_generation ← r_generation;
  policy_generation ← r_generation;
  epoch ← r_epoch;
  issuer ← r_id128;
  ratio ← r_u32;
  issued ← r_u64;
  not_after ← r_u64;
  principal ← r_id128;
  mret (mkOversubscriptionAuthority (from_raw id) (from_raw path) path_generation
          capacity_generation policy_generation epoch (from_raw issuer) ratio issued
          not_after (from_raw principal)).

Definition encode_policy (v : Policy) : bytes :=
  w_id128 (raw (pol_id v)) ++
  w_generation (pol_generation v) ++
  w_u64 (protected_floor_units v) ++
  w_u32 (protected_floor_bps v) ++
  w_u64 (min_free_units v) ++
  w_u32 (min_free_bps v) ++
  w_u32 (max_oversubscription_bps v) ++
  w_u64 (max_lease_duration_ms v) ++
  w_u32 (max_grants_per_path v) ++
  w_u32 (max_grants_per_site v) ++
  w_u32 (max_srd_concentration_bps v) ++
  w_boolean (allow_degraded_activation v) ++
  w_boolean (allow_partition_optimistic_recovery v) ++
  w_boolean (require_verification_for_active v) ++
  w_boolean (auto_reconcile_on_restart v) ++
  w_u64 (site_lease_timeout_ms v).

Definition decode_policy : reader Policy :=
  id ← r_id128;
  generation ← r_generation;
  protected_units ← r_u64;
  protected_bps ← r_u32;
  min_units ← r_u64;
  min_bps ← r_u32;
  oversub ← r_u32;
  lease ← r_u64;
  per_path ← r_u32;
  per_site ← r_u32;
  concentration ← r_u32;
  degraded ← r_boolean;
  optimistic ← r_boolean;
  require_verification ← r_boolean;
  auto_reconcile ← r_boolean;
  site_lease ← r_u64;
  mret (mkPolicy (from_raw id) generation protected_units protected_bps min_units min_bps
          oversub lease per_path per_site concentration degraded optimistic
          require_verification auto_reconcile site_lease).

(** ** Well-formed records *)

Definition bounded_str_wf (lim : WireLimits) (s : bytes) : Prop :=
  (length s <= kMaxReasonBytes)%nat /\ str_wf lim s.

Definition site_wf (lim : WireLimits) (v : SiteRecord) : Prop :=
  id_wf (raw (site_id v)) /\ str_wf lim (site_name v) /\ id_wf (raw (site_incarnation v)) /\
  u64_ok (gen_value (site_generation v)) /\ u64_ok (epoch_value (site_epoch v)) /\
  u64_ok (site_advertised_capacity v) /\ u64_ok (site_registered_at_ms v) /\
  u64_ok (site_last_heartbeat_ms v) /\ u32_ok (site_missed_heartbeats v) /\
  bounded_str_wf lim (site_fence_reason v).

Definition path_wf (lim : WireLimits) (v : PathRecord) : Prop :=
  id_wf (raw (path_id v)) /\ str_wf lim (path_name v) /\ id_wf (raw (path_edge v)) /\
  id_wf (raw (path_shared_risk_domain v)) /\ id_wf (raw (path_endpoint_a v)) /\
  id_wf (raw (path_endpoint_b v)) /\ u64_ok (gen_value (path_generation v)) /\
  u64_ok (gen_value (path_capacity_generation v)) /\ u64_ok (path_advertised v) /\
  u64_ok (path_observed v) /\ u64_ok (path_authoritative_usable v) /\
  u64_ok (path_unavailable v) /\ path_unavailable v <= path_authoritative_usable v /\
  u64_ok (path_updated_at_ms v).

Definition domain_wf (lim : WireLimits) (v : SharedRiskDomain) : Prop :=
  id_wf (raw (dom_id v)) /\ str_wf lim (dom_name v) /\ str_wf lim (dom_description v).

Definition attestation_wf (lim : WireLimits) (v : CapacityAttestation) : Prop :=
  id_wf (raw (att_id v)) /\ id_wf (raw (att_path v)) /\
  u64_ok (gen_value (att_path_generation v)) /\ u64_ok (gen_value (att_capacity_generation v)) /\
  u64_ok (att_usable v) /\ u64_ok (att_advertised v) /\ u64_ok (att_observed v) /\
  id_wf (raw (att_issuer v)) /\ u64_ok (epoch_value (att_epoch v)) /\
  id_wf (raw (att_principal v)) /\ u64_ok (att_observed_at_ms v) /\
  digest_wf (att_evidence v) /\ bounded_str_wf lim (att_source v).

Definition binding_wf (v : GrantBinding) : Prop :=
  id_wf (raw (b_holder v)) /\ id_wf (raw (b_holder_incarnation v)) /\
  u64_ok (gen_value (b_holder_generation v)) /\ id_wf (raw (b_path v)) /\
  u64_ok (gen_value (b_path_generation v)) /\ u64_ok (gen_value (b_capacity_generation v)) /\
  u64_ok (gen_value (b_policy_generation v)) /\ u64_ok (epoch_value (b_epoch v)) /\
  id_wf (raw (b_lease v)).

Definition grant_wf (lim : WireLimits) (v : GrantRecord) : Prop :=
  id_wf (raw (g_id v)) /\ id_wf (raw (g_request v)) /\ u64_ok (arb_value (g_arbitration v)) /\
  binding_wf (g_binding v) /\ u64_ok (g_amount v) /\ u32_ok (g_ack_count v) /\
  u64_ok (g_created_at_ms v) /\ u64_ok (g_updated_at_ms v) /\ u64_ok (g_expires_at_ms v) /\
  bounded_str_wf lim (g_reason v).

Definition verification_wf (lim : WireLimits) (v : VerificationRecord) : Prop :=
  id_wf (raw (ver_id v)) /\ id_wf (raw (ver_grant v)) /\ binding_wf (ver_binding v) /\
  id_wf (raw (ver_verifier v)) /\ digest_wf (ver_evidence v) /\ u64_ok (ver_at_ms v) /\
  bounded_str_wf lim (ver_detail v).

Definition oversubscription_wf (v : OversubscriptionAuthority) : Prop :=
  id_wf (raw (ovs_id v)) /\ id_wf (raw (ovs_path v)) /\
  u64_ok (gen_value (ovs_path_generation v)) /\ u64_ok (gen_value (ovs_capacity_generation v)) /\
  u64_ok (gen_value (ovs_policy_generation v)) /\ u64_ok (epoch_value (ovs_epoch v)) /\
  id_wf (raw (ovs_issuer v)) /\ u32_ok (ovs_ratio_bps v) /\ u64_ok (ovs_issued_at_ms v) /\
  u64_ok (ovs_not_after_ms v) /\ id_wf (raw (ovs_principal v)).

Definition policy_wf (v : Policy) : Prop :=
  id_wf (raw (pol_id v)) /\ u64_ok (gen_value (pol_generation v)) /\
  u64_ok (protected_floor_units v) /\ u32_ok (protected_floor_bps v) /\
  u64_ok (min_free_units v) /\ u32_ok (min_free_bps v) /\
  u32_ok (max_oversubscription_bps v) /\ u64_ok (max_lease_duration_ms v) /\
  u32_ok (max_grants_per_path v) /\ u32_ok (max_grants_per_site v) /\
  u32_ok (max_srd_concentration_bps v) /\ u64_ok (site_lease_timeout_ms v).

(** ** Round trips *)

Lemma from_raw_raw {tag} (i : TypedId tag) : from_raw (raw i) = i.
Proof. by destruct i. Qed.

Lemma r_enum_w_enum {A} `{EqDecision A} lim (all : list A) (e : A) rest :
  all !! N.to_nat (enum_value all e) = Some e -> enum_value all e < 256 ->
  r_enum all lim (w_enum all e ++ rest) = Ok (e, rest).
Proof. intros. by apply r_enum_w. Qed.

Lemma r_str_bounded lim s rest :
  bounded_str_wf lim s -> r_str lim (encode_string_bounded s ++ rest) = Ok (s, rest).
Proof.
  intros [Hl Hs]. unfold encode_string_bounded.
  rewrite (proj2 (Nat.ltb_ge _ _)) by done. by apply r_str_w.
Qed.

Lemma r_arb_w lim (a : ArbSeq) rest :
  u64_ok (arb_value a) -> r_u64 lim (w_u64 (arb_value a) ++ rest) = Ok (arb_value a, rest).
Proof. apply r_u64_w. Qed.

(** One step of a decoder: the reader at its head undoes the writer at the head
    of the input. *)
Lemma reader_bind_step {A B} (m : reader A) (f : A -> reader B) lim data a rest r :
  m lim data = Ok (a, rest) -> f a lim rest = r -> (m ≫= f) lim data = r.
Proof. intros Hm Hf. unfold mbind, reader_bind. by rewrite Hm. Qed.

Ltac codec_read :=
  lazymatch goal with
  | |- r_u64 _ (w_u64 _ ++ _) = _ => apply r_u64_w; assumption
  | |- r_u32 _ (w_u32 _ ++ _) = _ => apply r_u32_w; assumption
  | |- r_u16 _ (w_u16 _ ++ _) = _ => apply r_u16_w; assumption
  | |- r_id128 _ _ = _ => apply r_id128_w; assumption
  | |- r_boolean _ _ = _ => apply r_boolean_w
  | |- r_generation _ _ = _ => apply r_generation_w; assumption
  | |- r_epoch _ _ = _ => apply r_epoch_w; assumption
  | |- r_digest _ _ = _ => apply r_digest_w; assumption
  | |- r_str _ (w_str _ ++ _) = _ => apply r_str_w; assumption
  | |- r_str _ (encode_string_bounded _ ++ _) = _ => apply r_str_bounded; assumption
  | |- r_bytes _ (w_bytes _ ++ _) = _ => apply r_bytes_w; assumption
  | |- r_enum _ _ (w_enum _ ?e ++ _) = _ => apply r_enum_w_enum; destruct e; reflexivity
  end.

Ltac codec_field := eapply reader_bind_step; [solve [codec_read | eauto 2 with codec nocore]|cbv beta].

Create HintDb codec.

Ltac codec_roundtrip_tac :=
  rewrite <-?app_assoc; repeat codec_field; cbv [mret reader_ret]; rewrite ?from_raw_raw.

Lemma decode_encode_site lim v rest :
  site_wf lim v -> decode_site lim (encode_site v ++ rest) = Ok (v, rest).
Proof.
  intros Hwf. unfold site_wf in Hwf. destruct_and!. unfold encode_site, decode_site.
  codec_roundtrip_tac. by destruct v.
Qed.

Lemma decode_encode_path lim v rest :
  path_wf lim v -> decode_path lim (encode_path v ++ rest) = Ok (v, rest).
Proof.
  intros Hwf. unfold path_wf in Hwf. destruct_and!. unfold encode_path, decode_path.
  codec_roundtrip_tac. rewrite (proj2 (N.ltb_ge _ _)) by done.
  codec_roundtrip_tac. by destruct v.
Qed.

Lemma decode_encode_domain lim v rest :
  domain_wf lim v -> decode_domain lim (encode_domain v ++ rest) = Ok (v, rest).
Proof.
  intros Hwf. unfold domain_wf in Hwf. destruct_and!. unfold encode_domain, decode_domain.
  codec_roundtrip_tac. by destruct v.
Qed.

Lemma decode_encode_attestation lim v rest :
  attestation_wf lim v -> decode_attestation lim (encode_attestation v ++ rest) = Ok (v, rest).
Proof.
  intros Hwf. unfold attestation_wf in Hwf. destruct_and!.
  unfold encode_attestation, decode_attestation. codec_roundtrip_tac. by destruct v.
Qed.

Lemma decode_encode_binding lim v rest :
  binding_wf v -> decode_binding lim (encode_binding v ++ rest) = Ok (v, rest).
Proof.
  intros Hwf. unfold binding_wf in Hwf. destruct_and!. unfold encode_binding, decode_binding.
  codec_roundtrip_tac. by destruct v.
Qed.

Lemma decode_encode_grant lim v rest :
  grant_wf lim v -> decode_grant lim (encode_grant v ++ rest) = Ok (v, rest).
Proof.
  intros Hwf. unfold grant_wf in Hwf. destruct_and!. unfold encode_grant, decode_grant.
  rewrite <-?app_assoc. do 3 codec_field.
  erewrite reader_bind_Ok by (by apply decode_encode_binding).
  codec_roundtrip_tac. by destruct v as [? ? [] ? ? ? ? ? ? ? ? ? ? ? ? ? ?].
Qed.

Lemma decode_encode_verification lim v rest :
  verification_wf lim v ->
  decode_verification lim (encode_verification v ++ rest) = Ok (v, rest).
Proof.
  intros Hwf. unfold verification_wf in Hwf. destruct_and!.
  unfold encode_verification, decode_verification. rewrite <-?app_assoc. do 2 codec_field.
  erewrite reader_bind_Ok by (by apply decode_encode_binding).
  codec_roundtrip_tac. by destruct v.
Qed.

Lemma decode_encode_oversubscription lim v rest :
  oversubscription_wf v ->
  decode_oversubscription lim (encode_oversubscription v ++ rest) = Ok (v, rest).
Proof.
  intros Hwf. unfold oversubscription_wf in Hwf. destruct_and!.
  unfold encode_oversubscription, decode_oversubscription.
  codec_roundtrip_tac. by destruct v.
Qed.

Lemma decode_encode_policy lim v rest :
  policy_wf v -> decode_policy lim (encode_policy v ++ rest) = Ok (v, rest).
Proof.
  intros Hwf. unfold policy_wf in Hwf. destruct_and!. unfold encode_policy, decode_policy.
  codec_roundtrip_tac. by destruct v.
Qed.

(** ** Instances *)

#[export] Instance site_codec : Codec SiteRecord :=
  Build_Codec _ encode_site decode_site site_wf decode_encode_site.
#[export] Instance path_codec : Codec PathRecord :=
  Build_Codec _ encode_path decode_path path_wf decode_encode_path.
#[export] Instance domain_codec : Codec SharedRiskDomain :=
  Build_Codec _ encode_domain decode_domain domain_wf decode_encode_domain.
#[export] Instance attestation_codec : Codec CapacityAttestation :=
  Build_Codec _ encode_attestation decode_attestation attestation_wf decode_encode_attestation.
#[export] Instance binding_codec : Codec GrantBinding :=
  Build_Codec _ encode_binding decode_binding (fun _ => binding_wf) decode_encode_binding.
#[export] Instance grant_codec : Codec GrantRecord :=
  Build_Codec _ encode_grant decode_grant grant_wf decode_encode_grant.
#[export] Instance verification_codec : Codec VerificationRecord :=
  Build_Codec _ encode_verification decode_verification verification_wf decode_encode_verification.
#[export] Instance oversubscription_codec : Codec OversubscriptionAuthority :=
  Build_Codec _ encode_oversubscription decode_oversubscription
    (fun _ => oversubscription_wf) decode_encode_oversubscription.
#[export] Instance policy_codec : Codec Policy :=
  Build_Codec _ encode_policy decode_policy (fun _ => policy_wf) decode_encode_policy.
