(* ===== verification/State.v ===== *)
(** * State of the capacity authority (include/isf/authority.hpp)

    The configuration, the seven tables and the request index of [Authority],
    the requests its operations take, and read access to the tables.  The
    [std::map] tables are [gmap]s by raw identity, visited in key order by
    [values]. *)

From S2P Require Import Prelude Outcome Ids Lifecycle Policy Wire Model.

(** ** Configuration and state *)

Record AuthorityConfig := mkAuthorityConfig {
  cfg_policy : Policy;
  cfg_epoch : Epoch;
  cfg_incarnation : Incarnation;
  max_sites : N;
  max_paths : N;
  max_domains : N;
  max_grants : N;
  max_attestations : N;
  max_verifications : N;
  max_oversubscriptions : N;
}.

(** The default member values; the incarnation is drawn at random. *)
Definition default_config (random : Incarnation) : AuthorityConfig :=
  mkAuthorityConfig conservative_default (mkEpoch 1) random
    4096 65536 4096 (N.shiftl 1 20) (N.shiftl 1 16) (N.shiftl 1 20) 4096.

Record Authority := mkAuthority {
  config : AuthorityConfig;
  last_arbitration : ArbSeq;
  sites_ : gmap Id128 SiteRecord;
  paths_ : gmap Id128 PathRecord;
  domains_ : gmap Id128 SharedRiskDomain;
  attestations_ : gmap Id128 CapacityAttestation;
  grants_ : gmap Id128 GrantRecord;
  verifications_ : gmap Id128 VerificationRecord;
  oversubscriptions_ : gmap Id128 OversubscriptionAuthority;
  request_index : gmap Id128 Id128;
}.

Definition policy (a : Authority) : Policy := cfg_policy (config a).
Definition epoch (a : Authority) : Epoch := cfg_epoch (config a).
Definition incarnation (a : Authority) : Incarnation := cfg_incarnation (config a).

(** ** Member assignments *)

Definition set_cfg_policy (p : Policy) (c : AuthorityConfig) : AuthorityConfig :=
  mkAuthorityConfig p (cfg_epoch c) (cfg_incarnation c) (max_sites c) (max_paths c)
    (max_domains c) (max_grants c) (max_attestations c) (max_verifications c)
    (max_oversubscriptions c).

Definition set_cfg_epoch (e : Epoch) (c : AuthorityConfig) : AuthorityConfig :=
  mkAuthorityConfig (cfg_policy c) e (cfg_incarnation c) (max_sites c) (max_paths c)
    (max_domains c) (max_grants c) (max_attestations c) (max_verifications c)
    (max_oversubscriptions c).

Definition set_cfg_incarnation (i : Incarnation) (c : AuthorityConfig) : AuthorityConfig :=
  mkAuthorityConfig (cfg_policy c) (cfg_epoch c) i (max_sites c) (max_paths c)
    (max_domains c) (max_grants c) (max_attestations c) (max_verifications c)
    (max_oversubscriptions c).

Definition set_config (c : AuthorityConfig) (a : Authority) : Authority :=
  mkAuthority c (last_arbitration a) (sites_ a) (paths_ a) (domains_ a) (attestations_ a)
    (grants_ a) (verifications_ a) (oversubscriptions_ a) (request_index a).

Definition set_last_arbitration (s : ArbSeq) (a : Authority) : Authority :=
  mkAuthority (config a) s (sites_ a) (paths_ a) (domains_ a) (attestations_ a)
    (grants_ a) (verifications_ a) (oversubscriptions_ a) (request_index a).

Definition set_sites (m : gmap Id128 SiteRecord) (a : Authority) : Authority :=
  mkAuthority (config a) (last_arbitration a) m (paths_ a) (domains_ a) (attestations_ a)
    (grants_ a) (verifications_ a) (oversubscriptions_ a) (request_index a).

Definition set_paths (m : gmap Id128 PathRecord) (a : Authority) : Authority :=
  mkAuthority (config a) (last_arbitration a) (sites_ a) m (domains_ a) (attestations_ a)
    (grants_ a) (verifications_ a) (oversubscriptions_ a) (request_index a).

Definition set_domains (m : gmap Id128 SharedRiskDomain) (a : Authority) : Authority :=
  mkAuthority (config a) (last_arbitration a) (sites_ a) (paths_ a) m (attestations_ a)
    (grants_ a) (verifications_ a) (oversubscriptions_ a) (request_index a).

Definition set_attestations (m : gmap Id128 CapacityAttestation) (a : Authority) : Authority :=
  mkAuthority (config a) (last_arbitration a) (sites_ a) (paths_ a) (domains_ a) m
    (grants_ a) (verifications_ a) (oversubscriptions_ a) (request_index a).

Definition set_grants (m : gmap Id128 GrantRecord) (a : Authority) : Authority :=
  mkAuthority (config a) (last_arbitration a) (sites_ a) (paths_ a) (domains_ a)
    (attestations_ a) m (verifications_ a) (oversubscriptions_ a) (request_index a).

Definition set_verifications (m : gmap Id128 VerificationRecord) (a : Authority) : Authority :=
  mkAuthority (config a) (last_arbitration a) (sites_ a) (paths_ a) (domains_ a)
    (attestations_ a) (grants_ a) m (oversubscriptions_ a) (request_index a).

Definition set_oversubscriptions (m : gmap Id128 OversubscriptionAuthority) (a : Authority) :
    Authority :=
  mkAuthority (config a) (last_arbitration a) (sites_ a) (paths_ a) (domains_ a)
    (attestations_ a) (grants_ a) (verifications_ a) m (request_index a).

Definition set_request_index (m : gmap Id128 Id128) (a : Authority) : Authority :=
  mkAuthority (config a) (last_arbitration a) (sites_ a) (paths_ a) (domains_ a)
    (attestations_ a) (grants_ a) (verifications_ a) (oversubscriptions_ a) m.

(** ** Requests *)

Record SiteRegistration := mkSiteRegistration {
  sr_descriptor : SiteDescriptor;
  sr_incarnation : Incarnation;
  sr_epoch : Epoch;
  sr_now_ms : N;
}.

Record SiteHeartbeat := mkSiteHeartbeat {
  hb_id : SiteId;
  hb_incarnation : Incarnation;
  hb_generation : Generation;
  hb_epoch : Epoch;
  hb_advertised_capacity : Amount;
  hb_now_ms : N;
}.

Record PathRegistration := mkPathRegistration {
  pr_descriptor : PathDescriptor;
  pr_path_generation : Generation;
  pr_state : PathState;
  pr_advertised : Amount;
  pr_observed : Amount;
  pr_now_ms : N;
}.

Record GrantProposal := mkGrantProposal {
  gp_request : RequestId;
  gp_holder : SiteId;
  gp_holder_incarnation : Incarnation;
  gp_holder_generation : Generation;
  gp_path : PathId;
  gp_amount : Amount;
  gp_class : GrantClass;
  gp_duration_ms : N;
  gp_now_ms : N;
  gp_reason : bytes;
  gp_grant_id : GrantId;
  gp_lease : LeaseId;
}.

Record GrantOperation := mkGrantOperation {
  op_grant : GrantId;
  op_request : RequestId;
  op_actor : SiteId;
  op_actor_incarnation : Incarnation;
  op_actor_generation : Generation;
  op_epoch : Epoch;
  op_path_generation : Generation;
  op_capacity_generation : Generation;
  op_policy_generation : Generation;
  op_lease : LeaseId;
  op_now_ms : N;
  op_reason : bytes;
}.

Record GrantAcknowledgement := mkGrantAcknowledgement {
  ack_grant : GrantId;
  ack_actor : SiteId;
  ack_actor_incarnation : Incarnation;
  ack_epoch : Epoch;
  ack_now_ms : N;
}.

Record GrantVerification := mkGrantVerification {
  gv_id : VerificationId;
  gv_grant : GrantId;
  gv_verifier : PrincipalId;
  gv_result : VerificationState;
  gv_evidence : Digest256;
  gv_now_ms : N;
  gv_detail : bytes;
}.

(** ** Introspection *)

Definition find_site (a : Authority) (id : SiteId) : option SiteRecord := sites_ a !! raw id.
Definition find_path (a : Authority) (id : PathId) : option PathRecord := paths_ a !! raw id.
Definition find_grant (a : Authority) (id : GrantId) : option GrantRecord := grants_ a !! raw id.
Definition find_attestation (a : Authority) (id : AttestationId) : option CapacityAttestation :=
  attestations_ a !! raw id.
Definition find_oversubscription (a : Authority) (id : OversubscriptionId) :
    option OversubscriptionAuthority :=
  oversubscriptions_ a !! raw id.

Definition sites (a : Authority) : list SiteRecord := values (sites_ a).
Definition paths (a : Authority) : list PathRecord := values (paths_ a).
Definition domains (a : Authority) : list SharedRiskDomain := values (domains_ a).
Definition attestations (a : Authority) : list CapacityAttestation := values (attestations_ a).
Definition grants (a : Authority) : list GrantRecord := values (grants_ a).
Definition verifications (a : Authority) : list VerificationRecord := values (verifications_ a).
Definition oversubscriptions (a : Authority) : list OversubscriptionAuthority :=
  values (oversubscriptions_ a).

Definition grants_for_path (a : Authority) (path : PathId) : list GrantRecord :=
  filter (fun g => b_path (g_binding g) = path) (grants a).
Definition grants_for_site (a : Authority) (site : SiteId) : list GrantRecord :=
  filter (fun g => b_holder (g_binding g) = site) (grants a).

(** The lookups that fail with [NotFound]. *)
Definition found {A} (o : option A) : Expected A :=
  match o with Some x => Ok x | None => Fail Status.NotFound end.
Definition require_grant (a : Authority) (id : GrantId) : Expected GrantRecord :=
  found (find_grant a id).
Definition require_site (a : Authority) (id : SiteId) : Expected SiteRecord :=
  found (find_site a id).
Definition require_path (a : Authority) (id : PathId) : Expected PathRecord :=
  found (find_path a id).

(** ** The table invariant

    Every record is stored under its own identity, and the request index maps
    a request exactly to the one grant that carries it. *)
Record well_keyed (a : Authority) : Prop := {
  wk_sites k v : sites_ a !! k = Some v -> raw (site_id v) = k;
  wk_paths k v : paths_ a !! k = Some v -> raw (path_id v) = k;
  wk_domains k v : domains_ a !! k = Some v -> raw (dom_id v) = k;
  wk_attestations k v : attestations_ a !! k = Some v -> raw (att_id v) = k;
  wk_grants k v : grants_ a !! k = Some v -> raw (g_id v) = k;
  wk_verifications k v : verifications_ a !! k = Some v -> raw (ver_id v) = k;
  wk_oversubscriptions k v : oversubscriptions_ a !! k = Some v -> raw (ovs_id v) = k;
  wk_requests k v : grants_ a !! k = Some v -> tid_is_nil (g_request v) = false ->
    request_index a !! raw (g_request v) = Some k;
}.

Lemma found_ok {A} (o : option A) x : found o = Ok x <-> o = Some x.
Proof. destruct o; cbn; split; congruence. Qed.

Lemma elem_of_grants a g : g ∈ grants a <-> exists k, grants_ a !! k = Some g.
Proof. apply elem_of_values. Qed.

Lemma elem_of_grants_for_path a p g :
  g ∈ grants_for_path a p <-> b_path (g_binding g) = p /\ g ∈ grants a.
Proof. unfold grants_for_path. by rewrite list_elem_of_filter. Qed.

Lemma find_grant_id a g id :
  well_keyed a -> find_grant a id = Some g -> g_id g = id.
Proof.
  intros Hwk Hg. apply (wk_grants a Hwk) in Hg. destruct (g_id g), id. by cbn in Hg; subst.
Qed.

(** A request belongs to at most one grant. *)
Lemma request_unique a k1 k2 g1 g2 :
  well_keyed a -> grants_ a !! k1 = Some g1 -> grants_ a !! k2 = Some g2 ->
  g_request g1 = g_request g2 -> tid_is_nil (g_request g1) = false -> k1 = k2.
Proof.
  intros Hwk Hg1 Hg2 Heq Hnil. pose proof (wk_requests a Hwk _ _ Hg1 Hnil) as Hr1.
  rewrite Heq in Hnil, Hr1. pose proof (wk_requests a Hwk _ _ Hg2 Hnil). congruence.
Qed.

(** ** A small fabric

    Two sites, one path between them and three grants on it; the witnesses of
    the theorems evaluate the definitions on it. *)
Module Sample.
Definition id {tag} (n : N) : TypedId tag := from_raw (mkId128 0 n).

Definition site (n : N) : SiteRecord :=
  mkSiteRecord (id n) (str "site") (id (n + 100)) (mkGeneration 1) (mkEpoch 1) SiteState.Up
  1000 10 10 0 [] Provenance.Live.

Definition path : PathRecord :=
  mkPathRecord (id 3) (str "path") (id 30) (id 0) (id 1) (id 2) (mkGeneration 1)
  (mkGeneration 1) PathState.Up 1000 1000 1000 0 10 Provenance.Live.

Definition binding (lease : N) : GrantBinding :=
  mkGrantBinding (id 1) (id 101) (mkGeneration 1) (id 3) (mkGeneration 1) (mkGeneration 1)
  (mkGeneration 1) (mkEpoch 1) (id lease).

Definition grant (n : N) (k : GrantClass) (amount : N) (s : GrantState) : GrantRecord :=
  mkGrantRecord (id n) (id (n + 200)) (mkArbSeq n) (binding (n + 300)) k amount s
  VerificationState.Verified true 1 10 10 1000 [] Provenance.Live false false.

Definition grant_table : gmap Id128 GrantRecord :=
  list_to_map ((fun g => (raw (g_id g), g)) <$>
  [grant 5 GrantClass.General 100 GrantState.Active;
 grant 6 GrantClass.Protected 50 GrantState.Reserved;
 grant 7 GrantClass.General 30 GrantState.Withdrawing]).

Definition fabric : Authority :=
  mkAuthority (default_config (id 900)) (mkArbSeq 9)
  {[ raw (site_id (site 1)) := site 1; raw (site_id (site 2)) := site 2 ]}
  {[ raw (path_id path) := path ]} ∅ ∅ grant_table ∅ ∅
  (list_to_map ((fun n => (mkId128 0 (n + 200), mkId128 0 n)) <$> [5; 6; 7])).
End Sample.
