(* ===== verification/Ledger.v ===== *)
(** * Derived ledgers (src/authority.cpp, introspection)

    The totals of the grants on a path, the protected floor and minimum free
    headroom the policy demands, live oversubscription, and from them the
    ledger of a path, the aggregate ledger, and the capacity still allocatable
    to a new grant. *)

From S2P Require Import Prelude Outcome Ids Lifecycle Capacity Policy Wire Model State.

Record PathTotals := mkPathTotals {
  tot_committed : Amount;
  tot_withdrawing : Amount;
  tot_reserved : Amount;
  tot_reclaimable : Amount;
  tot_protected_held : Amount;
}.

Definition zero_totals : PathTotals := mkPathTotals 0 0 0 0 0.

(** [if (c) x = saturating_add(x, amount);] *)
Definition add_when (c : bool) (x amount : Amount) : Amount :=
  if c then saturating_add x amount else x.

Definition is_protected (g : GrantRecord) : bool := bool_decide (g_class g = GrantClass.Protected).
Definition state_is (s : GrantState) (g : GrantRecord) : bool := bool_decide (g_state g = s).

(** The body of the loop over the grants, for a grant that holds capacity. *)
Definition add_grant (t : PathTotals) (g : GrantRecord) : PathTotals :=
  mkPathTotals
    (add_when (state_is GrantState.Active g || state_is GrantState.Degraded g)
       (tot_committed t) (g_amount g))
    (add_when (state_is GrantState.Withdrawing g) (tot_withdrawing t) (g_amount g))
    (add_when (state_is GrantState.Reserved g) (tot_reserved t) (g_amount g))
    (add_when (is_reclaimable (g_state g)) (tot_reclaimable t) (g_amount g))
    (add_when (is_protected g) (tot_protected_held t) (g_amount g)).

Definition on_path (path : PathId) (g : GrantRecord) : bool := id_eqb (b_path (g_binding g)) path.

Definition totals_for (a : Authority) (path : PathId) : PathTotals :=
  foldl (fun totals grant =>
           if negb (on_path path grant) || negb (holds_capacity (g_state grant)) then totals
           else add_grant totals grant)
    zero_totals (grants a).

(** The capacity of a path that is not unavailable. *)
Definition available_basis (r : PathRecord) : Amount :=
  if path_unavailable r <? path_authoritative_usable r
  then path_authoritative_usable r - path_unavailable r else 0.

Definition protected_floor (a : Authority) (r : PathRecord) : Amount :=
  let by_ratio := fraction_bps (path_authoritative_usable r) (protected_floor_bps (policy a)) in
  let wanted := max_amount (protected_floor_units (policy a)) by_ratio in
  if available_basis r <? wanted then available_basis r else wanted.

Definition minimum_free (a : Authority) (r : PathRecord) : Amount :=
  let by_ratio := fraction_bps (path_authoritative_usable r) (min_free_bps (policy a)) in
  let wanted := max_amount (min_free_units (policy a)) by_ratio in
  if available_basis r <? wanted then available_basis r else wanted.

(** An oversubscription authority that the loop of
    [live_oversubscription_bps] does not skip. *)
Definition oversubscription_applies (a : Authority) (path : PathId) (now_ms : N)
    (r : PathRecord) (o : OversubscriptionAuthority) : bool :=
  if negb (id_eqb (ovs_path o) path) then false
  else if ovs_ratio_bps o <=? 10000 then false
  else if negb (now_ms =? 0) && negb (is_live_at o now_ms) then false
  else if negb (epoch_value (ovs_epoch o) =? epoch_value (epoch a)) then false
  else if negb (gen_eqb (ovs_policy_generation o) (pol_generation (policy a))) then false
  else if negb (gen_eqb (ovs_path_generation o) (path_generation r)) then false
  else if negb (gen_eqb (ovs_capacity_generation o) (path_capacity_generation r)) then false
  else true.

Definition live_oversubscription_bps (a : Authority) (path : PathId) (now_ms : N) : Expected N :=
  r ← require_path a path;
  fail_if max_oversubscription_bps (policy a) =? 0 with Status.Refused ;;
  let best :=
    foldl (fun best o =>
             if oversubscription_applies a path now_ms r o then N.max best (ovs_ratio_bps o)
             else best)
      0 (oversubscriptions a) in
  fail_if best =? 0 with Status.Refused ;;
  Ok (N.min best (max_oversubscription_bps (policy a))).

Definition extension_for (a : Authority) (r : PathRecord) (path : PathId) (now_ms : N) : Amount :=
  oversubscription_extension (path_authoritative_usable r)
    (value_or (live_oversubscription_bps a path now_ms) 0).

Definition headroom (floor_amount held : Amount) : Amount :=
  if floor_amount <=? held then 0 else floor_amount - held.

(** The ledger of a path before its closure is checked: the computation that
    [ledger] and [verify_invariants] both carry out. *)
Definition fill_ledger (a : Authority) (r : PathRecord) (totals : PathTotals) (extension : Amount) :
    Expected CapacityLedger :=
  let protected_headroom := headroom (protected_floor a r) (tot_protected_held totals) in
  basis ← checked_add (path_authoritative_usable r) extension;
  obligations ← checked_add (tot_committed totals) (tot_reserved totals);
  with_floor ← checked_add obligations protected_headroom;
  structural ← checked_add with_floor (path_unavailable r);
  blocked ← checked_add structural (tot_withdrawing totals);
  blocked ← checked_add blocked (minimum_free a r);
  Ok (mkCapacityLedger
        (path_authoritative_usable r) (tot_committed totals) (tot_withdrawing totals)
        (tot_reserved totals) protected_headroom (path_unavailable r)
        (if structural <=? basis then basis - structural else 0)
        (if blocked <? basis then basis - blocked else 0)
        (tot_reclaimable totals)
        (if structural <=? basis then 0 else structural - basis)
        extension).

Definition ledger (a : Authority) (path : PathId) : Expected CapacityLedger :=
  r ← require_path a path;
  fail_if path_authoritative_usable r <? path_unavailable r with Status.Conflicting ;;
  out ← fill_ledger a r (totals_for a path) (extension_for a r path 0);
  fail_if negb (is_ok (verify_closure out)) with Status.Conflicting ;;
  Ok out.

(** The capacity available for a new allocation of one class. *)
Definition allocatable (a : Authority) (path : PathId) (klass : GrantClass) (now_ms : N) :
    Expected Amount :=
  r ← require_path a path;
  fail_if path_authoritative_usable r <? path_unavailable r with Status.Conflicting ;;
  let totals := totals_for a path in
  let floor_amount := protected_floor a r in
  match klass with
  | GrantClass.Protected =>
      fail_if floor_amount <? tot_protected_held totals with Status.Conflicting ;;
      Ok (floor_amount - tot_protected_held totals)
  | GrantClass.General =>
      let ceiling := saturating_add (path_authoritative_usable r) (extension_for a r path now_ms) in
      if ceiling <=? path_unavailable r then Ok 0
      else
        let basis := ceiling - path_unavailable r in
        consumed ← checked_add (tot_committed totals) (tot_reserved totals);
        consumed ← checked_add consumed (tot_withdrawing totals);
        consumed ← checked_add consumed floor_amount;
        consumed ← checked_add consumed (minimum_free a r);
        Ok (if consumed <? basis then basis - consumed else 0)
  end.

(** One path's contribution to the aggregate: the ledger so far and [blocked]. *)
Definition aggregate_path (a : Authority) (acc : CapacityLedger * Amount) (r : PathRecord) :
    CapacityLedger * Amount :=
  let '(out, blocked) := acc in
  let totals := totals_for a (path_id r) in
  let record_floor := protected_floor a r in
  let blocked := saturating_add blocked (tot_committed totals) in
  let blocked := saturating_add blocked (tot_reserved totals) in
  let blocked := saturating_add blocked (tot_withdrawing totals) in
  let blocked := saturating_add blocked
    (if record_floor <? tot_protected_held totals then tot_protected_held totals
     else record_floor) in
  let blocked := saturating_add blocked (path_unavailable r) in
  (mkCapacityLedger
     (saturating_add (led_usable out) (path_authoritative_usable r))
     (saturating_add (led_committed out) (tot_committed totals))
     (saturating_add (led_withdrawing out) (tot_withdrawing totals))
     (saturating_add (led_reserved out) (tot_reserved totals))
     (saturating_add (led_protected_headroom out)
        (headroom record_floor (tot_protected_held totals)))
     (saturating_add (led_unavailable out) (path_unavailable r))
     0 0
     (saturating_add (led_reclaimable out) (tot_reclaimable totals))
     0
     (saturating_add (led_authorized_extension out) (extension_for a r (path_id r) 0)),
   blocked).

Definition aggregate_ledger (a : Authority) : CapacityLedger :=
  let '(out, blocked) :=
    foldl (aggregate_path a) (mkCapacityLedger 0 0 0 0 0 0 0 0 0 0 0, 0) (paths a) in
  let ceiling := saturating_add (led_usable out) (led_authorized_extension out) in
  let rest := if blocked <? ceiling then ceiling - blocked else 0 in
  mkCapacityLedger (led_usable out) (led_committed out) (led_withdrawing out) (led_reserved out)
    (led_protected_headroom out) (led_unavailable out) rest rest (led_reclaimable out) 0
    (led_authorized_extension out).

(** ** Totals as exact sums

    [path_sum a path q] is the mathematical sum of the amounts of the grants
    on [path] that satisfy [q]: the reference the accumulated totals are
    compared with. *)

Definition amount_if (c : bool) (g : GrantRecord) : N := if c then g_amount g else 0.
Definition path_sum (a : Authority) (path : PathId) (q : GrantRecord -> bool) : N :=
  sumN (fun g => amount_if (on_path path g && q g) g) (grants a).

Definition holds (g : GrantRecord) : bool := holds_capacity (g_state g).
Definition live (g : GrantRecord) : bool := is_live_obligation (g_state g).
Definition reclaimable (g : GrantRecord) : bool := is_reclaimable (g_state g).

Definition amounts_wf (a : Authority) : Prop := forall g, g ∈ grants a -> u64_ok (g_amount g).

Lemma add_when_sat c x n s :
  u64_ok n -> x = N.min kAmountMax s ->
  add_when c x n = N.min kAmountMax (s + (if c then n else 0)).
Proof.
  intros Hn ->. unfold add_when, u64_ok in *. destruct c; [|by rewrite N.add_0_r].
  rewrite saturating_add_spec; unfold u64_ok, kAmountMax in *; lia.
Qed.

(** The five sums of a list of grants on one path. *)
Definition sums_of (path : PathId) (l : list GrantRecord) : PathTotals :=
  let total q := N.min kAmountMax (sumN (fun g => amount_if (on_path path g && q g) g) l) in
  mkPathTotals (total live) (total (state_is GrantState.Withdrawing))
    (total (state_is GrantState.Reserved)) (total reclaimable)
    (total (fun g => holds g && is_protected g)).

Lemma add_grant_sums path l g :
  u64_ok (g_amount g) ->
  (if negb (on_path path g) || negb (holds_capacity (g_state g)) then sums_of path l
   else add_grant (sums_of path l) g) = sums_of path (l ++ [g]).
Proof.
  intros Hg. unfold sums_of. rewrite !sumN_snoc. unfold amount_if at 2 4 6 8 10.
  destruct (on_path path g); cbn [negb andb orb]; [|unfold amount_if; by rewrite !N.add_0_r].
  unfold add_grant. cbn [tot_committed tot_withdrawing tot_reserved tot_reclaimable
    tot_protected_held]. rewrite !(add_when_sat _ _ _ _ Hg eq_refl).
  unfold live, holds, reclaimable, state_is, is_protected.
  by destruct (g_state g), (g_class g); cbn; rewrite ?N.add_0_r.
Qed.

Lemma totals_for_sums a path : amounts_wf a -> totals_for a path = sums_of path (grants a).
Proof.
  intros Hwf. unfold totals_for, amounts_wf in *.
  induction (grants a) as [|g l IH] using rev_ind; [done|].
  rewrite foldl_snoc, IH by (intros; apply Hwf, elem_of_app; by left).
  apply add_grant_sums, Hwf, elem_of_app. right. by constructor.
Qed.

(** ** Bounds *)

Definition path_amounts_wf (r : PathRecord) : Prop :=
  u64_ok (path_authoritative_usable r) /\ u64_ok (path_unavailable r).

Lemma protected_floor_le a r : protected_floor a r <= available_basis r.
Proof. unfold protected_floor. break_goal; to_prop; lia. Qed.

Lemma minimum_free_le a r : minimum_free a r <= available_basis r.
Proof. unfold minimum_free. break_goal; to_prop; lia. Qed.

Lemma available_basis_spec r :
  available_basis r = path_authoritative_usable r - path_unavailable r.
Proof. unfold available_basis. destruct (N.ltb_spec (path_unavailable r) (path_authoritative_usable r)); lia. Qed.

Lemma headroom_spec f h : headroom f h = f - h.
Proof. unfold headroom. destruct (N.leb_spec f h); lia. Qed.

Lemma oversubscription_extension_u64 u b :
  u64_ok u -> u32_ok b -> u64_ok (oversubscription_extension u b).
Proof.
  intros Hu Hb. unfold oversubscription_extension.
  destruct (b <=? 10000); [done|].
  rewrite fraction_bps_spec by (unfold u32_ok in *; done || lia).
  unfold u64_ok, kAmountMax. lia.
Qed.

Lemma live_oversubscription_bound a p now b :
  live_oversubscription_bps a p now = Ok b -> b <= max_oversubscription_bps (policy a).
Proof.
  unfold live_oversubscription_bps. intros (r & _ & Hb)%expected_bind_ok.
  apply guard_fail_ok in Hb as [_ Hb]. apply guard_fail_ok in Hb as [_ [= <-]]. lia.
Qed.

Lemma extension_u64 a r p now :
  u64_ok (path_authoritative_usable r) -> u32_ok (max_oversubscription_bps (policy a)) ->
  u64_ok (extension_for a r p now).
Proof.
  intros Hu Hm. apply oversubscription_extension_u64; [done|].
  destruct (live_oversubscription_bps a p now) as [b|] eqn:E; [|done].
  apply live_oversubscription_bound in E. cbn. unfold u32_ok in *. lia.
Qed.

(** Totals of a list of 64-bit amounts: each saturates, and the reclaimable
    ones are among the held ones. *)
Definition totals_wf (t : PathTotals) : Prop :=
  u64_ok (tot_committed t) /\ u64_ok (tot_withdrawing t) /\ u64_ok (tot_reserved t) /\
  u64_ok (tot_protected_held t) /\
  tot_reclaimable t <= tot_committed t + tot_withdrawing t + tot_reserved t.

Lemma sums_of_wf path l : totals_wf (sums_of path l).
Proof.
  unfold sums_of, totals_wf, u64_ok. cbn. unfold kAmountMax.
  set (S q := sumN (fun g => amount_if (on_path path g && q g) g) l).
  enough (S reclaimable <= S live + S (state_is GrantState.Withdrawing) +
                            S (state_is GrantState.Reserved)).
  { unfold S in *. lia. }
  unfold S. rewrite !sumN_add. apply sumN_le. intros g _.
  unfold amount_if, reclaimable, live, state_is.
  destruct (on_path path g), (g_state g); cbn; repeat case_bool_decide; congruence || lia.
Qed.

Lemma totals_for_wf a p : amounts_wf a -> totals_wf (totals_for a p).
Proof. intros Hwf. rewrite totals_for_sums by done. apply sums_of_wf. Qed.

(** ** The ledger as a closed formula *)

Definition structural_of (a : Authority) (r : PathRecord) (t : PathTotals) : N :=
  tot_committed t + tot_reserved t + (protected_floor a r - tot_protected_held t) +
  path_unavailable r.

Definition blocked_of (a : Authority) (r : PathRecord) (t : PathTotals) : N :=
  structural_of a r t + tot_withdrawing t + minimum_free a r.

Definition ledger_of (a : Authority) (r : PathRecord) (t : PathTotals) (x : Amount) :
    CapacityLedger :=
  mkCapacityLedger (path_authoritative_usable r) (tot_committed t) (tot_withdrawing t)
    (tot_reserved t) (protected_floor a r - tot_protected_held t) (path_unavailable r)
    (path_authoritative_usable r + x - structural_of a r t)
    (path_authoritative_usable r + x - blocked_of a r t)
    (tot_reclaimable t)
    (structural_of a r t - (path_authoritative_usable r + x)) x.

Definition ledger_fits (a : Authority) (r : PathRecord) (t : PathTotals) (x : Amount) : Prop :=
  path_authoritative_usable r + x <= kAmountMax /\ blocked_of a r t <= kAmountMax.

#[export] Instance ledger_fits_dec a r t x : Decision (ledger_fits a r t x).
Proof. unfold ledger_fits. apply _. Defined.

Lemma bind_add {A} a b (k : Amount -> Expected A) :
  u64_ok b ->
  (checked_add a b ≫= k) =
  if decide (a + b <= kAmountMax) then k (a + b) else Fail Status.LimitExceeded.
Proof. intros Hb. rewrite checked_add_spec by done. by case_decide. Qed.

Lemma fill_ledger_spec a r t x :
  path_amounts_wf r -> u64_ok x -> totals_wf t ->
  fill_ledger a r t x =
  if decide (ledger_fits a r t x) then Ok (ledger_of a r t x) else Fail Status.LimitExceeded.
Proof.
  intros [Hu Hun] Hx (Hc & Hw & Hr & _ & _). unfold fill_ledger. rewrite headroom_spec.
  pose proof (protected_floor_le a r). pose proof (minimum_free_le a r).
  pose proof (available_basis_spec r).
  assert (u64_ok (protected_floor a r - tot_protected_held t)) by (unfold u64_ok in *; lia).
  assert (u64_ok (minimum_free a r)) by (unfold u64_ok in *; lia).
  rewrite !bind_add by done. unfold ledger_fits, ledger_of, blocked_of, structural_of.
  repeat case_decide; try done; try lia. f_equal. f_equal.
  - destruct (N.leb_spec (tot_committed t + tot_reserved t +
      (protected_floor a r - tot_protected_held t) + path_unavailable r)
      (path_authoritative_usable r + x)); lia.
  - match goal with |- context [?p <? ?q] => destruct (N.ltb_spec p q) end; lia.
  - match goal with |- context [?p <=? ?q] => destruct (N.leb_spec p q) end; lia.
Qed.

Lemma ledger_of_closed a r t x :
  path_amounts_wf r -> u64_ok x -> totals_wf t -> ledger_fits a r t x ->
  verify_closure (ledger_of a r t x) = Status.Ok.
Proof.
  intros [Hu Hun] Hx (Hc & Hw & Hr & Hp & Hrec) [Hbasis Hblocked].
  pose proof (protected_floor_le a r). pose proof (available_basis_spec r).
  unfold blocked_of, structural_of in *. unfold u64_ok, kAmountMax in *.
  apply verify_closure_spec; unfold ledger_wf, ledger_closed, ledger_in_range, u64_ok, kAmountMax;
    cbn; unfold blocked_of, structural_of; lia.
Qed.

(** What the tables must satisfy for the arithmetic of this file: every field
    fits its C++ type. *)
Definition ledger_inputs_wf (a : Authority) : Prop :=
  amounts_wf a /\ (forall k r, paths_ a !! k = Some r -> path_amounts_wf r) /\
  u32_ok (max_oversubscription_bps (policy a)).

Lemma require_path_inputs a p r :
  ledger_inputs_wf a -> require_path a p = Ok r ->
  path_amounts_wf r /\ totals_wf (totals_for a p) /\
  forall now, u64_ok (extension_for a r p now).
Proof.
  intros (Ha & Hp & Hm) Hr. apply found_ok, Hp in Hr.
  split_and!; [done|by apply totals_for_wf|]. intros now. by apply extension_u64; [apply Hr|].
Qed.

Lemma ledger_formula a p :
  ledger_inputs_wf a ->
  ledger a p =
  (r ← require_path a p;
   fail_if path_authoritative_usable r <? path_unavailable r with Status.Conflicting ;;
   let x := extension_for a r p 0 in
   if decide (ledger_fits a r (totals_for a p) x)
   then Ok (ledger_of a r (totals_for a p) x) else Fail Status.LimitExceeded).
Proof.
  intros Hwf. unfold ledger. destruct (require_path a p) as [r|s] eqn:Er; [|done]. cbn.
  destruct (require_path_inputs a p r Hwf Er) as (Hr & Ht & Hx).
  unfold guard_fail at 1 3. destruct (_ <? _); [done|].
  rewrite fill_ledger_spec by done. case_decide; [|done]. cbn.
  by rewrite ledger_of_closed by done.
Qed.

(** ** Properties *)

(** The totals accumulated in one saturating pass over the grant table are
    the exact sums, per bucket, of the amounts of the grants on the path,
    capped at the 64-bit maximum. *)
Theorem totals_for_exact a path :
  amounts_wf a ->
  let capped q := N.min kAmountMax (path_sum a path q) in
  totals_for a path =
  mkPathTotals (capped live) (capped (state_is GrantState.Withdrawing))
    (capped (state_is GrantState.Reserved)) (capped reclaimable)
    (capped (fun g => holds g && is_protected g)).
Proof. intros Hwf. by rewrite totals_for_sums. Qed.

(** C19: [ledger] is the closed formula [ledger_of] whenever the path exists,
    its unavailable capacity is within the usable one and the sums fit 64
    bits; every ledger it returns passes the closure check, so the check can
    never turn a well-formed table into a Conflicting answer. *)
Theorem ledger_closes a p :
  ledger_inputs_wf a ->
  match find_path a p with
  | None => ledger a p = Fail Status.NotFound
  | Some r =>
      let t := totals_for a p in
      let x := extension_for a r p 0 in
      (ledger a p = Fail Status.Conflicting <->
         path_authoritative_usable r < path_unavailable r) /\
      (path_unavailable r <= path_authoritative_usable r -> ledger_fits a r t x ->
         ledger a p = Ok (ledger_of a r t x) /\ verify_closure (ledger_of a r t x) = Status.Ok)
  end.
Proof.
  intros Hwf. rewrite ledger_formula by done. unfold require_path.
  destruct (find_path a p) as [r|] eqn:Er; [|done]. cbn.
  destruct (require_path_inputs a p r Hwf) as (Hr & Ht & Hx); [by apply found_ok|].
  unfold guard_fail. destruct (N.ltb_spec (path_authoritative_usable r) (path_unavailable r)).
  - split; [done|lia].
  - split; [split; [by case_decide|lia]|]. intros _ Hfits. rewrite decide_True by done.
    split; [done|by apply ledger_of_closed].
Qed.

(** The capacity a path's obligations consume from a general allocation. *)
Definition general_load (a : Authority) (r : PathRecord) (t : PathTotals) : N :=
  tot_committed t + tot_reserved t + tot_withdrawing t + protected_floor a r + minimum_free a r +
  path_unavailable r.

Lemma allocatable_general a p r now n :
  ledger_inputs_wf a -> find_path a p = Some r ->
  allocatable a p GrantClass.General now = Ok n ->
  let ceiling := saturating_add (path_authoritative_usable r) (extension_for a r p now) in
  n = ceiling - general_load a r (totals_for a p).
Proof.
  intros Hwf Hp Hn. destruct (require_path_inputs a p r Hwf) as ([Hu Hun] & Ht & Hx);
    [by apply found_ok|]. destruct Ht as (Hc & Hw & Hr & _ & _).
  unfold allocatable, require_path in Hn. rewrite Hp in Hn. cbn in Hn.
  apply guard_fail_ok in Hn as [_ Hn]. cbn. unfold general_load.
  set (ceiling := saturating_add _ _) in *.
  pose proof (protected_floor_le a r). pose proof (minimum_free_le a r).
  pose proof (available_basis_spec r).
  destruct (N.leb_spec ceiling (path_unavailable r)) as [Hle|Hgt]; [simplify_eq; lia|].
  rewrite !bind_add in Hn by (unfold u64_ok in *; lia).
  repeat case_decide; try done. simplify_eq.
  match goal with |- context [?p <? ?q] => destruct (N.ltb_spec p q) end; lia.
Qed.

Lemma allocatable_protected a p r now n :
  find_path a p = Some r -> allocatable a p GrantClass.Protected now = Ok n ->
  tot_protected_held (totals_for a p) + n = protected_floor a r.
Proof.
  intros Hp Hn. unfold allocatable, require_path in Hn. rewrite Hp in Hn. cbn in Hn.
  apply guard_fail_ok in Hn as [_ [Hlt [= <-]]%guard_fail_ok]. to_prop. lia.
Qed.

(** An allocation never exceeds what is there: a protected amount fills the
    protected floor exactly, and a positive general amount together with every
    held grant, the whole protected floor, the minimum free headroom and the
    unavailable capacity fills usable capacity plus the live authorised
    extension exactly. *)
Theorem allocatable_exact a p r klass now n :
  ledger_inputs_wf a -> find_path a p = Some r -> allocatable a p klass now = Ok n ->
  match klass with
  | GrantClass.Protected => tot_protected_held (totals_for a p) + n = protected_floor a r
  | GrantClass.General =>
      n = 0 \/
      general_load a r (totals_for a p) + n =
      N.min kAmountMax (path_authoritative_usable r + extension_for a r p now)
  end.
Proof.
  intros Hwf Hp Hn. destruct klass; [|by eapply allocatable_protected].
  apply (allocatable_general a p r) in Hn; [|done|done]. cbn in Hn.
  destruct (require_path_inputs a p r Hwf) as ([Hu _] & _ & Hx); [by apply found_ok|].
  rewrite saturating_add_spec in Hn by done. lia.
Qed.

(** The general capacity offered to a new grant is never more than the
    allocatable capacity the path's ledger reports. *)
Theorem allocatable_within_ledger a p n l :
  ledger_inputs_wf a -> allocatable a p GrantClass.General 0 = Ok n -> ledger a p = Ok l ->
  n <= led_allocatable l.
Proof.
  intros Hwf Hn Hl. rewrite ledger_formula in Hl by done.
  apply expected_bind_ok in Hl as (r & Hr & [_ Hl]%guard_fail_ok). cbn in Hl.
  case_decide as Hfits; [|done]. simplify_eq. pose proof Hr as Hr'. apply found_ok in Hr'.
  apply (allocatable_general a p r) in Hn; [|done|done]. cbn in *.
  destruct (require_path_inputs a p r Hwf Hr) as ([Hu _] & _ & Hx).
  rewrite saturating_add_spec in Hn by done. subst n.
  unfold general_load, blocked_of, structural_of. lia.
Qed.

(** ** Witnesses *)

Lemma table_forall {A} (P : A -> Prop) (p : A -> bool) (m : gmap Id128 A) :
  (forall x, p x = true -> P x) -> forallb p (values m) = true -> forall k x, m !! k = Some x -> P x.
Proof.
  intros Hp Hall k x Hx. apply Hp. rewrite forallb_forall in Hall.
  apply Hall, list_elem_of_In, elem_of_values. by exists k.
Qed.

Lemma sample_inputs_wf : ledger_inputs_wf Sample.fabric.
Proof.
  split_and!; [|eapply (table_forall path_amounts_wf
      (fun r => (path_authoritative_usable r <? 2 ^ 64) && (path_unavailable r <? 2 ^ 64)))|done].
  - intros g [k Hk]%elem_of_grants. revert k g Hk.
    apply (table_forall _ (fun g => g_amount g <? 2 ^ 64)); [intros g; apply N.ltb_lt|].
    vm_compute. reflexivity.
  - intros r Hr. to_prop. done.
  - vm_compute. reflexivity.
Qed.

Lemma totals_for_exact_witness :
  amounts_wf Sample.fabric /\
  totals_for Sample.fabric (Sample.id 3) = mkPathTotals 100 30 50 80 50.
Proof.
  split; [exact (proj1 sample_inputs_wf)|].
  rewrite (totals_for_exact _ _ (proj1 sample_inputs_wf)). vm_compute. reflexivity.
Defined.

Lemma ledger_closes_witness :
  ledger_inputs_wf Sample.fabric /\
  exists l, ledger Sample.fabric (Sample.id 3) = Ok l /\ led_free l = 800 /\ led_allocatable l = 770.
Proof.
  split; [exact sample_inputs_wf|].
  pose proof (ledger_closes Sample.fabric (Sample.id 3) sample_inputs_wf) as Hl.
  assert (find_path Sample.fabric (Sample.id 3) = Some Sample.path) as Hp
    by (vm_compute; reflexivity).
  rewrite Hp in Hl. destruct Hl as [_ Hl].
  destruct Hl as [Hl _]; [vm_compute; discriminate|split; vm_compute; discriminate|].
  eexists. split; [exact Hl|]. split; vm_compute; reflexivity.
Defined.

Lemma allocatable_exact_witness :
  ledger_inputs_wf Sample.fabric /\
  find_path Sample.fabric (Sample.id 3) = Some Sample.path /\
  allocatable Sample.fabric (Sample.id 3) GrantClass.Protected 10 = Ok 50 /\
  tot_protected_held (totals_for Sample.fabric (Sample.id 3)) + 50 =
    protected_floor Sample.fabric Sample.path.
Proof.
  assert (find_path Sample.fabric (Sample.id 3) = Some Sample.path) as Hp
    by (vm_compute; reflexivity).
  assert (allocatable Sample.fabric (Sample.id 3) GrantClass.Protected 10 = Ok 50) as Hn
    by (vm_compute; reflexivity).
  split_and!; [exact sample_inputs_wf|exact Hp|exact Hn|].
  exact (allocatable_exact _ _ _ GrantClass.Protected _ _ sample_inputs_wf Hp Hn).
Defined.

Lemma allocatable_within_ledger_witness :
  exists l,
    allocatable Sample.fabric (Sample.id 3) GrantClass.General 0 = Ok 720 /\
    ledger Sample.fabric (Sample.id 3) = Ok l /\ 720 <= led_allocatable l.
Proof.
  eexists.
  assert (allocatable Sample.fabric (Sample.id 3) GrantClass.General 0 = Ok 720) as Hn
    by (vm_compute; reflexivity).
  assert (ledger Sample.fabric (Sample.id 3) =
    Ok (mkCapacityLedger 1000 100 30 50 50 0 800 770 80 0 0)) as Hl by (vm_compute; reflexivity).
  split_and!; [exact Hn|exact Hl|].
  exact (allocatable_within_ledger _ _ _ _ sample_inputs_wf Hn Hl).
Defined.
