(* ===== verification/Changes.v ===== *)
(** * State changes (src/authority.cpp: change_for, apply)

    A mutation is a list of object post-images.  [change_for] encodes an object
    into a [StateChange]; [apply] decodes every change first and then installs
    the objects one after the other. *)

From Stdlib Require Import Strings.Byte.
From S2P Require Import Prelude Outcome Ids Lifecycle Policy Wire Model Codecs State.

Module ObjectKind.
Inductive t :=
  | Site | Path | Domain | Attestation | Grant | Verification | Oversubscription | Policy
  | Epoch | AuthorityMeta.
#[export] Instance t_eq_dec : EqDecision t.
Proof. solve_decision. Defined.
End ObjectKind.
Export (hints) ObjectKind.
Abbreviation ObjectKind := ObjectKind.t.

Definition object_kinds : list ObjectKind :=
  [ObjectKind.Site; ObjectKind.Path; ObjectKind.Domain; ObjectKind.Attestation;
   ObjectKind.Grant; ObjectKind.Verification; ObjectKind.Oversubscription;
   ObjectKind.Policy; ObjectKind.Epoch; ObjectKind.AuthorityMeta].

(** The enumerators start from 1. *)
Definition object_kind_value (k : ObjectKind) : N := enum_value object_kinds k + 1.

Definition object_kind_name (k : ObjectKind) : bytes :=
  match k with
  | ObjectKind.Site => str "SITE"
  | ObjectKind.Path => str "PATH"
  | ObjectKind.Domain => str "DOMAIN"
  | ObjectKind.Attestation => str "ATTESTATION"
  | ObjectKind.Grant => str "GRANT"
  | ObjectKind.Verification => str "VERIFICATION"
  | ObjectKind.Oversubscription => str "OVERSUBSCRIPTION"
  | ObjectKind.Policy => str "POLICY"
  | ObjectKind.Epoch => str "EPOCH"
  | ObjectKind.AuthorityMeta => str "AUTHORITY_META"
  end.

Record StateChange := mkStateChange {
  sc_kind : ObjectKind;
  sc_key : Id128;
  sc_image : bytes;
  sc_releases : bool;
}.

Definition encode_state_change (v : StateChange) : bytes :=
  w_u8 (object_kind_value (sc_kind v)) ++
  w_id128 (sc_key v) ++
  w_boolean (sc_releases v) ++
  w_bytes (sc_image v).

Definition r_object_kind : reader ObjectKind :=
  kind ← r_u8;
  if kind <? 1 then r_fail Status.Invalid
  else
    match object_kinds !! N.to_nat (kind - 1) with
    | None => r_fail Status.Invalid
    | Some k => mret k
    end.

Definition decode_state_change : reader StateChange :=
  kind ← r_object_kind;
  key ← r_id128;
  releases ← r_boolean;
  image ← r_bytes;
  mret (mkStateChange kind key image releases).

(** ** Objects and their changes *)

(** What the overloads of [change_for] encode and what [apply] decodes (its
    local struct [Decoded]).  The flag of a grant is [releases_capacity]. *)
Inductive Object :=
| OSite (v : SiteRecord)
| OPath (v : PathRecord)
| ODomain (v : SharedRiskDomain)
| OAttestation (v : CapacityAttestation)
| OGrant (v : GrantRecord) (releases : bool)
| OVerification (v : VerificationRecord)
| OOversubscription (v : OversubscriptionAuthority)
| OPolicy (v : Policy)
| OEpoch (v : Epoch)
| OMeta.

Definition object_kind (o : Object) : ObjectKind :=
  match o with
  | OSite _ => ObjectKind.Site
  | OPath _ => ObjectKind.Path
  | ODomain _ => ObjectKind.Domain
  | OAttestation _ => ObjectKind.Attestation
  | OGrant _ _ => ObjectKind.Grant
  | OVerification _ => ObjectKind.Verification
  | OOversubscription _ => ObjectKind.Oversubscription
  | OPolicy _ => ObjectKind.Policy
  | OEpoch _ => ObjectKind.Epoch
  | OMeta => ObjectKind.AuthorityMeta
  end.

Definition object_key (o : Object) : Id128 :=
  match o with
  | OSite v => raw (site_id v)
  | OPath v => raw (path_id v)
  | ODomain v => raw (dom_id v)
  | OAttestation v => raw (att_id v)
  | OGrant v _ => raw (g_id v)
  | OVerification v => raw (ver_id v)
  | OOversubscription v => raw (ovs_id v)
  | OPolicy _ | OEpoch _ | OMeta => nil_id
  end.

Definition object_image (o : Object) : bytes :=
  match o with
  | OSite v => encode v
  | OPath v => encode v
  | ODomain v => encode v
  | OAttestation v => encode v
  | OGrant v _ => encode v
  | OVerification v => encode v
  | OOversubscription v => encode v
  | OPolicy v => encode v
  | OEpoch v => w_u64 (epoch_value v)
  | OMeta => []
  end.

Definition object_releases (o : Object) : bool :=
  match o with OGrant _ releases => releases | _ => false end.

Definition change_for (o : Object) : StateChange :=
  mkStateChange (object_kind o) (object_key o) (object_image o) (object_releases o).

(** A mutation, its changes not encoded yet. *)
Record Mutation := mkMutation {
  m_objects : list Object;
  m_arbitration : ArbSeq;
}.
Definition m_changes (m : Mutation) : list StateChange := change_for <$> m_objects m.

(** ** Apply *)

Definition apply_limits : WireLimits := mkWireLimits (N.shiftl 16 20) 4096 65536 8.

(** [auto value = decode(reader); if (!value.ok()) return Corrupt;] *)
Definition decode_as {A} (d : reader A) (image : bytes) : Expected (A * bytes) :=
  match d apply_limits image with
  | Ok r => Ok r
  | Fail _ => Fail Status.Corrupt
  end.

(** Decodes one image and checks that its identity is the change's key. *)
Definition decode_keyed {A} (d : reader A) (key_of : A -> Id128) (make : A -> Object)
    (c : StateChange) : Expected (Object * bytes) :=
  '(v, rest) ← decode_as d (sc_image c);
  fail_if negb (bool_decide (key_of v = sc_key c)) with Status.Conflicting ;;
  Ok (make v, rest).

Definition decode_change (c : StateChange) : Expected Object :=
  '(o, rest) ←
    match sc_kind c with
    | ObjectKind.Site => decode_keyed decode_site (fun v => raw (site_id v)) OSite c
    | ObjectKind.Path => decode_keyed decode_path (fun v => raw (path_id v)) OPath c
    | ObjectKind.Domain => decode_keyed decode_domain (fun v => raw (dom_id v)) ODomain c
    | ObjectKind.Attestation =>
        decode_keyed decode_attestation (fun v => raw (att_id v)) OAttestation c
    | ObjectKind.Grant =>
        decode_keyed decode_grant (fun v => raw (g_id v)) (fun v => OGrant v (sc_releases c)) c
    | ObjectKind.Verification =>
        decode_keyed decode_verification (fun v => raw (ver_id v)) OVerification c
    | ObjectKind.Oversubscription =>
        decode_keyed decode_oversubscription (fun v => raw (ovs_id v)) OOversubscription c
    | ObjectKind.Policy => '(v, rest) ← decode_as decode_policy (sc_image c); Ok (OPolicy v, rest)
    | ObjectKind.Epoch =>
        '(v, rest) ← decode_as r_u64 (sc_image c); Ok (OEpoch (mkEpoch v), rest)
    | ObjectKind.AuthorityMeta => Ok (OMeta, sc_image c)
    end;
  fail_if negb (at_end rest) with Status.Corrupt ;;
  Ok o.

(** [table.size() >= max && table.find(key) == table.end()] *)
Definition table_full {A} (m : gmap Id128 A) (limit : N) (key : Id128) : bool :=
  (limit <=? N.of_nat (size m)) && bool_decide (m !! key = None).

(** The request index after a grant was installed. *)
Definition index_request (a : Authority) (g : GrantRecord) (key : Id128) :
    Expected (gmap Id128 Id128) :=
  if tid_is_nil (g_request g) then Ok (request_index a)
  else
    match request_index a !! raw (g_request g) with
    | Some other =>
        fail_if negb (bool_decide (other = key)) with Status.Duplicate ;;
        Ok (<[raw (g_request g) := key]> (request_index a))
    | None => Ok (<[raw (g_request g) := key]> (request_index a))
    end.

(** One iteration of the second loop of [apply]. *)
Definition install (a : Authority) (key : Id128) (o : Object) : Expected Authority :=
  match o with
  | OSite v =>
      fail_if table_full (sites_ a) (max_sites (config a)) key with Status.LimitExceeded ;;
      Ok (set_sites (<[key := v]> (sites_ a)) a)
  | OPath v =>
      fail_if table_full (paths_ a) (max_paths (config a)) key with Status.LimitExceeded ;;
      Ok (set_paths (<[key := v]> (paths_ a)) a)
  | ODomain v =>
      fail_if table_full (domains_ a) (max_domains (config a)) key with Status.LimitExceeded ;;
      Ok (set_domains (<[key := v]> (domains_ a)) a)
  | OAttestation v =>
      fail_if table_full (attestations_ a) (max_attestations (config a)) key
        with Status.LimitExceeded ;;
      Ok (set_attestations (<[key := v]> (attestations_ a)) a)
  | OGrant v _ =>
      fail_if table_full (grants_ a) (max_grants (config a)) key with Status.LimitExceeded ;;
      index ← index_request a v key;
      Ok (set_grants (<[key := v]> (grants_ a)) (set_request_index index a))
  | OVerification v =>
      fail_if table_full (verifications_ a) (max_verifications (config a)) key
        with Status.LimitExceeded ;;
      Ok (set_verifications (<[key := v]> (verifications_ a)) a)
  | OOversubscription v =>
      fail_if table_full (oversubscriptions_ a) (max_oversubscriptions (config a)) key
        with Status.LimitExceeded ;;
      Ok (set_oversubscriptions (<[key := v]> (oversubscriptions_ a)) a)
  | OPolicy v =>
      fail_if negb (is_ok (validate v)) with Status.Invalid ;;
      Ok (set_config (set_cfg_policy v (config a)) a)
  | OEpoch v =>
      fail_if epoch_value v =? 0 with Status.Invalid ;;
      Ok (set_config (set_cfg_epoch v (config a)) a)
  | OMeta => Ok a
  end.

(** The second loop: an early return leaves the objects installed so far. *)
Fixpoint install_all (a : Authority) (l : list (Id128 * Object)) : Authority * Status :=
  match l with
  | [] => (a, Status.Ok)
  | (key, o) :: l =>
      match install a key o with
      | Ok a => install_all a l
      | Fail s => (a, s)
      end
  end.

Definition raise_arbitration (arb : ArbSeq) (a : Authority) : Authority :=
  if arb_value (last_arbitration a) <? arb_value arb then set_last_arbitration arb a else a.

Definition finish_apply (arb : ArbSeq) (r : Authority * Status) : Authority * Status :=
  match r with
  | (a, Status.Ok) => (raise_arbitration arb a, Status.Ok)
  | _ => r
  end.

Definition apply (a : Authority) (changes : list StateChange) (arb : ArbSeq) : Authority * Status :=
  match mapM decode_change changes with
  | Fail s => (a, s)
  | Ok objects => finish_apply arb (install_all a (zip (sc_key <$> changes) objects))
  end.

Definition note_recovered_arbitration (arb : ArbSeq) (a : Authority) : Authority :=
  raise_arbitration arb a.

Definition kMaxReasonText : nat := 512.

Definition bounded (text : bytes) : bytes :=
  if (kMaxReasonText <? length text)%nat then take kMaxReasonText text else text.

Definition mark_recovered (a : Authority) (grant : GrantId) (provenance : Provenance)
    (ambiguous : bool) (reason : bytes) : Authority * Status :=
  match grants_ a !! raw grant with
  | None => (a, Status.NotFound)
  | Some record =>
      let record := set_g_provenance provenance record in
      let record := set_g_historical true record in
      let record := set_g_ambiguous ambiguous record in
      let record := if bool_decide (reason = []) then record else set_g_reason (bounded reason) record in
      let record := set_g_verification VerificationState.Unverified record in
      (set_grants (<[raw grant := record]> (grants_ a)) a, Status.Ok)
  end.

Definition mark_historical (g : GrantRecord) : GrantRecord :=
  if is_terminal (g_state g) then g else set_g_historical true g.

Definition mark_all_historical (a : Authority) : Authority :=
  set_grants (mark_historical <$> grants_ a) a.

(** ** Decoding undoes change_for *)

(** An object every field of which fits the wire. *)
Definition object_wf (o : Object) : Prop :=
  match o with
  | OSite v => site_wf apply_limits v
  | OPath v => path_wf apply_limits v
  | ODomain v => domain_wf apply_limits v
  | OAttestation v => attestation_wf apply_limits v
  | OGrant v _ => grant_wf apply_limits v
  | OVerification v => verification_wf apply_limits v
  | OOversubscription v => oversubscription_wf v
  | OPolicy v => policy_wf v
  | OEpoch v => u64_ok (epoch_value v)
  | OMeta => True
  end.

Lemma decode_as_ok {A} (d : reader A) (image : bytes) v :
  (forall rest, d apply_limits (image ++ rest) = Ok (v, rest)) -> decode_as d image = Ok (v, []).
Proof. intros Hd. unfold decode_as. specialize (Hd []). rewrite app_nil_r in Hd. by rewrite Hd. Qed.

Lemma decode_keyed_ok {A} `{!Codec A} (key_of : A -> Id128) (make : A -> Object) c v :
  codec_wf apply_limits v -> sc_image c = encode v -> sc_key c = key_of v ->
  decode_keyed decode key_of make c = Ok (make v, []).
Proof.
  intros Hwf Hi Hk. unfold decode_keyed.
  rewrite Hi, (decode_as_ok _ _ v) by (intros; by apply codec_roundtrip). cbn.
  unfold guard_fail. by rewrite Hk, bool_decide_eq_true_2.
Qed.

Lemma decode_change_for o : object_wf o -> decode_change (change_for o) = Ok o.
Proof.
  intros Hwf. unfold decode_change, change_for. cbn [sc_kind].
  destruct o as [v|v|v|v|v r|v|v|v|v|]; cbn [object_kind object_wf] in *.
  - by rewrite (decode_keyed_ok (Codec0:=site_codec) _ _ _ v).
  - by rewrite (decode_keyed_ok (Codec0:=path_codec) _ _ _ v).
  - by rewrite (decode_keyed_ok (Codec0:=domain_codec) _ _ _ v).
  - by rewrite (decode_keyed_ok (Codec0:=attestation_codec) _ _ _ v).
  - by rewrite (decode_keyed_ok (Codec0:=grant_codec) _ _ _ v).
  - by rewrite (decode_keyed_ok (Codec0:=verification_codec) _ _ _ v).
  - by rewrite (decode_keyed_ok (Codec0:=oversubscription_codec) _ _ _ v).
  - cbn [sc_image object_image].
    by rewrite (decode_as_ok _ _ v) by (intros; by apply decode_encode_policy).
  - cbn [sc_image object_image].
    rewrite (decode_as_ok _ _ (epoch_value v)) by (intros; by apply r_u64_w). by destruct v.
  - done.
Qed.

Lemma mapM_decode_changes objs :
  Forall object_wf objs -> mapM decode_change (change_for <$> objs) = Ok objs.
Proof.
  induction 1 as [|o objs Ho _ IH]; [done|]. rewrite fmap_cons. cbn [mapM].
  rewrite decode_change_for by done. cbn. by rewrite IH.
Qed.

(** The abstract meaning of a mutation: its objects installed under their own
    keys, in order. *)
Definition install_objects (a : Authority) (objs : list Object) : Authority * Status :=
  install_all a ((fun o => (object_key o, o)) <$> objs).

Lemma install_objects_cons a o objs :
  install_objects a (o :: objs) =
  match install a (object_key o) o with
  | Ok a => install_objects a objs
  | Fail s => (a, s)
  end.
Proof. done. Qed.

Lemma zip_keys objs :
  zip (sc_key <$> (change_for <$> objs)) objs = (fun o => (object_key o, o)) <$> objs.
Proof. induction objs as [|o objs IH]; [done|]. rewrite !fmap_cons. cbn [zip_with]. by f_equal. Qed.

Lemma apply_objects a objs arb :
  Forall object_wf objs ->
  apply a (change_for <$> objs) arb = finish_apply arb (install_objects a objs).
Proof.
  intros Hwf. unfold apply. by rewrite mapM_decode_changes, zip_keys by done.
Qed.

(** ** Every change a decoder accepts is keyed by its object *)

Definition keyed (p : Id128 * Object) : Prop :=
  match p.2 with
  | OPolicy _ | OEpoch _ | OMeta => True
  | o => p.1 = object_key o
  end.

Lemma object_keyed o : keyed (object_key o, o).
Proof. by destruct o. Qed.

Lemma decode_keyed_inv {A} (d : reader A) key_of make c r :
  decode_keyed d key_of make c = Ok r -> exists v, r.1 = make v /\ sc_key c = key_of v.
Proof.
  unfold decode_keyed. intros ([v rest] & _ & Hr)%expected_bind_ok.
  apply guard_fail_ok in Hr as [Hk [= <-]]. exists v. split; [done|]. by to_prop.
Qed.

Lemma decode_change_keyed c o : decode_change c = Ok o -> keyed (sc_key c, o).
Proof.
  unfold decode_change. intros ([o' rest] & Ho & [_ [= <-]]%guard_fail_ok)%expected_bind_ok.
  destruct (sc_kind c);
    try (apply decode_keyed_inv in Ho as (v & Hv & Hk); cbn in Hv; subst; exact Hk).
  - by apply expected_bind_ok in Ho as ([v ?] & _ & [= <- _]).
  - by apply expected_bind_ok in Ho as ([v ?] & _ & [= <- _]).
  - by simplify_eq.
Qed.

Lemma mapM_keyed changes objs :
  mapM decode_change changes = Ok objs -> Forall keyed (zip (sc_key <$> changes) objs).
Proof.
  revert objs. induction changes as [|c changes IH]; intros objs Hm; [constructor|].
  cbn [mapM] in Hm. apply expected_bind_ok in Hm as (o & Ho & Hm).
  apply expected_bind_ok in Hm as (objs' & Hobjs & [= <-]). rewrite fmap_cons.
  constructor; [by apply decode_change_keyed|by apply IH].
Qed.

(** A decoded change set fails only with these two statuses. *)
Lemma decode_change_status c s :
  decode_change c = Fail s -> s = Status.Corrupt \/ s = Status.Conflicting.
Proof.
  unfold decode_change, decode_keyed, decode_as, guard_fail, mbind, expected_bind.
  intros Hs. destruct (sc_kind c); repeat case_match; simplify_eq; auto.
Qed.

Lemma mapM_decode_status changes s :
  mapM decode_change changes = Fail s -> s = Status.Corrupt \/ s = Status.Conflicting.
Proof.
  revert s. induction changes as [|c changes IH]; intros s; cbn [mapM]; [done|].
  destruct (decode_change c) as [o|s'] eqn:Ec; cbn.
  - destruct (mapM decode_change changes) as [objs|s'] eqn:Em; cbn; [done|].
    intros [= ->]. by apply IH.
  - intros [= ->]. by eapply decode_change_status.
Qed.

(** ** Installing preserves the table invariant *)

Lemma insert_keyed {A} (f : A -> Id128) (m : gmap Id128 A) key v :
  (forall k x, m !! k = Some x -> f x = k) -> key = f v ->
  forall k x, <[key := v]> m !! k = Some x -> f x = k.
Proof. intros Hm -> k x [[<- <-]|[_ Hx]]%lookup_insert_Some; [done|by apply Hm]. Qed.

Lemma index_request_lookup a g key index r k :
  index_request a g key = Ok index -> request_index a !! r = Some k -> index !! r = Some k.
Proof.
  unfold index_request. destruct (tid_is_nil (g_request g)); [by intros [= <-]|].
  destruct (request_index a !! raw (g_request g)) as [other|] eqn:E.
  - intros [Ho [= <-]]%guard_fail_ok Hr. to_prop. subst other.
    destruct (decide (r = raw (g_request g))) as [->|]; [|by rewrite lookup_insert_ne].
    by rewrite lookup_insert_eq, <-Hr, E.
  - intros [= <-] Hr. rewrite lookup_insert_ne; [done|]. congruence.
Qed.

Lemma index_request_new a g key index :
  index_request a g key = Ok index -> tid_is_nil (g_request g) = false ->
  index !! raw (g_request g) = Some key.
Proof.
  unfold index_request. intros Hi Hn. rewrite Hn in Hi.
  destruct (request_index a !! _); [apply guard_fail_ok in Hi as [_ Hi]|]; simplify_eq;
    by rewrite lookup_insert_eq.
Qed.

Lemma install_well_keyed a key o a' :
  well_keyed a -> keyed (key, o) -> install a key o = Ok a' -> well_keyed a'.
Proof.
  intros [Hs Hp Hd Ha Hg Hv Ho Hr] Hk Hi.
  destruct o as [v|v|v|v|v r|v|v|v|v|]; cbn [keyed fst snd object_key] in Hk; cbn [install] in Hi;
    try (apply guard_fail_ok in Hi as [_ Hi]);
    try (injection Hi as <-; split; cbn; try done; by apply insert_keyed).
  apply expected_bind_ok in Hi as (index & Hindex & [= <-]). split; cbn; try done.
  - by apply insert_keyed.
  - intros k x [[<- <-]|[_ Hx]]%lookup_insert_Some Hnil; [by eapply index_request_new|].
    eapply index_request_lookup; [done|by apply Hr].
Qed.

Lemma install_all_well_keyed a l :
  well_keyed a -> Forall keyed l -> well_keyed (install_all a l).1.
Proof.
  intros Ha Hl. revert a Ha. induction Hl as [|[key o] l Hk _ IH]; intros a Ha; [done|].
  cbn. destruct (install a key o) as [a'|s] eqn:E; [|done].
  by apply IH, (install_well_keyed a key o).
Qed.

Lemma raise_arbitration_well_keyed arb a : well_keyed a -> well_keyed (raise_arbitration arb a).
Proof. intros []. unfold raise_arbitration. by destruct (_ <? _). Qed.

Lemma finish_apply_fst (P : Authority -> Prop) arb r :
  P r.1 -> P (raise_arbitration arb r.1) -> P (finish_apply arb r).1.
Proof. destruct r as [a []]; cbn; auto. Qed.

(** The tables never outgrow their configured bounds. *)
Definition within_limits (a : Authority) : Prop :=
  let c := config a in
  N.of_nat (size (sites_ a)) <= max_sites c /\ N.of_nat (size (paths_ a)) <= max_paths c /\
  N.of_nat (size (domains_ a)) <= max_domains c /\
  N.of_nat (size (attestations_ a)) <= max_attestations c /\
  N.of_nat (size (grants_ a)) <= max_grants c /\
  N.of_nat (size (verifications_ a)) <= max_verifications c /\
  N.of_nat (size (oversubscriptions_ a)) <= max_oversubscriptions c.

Lemma insert_size {A} (m : gmap Id128 A) limit key v :
  N.of_nat (size m) <= limit -> table_full m limit key = false ->
  N.of_nat (size (<[key := v]> m)) <= limit.
Proof.
  unfold table_full. intros Hm [Hf|Hf]%andb_false_iff.
  - to_prop. destruct (m !! key) eqn:E.
    + by rewrite map_size_insert_Some.
    + rewrite map_size_insert_None by done. lia.
  - to_prop. destruct (m !! key) eqn:E; [|done]. by rewrite map_size_insert_Some.
Qed.

Lemma install_within_limits a key o a' :
  within_limits a -> install a key o = Ok a' -> within_limits a'.
Proof.
  unfold within_limits. intros Hl Hi. destruct_and!.
  destruct o; cbn [install] in Hi; try (apply guard_fail_ok in Hi as [Hf Hi]);
    try (apply expected_bind_ok in Hi as (? & _ & Hi)); simplify_eq; cbn;
    split_and!; try done; by apply insert_size.
Qed.

Lemma install_all_within_limits a l : within_limits a -> within_limits (install_all a l).1.
Proof.
  revert a. induction l as [|[key o] l IH]; intros a Ha; [done|].
  cbn. destruct (install a key o) as [a'|s] eqn:E; [|done].
  by apply IH, (install_within_limits a key o).
Qed.

Lemma install_status a key o s :
  install a key o = Fail s ->
  s = Status.LimitExceeded \/ s = Status.Duplicate \/ s = Status.Invalid.
Proof.
  unfold install, index_request, guard_fail, mbind, expected_bind.
  intros Hs. destruct o; repeat case_match; simplify_eq; auto.
Qed.

Lemma install_all_status a l :
  (install_all a l).2 = Status.Ok \/ (install_all a l).2 = Status.LimitExceeded \/
  (install_all a l).2 = Status.Duplicate \/ (install_all a l).2 = Status.Invalid.
Proof.
  revert a. induction l as [|[key o] l IH]; intros a; cbn; [by left|].
  destruct (install a key o) as [a'|s] eqn:E; [apply IH|]. cbn.
  apply install_status in E. tauto.
Qed.

Lemma install_last_arbitration a key o a' :
  install a key o = Ok a' -> last_arbitration a' = last_arbitration a.
Proof.
  unfold install, index_request, guard_fail, mbind, expected_bind.
  intros Hi. destruct o; repeat case_match; simplify_eq; done.
Qed.

Lemma install_all_last_arbitration a l :
  last_arbitration (install_all a l).1 = last_arbitration a.
Proof.
  revert a. induction l as [|[key o] l IH]; intros a; cbn; [done|].
  destruct (install a key o) as [a'|s] eqn:E; [|done].
  rewrite IH. by eapply install_last_arbitration.
Qed.

Lemma r_object_kind_w lim k rest :
  r_object_kind lim (w_u8 (object_kind_value k) ++ rest) = Ok (k, rest).
Proof.
  unfold r_object_kind. eapply reader_bind_step; [apply r_u8_w; by destruct k|]. by destruct k.
Qed.

Lemma decode_encode_state_change lim v rest :
  id_wf (sc_key v) /\ bytes_wf lim (sc_image v) ->
  decode_state_change lim (encode_state_change v ++ rest) = Ok (v, rest).
Proof.
  intros [Hk Hi]. unfold encode_state_change, decode_state_change. rewrite <-!app_assoc.
  eapply reader_bind_step; [apply r_object_kind_w|]. cbv beta.
  codec_roundtrip_tac. by destruct v.
Qed.

#[export] Instance state_change_codec : Codec StateChange :=
  Build_Codec _ encode_state_change decode_state_change
    (fun lim v => id_wf (sc_key v) /\ bytes_wf lim (sc_image v)) decode_encode_state_change.

(** ** Properties *)

(** Decoding the change that [change_for] builds for any object with
    in-range fields gives exactly that object back: the nine record encoders
    and their decoders agree, and the key check of [apply] accepts the key. *)
Theorem change_for_decodes o : object_wf o -> decode_change (change_for o) = Ok o.
Proof. apply decode_change_for. Qed.

(** [apply] refines installation: on the encoded changes of well-formed
    objects it does exactly what installing those objects one by one does. *)
Theorem apply_refines_install a objs arb :
  Forall object_wf objs ->
  apply a (change_for <$> objs) arb = finish_apply arb (install_objects a objs).
Proof. apply apply_objects. Qed.

(** C18: whatever bytes a change set carries, and whether or not [apply]
    succeeds, every record stays under its own identity, a request stays
    mapped to its one grant, no table outgrows its bound, and the arbitration
    sequence never goes back. *)
Theorem apply_preserves_tables a changes arb :
  well_keyed a -> within_limits a ->
  let a' := (apply a changes arb).1 in
  well_keyed a' /\ within_limits a' /\
  arb_value (last_arbitration a) <= arb_value (last_arbitration a').
Proof.
  intros Hwk Hlim. unfold apply.
  destruct (mapM decode_change changes) as [objs|s] eqn:Em; [|done].
  pose proof (mapM_keyed _ _ Em) as Hkeyed. set (l := zip _ objs) in *.
  pose proof (install_all_well_keyed a l Hwk Hkeyed).
  pose proof (install_all_within_limits a l Hlim).
  pose proof (install_all_last_arbitration a l) as Harb.
  apply (finish_apply_fst (fun a' => well_keyed a' /\ within_limits a' /\
    arb_value (last_arbitration a) <= arb_value (last_arbitration a'))).
  - split_and!; [done|done|]. by rewrite Harb.
  - split_and!; [by apply raise_arbitration_well_keyed| |];
      unfold raise_arbitration; rewrite Harb; case_match; try done; to_prop; cbn; lia || by rewrite Harb.
Qed.

(** A change set with an undecodable image or a mismatched key is not
    applied in part: [apply] answers Corrupt or Conflicting only with the
    state unchanged. *)
Theorem apply_undecodable_unchanged a changes arb :
  (apply a changes arb).2 = Status.Corrupt \/ (apply a changes arb).2 = Status.Conflicting ->
  (apply a changes arb).1 = a.
Proof.
  unfold apply. destruct (mapM decode_change changes) as [objs|s]; [|done].
  set (l := zip _ objs). pose proof (install_all_status a l) as Hs.
  destruct (install_all a l) as [a' s]. cbn in Hs. intros Hbad. exfalso.
  destruct Hs as [->|[->|[->| ->]]]; destruct Hbad; discriminate.
Qed.

(** [apply] is atomic against undecodable changes only: a change set whose
    second grant repeats a request already answered is refused as Duplicate
    after its first object was installed. *)
Theorem apply_partial_on_duplicate :
  let g := Sample.grant 5 GrantClass.General 10 GrantState.Proposed in
  let clash := mkGrantRecord (Sample.id 8) (g_request g) (mkArbSeq 11) (g_binding g) (g_class g) 10
    GrantState.Proposed (g_verification g) false 0 1 1 1 [] Provenance.Live false false in
  let r := apply Sample.fabric
    (change_for <$> [OSite (set_site_state SiteState.Down (Sample.site 1)); OGrant clash false])
    (mkArbSeq 11) in
  r.2 = Status.Duplicate /\ r.1 <> Sample.fabric.
Proof.
  cbv zeta. split; [vm_compute; reflexivity|]. intros Heq.
  apply (f_equal (fun a => site_state <$> find_site a (Sample.id 1))) in Heq.
  vm_compute in Heq. discriminate.
Qed.

(** ** Witnesses *)

Ltac wf_by_compute :=
  repeat (split || apply List.Forall_cons || apply List.Forall_nil);
  vm_compute; first [reflexivity | discriminate | lia].

Lemma sample_grant_wf :
  object_wf (OGrant (Sample.grant 5 GrantClass.General 100 GrantState.Active) false).
Proof. unfold object_wf, grant_wf, binding_wf, bounded_str_wf, str_wf. wf_by_compute. Qed.

Lemma change_for_decodes_witness :
  let o := OGrant (Sample.grant 5 GrantClass.General 100 GrantState.Active) false in
  object_wf o /\ decode_change (change_for o) = Ok o.
Proof.
  split; [exact sample_grant_wf|]. exact (change_for_decodes _ sample_grant_wf).
Defined.

Lemma apply_refines_install_witness :
  let objs := [OGrant (Sample.grant 5 GrantClass.General 100 GrantState.Active) false] in
  Forall object_wf objs /\
  apply Sample.fabric (change_for <$> objs) (mkArbSeq 10) =
  finish_apply (mkArbSeq 10) (install_objects Sample.fabric objs).
Proof.
  assert (Forall object_wf
    [OGrant (Sample.grant 5 GrantClass.General 100 GrantState.Active) false]) as Hwf
    by (constructor; [exact sample_grant_wf|constructor]).
  split; [exact Hwf|]. exact (apply_refines_install Sample.fabric _ (mkArbSeq 10) Hwf).
Defined.

(** Decides a statement about every entry of a concrete table. *)
Lemma map_forall {A} (P : Id128 -> A -> Prop) (p : Id128 -> A -> bool) (m : gmap Id128 A) :
  (forall k x, p k x = true -> P k x) ->
  forallb (fun e => p e.1 e.2) (map_to_list m) = true -> forall k x, m !! k = Some x -> P k x.
Proof.
  intros Hp Hall k x Hx. apply Hp. rewrite forallb_forall in Hall.
  apply (Hall (k, x)), list_elem_of_In. by apply elem_of_map_to_list.
Qed.

Lemma key_forall {A} (f : A -> Id128) (m : gmap Id128 A) :
  forallb (fun e => bool_decide (f e.2 = e.1)) (map_to_list m) = true ->
  forall k x, m !! k = Some x -> f x = k.
Proof.
  intros Hall k x Hx. refine (map_forall (fun k x => f x = k) (fun k x => bool_decide (f x = k)) m _ Hall k x Hx).
  intros k' x'. apply bool_decide_eq_true.
Qed.

Lemma sample_well_keyed : well_keyed Sample.fabric.
Proof.
  split; try (apply key_forall; vm_compute; reflexivity).
  intros k v Hk _. revert k v Hk.
  apply (map_forall _ (fun k v =>
    bool_decide (request_index Sample.fabric !! raw (g_request v) = Some k))).
  - intros k v. apply bool_decide_eq_true.
  - vm_compute. reflexivity.
Qed.

Lemma sample_within_limits : within_limits Sample.fabric.
Proof. unfold within_limits. split_and!; vm_compute; discriminate. Qed.

Lemma apply_preserves_tables_witness :
  well_keyed Sample.fabric /\ within_limits Sample.fabric /\
  well_keyed (apply Sample.fabric (change_for <$> [OSite (Sample.site 4)]) (mkArbSeq 10)).1.
Proof.
  split_and!; [exact sample_well_keyed|exact sample_within_limits|].
  exact (proj1 (apply_preserves_tables _ _ _ sample_well_keyed sample_within_limits)).
Defined.

Lemma apply_undecodable_unchanged_witness :
  let bad := [change_for (OSite (Sample.site 4)); mkStateChange ObjectKind.Grant nil_id [x00] false] in
  (apply Sample.fabric bad (mkArbSeq 10)).2 = Status.Corrupt /\
  (apply Sample.fabric bad (mkArbSeq 10)).1 = Sample.fabric.
Proof.
  cbv zeta.
  assert ((apply Sample.fabric [change_for (OSite (Sample.site 4));
    mkStateChange ObjectKind.Grant nil_id [x00] false] (mkArbSeq 10)).2 = Status.Corrupt) as Hs
    by (vm_compute; reflexivity).
  split; [exact Hs|]. exact (apply_undecodable_unchanged _ _ _ (or_introl Hs)).
Defined.
