(* ===== verification/Invariants.v ===== *)
(** * Structural invariants and binding validation (src/authority.cpp)

    [verify_invariants] and [check_binding].  [consistent] states in logic what
    [verify_invariants] decides; [verify_invariants_iff] proves that it does. *)

From S2P Require Import Prelude Outcome Ids Lifecycle Capacity Policy Wire Model State Ledger.
From S2P Require Import Changes.

(** ** Currency of a binding *)

(** States for which a grant's generation binding must still match live state. *)
Definition requires_current_binding (s : GrantState) : bool :=
  match s with
  | GrantState.Proposed | GrantState.Eligible | GrantState.Reserved | GrantState.Active
  | GrantState.Degraded => true
  | _ => false
  end.

(** The dependency comparisons that [check_binding] and [verify_invariants]
    share; they report a superseded incarnation with different statuses. *)
Definition binding_status (a : Authority) (site : SiteRecord) (path : PathRecord)
    (b : GrantBinding) (superseded : Status) : Status :=
  if negb (epoch_value (b_epoch b) =? epoch_value (epoch a)) then Status.Stale
  else if negb (id_eqb (b_holder_incarnation b) (site_incarnation site)) then superseded
  else if negb (gen_eqb (b_policy_generation b) (pol_generation (policy a))) then Status.Stale
  else if negb (gen_eqb (b_path_generation b) (path_generation path)) then Status.Stale
  else if negb (gen_eqb (b_capacity_generation b) (path_capacity_generation path))
    then Status.Stale
  else Status.Ok.

Definition check_binding (a : Authority) (grant : GrantRecord) (op : GrantOperation) : Status :=
  let b := g_binding grant in
  if negb (tid_is_nil (op_actor op)) && negb (id_eqb (op_actor op) (b_holder b))
    then Status.Denied
  else if negb (tid_is_nil (op_lease op)) && negb (id_eqb (op_lease op) (b_lease b))
    then Status.Stale
  else
    match find_site a (b_holder b), find_path a (b_path b) with
    | None, _ | Some _, None => Status.NotFound
    | Some site, Some path =>
        if negb (tid_is_nil (op_actor_incarnation op)) &&
           negb (id_eqb (op_actor_incarnation op) (site_incarnation site))
          then Status.Fenced
        else if negb (epoch_value (op_epoch op) =? 0) &&
                negb (epoch_value (op_epoch op) =? epoch_value (epoch a))
          then Status.Stale
        else if negb (gen_is_nil (op_path_generation op)) &&
                negb (gen_eqb (op_path_generation op) (path_generation path))
          then Status.Stale
        else if negb (gen_is_nil (op_capacity_generation op)) &&
                negb (gen_eqb (op_capacity_generation op) (path_capacity_generation path))
          then Status.Stale
        else if negb (gen_is_nil (op_policy_generation op)) &&
                negb (gen_eqb (op_policy_generation op) (pol_generation (policy a)))
          then Status.Stale
        else
          let current :=
            if requires_current_binding (g_state grant)
            then binding_status a site path b Status.Fenced else Status.Ok in
          if negb (is_ok current) then current
          else if g_ambiguous grant && negb (state_is GrantState.Withdrawing grant) &&
                  negb (bool_decide (op_reason op = str "reconcile"))
            then Status.Indeterminate
          else Status.Ok
    end.

(** ** verify_invariants *)

(** [for (x : l) { ... return ...; }] threading a state. *)
Fixpoint fold_steps {A B} (f : B -> A -> Expected B) (b : B) (l : list A) : Expected B :=
  match l with
  | [] => Ok b
  | x :: l => b ← f b x; fold_steps f b l
  end.

(** The single pass that builds every path's totals. *)
Definition add_to_totals (m : gmap Id128 PathTotals) (g : GrantRecord) : gmap Id128 PathTotals :=
  if negb (holds_capacity (g_state g)) then m
  else
    let key := raw (b_path (g_binding g)) in
    <[key := add_grant (default zero_totals (m !! key)) g]> m.

Definition totals_by_path (a : Authority) : gmap Id128 PathTotals :=
  foldl add_to_totals ∅ (grants a).

Definition check_path (a : Authority) (totals_map : gmap Id128 PathTotals) (r : PathRecord) :
    Expected unit :=
  fail_if path_authoritative_usable r <? path_unavailable r with Status.Conflicting ;;
  let totals := default zero_totals (totals_map !! raw (path_id r)) in
  computed ← fill_ledger a r totals (extension_for a r (path_id r) 0);
  fail_if negb (is_ok (verify_closure computed)) with verify_closure computed ;;
  fail_if negb (led_oversubscribed computed =? 0) with Status.Conflicting ;;
  fail_if protected_floor a r <? tot_protected_held totals with Status.Conflicting ;;
  Ok tt.

(** [owners.emplace(key, id)] and the test of its result: [None] when the key
    already has another owner. *)
Definition claim {K} `{Countable K} (m : gmap K GrantId) (key : K) (id : GrantId) :
    option (gmap K GrantId) :=
  match m !! key with
  | None => Some (<[key := id]> m)
  | Some other => if id_eqb other id then Some m else None
  end.

Definition claimed {K} `{Countable K} (o : option (gmap K GrantId)) : Expected (gmap K GrantId) :=
  match o with Some m => Ok m | None => Fail Status.Conflicting end.

Definition found_or {A} (s : Status) (o : option A) : Expected A :=
  match o with Some x => Ok x | None => Fail s end.

(** The owners of arbitration sequences and of leases. *)
Definition owners : Type := gmap N GrantId * gmap Id128 GrantId.

Definition check_grant (a : Authority) (o : owners) (g : GrantRecord) : Expected owners :=
  let b := g_binding g in
  let last := arb_value (last_arbitration a) in
  fail_if tid_is_nil (g_id g) with Status.Corrupt ;;
  fail_if arb_value (g_arbitration g) =? 0 with Status.Corrupt ;;
  fail_if (last <? arb_value (g_arbitration g)) && negb (last =? 0) with Status.Conflicting ;;
  arbs ← claimed (claim o.1 (arb_value (g_arbitration g)) (g_id g));
  leases ← (if tid_is_nil (b_lease b) then Ok o.2
            else claimed (claim o.2 (raw (b_lease b)) (g_id g)));
  path ← found_or Status.Corrupt (find_path a (b_path b));
  site ← found_or Status.Corrupt (find_site a (b_holder b));
  let current := if requires_current_binding (g_state g)
                 then binding_status a site path b Status.Stale else Status.Ok in
  fail_if negb (is_ok current) with current ;;
  fail_if state_is GrantState.Active g && require_verification_for_active (policy a) &&
          negb (bool_decide (g_verification g = VerificationState.Verified))
    with Status.Incomplete ;;
  Ok (arbs, leases).

Definition check_references (a : Authority) (r : PathRecord) : Expected unit :=
  fail_if negb (tid_is_nil (path_shared_risk_domain r)) &&
          bool_decide (domains_ a !! raw (path_shared_risk_domain r) = None)
    with Status.Corrupt ;;
  fail_if negb (tid_is_nil (path_endpoint_a r)) &&
          bool_decide (sites_ a !! raw (path_endpoint_a r) = None) with Status.Incomplete ;;
  fail_if negb (tid_is_nil (path_endpoint_b r)) &&
          bool_decide (sites_ a !! raw (path_endpoint_b r) = None) with Status.Incomplete ;;
  Ok tt.

(** A table above its bound. *)
Definition exceeds_bounds (a : Authority) : bool :=
  let c := config a in
  (max_sites c <? N.of_nat (size (sites_ a))) || (max_paths c <? N.of_nat (size (paths_ a))) ||
  (max_grants c <? N.of_nat (size (grants_ a))) ||
  (max_domains c <? N.of_nat (size (domains_ a))) ||
  (max_attestations c <? N.of_nat (size (attestations_ a))) ||
  (max_verifications c <? N.of_nat (size (verifications_ a))) ||
  (max_oversubscriptions c <? N.of_nat (size (oversubscriptions_ a))).

Definition invariant_steps (a : Authority) : Expected unit :=
  let totals_map := totals_by_path a in
  _ ← fold_steps (fun _ r => check_path a totals_map r) tt (paths a);
  _ ← fold_steps (check_grant a) (∅, ∅) (grants a);
  _ ← fold_steps (fun _ r => check_references a r) tt (paths a);
  fail_if negb (is_ok (validate (policy a))) with Status.Invalid ;;
  fail_if exceeds_bounds a with Status.LimitExceeded ;;
  Ok tt.

(** The explanation out-parameter is diagnostic text and not modelled. *)
Definition verify_invariants (a : Authority) : Status := expected_status (invariant_steps a).

(** ** The single pass computes the totals of every path *)

Lemma id_eqb_raw {tag} (x y : TypedId tag) : id_eqb x y = bool_decide (raw x = raw y).
Proof. destruct x, y. unfold id_eqb. cbn. apply bool_decide_ext. split; congruence. Qed.

Lemma totals_by_path_lookup a p :
  default zero_totals (totals_by_path a !! raw p) = totals_for a p.
Proof.
  unfold totals_by_path, totals_for.
  induction (grants a) as [|g l IH] using rev_ind; [done|].
  rewrite !foldl_snoc, <-IH. unfold add_to_totals at 1. unfold on_path.
  rewrite id_eqb_raw. destruct (holds_capacity (g_state g)); cbn [negb]; [|by rewrite orb_true_r].
  case_bool_decide as Heq; cbn.
  - by rewrite Heq, lookup_insert_eq.
  - by rewrite lookup_insert_ne.
Qed.

(** ** What the invariants mean *)

Definition binding_current (a : Authority) (site : SiteRecord) (path : PathRecord)
    (b : GrantBinding) : Prop :=
  epoch_value (b_epoch b) = epoch_value (epoch a) /\
  b_holder_incarnation b = site_incarnation site /\
  b_policy_generation b = pol_generation (policy a) /\
  b_path_generation b = path_generation path /\
  b_capacity_generation b = path_capacity_generation path.

(** Obligations fit under the path's ceiling and protected obligations under
    the protected floor. *)
Definition path_consistent (a : Authority) (r : PathRecord) : Prop :=
  let t := totals_for a (path_id r) in
  let x := extension_for a r (path_id r) 0 in
  path_unavailable r <= path_authoritative_usable r /\
  ledger_fits a r t x /\
  structural_of a r t <= path_authoritative_usable r + x /\
  tot_protected_held t <= protected_floor a r.

Definition grant_consistent (a : Authority) (g : GrantRecord) : Prop :=
  let last := arb_value (last_arbitration a) in
  tid_is_nil (g_id g) = false /\ arb_value (g_arbitration g) <> 0 /\
  (arb_value (g_arbitration g) <= last \/ last = 0) /\
  exists path site,
    find_path a (b_path (g_binding g)) = Some path /\
    find_site a (b_holder (g_binding g)) = Some site /\
    (requires_current_binding (g_state g) = true ->
       binding_current a site path (g_binding g)) /\
    (g_state g = GrantState.Active -> require_verification_for_active (policy a) = true ->
       g_verification g = VerificationState.Verified).

(** Two grants share neither an arbitration sequence nor a lease. *)
Definition grants_distinct (g h : GrantRecord) : Prop :=
  (arb_value (g_arbitration g) = arb_value (g_arbitration h) -> g_id g = g_id h) /\
  (tid_is_nil (b_lease (g_binding g)) = false -> b_lease (g_binding g) = b_lease (g_binding h) ->
     g_id g = g_id h).

Definition references_consistent (a : Authority) (r : PathRecord) : Prop :=
  (tid_is_nil (path_shared_risk_domain r) = false ->
     is_Some (domains_ a !! raw (path_shared_risk_domain r))) /\
  (tid_is_nil (path_endpoint_a r) = false -> is_Some (sites_ a !! raw (path_endpoint_a r))) /\
  (tid_is_nil (path_endpoint_b r) = false -> is_Some (sites_ a !! raw (path_endpoint_b r))).

Record consistent (a : Authority) : Prop := {
  cons_paths r : r ∈ paths a -> path_consistent a r;
  cons_grants g : g ∈ grants a -> grant_consistent a g;
  cons_distinct g h : g ∈ grants a -> h ∈ grants a -> grants_distinct g h;
  cons_references r : r ∈ paths a -> references_consistent a r;
  cons_policy : validate (policy a) = Status.Ok;
  cons_limits : within_limits a;
}.

Lemma is_ok_spec s : is_ok s = true <-> s = Status.Ok.
Proof. unfold is_ok. apply bool_decide_eq_true. Qed.

Lemma not_is_ok s : negb (is_ok s) = false <-> s = Status.Ok.
Proof. rewrite negb_false_iff. apply is_ok_spec. Qed.

Lemma binding_status_ok a site path b s :
  s <> Status.Ok -> binding_status a site path b s = Status.Ok <-> binding_current a site path b.
Proof.
  intros Hs. unfold binding_status, binding_current.
  rewrite <-N.eqb_eq, <-id_eqb_spec, <-!gen_eqb_spec.
  repeat match goal with |- context [if negb ?c then _ else _] => destruct c; cbn end;
    intuition congruence.
Qed.

Lemma fold_steps_unit {A} (f : A -> Expected unit) l :
  fold_steps (fun _ x => f x) tt l = Ok tt <-> forall x, x ∈ l -> f x = Ok tt.
Proof.
  induction l as [|x l IH]; cbn.
  { split; [|done]. intros _ x Hx. by apply elem_of_nil in Hx. }
  rewrite expected_bind_ok. split.
  - intros ([] & Hx & Hl) y [->|Hy]%elem_of_cons; [done|]. by apply IH.
  - intros Hall. exists tt. split; [apply Hall; constructor|].
    apply IH. intros y Hy. apply Hall. by constructor.
Qed.

Lemma ok_unit_iff (b : bool) s (k : Expected unit) :
  guard_fail b s k = Ok tt <-> b = false /\ k = Ok tt.
Proof. apply guard_fail_ok. Qed.

Lemma check_path_iff a r :
  ledger_inputs_wf a -> find_path a (path_id r) = Some r ->
  check_path a (totals_by_path a) r = Ok tt <-> path_consistent a r.
Proof.
  intros Hwf Hr. destruct (require_path_inputs a (path_id r) r Hwf) as (Hr' & Ht & Hx);
    [by apply found_ok|]. specialize (Hx 0).
  unfold check_path, path_consistent. rewrite totals_by_path_lookup.
  rewrite fill_ledger_spec by done. rewrite guard_fail_ok, N.ltb_ge.
  case_decide as Hfits; cbn; [|naive_solver].
  rewrite guard_fail_ok, not_is_ok, ledger_of_closed by done.
  rewrite !guard_fail_ok, negb_false_iff, N.eqb_eq, N.ltb_ge.
  unfold ledger_of. cbn [led_oversubscribed]. rewrite N.sub_0_le. naive_solver.
Qed.

Lemma missing_iff {A} (c : bool) (o : option A) :
  (negb c && bool_decide (o = None) = false) <-> (c = false -> is_Some o).
Proof.
  rewrite andb_false_iff, negb_false_iff, bool_decide_eq_false, not_eq_None_Some.
  destruct c; naive_solver.
Qed.

Lemma check_references_iff a r :
  check_references a r = Ok tt <-> references_consistent a r.
Proof.
  unfold check_references, references_consistent. rewrite !guard_fail_ok, !missing_iff. naive_solver.
Qed.

Lemma exceeds_bounds_iff a : exceeds_bounds a = false <-> within_limits a.
Proof.
  unfold exceeds_bounds, within_limits. rewrite !orb_false_iff, !N.ltb_ge. naive_solver.
Qed.

(** ** The pass over the grants *)

Section Claims.
Context {K : Type} `{Countable K}.

(** [m] maps exactly the keys of [l] to their owners. *)
Definition owned_by (m : gmap K GrantId) (l : list (K * GrantId)) : Prop :=
  forall k i, m !! k = Some i <-> (k, i) ∈ l.

Lemma owned_by_empty : owned_by ∅ [].
Proof. intros k i. rewrite lookup_empty. split; [done|]. by intros ?%elem_of_nil. Qed.

Lemma claim_iff m l key id m' :
  owned_by m l ->
  claim m key id = Some m' <->
  (forall i, (key, i) ∈ l -> i = id) /\ owned_by m' (l ++ [(key, id)]) /\ claim m key id = Some m'.
Proof.
  intros Hm. split; [|by intros (_ & _ & ?)]. intros Hc. pose proof Hc as Hc'.
  unfold claim in Hc. destruct (m !! key) as [other|] eqn:E.
  - destruct (id_eqb other id) eqn:Eo; [|done]. apply id_eqb_spec in Eo as ->. simplify_eq.
    split_and!; [|..|done].
    + intros i Hi. apply Hm in Hi. congruence.
    + intros k i. rewrite (Hm k i), elem_of_app, list_elem_of_singleton.
      split; [by left|]. intros [?|[= -> ->]]; [done|]. by apply Hm.
  - simplify_eq. split_and!; [|..|done].
    + intros i Hi. apply Hm in Hi. congruence.
    + intros k i. rewrite lookup_insert_Some, (Hm k i), elem_of_app, list_elem_of_singleton.
      split; [intros [[<- <-]|[_ ?]]; [by right|by left]|].
      intros [Hi|[= -> ->]]; [|by left]. right. split; [|done].
      intros <-. apply Hm in Hi. congruence.
Qed.

Lemma claim_some m l key id :
  owned_by m l -> (forall i, (key, i) ∈ l -> i = id) -> is_Some (claim m key id).
Proof.
  intros Hm Hl. unfold claim. destruct (m !! key) as [other|] eqn:E; [|done].
  apply Hm, Hl in E as ->. by rewrite (proj2 (id_eqb_spec id id)).
Qed.
End Claims.

Definition arb_claims (l : list GrantRecord) : list (N * GrantId) :=
  (fun g => (arb_value (g_arbitration g), g_id g)) <$> l.

Definition lease_claims (l : list GrantRecord) : list (Id128 * GrantId) :=
  (fun g => (raw (b_lease (g_binding g)), g_id g)) <$>
    filter (fun g => tid_is_nil (b_lease (g_binding g)) = false) l.

Definition owners_of (o : owners) (l : list GrantRecord) : Prop :=
  owned_by o.1 (arb_claims l) /\ owned_by o.2 (lease_claims l).

Lemma raw_inj {tag} (x y : TypedId tag) : raw x = raw y -> x = y.
Proof. destruct x, y. cbn. by intros ->. Qed.

Lemma elem_of_arb_claims l k i :
  (k, i) ∈ arb_claims l <-> exists h, h ∈ l /\ arb_value (g_arbitration h) = k /\ g_id h = i.
Proof. unfold arb_claims. rewrite list_elem_of_fmap. naive_solver. Qed.

Lemma elem_of_lease_claims l k i :
  (k, i) ∈ lease_claims l <->
  exists h, h ∈ l /\ tid_is_nil (b_lease (g_binding h)) = false /\
            raw (b_lease (g_binding h)) = k /\ g_id h = i.
Proof.
  unfold lease_claims. rewrite list_elem_of_fmap. setoid_rewrite list_elem_of_filter. naive_solver.
Qed.

Lemma lease_claims_snoc l g :
  lease_claims (l ++ [g]) =
  if tid_is_nil (b_lease (g_binding g)) then lease_claims l
  else lease_claims l ++ [(raw (b_lease (g_binding g)), g_id g)].
Proof.
  unfold lease_claims. rewrite filter_app, fmap_app.
  destruct (tid_is_nil (b_lease (g_binding g))) eqn:E.
  - rewrite filter_cons_False by congruence. by rewrite filter_nil, app_nil_r.
  - by rewrite filter_cons_True, filter_nil.
Qed.

Lemma found_or_ok {A} s (o : option A) x : found_or s o = Ok x <-> o = Some x.
Proof. destruct o; cbn; split; congruence. Qed.

Lemma claimed_ok {K} `{Countable K} (o : option (gmap K GrantId)) m : claimed o = Ok m <-> o = Some m.
Proof. destruct o; cbn; split; congruence. Qed.

(** The checks of one grant that do not involve the owners. *)
Lemma check_grant_iff a o g o' :
  check_grant a o g = Ok o' <->
  grant_consistent a g /\
  claim o.1 (arb_value (g_arbitration g)) (g_id g) = Some o'.1 /\
  (if tid_is_nil (b_lease (g_binding g)) then o'.2 = o.2
   else claim o.2 (raw (b_lease (g_binding g))) (g_id g) = Some o'.2).
Proof.
  unfold check_grant, grant_consistent. rewrite !guard_fail_ok, expected_bind_ok.
  rewrite N.eqb_neq, andb_false_iff, negb_false_iff, N.ltb_ge, N.eqb_eq.
  split.
  - intros (Hn & Ha & Hlast & arbs & Harbs%claimed_ok & Hrest).
    apply expected_bind_ok in Hrest as (leases & Hl & Hrest).
    apply expected_bind_ok in Hrest as (path & Hp%found_or_ok & Hrest).
    apply expected_bind_ok in Hrest as (site & Hs%found_or_ok & Hrest).
    apply guard_fail_ok in Hrest as [Hcur Hrest]. apply guard_fail_ok in Hrest as [Hver [= <-]].
    cbn. split_and!; [done..| |done|].
    + exists path, site. split_and!; [done..| |].
      * intros Hreq. rewrite Hreq in Hcur. apply not_is_ok in Hcur.
        by apply binding_status_ok in Hcur.
      * intros Hact Hreq. unfold state_is in Hver. rewrite bool_decide_eq_true_2, Hreq in Hver by done.
        cbn in Hver. by to_prop.
    + destruct (tid_is_nil (b_lease _)); [congruence|by apply claimed_ok].
  - intros ((Hn & Ha & Hlast & path & site & Hp & Hs & Hcur & Hver) & Harbs & Hl).
    split_and!; [done..|]. exists o'.1. rewrite Harbs. split; [done|].
    apply expected_bind_ok. exists o'.2. split.
    { destruct (tid_is_nil (b_lease _)); by rewrite Hl. }
    rewrite Hp, Hs. cbn. rewrite !guard_fail_ok, not_is_ok. split_and!; [| |by destruct o'].
    + destruct (requires_current_binding (g_state g)); [|done].
      apply binding_status_ok; [done|by apply Hcur].
    + unfold state_is. destruct (decide (g_state g = GrantState.Active)) as [Hact|];
        [|by rewrite bool_decide_eq_false_2].
      destruct (require_verification_for_active (policy a)) eqn:Er; [|by rewrite andb_false_r].
      by rewrite Hver, bool_decide_eq_true_2, andb_false_r by done.
Qed.

Lemma grants_distinct_refl g : grants_distinct g g.
Proof. done. Qed.

Lemma grants_distinct_sym g h : grants_distinct g h -> grants_distinct h g.
Proof.
  intros [Ha Hl]. split; [intros He; symmetry; apply Ha; congruence|]. intros Hn He. rewrite He in Hn.
  symmetry. by apply Hl.
Qed.

Lemma check_grant_owners a o P g o' :
  owners_of o P -> check_grant a o g = Ok o' ->
  owners_of o' (P ++ [g]) /\ forall h, h ∈ P -> grants_distinct g h.
Proof.
  intros [Ho1 Ho2] (_ & Harb & Hlease)%check_grant_iff.
  apply (claim_iff _ _ _ _ _ Ho1) in Harb as (Harb & Ho1' & _).
  unfold owners_of, arb_claims. rewrite fmap_app, lease_claims_snoc.
  destruct (tid_is_nil (b_lease (g_binding g))) eqn:En.
  - rewrite Hlease. split; [done|]. intros h Hh. split; [|congruence].
    intros He. symmetry. apply Harb, elem_of_arb_claims. by exists h.
  - apply (claim_iff _ _ _ _ _ Ho2) in Hlease as (Hl & Ho2' & _). split; [done|].
    intros h Hh. split; intros; symmetry.
    + apply Harb, elem_of_arb_claims. by exists h.
    + apply Hl, elem_of_lease_claims. exists h. split_and!; [done|congruence|congruence|done].
Qed.

Lemma check_grant_succeeds a o P g :
  owners_of o P -> grant_consistent a g -> (forall h, h ∈ P -> grants_distinct g h) ->
  exists o', check_grant a o g = Ok o'.
Proof.
  intros [Ho1 Ho2] Hg Hd.
  destruct (claim_some o.1 _ (arb_value (g_arbitration g)) (g_id g) Ho1) as [m1 Hm1].
  { intros i (h & Hh & He & <-)%elem_of_arb_claims. symmetry. apply (proj1 (Hd h Hh)). congruence. }
  assert (tid_is_nil (b_lease (g_binding g)) = false ->
    is_Some (claim o.2 (raw (b_lease (g_binding g))) (g_id g))) as Hl.
  { intros Hn. apply (claim_some o.2 _ _ _ Ho2).
    intros i (h & Hh & _ & He & <-)%elem_of_lease_claims. symmetry.
    apply (proj2 (Hd h Hh)); [done|]. apply raw_inj. by rewrite He. }
  destruct (tid_is_nil (b_lease (g_binding g))) eqn:En.
  - exists (m1, o.2). apply check_grant_iff. by rewrite En.
  - destruct Hl as [m2 Hm2]; [done|]. exists (m1, m2). apply check_grant_iff. by rewrite En.
Qed.

Lemma fold_grants_iff a o P l :
  owners_of o P ->
  (exists o', fold_steps (check_grant a) o l = Ok o') <->
  (forall g, g ∈ l -> grant_consistent a g) /\
  (forall g h, g ∈ l -> h ∈ P ++ l -> grants_distinct g h).
Proof.
  revert o P. induction l as [|g l IH]; intros o P Ho; cbn [fold_steps].
  { split; [|by eauto]. intros _. split; [by intros ? ?%elem_of_nil|by intros ? ? ?%elem_of_nil]. }
  split.
  - intros (o' & (o1 & H1 & H2)%expected_bind_ok).
    destruct (check_grant_owners a o P g o1 Ho H1) as [Ho1 Hd].
    apply check_grant_iff in H1 as [Hg _].
    destruct (proj1 (IH o1 (P ++ [g]) Ho1)) as [Hc Hp]; [by exists o'|]. split.
    { intros x [->|Hx]%elem_of_cons; auto. }
    rewrite <-app_assoc in Hp. intros x h [->|Hx]%elem_of_cons Hh; [|by apply Hp].
    apply elem_of_app in Hh as [Hh|[->|Hh]%elem_of_cons]; [by apply Hd|apply grants_distinct_refl|].
    apply grants_distinct_sym, Hp; [done|]. apply elem_of_app. right. by constructor.
  - intros [Hc Hd]. destruct (check_grant_succeeds a o P g Ho) as [o1 H1].
    { apply Hc. constructor. }
    { intros h Hh. apply Hd; [constructor|apply elem_of_app; by left]. }
    destruct (check_grant_owners a o P g o1 Ho H1) as [Ho1 _].
    destruct (proj2 (IH o1 (P ++ [g]) Ho1)) as [o' H2].
    { rewrite <-app_assoc. split; intros; [apply Hc|apply Hd]; [by constructor..|done]. }
    exists o'. apply expected_bind_ok. by exists o1.
Qed.

Lemma invariant_steps_iff a :
  well_keyed a -> ledger_inputs_wf a -> invariant_steps a = Ok tt <-> consistent a.
Proof.
  intros Hwk Hwf.
  assert (forall r, r ∈ paths a -> find_path a (path_id r) = Some r) as Hpaths.
  { intros r [k Hk]%elem_of_values. unfold find_path. by rewrite (wk_paths a Hwk k r Hk). }
  assert (owners_of (∅, ∅) []) as H0 by (split; apply owned_by_empty).
  pose proof (fold_grants_iff a (∅, ∅) [] (grants a) H0) as Hgrants. cbn [app] in Hgrants.
  unfold invariant_steps. rewrite expected_bind_ok. split.
  - intros ([] & Hp & Hrest). apply expected_bind_ok in Hrest as (o & Hg & Hrest).
    apply expected_bind_ok in Hrest as ([] & Hr & Hrest).
    apply guard_fail_ok in Hrest as [Hpol Hrest]. apply guard_fail_ok in Hrest as [Hlim _].
    destruct (proj1 Hgrants) as [Hcons Hdist]; [by exists o|].
    split; [|exact Hcons|exact Hdist|..].
    + intros r Hin. apply (check_path_iff a r Hwf); [auto|].
      by apply (proj1 (fold_steps_unit (check_path a (totals_by_path a)) (paths a))).
    + intros r Hin. apply check_references_iff.
      by apply (proj1 (fold_steps_unit (check_references a) (paths a))).
    + by apply not_is_ok.
    + by apply exceeds_bounds_iff.
  - intros [Hp Hg Hd Hr Hpol Hlim]. exists tt. split.
    { apply fold_steps_unit. intros r Hin. apply (check_path_iff a r Hwf); auto. }
    destruct (proj2 Hgrants) as [o Ho]; [done|]. apply expected_bind_ok. exists o. split; [done|].
    apply expected_bind_ok. exists tt. split.
    { apply fold_steps_unit. intros r Hin. apply check_references_iff; auto. }
    rewrite !guard_fail_ok, not_is_ok. by rewrite exceeds_bounds_iff.
Qed.

(** ** A failure never carries the status Ok *)

Definition proper {A} (e : Expected A) : Prop := e <> Fail Status.Ok.

Lemma proper_ok {A} (x : A) : proper (Ok x).
Proof. done. Qed.

Lemma proper_bind {A B} (e : Expected A) (f : A -> Expected B) :
  proper e -> (forall x, proper (f x)) -> proper (e ≫= f).
Proof. unfold proper. destruct e as [x|s]; cbn; [auto|congruence]. Qed.

Lemma proper_guard {A} c s (k : Expected A) : s <> Status.Ok -> proper k -> proper (guard_fail c s k).
Proof. unfold proper, guard_fail. destruct c; [congruence|done]. Qed.

Lemma proper_guard_status {A} s (k : Expected A) :
  proper k -> proper (guard_fail (negb (is_ok s)) s k).
Proof.
  unfold proper, guard_fail. intros Hk. destruct (is_ok s) eqn:E; cbn; [done|].
  intros [= ->]. done.
Qed.

Lemma proper_add a b : proper (checked_add a b).
Proof. by apply proper_guard. Qed.

Lemma proper_fold {A B} (f : B -> A -> Expected B) b l :
  (forall b x, proper (f b x)) -> proper (fold_steps f b l).
Proof.
  intros Hf. revert b. induction l as [|x l IH]; intros b; cbn; [done|]. apply proper_bind; auto.
Qed.

Create HintDb proper.
#[export] Hint Resolve proper_ok proper_bind proper_guard_status proper_add proper_fold : proper.
#[export] Hint Extern 1 (proper (guard_fail _ _ _)) => apply proper_guard; [discriminate|] : proper.

Lemma proper_fill_ledger a r t x : proper (fill_ledger a r t x).
Proof. unfold fill_ledger. repeat (apply proper_bind; [auto with proper|intros ?]). done. Qed.

Lemma proper_check_path a m r : proper (check_path a m r).
Proof.
  unfold check_path. apply proper_guard; [done|].
  apply proper_bind; [apply proper_fill_ledger|]. intros l. auto with proper.
Qed.

Lemma proper_claimed {K} `{Countable K} (o : option (gmap K GrantId)) : proper (claimed o).
Proof. by destruct o. Qed.

Lemma proper_found_or {A} s (o : option A) : s <> Status.Ok -> proper (found_or s o).
Proof. intros Hs. destruct o; [done|]. unfold proper. cbn. congruence. Qed.

Lemma proper_check_grant a o g : proper (check_grant a o g).
Proof.
  unfold check_grant. do 3 (apply proper_guard; [done|]).
  apply proper_bind; [apply proper_claimed|intros arbs].
  apply proper_bind; [destruct (tid_is_nil _); [done|apply proper_claimed]|intros leases].
  do 2 (apply proper_bind; [by apply proper_found_or|intros ?]). auto with proper.
Qed.

Lemma proper_invariant_steps a : proper (invariant_steps a).
Proof.
  unfold invariant_steps.
  apply proper_bind; [apply proper_fold; intros; apply proper_check_path|intros _].
  apply proper_bind; [apply proper_fold; intros; apply proper_check_grant|intros _].
  apply proper_bind; [apply proper_fold; intros; unfold check_references; auto 10 with proper|].
  intros _. auto with proper.
Qed.

Lemma verify_invariants_ok a :
  well_keyed a -> ledger_inputs_wf a -> verify_invariants a = Status.Ok <-> consistent a.
Proof.
  intros Hwk Hwf. rewrite <-(invariant_steps_iff a Hwk Hwf). unfold verify_invariants.
  pose proof (proper_invariant_steps a) as Hp. unfold proper in Hp.
  destruct (invariant_steps a) as [[]|s]; cbn; [done|]. split; [congruence|done].
Qed.

(** ** Accepted operations *)

(** What a caller must know and what must still hold for an operation on a
    grant to be accepted. *)
Definition binding_accepted (a : Authority) (g : GrantRecord) (op : GrantOperation) : Prop :=
  let b := g_binding g in
  (tid_is_nil (op_actor op) = false -> op_actor op = b_holder b) /\
  (tid_is_nil (op_lease op) = false -> op_lease op = b_lease b) /\
  exists site path,
    find_site a (b_holder b) = Some site /\ find_path a (b_path b) = Some path /\
    (tid_is_nil (op_actor_incarnation op) = false ->
       op_actor_incarnation op = site_incarnation site) /\
    (epoch_value (op_epoch op) <> 0 -> epoch_value (op_epoch op) = epoch_value (epoch a)) /\
    (gen_is_nil (op_path_generation op) = false ->
       op_path_generation op = path_generation path) /\
    (gen_is_nil (op_capacity_generation op) = false ->
       op_capacity_generation op = path_capacity_generation path) /\
    (gen_is_nil (op_policy_generation op) = false ->
       op_policy_generation op = pol_generation (policy a)) /\
    (requires_current_binding (g_state g) = true -> binding_current a site path b) /\
    (g_ambiguous g = true -> g_state g = GrantState.Withdrawing \/ op_reason op = str "reconcile").

(** [if (!claimed.is_nil() && !(claimed == actual)) return s;] *)
Lemma mismatch_iff (nil eqb : bool) (P : Prop) (s : Status) (k : Status) :
  s <> Status.Ok -> (eqb = true <-> P) ->
  (if negb nil && negb eqb then s else k) = Status.Ok <-> ((nil = false -> P) /\ k = Status.Ok).
Proof. intros Hs HP. destruct nil, eqb; cbn; intuition congruence. Qed.

Lemma mismatch_id {tag} (x y : TypedId tag) s k :
  s <> Status.Ok ->
  (if negb (tid_is_nil x) && negb (id_eqb x y) then s else k) = Status.Ok <->
  ((tid_is_nil x = false -> x = y) /\ k = Status.Ok).
Proof. intros Hs. apply mismatch_iff; [done|apply id_eqb_spec]. Qed.

Lemma mismatch_gen x y s k :
  s <> Status.Ok ->
  (if negb (gen_is_nil x) && negb (gen_eqb x y) then s else k) = Status.Ok <->
  ((gen_is_nil x = false -> x = y) /\ k = Status.Ok).
Proof. intros Hs. apply mismatch_iff; [done|apply gen_eqb_spec]. Qed.

Lemma mismatch_epoch x y s k :
  s <> Status.Ok ->
  (if negb (x =? 0) && negb (x =? y) then s else k) = Status.Ok <->
  ((x <> 0 -> x = y) /\ k = Status.Ok).
Proof. intros Hs. rewrite <-N.eqb_neq. apply mismatch_iff; [done|apply N.eqb_eq]. Qed.

Lemma check_binding_ok a g op : check_binding a g op = Status.Ok <-> binding_accepted a g op.
Proof.
  unfold check_binding, binding_accepted.
  rewrite !mismatch_id by done.
  destruct (find_site a _) as [site|]; [|naive_solver].
  destruct (find_path a _) as [path|]; [|naive_solver].
  rewrite mismatch_id, mismatch_epoch, !mismatch_gen by done.
  set (current := if requires_current_binding _ then _ else _).
  assert (current = Status.Ok <->
    (requires_current_binding (g_state g) = true -> binding_current a site path (g_binding g)))
    as Hcur.
  { unfold current. destruct (requires_current_binding _); [|done].
    rewrite binding_status_ok by done. intuition. }
  assert ((if negb (is_ok current) then current
    else if g_ambiguous g && negb (state_is GrantState.Withdrawing g) &&
            negb (bool_decide (op_reason op = str "reconcile"))
         then Status.Indeterminate else Status.Ok) = Status.Ok <->
    current = Status.Ok /\ (g_ambiguous g = true ->
      g_state g = GrantState.Withdrawing \/ op_reason op = str "reconcile")) as Hlast.
  { destruct (is_ok current) eqn:E; cbn.
    - apply is_ok_spec in E. unfold state_is.
      repeat case_bool_decide; destruct (g_ambiguous g); cbn; intuition congruence.
    - assert (current <> Status.Ok) by (rewrite <-is_ok_spec; congruence). intuition. }
  rewrite Hlast, Hcur. clear. split.
  - intros (H1 & H2 & H3 & H4 & H5 & H6 & H7 & H8 & H9). split_and!; [done..|].
    by exists site, path.
  - intros (H1 & H2 & site' & path' & [= <-] & [= <-] & H3). done.
Qed.

(** ** Properties *)

(** C20: [verify_invariants] accepts an authority exactly when it is
    [consistent]: every path's obligations fit under usable capacity plus
    authorised extension and its protected obligations under the protected
    floor, every grant has its own identity, arbitration sequence and lease and
    refers to a registered path and site, live grants are bound to the current
    epoch, incarnation and generations, references resolve, the policy is valid
    and the tables are within their bounds. *)
Theorem verify_invariants_iff a :
  well_keyed a -> ledger_inputs_wf a -> verify_invariants a = Status.Ok <-> consistent a.
Proof. apply verify_invariants_ok. Qed.

(** The map of totals that [verify_invariants] builds in one pass over all
    grants holds, for every path, the totals that [totals_for] computes with a
    pass of its own. *)
Theorem single_pass_totals a p :
  default zero_totals (totals_by_path a !! raw p) = totals_for a p.
Proof. apply totals_by_path_lookup. Qed.


Lemma verify_invariants_iff_witness :
  well_keyed Sample.fabric /\ ledger_inputs_wf Sample.fabric /\ consistent Sample.fabric.
Proof.
  split_and!; [exact sample_well_keyed|exact sample_inputs_wf|].
  apply (verify_invariants_iff _ sample_well_keyed sample_inputs_wf). vm_compute. reflexivity.
Defined.
