(* ===== verification/Rebalance.v ===== *)
(** * Rebalancing and downgrades (src/authority_plan.cpp, src/authority.cpp)

    [rebalance_path] withdraws the youngest grants of a path until its
    obligations fit the ceilings of a policy and rebinds the others;
    [append_downgrades] degrades or withdraws the grants of a failed site or
    path.  Both return the objects they append to a mutation. *)

From S2P Require Import Prelude Outcome Ids Lifecycle Capacity Policy Wire Model State Ledger.
From S2P Require Import Changes.

(** ** Ceilings *)

Definition capped_demand (units : Amount) (bps : N) (r : PathRecord) : Amount :=
  let wanted := max_amount units (fraction_bps (path_authoritative_usable r) bps) in
  if available_basis r <? wanted then available_basis r else wanted.

Definition effective_floor (p : Policy) (r : PathRecord) : Amount :=
  capped_demand (protected_floor_units p) (protected_floor_bps p) r.
Definition effective_min_free (p : Policy) (r : PathRecord) : Amount :=
  capped_demand (min_free_units p) (min_free_bps p) r.

(** An oversubscription authority that still matches the path under [p]. *)
Definition candidate_applies (a : Authority) (r : PathRecord) (p : Policy) (now_ms : N)
    (o : OversubscriptionAuthority) : bool :=
  if negb (id_eqb (ovs_path o) (path_id r)) || (ovs_ratio_bps o <=? 10000) then false
  else if negb (epoch_value (ovs_epoch o) =? epoch_value (epoch a)) ||
          negb (gen_eqb (ovs_policy_generation o) (pol_generation p)) ||
          negb (gen_eqb (ovs_path_generation o) (path_generation r)) ||
          negb (gen_eqb (ovs_capacity_generation o) (path_capacity_generation r))
    then false
  else if negb (now_ms =? 0) && negb (is_live_at o now_ms) then false
  else true.

Definition rebalance_bps (a : Authority) (r : PathRecord) (p : Policy) (now_ms : N) : N :=
  N.min
    (foldl (fun best o =>
              if candidate_applies a r p now_ms o then N.max best (ovs_ratio_bps o) else best)
       0 (oversubscriptions a))
    (max_oversubscription_bps p).

Definition general_ceiling (a : Authority) (r : PathRecord) (p : Policy) (now_ms : N) : Amount :=
  let ceiling := saturating_add (path_authoritative_usable r)
    (oversubscription_extension (path_authoritative_usable r) (rebalance_bps a r p now_ms)) in
  let available := if path_unavailable r <? ceiling then ceiling - path_unavailable r else 0 in
  let guard := saturating_add (effective_floor p r) (effective_min_free p r) in
  let guard := if available <? guard then available else guard in
  if guard <? available then available - guard else 0.

(** ** Withdrawing to fit *)

(** The comparison of the sort: by arbitration sequence, then by identity. *)
Definition arbitration_le (g h : GrantRecord) : Prop :=
  if arb_value (g_arbitration g) =? arb_value (g_arbitration h)
  then id_le (raw (g_id g)) (raw (g_id h))
  else arb_value (g_arbitration g) < arb_value (g_arbitration h).

#[export] Instance arbitration_le_dec : RelDecision arbitration_le.
Proof. intros g h. unfold arbitration_le. destruct (_ =? _); apply _. Defined.

Definition holding_on (a : Authority) (path : PathId) : list GrantRecord :=
  merge_sort arbitration_le
    (filter (fun g => on_path path g && holds_capacity (g_state g) = true) (grants a)).

(** The amounts of the authorised grants of one class, summed with saturation. *)
Definition authorized_total (k : GrantClass) (holding : list GrantRecord) : Amount :=
  foldl (fun n g =>
           if state_is GrantState.Withdrawing g then n
           else if bool_decide (g_class g = k) then saturating_add n (g_amount g) else n)
    0 holding.

Definition withdraw_image (reason : bytes) (now_ms : N) (g : GrantRecord) : GrantRecord :=
  set_g_updated_at_ms now_ms (set_g_reason (bounded reason) (set_g_state GrantState.Withdrawing g)).

(** The loop of [withdraw_to_fit] over the holding grants from the last to the
    first: the grants with their new states and the images appended. *)
Fixpoint withdraw_to_fit (reason : bytes) (now_ms limit : N) (klass : GrantClass)
    (remaining : Amount) (l : list GrantRecord) : list GrantRecord * list GrantRecord :=
  match l with
  | [] => ([], [])
  | g :: l' =>
      if remaining <=? limit then (l, [])
      else if negb (bool_decide (g_class g = klass)) || state_is GrantState.Withdrawing g then
        let '(kept, out) := withdraw_to_fit reason now_ms limit klass remaining l' in
        (g :: kept, out)
      else
        let rest := if g_amount g <? remaining then remaining - g_amount g else 0 in
        let '(kept, out) := withdraw_to_fit reason now_ms limit klass rest l' in
        (set_g_state GrantState.Withdrawing g :: kept, withdraw_image reason now_ms g :: out)
  end.

(** ** Rebinding *)

(** [if (c && !(x == y)) { x = y; touched = true; }] *)
Definition assign_if (c : bool) (old new : Generation) (b : GrantBinding)
    (set : Generation -> GrantBinding -> GrantBinding) : GrantBinding * bool :=
  if c && negb (gen_eqb old new) then (set new b, true) else (b, false).

Definition rebind (r : PathRecord) (p : Policy) (now_ms : N) (reason : bytes)
    (rebind_policy rebind_path_capacity : bool) (g : GrantRecord) : option GrantRecord :=
  if negb (state_is GrantState.Reserved g || state_is GrantState.Active g ||
           state_is GrantState.Degraded g) then None
  else
    let b := g_binding g in
    let '(b, t1) := assign_if rebind_policy (b_policy_generation b) (pol_generation p) b
                      set_b_policy_generation in
    let '(b, t2) := assign_if rebind_path_capacity (b_path_generation b) (path_generation r) b
                      set_b_path_generation in
    let '(b, t3) := assign_if rebind_path_capacity (b_capacity_generation b)
                      (path_capacity_generation r) b set_b_capacity_generation in
    if t1 || t2 || t3
    then Some (set_g_reason (bounded reason) (set_g_updated_at_ms now_ms (set_g_binding b g)))
    else None.

Definition retained (g : GrantRecord) : Object := OGrant g false.

Definition rebalance_path (a : Authority) (r : PathRecord) (p : Policy) (now_ms : N)
    (reason : bytes) (rebind_policy rebind_path_capacity : bool) : list Object :=
  let holding := holding_on a (path_id r) in
  let '(kept, out1) :=
    withdraw_to_fit reason now_ms (effective_floor p r) GrantClass.Protected
      (authorized_total GrantClass.Protected holding) (reverse holding) in
  let '(kept, out2) :=
    withdraw_to_fit reason now_ms (general_ceiling a r p now_ms) GrantClass.General
      (authorized_total GrantClass.General holding) kept in
  let out := out1 ++ out2 in
  if negb rebind_policy && negb rebind_path_capacity then retained <$> out
  else
    retained <$>
      (out ++ omap (rebind r p now_ms reason rebind_policy rebind_path_capacity) (reverse kept)).

(** ** Downgrades *)

Definition downgrade (reason : bytes) (now_ms : N) (g : GrantRecord) : option GrantRecord :=
  let downgrade_to s :=
    Some (set_g_reason (bounded reason) (set_g_updated_at_ms now_ms (set_g_state s g))) in
  match g_state g with
  | GrantState.Active => downgrade_to GrantState.Degraded
  | GrantState.Reserved => downgrade_to GrantState.Withdrawing
  | _ => None
  end.

(** The grants of a site, of a path, or of both. *)
Definition selected (site : option SiteId) (path : option PathId) (g : GrantRecord) : bool :=
  match site with Some s => id_eqb (b_holder (g_binding g)) s | None => true end &&
  match path with Some p => id_eqb (b_path (g_binding g)) p | None => true end.

Definition append_downgrades (a : Authority) (reason : bytes) (site : option SiteId)
    (path : option PathId) (now_ms : N) : list Object :=
  retained <$>
    omap (fun g => if selected site path g then downgrade reason now_ms g else None) (grants a).

(** ** What a rebalance appends *)

Lemma withdraw_to_fit_out reason now limit k n l u :
  u ∈ (withdraw_to_fit reason now limit k n l).2 ->
  exists g, g ∈ l /\ g_state g <> GrantState.Withdrawing /\ g_class g = k /\
            u = withdraw_image reason now g.
Proof.
  revert n. induction l as [|g l IH]; intros n; cbn [withdraw_to_fit]; [by intros ?%elem_of_nil|].
  destruct (n <=? limit); [by intros ?%elem_of_nil|].
  destruct (negb _ || state_is _ g) eqn:E.
  - specialize (IH n). destruct (withdraw_to_fit _ _ _ _ _ l) as [kept out]. cbn in *.
    intros (h & Hh & Hrest)%IH. exists h. split; [by constructor|done].
  - set (rest := if _ <? _ then _ else _). specialize (IH rest).
    destruct (withdraw_to_fit _ _ _ _ _ l) as [kept out]. cbn in *.
    intros [->|(h & Hh & Hrest)%IH]%elem_of_cons.
    + exists g. unfold state_is in E. to_prop. split_and!; [by constructor|done|done|done].
    + exists h. split; [by constructor|done].
Qed.

Lemma withdraw_to_fit_kept reason now limit k n l x :
  x ∈ (withdraw_to_fit reason now limit k n l).1 ->
  g_state x <> GrantState.Withdrawing -> x ∈ l.
Proof.
  revert n. induction l as [|g l IH]; intros n; cbn [withdraw_to_fit]; [done|].
  destruct (n <=? limit); [done|].
  destruct (negb _ || state_is _ g) eqn:E.
  - specialize (IH n). destruct (withdraw_to_fit _ _ _ _ _ l) as [kept out]. cbn in *.
    intros [->|Hx]%elem_of_cons Hs; constructor; auto.
  - set (rest := if _ <? _ then _ else _). specialize (IH rest).
    destruct (withdraw_to_fit _ _ _ _ _ l) as [kept out]. cbn in *.
    intros [->|Hx]%elem_of_cons Hs; [done|constructor; auto].
Qed.

Lemma rebind_not_withdrawing r p now reason rp rc g u :
  rebind r p now reason rp rc g = Some u -> g_state g <> GrantState.Withdrawing.
Proof. unfold rebind, state_is. intros Hu E. rewrite E in Hu. done. Qed.

(** Every object is the withdrawal of an authorised grant on the path or the
    rebinding of one. *)
Lemma rebalance_path_objects a r p now reason rp rc (o : Object) :
  o ∈ rebalance_path a r p now reason rp rc ->
  exists g u : GrantRecord, g ∈ holding_on a (path_id r) /\ o = retained u /\
    ((g_state g <> GrantState.Withdrawing /\ u = withdraw_image reason now g) \/
     rebind r p now reason rp rc g = Some u).
Proof.
  unfold rebalance_path. set (holding := holding_on a (path_id r)).
  pose proof (withdraw_to_fit_out reason now (effective_floor p r) GrantClass.Protected
    (authorized_total GrantClass.Protected holding) (reverse holding)) as Hout1.
  pose proof (withdraw_to_fit_kept reason now (effective_floor p r) GrantClass.Protected
    (authorized_total GrantClass.Protected holding) (reverse holding)) as Hkept1.
  destruct (withdraw_to_fit _ _ _ _ _ (reverse holding)) as [kept1 out1]. cbn in Hout1, Hkept1.
  pose proof (withdraw_to_fit_out reason now (general_ceiling a r p now) GrantClass.General
    (authorized_total GrantClass.General holding) kept1) as Hout2.
  pose proof (withdraw_to_fit_kept reason now (general_ceiling a r p now) GrantClass.General
    (authorized_total GrantClass.General holding) kept1) as Hkept2.
  destruct (withdraw_to_fit _ _ _ _ _ kept1) as [kept2 out2]. cbn in Hout2, Hkept2.
  assert (forall u, u ∈ out1 ++ out2 -> exists g, g ∈ holding /\
    g_state g <> GrantState.Withdrawing /\ u = withdraw_image reason now g) as Hout.
  { intros u [(g & Hg & Hs & _ & ->)%Hout1|(g & Hg & Hs & _ & ->)%Hout2]%elem_of_app;
      [|apply Hkept1 in Hg; [|done]]; rewrite elem_of_reverse in Hg; by exists g. }
  destruct (negb rp && negb rc); intros (u & -> & Hu)%list_elem_of_fmap.
  { apply Hout in Hu as (g & Hg & Hs & Hu). exists g, u. auto. }
  apply elem_of_app in Hu as [Hu|(g & Hg & Hu)%list_elem_of_omap].
  { apply Hout in Hu as (g & Hg & Hs & Hu). exists g, u. auto. }
  pose proof (rebind_not_withdrawing _ _ _ _ _ _ _ _ Hu) as Hs.
  rewrite elem_of_reverse in Hg. apply Hkept2, Hkept1 in Hg; [|done..].
  rewrite elem_of_reverse in Hg. exists g, u. auto.
Qed.
