(* ===== verification/PlanFabric.v ===== *)
(** * Planning: policy, epoch, sites, paths and attestations (src/authority_plan.cpp)

    Every [plan_*] operation reads the authority and returns the objects of a
    mutation, or the status it refuses with; it never changes the authority.
    The summary text of a mutation is diagnostic and not modelled, and with it
    the [principal] parameters that only the summaries mention. *)

From S2P Require Import Prelude Outcome Ids Lifecycle Capacity Policy Wire Model State Ledger.
From S2P Require Import Changes Rebalance.

Definition MutationResult : Type := Expected Mutation.

Definition kMaxNameLength : nat := 128.

Definition valid_name (name : bytes) : bool :=
  negb (bool_decide (name = [])) && (length name <=? kMaxNameLength)%nat.

(** [reason.empty() ? fallback : reason] *)
Definition or_default (reason fallback : bytes) : bytes :=
  if bool_decide (reason = []) then fallback else reason.

(** ** Policy and epoch *)

Definition plan_install_policy (a : Authority) (p : Policy) (arb : ArbSeq) : MutationResult :=
  fail_if negb (is_ok (validate p)) with validate p ;;
  fail_if gen_value (pol_generation p) <=? gen_value (pol_generation (policy a))
    with Status.Stale ;;
  let rebalanced :=
    mjoin ((fun r => rebalance_path a r p 0 (str "policy generation changed") true false)
             <$> paths a) in
  Ok (mkMutation (OPolicy p :: rebalanced) arb).

Definition withdraw_for_epoch (reason : bytes) (g : GrantRecord) : option GrantRecord :=
  if negb (holds_capacity (g_state g)) || state_is GrantState.Withdrawing g then None
  else Some (set_g_reason (bounded reason) (set_g_state GrantState.Withdrawing g)).

Definition plan_bump_epoch (a : Authority) (e : Epoch) (arb : ArbSeq) : MutationResult :=
  fail_if epoch_value e <=? epoch_value (epoch a) with Status.Stale ;;
  let reason := str "authority epoch advanced to " ++ to_decimal (epoch_value e) in
  Ok (mkMutation (OEpoch e :: (retained <$> omap (withdraw_for_epoch reason) (grants a))) arb).

(** ** Sites *)

Definition new_site (registration : SiteRegistration) : SiteRecord :=
  let d := sr_descriptor registration in
  mkSiteRecord (sd_id d) (sd_name d) (sr_incarnation registration) (mkGeneration 1)
    (sr_epoch registration) SiteState.Up (sd_advertised_capacity d) (sr_now_ms registration)
    (sr_now_ms registration) 0 [] Provenance.Live.

(** The same incarnation registers again. *)
Definition refreshed_site (registration : SiteRegistration) (current : SiteRecord) : SiteRecord :=
  let d := sr_descriptor registration in
  let u := set_site_name (sd_name d) current in
  let u := set_site_advertised_capacity (sd_advertised_capacity d) u in
  let u := set_site_last_heartbeat_ms (sr_now_ms registration) u in
  let u := set_site_missed_heartbeats 0 u in
  if bool_decide (site_state u = SiteState.Unknown) then set_site_state SiteState.Up u else u.

(** A new incarnation supersedes the previous one. *)
Definition superseding_site (registration : SiteRegistration) (current : SiteRecord) : SiteRecord :=
  let d := sr_descriptor registration in
  mkSiteRecord (site_id current) (sd_name d) (sr_incarnation registration)
    (gen_next (site_generation current)) (sr_epoch registration) SiteState.Up
    (sd_advertised_capacity d) (sr_now_ms registration) (sr_now_ms registration) 0 []
    Provenance.Live.

Definition fence_grant (holder : SiteId) (now_ms : N) (g : GrantRecord) : option GrantRecord :=
  if negb (id_eqb (b_holder (g_binding g)) holder) || negb (holds_capacity (g_state g)) then None
  else if state_is GrantState.Withdrawing g then None
  else
    let u := set_g_state GrantState.Withdrawing g in
    let u := set_g_reason (bounded (str "site incarnation superseded")) u in
    let u := set_g_updated_at_ms now_ms u in
    let u := set_g_historical true u in
    let u := set_g_provenance Provenance.FencedIncarnation u in
    Some (set_g_verification VerificationState.Unverified u).

Definition plan_register_site (a : Authority) (registration : SiteRegistration) (arb : ArbSeq) :
    MutationResult :=
  let d := sr_descriptor registration in
  fail_if tid_is_nil (sd_id d) with Status.Invalid ;;
  fail_if negb (valid_name (sd_name d)) with Status.Invalid ;;
  fail_if tid_is_nil (sr_incarnation registration) with Status.Invalid ;;
  fail_if negb (epoch_value (sr_epoch registration) =? epoch_value (epoch a)) with Status.Stale ;;
  match find_site a (sd_id d) with
  | None =>
      fail_if max_sites (config a) <=? N.of_nat (size (sites_ a)) with Status.LimitExceeded ;;
      Ok (mkMutation [OSite (new_site registration)] arb)
  | Some current =>
      fail_if bool_decide (site_state current = SiteState.Fenced) with Status.Fenced ;;
      fail_if epoch_value (sr_epoch registration) <? epoch_value (site_epoch current)
        with Status.Stale ;;
      if id_eqb (sr_incarnation registration) (site_incarnation current) then
        Ok (mkMutation [OSite (refreshed_site registration current)] arb)
      else
        let fenced := omap (fence_grant (sd_id d) (sr_now_ms registration)) (grants a) in
        Ok (mkMutation ((retained <$> fenced) ++ [OSite (superseding_site registration current)])
              arb)
  end.

Definition beaten_site (hb : SiteHeartbeat) (current : SiteRecord) : SiteRecord :=
  let u := set_site_last_heartbeat_ms (hb_now_ms hb) current in
  let u := set_site_missed_heartbeats 0 u in
  let u := set_site_advertised_capacity (hb_advertised_capacity hb) u in
  match site_state u with
  | SiteState.Up | SiteState.Degraded | SiteState.Unknown => set_site_state SiteState.Up u
  | _ => u
  end.

Definition plan_heartbeat (a : Authority) (hb : SiteHeartbeat) (arb : ArbSeq) : MutationResult :=
  current ← require_site a (hb_id hb);
  fail_if negb (id_eqb (hb_incarnation hb) (site_incarnation current)) with Status.Fenced ;;
  fail_if negb (epoch_value (hb_epoch hb) =? epoch_value (epoch a)) with Status.Stale ;;
  fail_if bool_decide (site_state current = SiteState.Fenced) with Status.Fenced ;;
  fail_if negb (gen_is_nil (hb_generation hb)) &&
          negb (gen_eqb (hb_generation hb) (site_generation current)) with Status.Stale ;;
  Ok (mkMutation [OSite (beaten_site hb current)] arb).

Definition moved_site (state : SiteState) (reason : bytes) (current : SiteRecord) : SiteRecord :=
  let u :=
    if bool_decide (state = SiteState.Fenced) then
      set_site_fence_reason (bounded (or_default reason (str "operator fence"))) current
    else if bool_decide (site_state current = SiteState.Fenced) then set_site_fence_reason [] current
    else current in
  set_site_state state u.

Definition plan_set_site_state (a : Authority) (site : SiteId) (state : SiteState) (reason : bytes)
    (now_ms : N) (arb : ArbSeq) : MutationResult :=
  current ← require_site a site;
  let downgrades :=
    if site_requires_degradation state then
      append_downgrades a
        (or_default reason (str "site moved to " ++ site_state_name state))
        (Some site) None now_ms
    else [] in
  Ok (mkMutation (OSite (moved_site state reason current) :: downgrades) arb).

(** ** Paths *)

Definition default_domain_id : DomainId := from_seed 0x15F0D0A1 0.

Definition new_domain (domain : DomainId) : SharedRiskDomain :=
  mkSharedRiskDomain domain (str "domain-" ++ tid_to_string domain)
    (str "auto-created on path registration").

Definition new_path (registration : PathRegistration) (domain : DomainId) : PathRecord :=
  let d := pr_descriptor registration in
  mkPathRecord (pd_id d) (pd_name d)
    (if tid_is_nil (pd_edge d) then from_seed (hi (raw (pd_id d))) (lo (raw (pd_id d)))
     else pd_edge d)
    domain (pd_endpoint_a d) (pd_endpoint_b d) (mkGeneration 1) (mkGeneration 0)
    (pr_state registration) (pr_advertised registration) (pr_observed registration) 0 0
    (pr_now_ms registration) Provenance.Live.

Definition reregistered_path (registration : PathRegistration) (domain : DomainId)
    (current : PathRecord) : PathRecord :=
  let d := pr_descriptor registration in
  mkPathRecord (path_id current) (pd_name d)
    (if tid_is_nil (pd_edge d) then path_edge current else pd_edge d)
    domain (pd_endpoint_a d) (pd_endpoint_b d) (pr_path_generation registration)
    (path_capacity_generation current) (pr_state registration) (pr_advertised registration)
    (pr_observed registration) (path_authoritative_usable current) (path_unavailable current)
    (pr_now_ms registration) Provenance.Live.

Definition plan_register_path (a : Authority) (registration : PathRegistration) (arb : ArbSeq) :
    MutationResult :=
  let d := pr_descriptor registration in
  fail_if tid_is_nil (pd_id d) with Status.Invalid ;;
  fail_if negb (valid_name (pd_name d)) with Status.Invalid ;;
  fail_if tid_is_nil (pd_endpoint_a d) || tid_is_nil (pd_endpoint_b d) with Status.Invalid ;;
  fail_if id_eqb (pd_endpoint_a d) (pd_endpoint_b d) with Status.Invalid ;;
  fail_if bool_decide (find_site a (pd_endpoint_a d) = None) ||
          bool_decide (find_site a (pd_endpoint_b d) = None) with Status.Incomplete ;;
  let domain :=
    if tid_is_nil (pd_shared_risk_domain d) then default_domain_id else pd_shared_risk_domain d in
  let missing := bool_decide (domains_ a !! raw domain = None) in
  fail_if missing && (max_domains (config a) <=? N.of_nat (size (domains_ a)))
    with Status.LimitExceeded ;;
  let created := if missing then [ODomain (new_domain domain)] else [] in
  match find_path a (pd_id d) with
  | None =>
      fail_if max_paths (config a) <=? N.of_nat (size (paths_ a)) with Status.LimitExceeded ;;
      Ok (mkMutation (created ++ [OPath (new_path registration domain)]) arb)
  | Some current =>
      fail_if gen_value (pr_path_generation registration) <=? gen_value (path_generation current)
        with Status.Stale ;;
      let updated := reregistered_path registration domain current in
      Ok (mkMutation
            (created ++ [OPath updated] ++
             rebalance_path a updated (policy a) (pr_now_ms registration)
               (str "path generation changed") false true) arb)
  end.

Definition moved_path (state : PathState) (now_ms : N) (current : PathRecord) : PathRecord :=
  let u := set_path_updated_at_ms now_ms (set_path_state state current) in
  match state with
  | PathState.Down | PathState.Fenced | PathState.Maintenance =>
      set_path_unavailable (path_authoritative_usable u) u
  | PathState.Up | PathState.Degraded | PathState.Draining | PathState.Unknown =>
      set_path_unavailable 0 u
  end.

Definition plan_set_path_state (a : Authority) (path : PathId) (state : PathState) (reason : bytes)
    (now_ms : N) (arb : ArbSeq) : MutationResult :=
  current ← require_path a path;
  let updated := moved_path state now_ms current in
  let downgrades :=
    match state with
    | PathState.Down | PathState.Fenced | PathState.Maintenance | PathState.Draining =>
        append_downgrades a (or_default reason (str "path moved to " ++ path_state_name state))
          None (Some path) now_ms
    | _ => []
    end in
  let rebalanced :=
    match state with
    | PathState.Down | PathState.Fenced | PathState.Maintenance =>
        rebalance_path a updated (policy a) now_ms (str "path capacity withdrawn") false false
    | _ => []
    end in
  Ok (mkMutation (OPath updated :: downgrades ++ rebalanced) arb).

(** ** Attestations and oversubscription *)

Definition attested_path (t : CapacityAttestation) (current : PathRecord) : PathRecord :=
  let u := set_path_capacity_generation (att_capacity_generation t) current in
  let u := set_path_advertised (att_advertised t) u in
  let u := set_path_observed (att_observed t) u in
  let u := set_path_authoritative_usable (att_usable t) u in
  let u := set_path_updated_at_ms (att_observed_at_ms t) u in
  let u := set_path_provenance Provenance.Live u in
  if path_authoritative_usable u <? path_unavailable u
  then set_path_unavailable (path_authoritative_usable u) u else u.

Definition plan_attest_capacity (a : Authority) (t : CapacityAttestation) (arb : ArbSeq) :
    MutationResult :=
  fail_if tid_is_nil (att_id t) with Status.Invalid ;;
  fail_if tid_is_nil (att_issuer t) with Status.Unauthorized ;;
  fail_if tid_is_nil (att_principal t) with Status.Unauthorized ;;
  fail_if digest_is_zero (att_evidence t) with Status.Incomplete ;;
  fail_if negb (epoch_value (att_epoch t) =? epoch_value (epoch a)) with Status.Stale ;;
  current ← require_path a (att_path t);
  fail_if negb (gen_eqb (att_path_generation t) (path_generation current)) with Status.Stale ;;
  fail_if gen_value (att_capacity_generation t) <=? gen_value (path_capacity_generation current)
    with Status.Stale ;;
  fail_if max_attestations (config a) <=? N.of_nat (size (attestations_ a))
    with Status.LimitExceeded ;;
  let updated := attested_path t current in
  Ok (mkMutation
        (OAttestation t :: OPath updated ::
         rebalance_path a updated (policy a) (att_observed_at_ms t)
           (str "authoritative capacity changed") false true) arb).

Definition plan_issue_oversubscription (a : Authority) (o : OversubscriptionAuthority)
    (arb : ArbSeq) : MutationResult :=
  fail_if tid_is_nil (ovs_id o) with Status.Invalid ;;
  fail_if tid_is_nil (ovs_issuer o) with Status.Unauthorized ;;
  fail_if tid_is_nil (ovs_principal o) with Status.Unauthorized ;;
  fail_if ovs_ratio_bps o <=? 10000 with Status.Invalid ;;
  fail_if kMaxOversubscriptionBps <? ovs_ratio_bps o with Status.LimitExceeded ;;
  fail_if max_oversubscription_bps (policy a) =? 0 with Status.Refused ;;
  fail_if max_oversubscription_bps (policy a) <? ovs_ratio_bps o with Status.Refused ;;
  fail_if negb (epoch_value (ovs_epoch o) =? epoch_value (epoch a)) with Status.Stale ;;
  fail_if negb (gen_eqb (ovs_policy_generation o) (pol_generation (policy a)))
    with Status.Stale ;;
  path ← require_path a (ovs_path o);
  fail_if negb (gen_eqb (ovs_path_generation o) (path_generation path)) with Status.Stale ;;
  fail_if negb (gen_eqb (ovs_capacity_generation o) (path_capacity_generation path))
    with Status.Stale ;;
  fail_if max_oversubscriptions (config a) <=? N.of_nat (size (oversubscriptions_ a))
    with Status.LimitExceeded ;;
  Ok (mkMutation [OOversubscription o] arb).
