(* ===== verification/PlanGrants.v ===== *)
(** * Planning: the grant lifecycle (src/authority_plan.cpp)

    Proposal, evaluation, reservation, activation, degradation, withdrawal,
    retirement, cancellation, acknowledgement, verification, reconciliation and
    the expiry tick. *)

From S2P Require Import Prelude Outcome Ids Lifecycle Capacity Policy Wire Model State Ledger.
From S2P Require Import Changes Invariants Rebalance PlanFabric.

(** ** Proposal *)

Definition derive_grant_id (arb : ArbSeq) (p : GrantProposal) : GrantId :=
  if negb (tid_is_nil (gp_grant_id p)) then gp_grant_id p
  else from_seed (arb_value arb)
         (N.lxor (id_hash (raw (gp_request p))) (id_hash (raw (gp_holder p)))).

Definition proposed_grant (a : Authority) (p : GrantProposal) (site : SiteRecord)
    (path : PathRecord) (arb : ArbSeq) : GrantRecord :=
  mkGrantRecord (derive_grant_id arb p) (gp_request p) arb
    (mkGrantBinding (gp_holder p) (site_incarnation site) (site_generation site) (path_id path)
       (path_generation path) (path_capacity_generation path) (pol_generation (policy a)) (epoch a)
       (if tid_is_nil (gp_lease p)
        then from_seed (N.lxor (arb_value arb) 0x1EA5E) (lo (raw (gp_request p)))
        else gp_lease p))
    (gp_class p) (gp_amount p) GrantState.Proposed VerificationState.Unverified false 0
    (gp_now_ms p) (gp_now_ms p) (wrap64 (gp_now_ms p + gp_duration_ms p))
    (bounded (gp_reason p)) Provenance.Live false false.

Definition plan_propose_grant (a : Authority) (p : GrantProposal) (arb : ArbSeq) :
    MutationResult :=
  fail_if tid_is_nil (gp_request p) with Status.Invalid ;;
  fail_if gp_amount p =? 0 with Status.Invalid ;;
  fail_if (gp_duration_ms p =? 0) || (max_lease_duration_ms (policy a) <? gp_duration_ms p)
    with Status.LimitExceeded ;;
  fail_if max_grants (config a) <=? N.of_nat (size (grants_ a)) with Status.LimitExceeded ;;
  fail_if tid_is_nil (gp_holder_incarnation p) with Status.Invalid ;;
  fail_if negb (bool_decide (request_index a !! raw (gp_request p) = None))
    with Status.Duplicate ;;
  site ← require_site a (gp_holder p);
  fail_if negb (id_eqb (gp_holder_incarnation p) (site_incarnation site)) with Status.Fenced ;;
  fail_if negb (gen_is_nil (gp_holder_generation p)) &&
          negb (gen_eqb (gp_holder_generation p) (site_generation site)) with Status.Stale ;;
  path ← require_path a (gp_path p);
  fail_if negb (id_eqb (path_endpoint_a path) (gp_holder p)) &&
          negb (id_eqb (path_endpoint_b path) (gp_holder p)) with Status.Denied ;;
  let grant := proposed_grant a p site path arb in
  fail_if negb (bool_decide (find_grant a (g_id grant) = None)) with Status.Duplicate ;;
  Ok (mkMutation [OGrant grant false] arb).

(** ** Evaluation *)

(** The number of non-terminal grants that satisfy [q], in a 32-bit counter. *)
Definition count_open (a : Authority) (q : GrantRecord -> bool) : N :=
  wrap32 (blen (filter (fun g => q g && negb (is_terminal (g_state g)) = true) (grants a))).

Definition held_by (site : SiteId) (g : GrantRecord) : bool := id_eqb (b_holder (g_binding g)) site.

Definition site_refusal (site : SiteRecord) : bytes := str "site is " ++ site_state_name (site_state site).
Definition path_refusal (path : PathRecord) : bytes := str "path is " ++ path_state_name (path_state path).

(** The refusal text; empty when the grant is eligible. *)
Definition evaluation_refusal (a : Authority) (site : SiteRecord) (path : PathRecord) : bytes :=
  if negb (site_accepts_new_reservations (site_state site)) then site_refusal site
  else if negb (path_accepts_new_reservations (path_state path)) then path_refusal path
  else if max_grants_per_path (policy a) <=? count_open a (on_path (path_id path))
    then str "policy grant limit reached for this path"
  else if max_grants_per_site (policy a) <=? count_open a (held_by (site_id site))
    then str "policy grant limit reached for this site"
  else [].

(** [if (binding != Status::Ok) return binding;] *)
Definition require_binding (a : Authority) (g : GrantRecord) (op : GrantOperation) : Expected unit :=
  fail_if negb (is_ok (check_binding a g op)) with check_binding a g op ;; Ok tt.

(** [sites_.at] and [paths_.at] throw on a missing key; a successful
    [check_binding] has found both, so these lookups do not fail. *)
Definition holder_of (a : Authority) (g : GrantRecord) : Expected SiteRecord :=
  require_site a (b_holder (g_binding g)).
Definition path_of (a : Authority) (g : GrantRecord) : Expected PathRecord :=
  require_path a (b_path (g_binding g)).

Definition single (g : GrantRecord) (releases : bool) (arb : ArbSeq) : MutationResult :=
  Ok (mkMutation [OGrant g releases] arb).

Definition plan_evaluate_grant (a : Authority) (op : GrantOperation) (arb : ArbSeq) :
    MutationResult :=
  grant ← require_grant a (op_grant op);
  fail_if negb (state_is GrantState.Proposed grant) with Status.InvalidTransition ;;
  _ ← require_binding a grant op;
  site ← holder_of a grant;
  path ← path_of a grant;
  let refusal := evaluation_refusal a site path in
  let updated := set_g_updated_at_ms (op_now_ms op) grant in
  let updated :=
    if bool_decide (refusal = []) then set_g_state GrantState.Eligible updated
    else set_g_reason (bounded refusal) (set_g_state GrantState.Refused updated) in
  single updated false arb.

(** ** Reservation *)

(** A grant bound to everything current. *)
Definition rebound (a : Authority) (site : SiteRecord) (path : PathRecord) (b : GrantBinding) :
    GrantBinding :=
  mkGrantBinding (b_holder b) (site_incarnation site) (site_generation site) (b_path b)
    (path_generation path) (path_capacity_generation path) (pol_generation (policy a)) (epoch a)
    (b_lease b).

(** Usable and held capacity of the paths of one shared risk domain. *)
Definition domain_totals (a : Authority) (domain : DomainId) : Amount * Amount :=
  foldl (fun acc r =>
           if negb (id_eqb (path_shared_risk_domain r) domain) then acc
           else
             let totals := totals_for a (path_id r) in
             (saturating_add acc.1 (path_authoritative_usable r),
              saturating_add (saturating_add acc.2 (tot_committed totals)) (tot_reserved totals)))
    (0, 0) (paths a).

Definition check_concentration (a : Authority) (path : PathRecord) (amount : Amount) :
    Expected unit :=
  if (max_srd_concentration_bps (policy a) <? 10000) &&
     negb (tid_is_nil (path_shared_risk_domain path)) then
    let '(usable, held) := domain_totals a (path_shared_risk_domain path) in
    projected ← checked_add held amount;
    scaled ← checked_mul projected 10000;
    allowed ← checked_mul usable (max_srd_concentration_bps (policy a));
    fail_if allowed <? scaled with Status.Refused ;;
    Ok tt
  else Ok tt.

Definition plan_reserve_grant (a : Authority) (op : GrantOperation) (arb : ArbSeq) :
    MutationResult :=
  grant ← require_grant a (op_grant op);
  fail_if negb (state_is GrantState.Eligible grant) with Status.InvalidTransition ;;
  _ ← require_binding a grant op;
  site ← holder_of a grant;
  path ← path_of a grant;
  fail_if negb (site_accepts_new_reservations (site_state site)) with Status.Refused ;;
  fail_if negb (path_accepts_new_reservations (path_state path)) with Status.Refused ;;
  available ← allocatable a (path_id path) (g_class grant) (op_now_ms op);
  fail_if available <? g_amount grant with Status.Exhausted ;;
  _ ← check_concentration a path (g_amount grant);
  let updated := set_g_state GrantState.Reserved grant in
  let updated := set_g_updated_at_ms (op_now_ms op) updated in
  single (set_g_binding (rebound a site path (g_binding grant)) updated) false arb.

(** ** Activation, degradation, withdrawal *)

Definition plan_activate_grant (a : Authority) (op : GrantOperation) (arb : ArbSeq) :
    MutationResult :=
  grant ← require_grant a (op_grant op);
  fail_if negb (state_is GrantState.Reserved grant) with Status.InvalidTransition ;;
  _ ← require_binding a grant op;
  site ← holder_of a grant;
  path ← path_of a grant;
  fail_if negb (site_accepts_new_reservations (site_state site)) with Status.Refused ;;
  fail_if bool_decide (path_state path = PathState.Degraded) &&
          negb (allow_degraded_activation (policy a)) with Status.Refused ;;
  fail_if negb (path_accepts_new_reservations (path_state path)) with Status.Refused ;;
  fail_if require_verification_for_active (policy a) &&
          negb (bool_decide (g_verification grant = VerificationState.Verified))
    with Status.Incomplete ;;
  single (set_g_updated_at_ms (op_now_ms op) (set_g_state GrantState.Active grant)) false arb.

(** The state, time and reason of an operation, [reason] defaulting. *)
Definition moved_grant (s : GrantState) (op : GrantOperation) (fallback : bytes) (g : GrantRecord) :
    GrantRecord :=
  set_g_reason (bounded (or_default (op_reason op) fallback))
    (set_g_updated_at_ms (op_now_ms op) (set_g_state s g)).

Definition plan_degrade_grant (a : Authority) (op : GrantOperation) (arb : ArbSeq) :
    MutationResult :=
  grant ← require_grant a (op_grant op);
  fail_if negb (state_is GrantState.Active grant) with Status.InvalidTransition ;;
  _ ← require_binding a grant op;
  single (set_g_verification VerificationState.Unverified
            (moved_grant GrantState.Degraded op (str "degraded") grant)) false arb.

Definition plan_withdraw_grant (a : Authority) (op : GrantOperation) (arb : ArbSeq) :
    MutationResult :=
  grant ← require_grant a (op_grant op);
  fail_if negb (state_is GrantState.Reserved grant || state_is GrantState.Active grant ||
                state_is GrantState.Degraded grant) with Status.InvalidTransition ;;
  _ ← require_binding a grant op;
  single (moved_grant GrantState.Withdrawing op (str "withdrawing") grant) false arb.

(** The actor and lease checks of the operations that need no binding. *)
Definition check_owner (g : GrantRecord) (op : GrantOperation) : Expected unit :=
  fail_if negb (tid_is_nil (op_actor op)) && negb (id_eqb (op_actor op) (b_holder (g_binding g)))
    with Status.Denied ;;
  fail_if negb (tid_is_nil (op_lease op)) && negb (id_eqb (op_lease op) (b_lease (g_binding g)))
    with Status.Stale ;;
  Ok tt.

Definition plan_retire_grant (a : Authority) (op : GrantOperation) (arb : ArbSeq) :
    MutationResult :=
  grant ← require_grant a (op_grant op);
  fail_if negb (state_is GrantState.Withdrawing grant) with Status.InvalidTransition ;;
  _ ← check_owner grant op;
  single (set_g_verification VerificationState.Unverified
            (moved_grant GrantState.Retired op (str "retired") grant)) true arb.

Definition plan_cancel_grant (a : Authority) (op : GrantOperation) (arb : ArbSeq) :
    MutationResult :=
  grant ← require_grant a (op_grant op);
  fail_if negb (can_transition (g_state grant) GrantState.Cancelled)
    with Status.InvalidTransition ;;
  _ ← check_owner grant op;
  single (moved_grant GrantState.Cancelled op (str "cancelled") grant)
    (holds_capacity (g_state grant)) arb.

(** ** Acknowledgement and verification *)

Definition plan_acknowledge_grant (a : Authority) (ack : GrantAcknowledgement) (arb : ArbSeq) :
    MutationResult :=
  grant ← require_grant a (ack_grant ack);
  fail_if is_terminal (g_state grant) with Status.InvalidTransition ;;
  site ← holder_of a grant;
  fail_if negb (tid_is_nil (ack_actor ack)) &&
          negb (id_eqb (ack_actor ack) (b_holder (g_binding grant))) with Status.Denied ;;
  fail_if negb (tid_is_nil (ack_actor_incarnation ack)) &&
          negb (id_eqb (ack_actor_incarnation ack) (site_incarnation site)) with Status.Fenced ;;
  fail_if negb (epoch_value (ack_epoch ack) =? 0) &&
          negb (epoch_value (ack_epoch ack) =? epoch_value (epoch a)) with Status.Stale ;;
  let updated := set_g_acknowledged true grant in
  let updated := set_g_ack_count (wrap32 (g_ack_count grant + 1)) updated in
  single (set_g_updated_at_ms (ack_now_ms ack) updated) false arb.

Definition plan_verify_grant (a : Authority) (v : GrantVerification) (arb : ArbSeq) :
    MutationResult :=
  grant ← require_grant a (gv_grant v);
  fail_if tid_is_nil (gv_id v) with Status.Invalid ;;
  fail_if tid_is_nil (gv_verifier v) with Status.Unauthorized ;;
  fail_if bool_decide (gv_result v = VerificationState.Unverified) with Status.Invalid ;;
  fail_if max_verifications (config a) <=? N.of_nat (size (verifications_ a))
    with Status.LimitExceeded ;;
  let record :=
    mkVerificationRecord (gv_id v) (g_id grant) (g_binding grant) (gv_result v) (gv_verifier v)
      (gv_evidence v) (gv_now_ms v) (bounded (gv_detail v)) in
  let updated := set_g_updated_at_ms (gv_now_ms v) (set_g_verification (gv_result v) grant) in
  let updated :=
    if bool_decide (gv_result v = VerificationState.Failed)
    then set_g_reason (bounded (str "independent verification failed")) updated else updated in
  Ok (mkMutation [OVerification record; OGrant updated false] arb).

(** ** Reconciliation *)

Definition reconciled (s : GrantState) (op : GrantOperation) (g : GrantRecord) : GrantRecord :=
  let u := set_g_state s g in
  let u := set_g_ambiguous false u in
  let u := set_g_provenance Provenance.OperatorReconcile u in
  let u := set_g_verification VerificationState.Unverified u in
  set_g_reason (bounded (op_reason op)) (set_g_updated_at_ms (op_now_ms op) u).

Definition plan_reconcile_grant (a : Authority) (op : GrantOperation) (target : GrantState)
    (principal : PrincipalId) (arb : ArbSeq) : MutationResult :=
  fail_if tid_is_nil principal with Status.Unauthorized ;;
  fail_if negb (bool_decide (target = GrantState.Retired) ||
                bool_decide (target = GrantState.Active)) with Status.Invalid ;;
  grant ← require_grant a (op_grant op);
  fail_if is_terminal (g_state grant) with Status.InvalidTransition ;;
  if bool_decide (target = GrantState.Active) then
    fail_if negb (holds_capacity (g_state grant)) && negb (state_is GrantState.Eligible grant)
      with Status.InvalidTransition ;;
    site ← holder_of a grant;
    path ← path_of a grant;
    fail_if negb (site_accepts_new_reservations (site_state site)) with Status.Refused ;;
    fail_if negb (path_accepts_new_reservations (path_state path)) with Status.Refused ;;
    single (set_g_binding (rebound a site path (g_binding grant))
              (reconciled GrantState.Active op grant)) false arb
  else single (reconciled GrantState.Retired op grant) true arb.

(** ** The expiry tick *)

Definition kHeartbeatDownMultiplier : N := 3.

(** The new record of a site whose heartbeat lease has run out, if any. *)
Definition lapsed_site (a : Authority) (now_ms : N) (site : SiteRecord) : option SiteRecord :=
  match site_state site with
  | SiteState.Fenced | SiteState.Maintenance | SiteState.Draining => None
  | state =>
      if (site_last_heartbeat_ms site =? 0) || (now_ms <? site_last_heartbeat_ms site) then None
      else
        let elapsed := now_ms - site_last_heartbeat_ms site in
        let timeout := site_lease_timeout_ms (policy a) in
        if elapsed <=? timeout then None
        else if wrap64 (timeout * kHeartbeatDownMultiplier) <? elapsed then
          Some (set_site_fence_reason (bounded (str "heartbeat lease expired"))
                  (set_site_state SiteState.Down site))
        else if bool_decide (state = SiteState.Up) then
          Some (set_site_missed_heartbeats (wrap32 (site_missed_heartbeats site + 1))
                  (set_site_state SiteState.Degraded site))
        else None
  end.

Definition tick_site (a : Authority) (now_ms : N) (site : SiteRecord) : list Object :=
  match lapsed_site a now_ms site with
  | None => []
  | Some updated =>
      OSite updated ::
      append_downgrades a (str "site heartbeat lease expired") (Some (site_id site)) None now_ms
  end.

Definition expired_grant (now_ms : N) (g : GrantRecord) : option GrantRecord :=
  if (g_expires_at_ms g =? 0) || (now_ms <? g_expires_at_ms g) || negb (holds_capacity (g_state g))
  then None
  else Some (set_g_reason (bounded (str "lease expired"))
               (set_g_updated_at_ms now_ms (set_g_state GrantState.Expired g))).

Definition released (g : GrantRecord) : Object := OGrant g true.

Definition plan_tick (a : Authority) (now_ms : N) (arb : ArbSeq) : MutationResult :=
  let objects :=
    mjoin (tick_site a now_ms <$> sites a) ++
    (released <$> omap (expired_grant now_ms) (grants a)) in
  fail_if bool_decide (length objects = 0%nat) with Status.NotFound ;;
  Ok (mkMutation objects arb).
