(* ===== verification/Operations.v ===== *)
(** * The operations of the authority

    [Op] collects the planning methods of [Authority]; [plan] dispatches to
    them.  [evolves] states what a mutation may do to a grant, and
    [plan_evolves] proves it of every operation but operator reconciliation. *)

From S2P Require Import Prelude Outcome Ids Lifecycle Capacity Policy Wire Model State Ledger.
From S2P Require Import Changes Invariants Rebalance PlanFabric PlanGrants.

Inductive Op :=
| InstallPolicy (p : Policy)
| BumpEpoch (e : Epoch)
| RegisterSite (r : SiteRegistration)
| Heartbeat (h : SiteHeartbeat)
| SetSiteState (site : SiteId) (s : SiteState) (reason : bytes) (now_ms : N)
| RegisterPath (r : PathRegistration)
| SetPathState (path : PathId) (s : PathState) (reason : bytes) (now_ms : N)
| AttestCapacity (t : CapacityAttestation)
| IssueOversubscription (o : OversubscriptionAuthority)
| ProposeGrant (p : GrantProposal)
| EvaluateGrant (op : GrantOperation)
| ReserveGrant (op : GrantOperation)
| ActivateGrant (op : GrantOperation)
| DegradeGrant (op : GrantOperation)
| WithdrawGrant (op : GrantOperation)
| RetireGrant (op : GrantOperation)
| CancelGrant (op : GrantOperation)
| AcknowledgeGrant (ack : GrantAcknowledgement)
| VerifyGrant (v : GrantVerification)
| ReconcileGrant (op : GrantOperation) (target : GrantState) (principal : PrincipalId)
| Tick (now_ms : N).

Definition plan (a : Authority) (op : Op) (arb : ArbSeq) : MutationResult :=
  match op with
  | InstallPolicy p => plan_install_policy a p arb
  | BumpEpoch e => plan_bump_epoch a e arb
  | RegisterSite r => plan_register_site a r arb
  | Heartbeat h => plan_heartbeat a h arb
  | SetSiteState site s reason now => plan_set_site_state a site s reason now arb
  | RegisterPath r => plan_register_path a r arb
  | SetPathState path s reason now => plan_set_path_state a path s reason now arb
  | AttestCapacity t => plan_attest_capacity a t arb
  | IssueOversubscription o => plan_issue_oversubscription a o arb
  | ProposeGrant p => plan_propose_grant a p arb
  | EvaluateGrant op => plan_evaluate_grant a op arb
  | ReserveGrant op => plan_reserve_grant a op arb
  | ActivateGrant op => plan_activate_grant a op arb
  | DegradeGrant op => plan_degrade_grant a op arb
  | WithdrawGrant op => plan_withdraw_grant a op arb
  | RetireGrant op => plan_retire_grant a op arb
  | CancelGrant op => plan_cancel_grant a op arb
  | AcknowledgeGrant ack => plan_acknowledge_grant a ack arb
  | VerifyGrant v => plan_verify_grant a v arb
  | ReconcileGrant op target principal => plan_reconcile_grant a op target principal arb
  | Tick now => plan_tick a now arb
  end.

(** ** What a mutation may do to a grant *)

(** What no operation changes about a grant. *)
Definition same_identity (g g' : GrantRecord) : Prop :=
  g_id g' = g_id g /\ g_request g' = g_request g /\ g_arbitration g' = g_arbitration g /\
  g_class g' = g_class g /\ g_amount g' = g_amount g /\
  g_created_at_ms g' = g_created_at_ms g /\ g_expires_at_ms g' = g_expires_at_ms g /\
  b_holder (g_binding g') = b_holder (g_binding g) /\
  b_path (g_binding g') = b_path (g_binding g) /\
  b_lease (g_binding g') = b_lease (g_binding g).

(** The state stays or follows the transition table, and the image carries the
    release flag exactly when it gives capacity back. *)
Definition lawful (g g' : GrantRecord) (releases : bool) : Prop :=
  same_identity g g' /\
  (g_state g' = g_state g \/ can_transition (g_state g) (g_state g') = true) /\
  releases = holds g && negb (holds g').

Definition evolves (a : Authority) (g' : GrantRecord) (releases : bool) : Prop :=
  match grants_ a !! raw (g_id g') with
  | None => g_state g' = GrantState.Proposed /\ releases = false
  | Some g => lawful g g' releases
  end.

(** The epoch, the policy generation and the generations of a path never go
    back. *)
Definition path_evolves (a : Authority) (r : PathRecord) : Prop :=
  match paths_ a !! raw (path_id r) with
  | None => True
  | Some old =>
      gen_value (path_generation old) <= gen_value (path_generation r) /\
      gen_value (path_capacity_generation old) <= gen_value (path_capacity_generation r)
  end.

Definition object_evolves (a : Authority) (o : Object) : Prop :=
  match o with
  | OGrant g releases => evolves a g releases
  | OEpoch e => epoch_value (epoch a) <= epoch_value e
  | OPolicy p => gen_value (pol_generation (policy a)) <= gen_value (pol_generation p)
  | OPath r => path_evolves a r
  | _ => True
  end.

Section Evolution.
Context (a : Authority) (Hwk : well_keyed a).

Definition stored (g : GrantRecord) : Prop := grants_ a !! raw (g_id g) = Some g.

Lemma stored_grants g : g ∈ grants a -> stored g.
Proof. intros [k Hk]%elem_of_grants. unfold stored. by rewrite (wk_grants a Hwk k g Hk). Qed.

Lemma require_grant_stored id g : require_grant a id = Ok g -> stored g.
Proof. intros Hg%found_ok. apply stored_grants, elem_of_grants. by exists (raw id). Qed.

Lemma evolves_stored g g' releases : stored g -> lawful g g' releases -> evolves a g' releases.
Proof.
  intros Hg Hl. pose proof Hl as [[Hid _] _]. unfold evolves. rewrite Hid. by rewrite Hg.
Qed.

(** The new image of a stored grant. *)
Definition image_of (o : Object) : Prop :=
  exists g u releases, o = OGrant u releases /\ stored g /\ lawful g u releases.

Lemma images_evolve l : Forall image_of l -> Forall (object_evolves a) l.
Proof.
  intros Hl. eapply Forall_impl; [exact Hl|]. intros o (g & u & r & -> & Hg & Hu). by apply (evolves_stored g).
Qed.

Lemma omap_images (f : GrantRecord -> option GrantRecord) l releases :
  (forall g, g ∈ l -> stored g) -> (forall g u, f g = Some u -> lawful g u releases) ->
  Forall image_of ((fun u => OGrant u releases) <$> omap f l).
Proof.
  intros Hl Hf. apply Forall_fmap, Forall_forall. intros u (g & Hg & Hu)%list_elem_of_omap.
  exists g, u, releases. auto.
Qed.

Lemma stored_path id old r :
  find_path a id = Some old -> path_id r = path_id old ->
  gen_value (path_generation old) <= gen_value (path_generation r) ->
  gen_value (path_capacity_generation old) <= gen_value (path_capacity_generation r) ->
  path_evolves a r.
Proof.
  intros Hold Hid Hg Hc. unfold path_evolves. unfold find_path in Hold.
  rewrite Hid, (wk_paths a Hwk _ _ Hold), Hold. done.
Qed.

(** *** Downgrades *)

Lemma downgrade_lawful reason now g u : downgrade reason now g = Some u -> lawful g u false.
Proof.
  unfold downgrade, lawful, holds. destruct (g_state g) eqn:E; intros [= <-]; cbn;
    (split_and!; [done|by right|done]).
Qed.

Lemma append_downgrades_images reason site path now :
  Forall image_of (append_downgrades a reason site path now).
Proof.
  apply omap_images; [apply stored_grants|]. intros g u.
  destruct (selected site path g); [apply downgrade_lawful|done].
Qed.

(** *** Rebalancing *)

Lemma withdraw_lawful reason now g :
  holds g = true -> g_state g <> GrantState.Withdrawing -> lawful g (withdraw_image reason now g) false.
Proof.
  unfold lawful, holds. intros Hh Hs. cbn. rewrite Hh. split_and!; [done| |done].
  right. by destruct (g_state g).
Qed.

Lemma assign_if_same c x y b set :
  (forall v b, b_holder (set v b) = b_holder b /\ b_path (set v b) = b_path b /\
           b_lease (set v b) = b_lease b) ->
  let b' := (assign_if c x y b set).1 in
  b_holder b' = b_holder b /\ b_path b' = b_path b /\ b_lease b' = b_lease b.
Proof. intros Hset. unfold assign_if. destruct (_ && _); cbn; [apply Hset|done]. Qed.

Lemma rebind_lawful r p now reason rp rc g u :
  rebind r p now reason rp rc g = Some u -> lawful g u false.
Proof.
  unfold rebind. destruct (negb _) eqn:Es; [done|].
  pose proof (assign_if_same rp (b_policy_generation (g_binding g)) (pol_generation p) (g_binding g)
    set_b_policy_generation ltac:(done)) as H1.
  destruct (assign_if rp _ _ _ _) as [b1 t1]. cbn in H1.
  pose proof (assign_if_same rc (b_path_generation b1) (path_generation r) b1
    set_b_path_generation ltac:(done)) as H2.
  destruct (assign_if rc _ _ b1 _) as [b2 t2]. cbn in H2.
  pose proof (assign_if_same rc (b_capacity_generation b2) (path_capacity_generation r) b2
    set_b_capacity_generation ltac:(done)) as H3.
  destruct (assign_if rc _ _ b2 _) as [b3 t3]. cbn in H3.
  destruct (t1 || t2 || t3); [|done]. intros [= <-]. unfold lawful, same_identity, holds. cbn.
  split_and!; try done; [intuition congruence..|by left|by destruct (holds_capacity _)].
Qed.

Lemma holding_on_stored path g :
  g ∈ holding_on a path -> stored g /\ holds g = true /\ on_path path g = true.
Proof.
  unfold holding_on. rewrite merge_sort_Permutation, list_elem_of_filter, andb_true_iff.
  intros [[Hp Hh] Hg]. split_and!; [by apply stored_grants|done|done].
Qed.

Lemma rebalance_path_images r p now reason rp rc :
  Forall image_of (rebalance_path a r p now reason rp rc).
Proof.
  apply Forall_forall. intros o (g & u & Hg & -> & Hu)%rebalance_path_objects.
  apply holding_on_stored in Hg as (Hg & Hh & _). exists g, u, false. split_and!; [done..|].
  destruct Hu as [[Hs ->]|Hu]; [by apply withdraw_lawful|by eapply rebind_lawful].
Qed.
End Evolution.

(** ** Every operation *)

Lemma Ok_inj {A} (x y : A) : Ok x = Ok y -> x = y.
Proof. by intros [= ->]. Qed.

(** Inverts [plan_... = Ok m]: one hypothesis per guard and bind. *)
Ltac plan_inv H :=
  repeat lazymatch type of H with
  | guard_fail _ _ _ = Ok _ => let G := fresh "G" in apply guard_fail_ok in H as [G H]
  | mbind _ _ = Ok _ => let x := fresh "x" in let E := fresh "E" in
      apply expected_bind_ok in H as (x & E & H)
  | single _ _ _ = Ok _ => unfold single in H
  | Ok _ = Ok _ => apply Ok_inj in H; destruct H
  end.

(** The negated state test of an operation. *)
Lemma state_is_not s g : negb (state_is s g) = false -> g_state g = s.
Proof. unfold state_is. intros H. by to_prop. Qed.

Lemma lawful_same_state g g' r :
  same_identity g g' -> g_state g' = g_state g -> r = false -> lawful g g' r.
Proof.
  intros Hi Hs ->. unfold lawful, holds. rewrite Hs. split_and!; [done|by left|].
  by destruct (holds_capacity _).
Qed.

Lemma lawful_move g g' s t :
  same_identity g g' -> g_state g = s -> g_state g' = t -> can_transition s t = true ->
  lawful g g' (holds_capacity s && negb (holds_capacity t)).
Proof. intros Hi <- <- Hc. split_and!; [done|by right|done]. Qed.

Lemma single_image a g u r : stored a g -> lawful g u r -> Forall (image_of a) [OGrant u r].
Proof. intros. constructor; [|constructor]. by exists g, u, r. Qed.

Definition is_reconcile (op : Op) : bool :=
  match op with ReconcileGrant _ _ _ => true | _ => false end.

Section PlanEvolution.
Context (a : Authority) (Hwk : well_keyed a) (arb : ArbSeq) (m : Mutation).

Abbreviation evolution := (Forall (object_evolves a) (m_objects m)).
Abbreviation images := (Forall (image_of a) (m_objects m)).

Lemma install_policy_evolves p : plan_install_policy a p arb = Ok m -> evolution.
Proof.
  unfold plan_install_policy. intros H. plan_inv H. to_prop.
  cbn [m_objects]. constructor; [cbn; lia|].
  apply Forall_join, Forall_fmap, Forall_forall. intros r _. by apply images_evolve, rebalance_path_images.
Qed.

Lemma withdraw_for_epoch_lawful reason g u : withdraw_for_epoch reason g = Some u -> lawful g u false.
Proof.
  unfold withdraw_for_epoch, lawful, state_is, holds.
  destruct (g_state g) eqn:E; cbn; intros [= <-]; cbn; (split_and!; [done|by right|done]).
Qed.

Lemma bump_epoch_evolves e : plan_bump_epoch a e arb = Ok m -> evolution.
Proof.
  unfold plan_bump_epoch. intros H. plan_inv H. to_prop.
  cbn [m_objects]. constructor; [cbn; lia|].
  apply images_evolve, omap_images; [by apply stored_grants|]. intros g u. apply withdraw_for_epoch_lawful.
Qed.

Lemma fence_grant_lawful site now g u : fence_grant site now g = Some u -> lawful g u false.
Proof.
  unfold fence_grant, lawful, state_is, holds. destruct (id_eqb _ _); [|done].
  destruct (g_state g) eqn:E; cbn; intros [= <-]; cbn; (split_and!; [done|by right|done]).
Qed.

Lemma register_site_evolves r : plan_register_site a r arb = Ok m -> evolution.
Proof.
  unfold plan_register_site. intros H. plan_inv H.
  destruct (find_site a _) as [current|]; plan_inv H; [|by repeat constructor].
  destruct (id_eqb _ _); plan_inv H; cbn; [by repeat constructor|].
  apply Forall_app; split; [|by repeat constructor].
  apply images_evolve, omap_images; [by apply stored_grants|]. intros g u. apply fence_grant_lawful.
Qed.

Lemma set_site_state_evolves site s reason now :
  plan_set_site_state a site s reason now arb = Ok m -> evolution.
Proof.
  unfold plan_set_site_state. intros H. plan_inv H. cbn [m_objects]. constructor; [done|].
  destruct (site_requires_degradation s); [by apply images_evolve, append_downgrades_images|constructor].
Qed.

Lemma register_path_evolves r : plan_register_path a r arb = Ok m -> evolution.
Proof.
  unfold plan_register_path. intros H. plan_inv H.
  assert (forall b o, Forall (object_evolves a) (if b : bool then [ODomain o] else [])) as Hd
    by (intros []; by repeat constructor).
  destruct (find_path a _) as [current|] eqn:Ep; plan_inv H; cbn [m_objects];
    apply Forall_app; (split; [apply Hd|]).
  - constructor; [|by apply images_evolve, rebalance_path_images].
    to_prop. apply (stored_path a Hwk _ _ _ Ep); cbn; [done|lia|done].
  - constructor; [|constructor]. cbn. unfold path_evolves. cbn. unfold find_path in Ep. by rewrite Ep.
Qed.

Lemma set_path_state_evolves path s reason now :
  plan_set_path_state a path s reason now arb = Ok m -> evolution.
Proof.
  unfold plan_set_path_state. intros H. plan_inv H. apply found_ok in E.
  cbn [m_objects]. constructor; [by apply (stored_path a Hwk _ _ _ E); destruct s|].
  apply Forall_app; split; destruct s; try constructor;
    by apply images_evolve, append_downgrades_images || by apply images_evolve, rebalance_path_images.
Qed.

Lemma attest_capacity_evolves t : plan_attest_capacity a t arb = Ok m -> evolution.
Proof.
  unfold plan_attest_capacity. intros H. plan_inv H. apply found_ok in E. to_prop.
  cbn [m_objects]. constructor; [done|].
  constructor; [|by apply images_evolve, rebalance_path_images].
  apply (stored_path a Hwk _ _ _ E); unfold attested_path;
    match goal with |- context [if ?c then _ else _] => destruct c end; cbn; done || lia.
Qed.

Lemma propose_evolves p : plan_propose_grant a p arb = Ok m -> evolution.
Proof.
  unfold plan_propose_grant. intros H. plan_inv H. cbn [m_objects]. constructor; [|constructor].
  cbn. unfold evolves. match goal with G : context [find_grant a ?i] |- _ =>
    apply negb_false_iff, bool_decide_eq_true in G; unfold find_grant in G; cbn in G; cbn; by rewrite G end.
Qed.

Lemma evaluate_images op : plan_evaluate_grant a op arb = Ok m -> images.
Proof.
  unfold plan_evaluate_grant. intros H. plan_inv H. apply require_grant_stored in E; [|done].
  apply state_is_not in G. apply (single_image a _ _ _ E).
  unfold lawful, holds. rewrite G. destruct (bool_decide _); cbn; (split_and!; [done|by right|done]).
Qed.

Lemma reserve_images op : plan_reserve_grant a op arb = Ok m -> images.
Proof.
  unfold plan_reserve_grant. intros H. plan_inv H. apply require_grant_stored in E; [|done].
  apply state_is_not in G. apply (single_image a _ _ _ E).
  by apply (lawful_move _ _ GrantState.Eligible GrantState.Reserved).
Qed.

Lemma activate_images op : plan_activate_grant a op arb = Ok m -> images.
Proof.
  unfold plan_activate_grant. intros H. plan_inv H. apply require_grant_stored in E; [|done].
  apply state_is_not in G. apply (single_image a _ _ _ E).
  by apply (lawful_move _ _ GrantState.Reserved GrantState.Active).
Qed.

Lemma degrade_images op : plan_degrade_grant a op arb = Ok m -> images.
Proof.
  unfold plan_degrade_grant. intros H. plan_inv H. apply require_grant_stored in E; [|done].
  apply state_is_not in G. apply (single_image a _ _ _ E).
  by apply (lawful_move _ _ GrantState.Active GrantState.Degraded).
Qed.

Lemma withdraw_images op : plan_withdraw_grant a op arb = Ok m -> images.
Proof.
  unfold plan_withdraw_grant. intros H. plan_inv H. apply require_grant_stored in E; [|done].
  apply (single_image a _ _ _ E).
  unfold lawful, holds, state_is in *. cbn.
  destruct (g_state x); try done; (split_and!; [done|by right|done]).
Qed.

Lemma retire_images op : plan_retire_grant a op arb = Ok m -> images.
Proof.
  unfold plan_retire_grant. intros H. plan_inv H. apply require_grant_stored in E; [|done].
  apply state_is_not in G. apply (single_image a _ _ _ E).
  by apply (lawful_move _ _ GrantState.Withdrawing GrantState.Retired).
Qed.

Lemma cancel_images op : plan_cancel_grant a op arb = Ok m -> images.
Proof.
  unfold plan_cancel_grant. intros H. plan_inv H. apply require_grant_stored in E; [|done].
  apply (single_image a _ _ _ E). to_prop.
  unfold lawful, holds. cbn. split_and!; [done|by right|by rewrite andb_true_r].
Qed.

Lemma acknowledge_images ack : plan_acknowledge_grant a ack arb = Ok m -> images.
Proof.
  unfold plan_acknowledge_grant. intros H. plan_inv H. apply require_grant_stored in E; [|done].
  apply (single_image a _ _ _ E). by apply lawful_same_state.
Qed.

Lemma verify_evolves v : plan_verify_grant a v arb = Ok m -> evolution.
Proof.
  unfold plan_verify_grant. intros H. plan_inv H. apply require_grant_stored in E; [|done].
  cbn. constructor; [done|constructor; [|constructor]]. apply (evolves_stored a _ _ _ E).
  destruct (bool_decide (gv_result v = VerificationState.Failed)); by apply lawful_same_state.
Qed.

Lemma expired_lawful now g u : expired_grant now g = Some u -> lawful g u true.
Proof.
  unfold expired_grant, lawful, holds. destruct (g_expires_at_ms g =? 0); cbn; [done|].
  destruct (now <? _); cbn; [done|].
  destruct (g_state g) eqn:E; cbn; intros [= <-]; cbn; (split_and!; [done|by right|done]).
Qed.

Lemma tick_evolves now : plan_tick a now arb = Ok m -> evolution.
Proof.
  unfold plan_tick. intros H. plan_inv H. cbn [m_objects]. apply Forall_app; split.
  - apply Forall_join, Forall_fmap, Forall_forall. intros s _. cbn. unfold tick_site.
    destruct (lapsed_site a now s); constructor; [done|]. by apply images_evolve, append_downgrades_images.
  - apply images_evolve, omap_images; [by apply stored_grants|]. intros g u. apply expired_lawful.
Qed.

Lemma plan_evolution op : is_reconcile op = false -> plan a op arb = Ok m -> evolution.
Proof.
  destruct op; cbn [is_reconcile plan]; intros Hr H; try done.
  - by eapply install_policy_evolves.
  - by eapply bump_epoch_evolves.
  - by eapply register_site_evolves.
  - unfold plan_heartbeat in H. plan_inv H. by repeat constructor.
  - by eapply set_site_state_evolves.
  - by eapply register_path_evolves.
  - by eapply set_path_state_evolves.
  - by eapply attest_capacity_evolves.
  - unfold plan_issue_oversubscription in H. plan_inv H. by repeat constructor.
  - by eapply propose_evolves.
  - by eapply images_evolve, evaluate_images.
  - by eapply images_evolve, reserve_images.
  - by eapply images_evolve, activate_images.
  - by eapply images_evolve, degrade_images.
  - by eapply images_evolve, withdraw_images.
  - by eapply images_evolve, retire_images.
  - by eapply images_evolve, cancel_images.
  - by eapply images_evolve, acknowledge_images.
  - by eapply verify_evolves.
  - by eapply tick_evolves.
Qed.
End PlanEvolution.
