(* ===== verification/Digest.v ===== *)
(** * Integrity primitives (include/isf/digest.hpp, src/digest.cpp)

    CRC-32C over its table, incremental SHA-256 with its block buffer, the text
    form of digests, FNV-1a, and the digest of an authority's state.  Words are
    [N] below 2^32; the sums of the compression function wrap. *)

From Stdlib Require Import Strings.Byte.
From S2P Require Import Prelude Outcome Ids Wire Model Codecs State.

(** ** CRC-32C *)

Definition kPoly : N := 0x82F63B78.

Definition crc_bit (crc : N) : N :=
  if N.testbit crc 0 then N.lxor (N.shiftr crc 1) kPoly else N.shiftr crc 1.

Definition crc_entry (i : N) : N := Nat.iter 8 crc_bit i.

Definition kCrc32cTable : list N := (fun i => crc_entry (N.of_nat i)) <$> seq 0 256.

Definition crc_step (crc : N) (b : Byte.byte) : N :=
  N.lxor (kCrc32cTable !!! N.to_nat (N.land (N.lxor crc (Byte.to_N b)) 0xFF)) (N.shiftr crc 8).

(** [Crc32c::update] of a span and [Crc32c::value]. *)
Definition crc_update (state : N) (data : bytes) : N := foldl crc_step state data.
Definition crc_init : N := 0xFFFFFFFF.
Definition crc_value (state : N) : N := N.lxor state 0xFFFFFFFF.

Definition crc32c (data : bytes) : N := crc_value (crc_update crc_init data).

(** ** SHA-256 *)

Definition kSha256K : list N :=
  [0x428A2F98; 0x71374491; 0xB5C0FBCF; 0xE9B5DBA5; 0x3956C25B; 0x59F111F1; 0x923F82A4;
   0xAB1C5ED5; 0xD807AA98; 0x12835B01; 0x243185BE; 0x550C7DC3; 0x72BE5D74; 0x80DEB1FE;
   0x9BDC06A7; 0xC19BF174; 0xE49B69C1; 0xEFBE4786; 0x0FC19DC6; 0x240CA1CC; 0x2DE92C6F;
   0x4A7484AA; 0x5CB0A9DC; 0x76F988DA; 0x983E5152; 0xA831C66D; 0xB00327C8; 0xBF597FC7;
   0xC6E00BF3; 0xD5A79147; 0x06CA6351; 0x14292967; 0x27B70A85; 0x2E1B2138; 0x4D2C6DFC;
   0x53380D13; 0x650A7354; 0x766A0ABB; 0x81C2C92E; 0x92722C85; 0xA2BFE8A1; 0xA81A664B;
   0xC24B8B70; 0xC76C51A3; 0xD192E819; 0xD6990624; 0xF40E3585; 0x106AA070; 0x19A4C116;
   0x1E376C08; 0x2748774C; 0x34B0BCB5; 0x391C0CB3; 0x4ED8AA4A; 0x5B9CCA4F; 0x682E6FF3;
   0x748F82EE; 0x78A5636F; 0x84C87814; 0x8CC70208; 0x90BEFFFA; 0xA4506CEB; 0xBEF9A3F7;
   0xC67178F2].

Definition rotr (x : N) (n : N) : N := N.lor (N.shiftr x n) (wrap32 (N.shiftl x (32 - n))).

(** [big_endian_u32] of four bytes. *)
Definition big_endian_u32 (p : bytes) : N :=
  foldl (fun acc b => N.lor (N.shiftl acc 8) (Byte.to_N b)) 0 (take 4 p).

(** The first sixteen words of the schedule. *)
Fixpoint block_words (n : nat) (block : bytes) : list N :=
  match n with
  | O => []
  | S n => big_endian_u32 block :: block_words n (drop 4 block)
  end.

Definition schedule_word (w : list N) (i : nat) : N :=
  let at_ k := w !!! (i - k)%nat in
  let s0 := N.lxor (N.lxor (rotr (at_ 15%nat) 7) (rotr (at_ 15%nat) 18)) (N.shiftr (at_ 15%nat) 3) in
  let s1 := N.lxor (N.lxor (rotr (at_ 2%nat) 17) (rotr (at_ 2%nat) 19)) (N.shiftr (at_ 2%nat) 10) in
  wrap32 (at_ 16%nat + s0 + at_ 7%nat + s1).

Definition schedule (block : bytes) : list N :=
  foldl (fun w i => w ++ [schedule_word w i]) (block_words 16 block) (seq 16 48).

(** The eight words of the state. *)
Record Words := mkWords { w0 : N; w1 : N; w2 : N; w3 : N; w4 : N; w5 : N; w6 : N; w7 : N }.

Definition lnot32 (x : N) : N := N.lxor x 0xFFFFFFFF.

Definition sha_round (s : Words) (kw : N * N) : Words :=
  let '(mkWords a b c d e f g h) := s in
  let s1 := N.lxor (N.lxor (rotr e 6) (rotr e 11)) (rotr e 25) in
  let ch := N.lxor (N.land e f) (N.land (lnot32 e) g) in
  let temp1 := wrap32 (h + s1 + ch + fst kw + snd kw) in
  let s0 := N.lxor (N.lxor (rotr a 2) (rotr a 13)) (rotr a 22) in
  let maj := N.lxor (N.lxor (N.land a b) (N.land a c)) (N.land b c) in
  let temp2 := wrap32 (s0 + maj) in
  mkWords (wrap32 (temp1 + temp2)) a b c (wrap32 (d + temp1)) e f g.

Definition add_words (s t : Words) : Words :=
  mkWords (wrap32 (w0 s + w0 t)) (wrap32 (w1 s + w1 t)) (wrap32 (w2 s + w2 t))
    (wrap32 (w3 s + w3 t)) (wrap32 (w4 s + w4 t)) (wrap32 (w5 s + w5 t)) (wrap32 (w6 s + w6 t))
    (wrap32 (w7 s + w7 t)).

(** [Sha256::compress] of one block. *)
Definition compress (s : Words) (block : bytes) : Words :=
  add_words s (foldl sha_round s (zip kSha256K (schedule block))).

(** The hasher; [sha_buffer] is the filled part of [buffer_]. *)
Record Sha256 := mkSha256 { sha_state : Words; sha_buffer : bytes; sha_total : N }.

Definition sha_reset : Sha256 :=
  mkSha256 (mkWords 0x6a09e667 0xbb67ae85 0x3c6ef372 0xa54ff53a 0x510e527f 0x9b05688c 0x1f83d9ab
    0x5be0cd19) [] 0.

(** [while (data.size() - offset >= 64) compress(...)], on the bytes from
    [offset] on; the fuel bounds the number of blocks. *)
Fixpoint compress_blocks (fuel : nat) (s : Words) (data : bytes) : Words * bytes :=
  match fuel with
  | O => (s, data)
  | S fuel =>
      if (64 <=? length data)%nat then compress_blocks fuel (compress s (take 64 data)) (drop 64 data)
      else (s, data)
  end.

Definition sha_update (h : Sha256) (data : bytes) : Sha256 :=
  let total := wrap64 (sha_total h + blen data) in
  let '(state, buffer, rest) :=
    if bool_decide (sha_buffer h = []) then (sha_state h, [], data)
    else
      let want := (64 - length (sha_buffer h))%nat in
      let count := if (length data <? want)%nat then length data else want in
      let buffer := sha_buffer h ++ take count data in
      if (length buffer =? 64)%nat then (compress (sha_state h) buffer, [], drop count data)
      else (sha_state h, buffer, drop count data) in
  let '(state, rest) := compress_blocks (length rest) state rest in
  mkSha256 state (if bool_decide (rest = []) then buffer else rest) total.

(** [while (buffered_ != 56) update(zero)]. *)
Fixpoint pad_zeros (fuel : nat) (h : Sha256) : Sha256 :=
  match fuel with
  | O => h
  | S fuel =>
      if (length (sha_buffer h) =? 56)%nat then h else pad_zeros fuel (sha_update h [x00])
  end.

(** The bytes of a value, the most significant first. *)
Definition big_endian (k : nat) (value : N) : bytes := reverse (w_le k value).

Definition words_bytes (s : Words) : bytes :=
  mjoin (big_endian 4 <$> [w0 s; w1 s; w2 s; w3 s; w4 s; w5 s; w6 s; w7 s]).

Definition sha_finish (h : Sha256) : Digest256 :=
  let bit_length := wrap64 (sha_total h * 8) in
  let h := sha_update h [x80] in
  let h := pad_zeros 64 h in
  let h := sha_update h (big_endian 8 bit_length) in
  mkDigest256 (words_bytes (sha_state h)).

Definition digest_of (data : bytes) : Digest256 := sha_finish (sha_update sha_reset data).

(** [chain_hash] of the store and any other digest of several spans. *)
Definition digest_parts (parts : list bytes) : Digest256 :=
  sha_finish (foldl sha_update sha_reset parts).

(** ** Text form *)

Definition digest_to_hex (d : Digest256) : bytes :=
  mjoin ((fun b => [hex_char (N.shiftr (Byte.to_N b) 4); hex_char (N.land (Byte.to_N b) 0x0F)])
           <$> digest_bytes d).

Definition digest_to_string (d : Digest256) : bytes := str "sha256:" ++ digest_to_hex d.

(** The loop over the 32 pairs of digits. *)
Fixpoint parse_digest_digits (n : nat) (body : bytes) : Expected bytes :=
  match n, body with
  | S n, high :: low :: body =>
      match hex_value high, hex_value low with
      | Some h, Some l =>
          rest ← parse_digest_digits n body;
          Ok (byte_of_N (N.lor (N.shiftl h 4) l) :: rest)
      | _, _ => Fail Status.Invalid
      end
  | _, _ => Ok []
  end.

Definition parse_digest (text : bytes) : Expected Digest256 :=
  let body :=
    if (7 <? length text)%nat && bool_decide (take 7 text = str "sha256:") then drop 7 text
    else text in
  fail_if negb (length body =? 64)%nat with Status.Invalid ;;
  out ← parse_digest_digits 32 body;
  Ok (mkDigest256 out).

Definition fnv1a64 (text : bytes) : N :=
  foldl (fun hash c => wrap64 (N.lxor hash (Byte.to_N c) * 0x100000001B3)) 0xCBF29CE484222325 text.

(** ** CRC-32C is the shift register *)

Lemma crc_bit_lxor x y : crc_bit (N.lxor x y) = N.lxor (crc_bit x) (crc_bit y).
Proof.
  unfold crc_bit. rewrite N.lxor_spec, N.shiftr_lxor.
  destruct (N.testbit x 0), (N.testbit y 0); cbn [xorb]; apply N.bits_inj; intros i;
    rewrite ?N.lxor_spec; by destruct (N.testbit kPoly i), (N.testbit _ i), (N.testbit _ i).
Qed.

Lemma crc_bits_lxor n x y :
  Nat.iter n crc_bit (N.lxor x y) = N.lxor (Nat.iter n crc_bit x) (Nat.iter n crc_bit y).
Proof. induction n as [|n IH]; [done|]. by rewrite !Nat.iter_succ, IH, crc_bit_lxor. Qed.

Lemma crc_bits_shift n z : Nat.iter n crc_bit (N.shiftl z (N.of_nat n)) = z.
Proof.
  induction n as [|n IH]; [apply N.shiftl_0_r|].
  rewrite Nat.iter_succ_r.
  assert (crc_bit (N.shiftl z (N.of_nat (S n))) = N.shiftl z (N.of_nat n)) as ->; [|done].
  unfold crc_bit. rewrite N.shiftl_spec_low by lia.
  rewrite N.shiftr_shiftl_l by lia. f_equal. lia.
Qed.

Lemma crc_table_lookup i : i < 256 -> kCrc32cTable !!! N.to_nat i = crc_entry i.
Proof.
  intros Hi. apply list_lookup_total_correct. unfold kCrc32cTable.
  rewrite list_lookup_fmap, lookup_seq_lt by lia. cbn. by rewrite N2Nat.id.
Qed.

Lemma crc_step_bits crc b : crc_step crc b = Nat.iter 8 crc_bit (N.lxor crc (Byte.to_N b)).
Proof.
  unfold crc_step. set (x := N.lxor crc (Byte.to_N b)).
  change 0xFF with (N.ones 8). rewrite N.land_ones.
  rewrite crc_table_lookup by (apply N.mod_lt; done). unfold crc_entry.
  assert (x = N.lxor (x mod 2 ^ 8) (N.shiftl (N.shiftr crc 8) (N.of_nat 8))) as Hx.
  { assert (N.shiftr crc 8 = N.shiftr x 8) as ->.
    { unfold x. rewrite N.shiftr_lxor. symmetry.
      rewrite (N.shiftr_div_pow2 (Byte.to_N b)), N.div_small by apply to_N_lt. apply N.lxor_0_r. }
    apply N.bits_inj. intros i. rewrite N.lxor_spec. destruct (N.ltb_spec i 8).
    - rewrite N.mod_pow2_bits_low, N.shiftl_spec_low by lia. by rewrite xorb_false_r.
    - rewrite N.mod_pow2_bits_high, N.shiftl_spec_high', N.shiftr_spec' by lia.
      rewrite xorb_false_l. f_equal. lia. }
  rewrite Hx at 2. by rewrite crc_bits_lxor, crc_bits_shift.
Qed.

Lemma crc_update_bits data crc :
  crc_update crc data = Nat.iter (8 * length data) crc_bit (N.lxor crc (le_value data)).
Proof.
  revert crc. induction data as [|b data IH]; intros crc.
  { cbn. change (le_value []) with 0. by rewrite N.lxor_0_r. }
  unfold crc_update in *. cbn [foldl]. rewrite IH, crc_step_bits, le_value_cons.
  assert (Byte.to_N b + 256 * le_value data = N.lxor (Byte.to_N b) (N.shiftl (le_value data) (N.of_nat 8))) as ->.
  { rewrite N.shiftl_mul_pow2. change (2 ^ N.of_nat 8) with 256. pose proof (to_N_lt b).
    rewrite (N.mul_comm _ 256). apply N.add_nocarry_lxor. apply N.bits_inj. intros i.
    rewrite N.land_spec, N.bits_0. change 256 with (2 ^ 8). destruct (N.ltb_spec i 8).
    - rewrite (N.mul_comm (2 ^ 8)), N.mul_pow2_bits_low by done. by rewrite andb_false_r.
    - rewrite (N.bits_above_log2 (Byte.to_N b)); [done|].
      destruct (N.eq_dec (Byte.to_N b) 0) as [->|]; [cbn; lia|].
      apply N.log2_lt_pow2; [lia|]. eapply N.lt_le_trans; [apply to_N_lt|].
      change 256 with (2 ^ 8). by apply N.pow_le_mono_r. }
  rewrite <-N.lxor_assoc. replace (8 * length (b :: data))%nat with (8 * length data + 8)%nat by (cbn [length]; lia).
  by rewrite Nat.iter_add, (crc_bits_lxor 8 (N.lxor crc (Byte.to_N b))), crc_bits_shift.
Qed.

(** Words below a power of two by their bits. *)
Lemma low_bits n x : x < 2 ^ n <-> forall i, n <= i -> N.testbit x i = false.
Proof.
  split.
  - intros Hx i Hi. rewrite <-(N.mod_small x (2 ^ n)) by done. by apply N.mod_pow2_bits_high.
  - intros Hbits. assert (x = x mod 2 ^ n) as ->; [|apply N.mod_lt, N.pow_nonzero; done].
    apply N.bits_inj. intros i. destruct (N.ltb_spec i n).
    + by rewrite N.mod_pow2_bits_low.
    + rewrite N.mod_pow2_bits_high by done. by apply Hbits.
Qed.

Lemma crc_bit_u32 x : u32_ok x -> u32_ok (crc_bit x).
Proof.
  unfold u32_ok. rewrite !low_bits. intros Hx i Hi. unfold crc_bit.
  assert (N.testbit (N.shiftr x 1) i = false) as Hs by (rewrite N.shiftr_spec'; apply Hx; lia).
  destruct (N.testbit x 0); [|done]. rewrite N.lxor_spec, Hs. by apply (proj1 (low_bits 32 kPoly)).
Qed.

(** The polynomial has its top bit set, so that a step can be undone. *)
Lemma crc_bit_inj x y : u32_ok x -> u32_ok y -> crc_bit x = crc_bit y -> x = y.
Proof.
  intros Hx Hy He.
  assert (forall z, u32_ok z -> N.testbit (crc_bit z) 31 = N.testbit z 0) as Htop.
  { intros z Hz. unfold crc_bit.
    assert (N.testbit (N.shiftr z 1) 31 = false) as Hs
      by (rewrite N.shiftr_spec'; by apply (proj1 (low_bits 32 z) Hz)).
    destruct (N.testbit z 0); rewrite ?N.lxor_spec, Hs; done. }
  assert (N.testbit x 0 = N.testbit y 0) as H0 by (by rewrite <-!Htop, He).
  assert (N.shiftr x 1 = N.shiftr y 1) as H1.
  { unfold crc_bit in He. rewrite H0 in He. destruct (N.testbit y 0); [|done].
    apply (f_equal (fun z => N.lxor z kPoly)) in He.
    by rewrite !N.lxor_assoc, N.lxor_nilpotent, !N.lxor_0_r in He. }
  apply N.bits_inj. intros i. destruct (N.eq_dec i 0) as [->|Hi]; [done|].
  replace i with (N.pred i + 1) by lia. by rewrite <-!N.shiftr_spec', H1.
Qed.

Lemma crc_bits_u32 n x : u32_ok x -> u32_ok (Nat.iter n crc_bit x).
Proof. induction n as [|n IH]; [done|]. rewrite Nat.iter_succ. eauto using crc_bit_u32. Qed.

Lemma crc_bits_inj n x y :
  u32_ok x -> u32_ok y -> Nat.iter n crc_bit x = Nat.iter n crc_bit y -> x = y.
Proof.
  intros Hx Hy. induction n as [|n IH]; [done|]. rewrite !Nat.iter_succ.
  intros He%crc_bit_inj; auto using crc_bits_u32.
Qed.

Lemma lxor_u32 x y : u32_ok x -> u32_ok y -> u32_ok (N.lxor x y).
Proof.
  unfold u32_ok. rewrite !low_bits. intros Hx Hy i Hi. by rewrite N.lxor_spec, Hx, Hy.
Qed.

Lemma lxor_inj_r c x y : N.lxor c x = N.lxor c y -> x = y.
Proof.
  intros He%(f_equal (N.lxor c)). by rewrite <-!N.lxor_assoc, N.lxor_nilpotent, !N.lxor_0_l in He.
Qed.

Lemma crc_step_u32 crc b : u32_ok crc -> u32_ok (crc_step crc b).
Proof.
  intros Hc. rewrite crc_step_bits. apply crc_bits_u32, lxor_u32; [done|].
  pose proof (to_N_lt b). unfold u32_ok. lia.
Qed.

Lemma crc_update_u32 data crc : u32_ok crc -> u32_ok (crc_update crc data).
Proof.
  revert crc. induction data as [|b data IH]; intros crc Hc; [done|]. by apply IH, crc_step_u32.
Qed.

Lemma crc_update_inj_state data crc crc' :
  u32_ok crc -> u32_ok crc' -> crc_update crc data = crc_update crc' data -> crc = crc'.
Proof.
  revert crc crc'. induction data as [|b data IH]; intros crc crc' Hc Hc' He; [done|].
  apply IH in He; auto using crc_step_u32. rewrite !crc_step_bits in He.
  pose proof (to_N_lt b).
  apply crc_bits_inj in He; [|apply lxor_u32; unfold u32_ok in *; lia..].
  rewrite !(N.lxor_comm _ (Byte.to_N b)) in He. by apply lxor_inj_r in He.
Qed.

Lemma crc_update_inj_word w w' crc :
  u32_ok crc -> length w = length w' -> (length w <= 4)%nat ->
  crc_update crc w = crc_update crc w' -> w = w'.
Proof.
  intros Hc Hl H4 He. rewrite !crc_update_bits, <-Hl in He.
  assert (forall v, (length v <= 4)%nat -> u32_ok (le_value v)) as Hu.
  { intros v Hv. eapply N.lt_le_trans; [apply le_value_bound|].
    apply N.pow_le_mono_r; [done|]. unfold blen. lia. }
  apply crc_bits_inj in He; [|apply lxor_u32; [done|apply Hu; lia]..].
  apply lxor_inj_r in He. rewrite <-(w_le_le_value w), <-(w_le_le_value w'). congruence.
Qed.

Lemma crc32c_u32 data : u32_ok (crc32c data).
Proof. apply lxor_u32; [|done]. by apply crc_update_u32. Qed.

(** ** Incremental SHA-256 is SHA-256 of the concatenation *)

(** The compression of the full blocks of [data], and what is left of it. *)
Definition absorb (s : Words) (data : bytes) : Words * bytes := compress_blocks (length data) s data.

Lemma compress_blocks_fuel f s data :
  (length data <= f)%nat -> compress_blocks f s data = absorb s data.
Proof.
  unfold absorb. remember (length data) as n eqn:Hn. assert (length data <= n)%nat as Hle by lia.
  clear Hn. intros Hf. revert n f s data Hle Hf.
  assert (forall n f g s data, (length data <= n)%nat -> (n <= f)%nat -> (n <= g)%nat ->
    compress_blocks f s data = compress_blocks g s data) as Hany.
  { induction n as [|n IH]; intros f g s data Hn Hf Hg.
    - destruct data; [|cbn in Hn; lia]. by destruct f, g.
    - destruct f as [|f], g as [|g]; try lia. cbn [compress_blocks].
      destruct (64 <=? length data)%nat eqn:E; [|done]. apply Nat.leb_le in E.
      apply IH; [rewrite length_drop|..]; lia. }
  intros n f s data Hle Hf. by apply (Hany n).
Qed.

Lemma absorb_block s block data :
  length block = 64%nat -> absorb s (block ++ data) = absorb (compress s block) data.
Proof.
  intros Hb. unfold absorb at 1. rewrite length_app, Hb.
  replace (64 + length data)%nat with (S (63 + length data)) by lia. cbn [compress_blocks].
  rewrite length_app, Hb, (proj2 (Nat.leb_le _ _)) by lia.
  rewrite take_app_length', drop_app_length' by done. apply compress_blocks_fuel. lia.
Qed.

Lemma absorb_short s data : (length data < 64)%nat -> absorb s data = (s, data).
Proof.
  intros Hd. unfold absorb. destruct (length data) eqn:E; [done|]. cbn [compress_blocks].
  by rewrite E, (proj2 (Nat.leb_gt _ _)) by lia.
Qed.

(** Every text is a short one after some full blocks. *)
Lemma blocks_ind (P : bytes -> Prop) :
  (forall data, (length data < 64)%nat -> P data) ->
  (forall block data, length block = 64%nat -> P data -> P (block ++ data)) ->
  forall data, P data.
Proof.
  intros Hshort Hblock data. remember (length data) as n eqn:Hn.
  revert data Hn. induction (lt_wf n) as [n _ IH]. intros data ->.
  destruct (decide (length data < 64)%nat) as [|Hge]; [by apply Hshort|].
  rewrite <-(take_drop 64 data). apply Hblock; [rewrite length_take; lia|].
  eapply IH; [|done]. rewrite length_drop. lia.
Qed.

Lemma absorb_rest s data : length (absorb s data).2 = (length data mod 64)%nat.
Proof.
  revert s. induction data as [data Hd|block data Hb IH] using blocks_ind; intros s.
  - by rewrite absorb_short, Nat.mod_small.
  - rewrite absorb_block, IH, length_app, Hb by done.
    replace (64 + length data)%nat with (length data + 1 * 64)%nat by lia.
    by rewrite Nat.Div0.mod_add.
Qed.

Lemma absorb_app s a b :
  absorb s (a ++ b) = absorb (absorb s a).1 ((absorb s a).2 ++ b).
Proof.
  revert s. induction a as [a Ha|block a Hb IH] using blocks_ind; intros s.
  - by rewrite (absorb_short s a).
  - by rewrite <-app_assoc, !(absorb_block s block), IH.
Qed.

(** What [update] does, whatever is in the buffer. *)
Definition hasher_wf (h : Sha256) : Prop :=
  (length (sha_buffer h) < 64)%nat /\ u64_ok (sha_total h).

Lemma sha_update_absorb h data :
  hasher_wf h ->
  sha_update h data =
  let '(s, rest) := absorb (sha_state h) (sha_buffer h ++ data) in
  mkSha256 s rest (wrap64 (sha_total h + blen data)).
Proof.
  intros [Hb _]. unfold sha_update. destruct h as [s buf total]. cbn [sha_state sha_buffer sha_total] in *.
  assert (forall s rest, compress_blocks (length rest) s rest = absorb s rest) as Habs by done.
  destruct (bool_decide_reflect (buf = [])) as [->|Hne].
  { cbn. rewrite Habs. destruct (absorb s data) as [s' rest]. by case_bool_decide; subst. }
  assert (0 < length buf)%nat by (destruct buf; [done|cbn; lia]). cbn zeta.
  destruct (Nat.ltb_spec (length data) (64 - length buf)) as [Hlt|Hge].
  - rewrite firstn_all. rewrite (proj2 (Nat.eqb_neq _ _)) by (rewrite length_app; lia).
    rewrite skipn_all. cbn. by rewrite absorb_short by (rewrite length_app; lia).
  - assert (length (buf ++ take (64 - length buf) data) = 64%nat) as Hfull
      by (rewrite length_app, length_take; lia).
    rewrite Hfull. cbn [Nat.eqb]. rewrite Habs.
    rewrite <-(take_drop (64 - length buf) data) at 3. rewrite app_assoc, absorb_block by done.
    destruct (absorb _ _) as [s' rest]. by case_bool_decide; subst.
Qed.

Lemma sha_update_wf h data : hasher_wf h -> hasher_wf (sha_update h data).
Proof.
  intros Hh. rewrite sha_update_absorb by done.
  pose proof (absorb_rest (sha_state h) (sha_buffer h ++ data)) as Hr.
  destruct (absorb _ _) as [s rest]. cbn [snd] in Hr. split; cbn [sha_buffer sha_total].
  - rewrite Hr. by apply Nat.mod_upper_bound.
  - by apply N.mod_lt.
Qed.

Lemma sha_update_app h a b :
  hasher_wf h -> sha_update (sha_update h a) b = sha_update h (a ++ b).
Proof.
  intros Hh. rewrite (sha_update_absorb (sha_update h a)) by (by apply sha_update_wf).
  rewrite !sha_update_absorb by done. rewrite (app_assoc (sha_buffer h)), (absorb_app _ (sha_buffer h ++ a)).
  destruct (absorb (sha_state h) (sha_buffer h ++ a)) as [s rest]. cbn [fst snd sha_state sha_buffer sha_total].
  destruct (absorb s (rest ++ b)) as [s' rest']. f_equal.
  unfold wrap64, blen. rewrite length_app, Nat2N.inj_add, N.add_assoc. apply N.Div0.add_mod_idemp_l.
Qed.

Lemma sha_update_nil h : hasher_wf h -> sha_update h [] = h.
Proof.
  intros [Hb Ht]. rewrite sha_update_absorb by done. rewrite app_nil_r, absorb_short by done.
  destruct h; cbn. f_equal. unfold wrap64. rewrite N.add_0_r. by apply N.mod_small.
Qed.

Lemma sha_updates h parts :
  hasher_wf h -> foldl sha_update h parts = sha_update h (mjoin parts).
Proof.
  revert h. induction parts as [|p parts IH]; intros h Hh; csimpl; [by rewrite sha_update_nil|].
  rewrite IH by (by apply sha_update_wf). by apply sha_update_app.
Qed.

Lemma sha_reset_wf : hasher_wf sha_reset.
Proof. split; cbn; [lia|done]. Qed.

(** The padding loop adds zeros up to 56 modulo 64. *)
Lemma pad_zeros_update n fuel h :
  hasher_wf h -> (n < 64)%nat -> (n <= fuel)%nat -> ((length (sha_buffer h) + n) mod 64 = 56)%nat ->
  pad_zeros fuel h = sha_update h (replicate n x00).
Proof.
  revert fuel h. induction n as [|n IH]; intros fuel h Hh Hn Hf Hmod.
  - cbn [replicate]. rewrite sha_update_nil by done. destruct Hh as [Hb _].
    rewrite Nat.add_0_r, Nat.mod_small in Hmod by done. destruct fuel; cbn; [done|].
    by rewrite Hmod.
  - destruct fuel as [|fuel]; [lia|]. cbn [pad_zeros]. destruct (Nat.eqb_spec (length (sha_buffer h)) 56) as [E|_].
    { rewrite E in Hmod. destruct (decide (S n < 8)%nat).
      - rewrite Nat.mod_small in Hmod by lia. lia.
      - replace (56 + S n)%nat with (S n - 8 + 1 * 64)%nat in Hmod by lia.
        rewrite Nat.Div0.mod_add, Nat.mod_small in Hmod by lia. lia. }
    rewrite IH; [by rewrite sha_update_app|by apply sha_update_wf|lia|lia|].
    rewrite sha_update_absorb by done.
    pose proof (absorb_rest (sha_state h) (sha_buffer h ++ [x00])) as Hr.
    destruct (absorb _ _) as [s rest]. cbn [snd sha_buffer] in Hr |- *. rewrite Hr, length_app. cbn [length].
    rewrite Nat.Div0.add_mod_idemp_l. etransitivity; [|exact Hmod]. f_equal. lia.
Qed.

(** ** The reference: the digest of a padded message, block by block *)

Definition padding (len : nat) : bytes :=
  [x80] ++ replicate ((119 - len mod 64) mod 64) x00 ++ big_endian 8 (wrap64 (N.of_nat len * 8)).

Definition blocks (data : bytes) : list bytes :=
  (fun i => take 64 (drop (64 * i) data)) <$> seq 0 (length data / 64).

Definition sha256_reference (message : bytes) : Digest256 :=
  mkDigest256 (words_bytes
    (foldl compress (sha_state sha_reset) (blocks (message ++ padding (length message))))).

Lemma blocks_cons block data : length block = 64%nat -> blocks (block ++ data) = block :: blocks data.
Proof.
  intros Hb. unfold blocks. rewrite length_app, Hb.
  replace (64 + length data)%nat with (length data + 1 * 64)%nat by lia.
  rewrite Nat.div_add, Nat.add_1_r by done. cbn [seq fmap list_fmap]. f_equal.
  - by apply take_app_length'.
  - rewrite <-fmap_S_seq, <-list_fmap_compose. apply list_fmap_ext. intros i j _. cbn [compose].
    replace (64 * S j)%nat with (length block + 64 * j)%nat by lia. by rewrite drop_app_add.
Qed.

Lemma absorb_blocks s data :
  (length data mod 64 = 0)%nat -> absorb s data = (foldl compress s (blocks data), []).
Proof.
  revert s. induction data as [data Hd|block data Hb IH] using blocks_ind; intros s Hmod.
  - rewrite Nat.mod_small in Hmod by done. apply nil_length_inv in Hmod as ->. done.
  - rewrite absorb_block, blocks_cons by done. apply IH.
    rewrite length_app, Hb in Hmod. replace (64 + length data)%nat with (length data + 1 * 64)%nat in Hmod by lia.
    by rewrite Nat.Div0.mod_add in Hmod.
Qed.

Lemma length_padding len : ((len + length (padding len)) mod 64 = 0)%nat.
Proof.
  unfold padding, big_endian. rewrite !length_app, length_replicate, length_reverse, length_w_le.
  cbn [length].
  pose proof (Nat.div_mod_eq len 64) as Hlen. pose proof (Nat.mod_upper_bound len 64) as Hlt.
  set (q := (len / 64)%nat) in *. set (r := (len mod 64)%nat) in *.
  destruct (decide (r <= 55)%nat).
  - replace (119 - r)%nat with (55 - r + 1 * 64)%nat by lia.
    rewrite Nat.Div0.mod_add, (Nat.mod_small (55 - r)) by lia.
    replace (len + _)%nat with (0 + (q + 1) * 64)%nat by lia. apply Nat.Div0.mod_add.
  - rewrite (Nat.mod_small (119 - r)) by lia.
    replace (len + _)%nat with (0 + (q + 2) * 64)%nat by lia. apply Nat.Div0.mod_add.
Qed.

Lemma sha_finish_reference message :
  sha_finish (sha_update sha_reset message) = sha256_reference message.
Proof.
  pose proof (sha_update_wf _ message sha_reset_wf) as Hwf.
  assert (sha_total (sha_update sha_reset message) = wrap64 (blen message) /\
    length (sha_buffer (sha_update sha_reset message)) = (length message mod 64)%nat) as [Ht Hb].
  { rewrite sha_update_absorb by apply sha_reset_wf. pose proof (absorb_rest (sha_state sha_reset) message) as Hr.
    cbn [sha_buffer sha_reset app]. destruct (absorb _ _) as [s rest]. split; [done|exact Hr]. }
  set (n := ((119 - length message mod 64) mod 64)%nat).
  assert (n < 64)%nat as Hn by by apply Nat.mod_upper_bound.
  unfold sha_finish. rewrite (pad_zeros_update n); [|by apply sha_update_wf|lia..|].
  - rewrite !sha_update_app, Ht by auto using sha_update_wf, sha_reset_wf.
    replace (wrap64 (wrap64 (blen message) * 8)) with (wrap64 (N.of_nat (length message) * 8))
      by (unfold wrap64, blen; by rewrite N.Div0.mul_mod_idemp_l).
    rewrite <-?app_assoc. change ([x80] ++ _) with (padding (length message)).
    rewrite sha_update_absorb by apply sha_reset_wf. cbn [sha_buffer sha_reset app].
    rewrite absorb_blocks; [done|]. rewrite length_app. apply length_padding.
  - rewrite sha_update_absorb by done.
    pose proof (absorb_rest (sha_state (sha_update sha_reset message))
      (sha_buffer (sha_update sha_reset message) ++ [x80])) as Hr.
    destruct (absorb _ _) as [s rest]. cbn [snd sha_buffer] in *. rewrite Hr, length_app, Hb.
    rewrite Nat.Div0.add_mod_idemp_l. unfold n. cbn [length].
    rewrite Nat.Div0.add_mod_idemp_r. pose proof (Nat.mod_upper_bound (length message) 64).
    replace (length message mod 64 + 1 + (119 - length message mod 64))%nat with 120%nat by lia.
    done.
Qed.

(** ** Properties *)

(** C38: however a message is cut into the spans passed to [update], the digest
    [finish] returns is SHA-256 of the whole message: the compression, from the
    initial state, of the 64-byte blocks of the message followed by the bit
    1, the fewest zeros and the bit length. *)
Theorem sha256_streams parts : digest_parts parts = sha256_reference (mjoin parts).
Proof.
  unfold digest_parts. rewrite sha_updates by apply sha_reset_wf. apply sha_finish_reference.
Qed.

(** The table-driven checksum is the bitwise shift register of the
    reflected polynomial, and it tells apart any two texts that differ in a
    burst of at most four bytes. *)
Theorem crc32c_detects_bursts :
  (forall data, crc32c data =
     crc_value (Nat.iter (8 * length data) crc_bit (N.lxor crc_init (le_value data)))) /\
  forall before w w' after,
    length w = length w' -> (length w <= 4)%nat -> w <> w' ->
    crc32c (before ++ w ++ after) <> crc32c (before ++ w' ++ after).
Proof.
  split; [intros data; unfold crc32c; by rewrite crc_update_bits|].
  intros before w w' after Hl H4 Hne He. apply Hne.
  unfold crc32c, crc_value, crc_update in He. rewrite !foldl_app in He.
  rewrite !(N.lxor_comm _ 0xFFFFFFFF) in He. apply lxor_inj_r in He.
  assert (u32_ok (crc_update crc_init before)) as Hb by by apply crc_update_u32.
  apply crc_update_inj_state in He; [|by apply crc_update_u32..].
  by eapply crc_update_inj_word.
Qed.

(** The published test vectors of both algorithms. *)
Example sha256_abc :
  digest_to_hex (digest_of (str "abc")) =
  str "ba7816bf8f01cfea414140de5dae2223b00361a396177a9cb410ff61f20015ad".
Proof. vm_compute. reflexivity. Qed.

Example crc32c_check : crc32c (str "123456789") = 0xE3069283.
Proof. vm_compute. reflexivity. Qed.

(** The flip of one byte of the check text. *)
Lemma crc32c_detects_bursts_witness :
  length (str "5") = length (str "6") /\ str "5" <> str "6" /\
  crc32c (str "1234" ++ str "5" ++ str "6789") <> crc32c (str "1234" ++ str "6" ++ str "6789").
Proof.
  split_and!; [done|done|].
  apply (proj2 crc32c_detects_bursts (str "1234") (str "5") (str "6") (str "6789")); [done|cbn; lia|done].
Defined.
