(* ===== verification/Frames.v ===== *)
(** * Frames (include/isf/protocol.hpp, src/protocol.cpp)

    The framing of the wire protocol: [encode_frame] and the incremental
    [FrameDecoder], with the reference parser of a whole byte stream that the
    decoder is shown to implement however the stream is cut. *)

From Stdlib Require Import Strings.Byte.
From S2P Require Import Prelude Outcome Ids Wire Digest.

Definition kFrameMagic : N := 0x31465349.
Definition kFrameHeaderBytes : nat := 16.
Definition kDefaultMaxFrameBytes : N := N.shiftl 1 20.
Definition kAbsoluteMaxFrameBytes : N := N.shiftl 64 20.

Module FrameError.
Inductive t :=
| Ok | ShortHeader | BadMagic | LengthTooLarge | LengthZero | ChecksumMismatch | UnexpectedFlags
| TruncatedPayload | Closed | TimedOut | IoError.
#[export] Instance t_eq_dec : EqDecision t.
Proof. solve_decision. Defined.
End FrameError.
Export (hints) FrameError.
Abbreviation FrameError := FrameError.t.

(** The length is cast to 32 bits. *)
Definition encode_frame (payload : bytes) : bytes :=
  w_u32 kFrameMagic ++ w_u32 (blen payload mod 2 ^ 32) ++ w_u32 (crc32c payload) ++ w_u32 0 ++ payload.

(** ** The incremental decoder *)

Record FrameDecoder := mkFrameDecoder {
  max_frame_bytes_ : N;
  buffer_ : bytes;
  cursor_ : nat;
  last_error_ : FrameError;
  failed_ : bool;
}.

Definition new_decoder (max_frame_bytes : N) : FrameDecoder :=
  mkFrameDecoder max_frame_bytes [] 0 FrameError.Ok false.

(** [buffered()] *)
Definition buffered (d : FrameDecoder) : nat := length (buffer_ d) - cursor_ d.

Definition with_buffer (buffer : bytes) (cursor : nat) (d : FrameDecoder) : FrameDecoder :=
  mkFrameDecoder (max_frame_bytes_ d) buffer cursor (last_error_ d) (failed_ d).

Definition fail_with (e : FrameError) (d : FrameDecoder) : FrameDecoder :=
  mkFrameDecoder (max_frame_bytes_ d) (buffer_ d) (cursor_ d) e true.

(** [(max_frame_bytes_ + kFrameHeaderBytes) * 2U] *)
Definition buffer_bound (d : FrameDecoder) : N :=
  wrap64 (wrap64 (max_frame_bytes_ d + N.of_nat kFrameHeaderBytes) * 2).

Definition push (d : FrameDecoder) (data : bytes) : FrameDecoder * Status :=
  if failed_ d then (d, Status.Corrupt)
  else
    let d := if (0 <? cursor_ d)%nat then with_buffer (drop (cursor_ d) (buffer_ d)) 0 d else d in
    if buffer_bound d <? blen data
    then (fail_with FrameError.LengthTooLarge d, Status.LimitExceeded)
    else
      let d := with_buffer (buffer_ d ++ data) (cursor_ d) d in
      if buffer_bound d <? blen (buffer_ d)
      then (fail_with FrameError.LengthTooLarge d, Status.LimitExceeded)
      else (d, Status.Ok).

Definition next (d : FrameDecoder) : FrameDecoder * Expected bytes :=
  if failed_ d then (d, Fail Status.Corrupt)
  else
    let available := (length (buffer_ d) - cursor_ d)%nat in
    if (available <? kFrameHeaderBytes)%nat then (d, Fail Status.NotFound)
    else
      let header := drop (cursor_ d) (buffer_ d) in
      if negb (get_le 4 0 header =? kFrameMagic)
      then (fail_with FrameError.BadMagic d, Fail Status.Invalid)
      else
        let len := get_le 4 4 header in
        let expected_crc := get_le 4 8 header in
        let flags := get_le 4 12 header in
        if negb (flags =? 0) then (fail_with FrameError.UnexpectedFlags d, Fail Status.Invalid)
        else if max_frame_bytes_ d <? len
        then (fail_with FrameError.LengthTooLarge d, Fail Status.LimitExceeded)
        else
          let total := (kFrameHeaderBytes + N.to_nat len)%nat in
          if (available <? total)%nat then (d, Fail Status.NotFound)
          else
            let payload := take (N.to_nat len) (drop kFrameHeaderBytes header) in
            if negb (crc32c payload =? expected_crc)
            then (fail_with FrameError.ChecksumMismatch d, Fail Status.Corrupt)
            else
              let cursor := (cursor_ d + total)%nat in
              (if (cursor =? length (buffer_ d))%nat then with_buffer [] 0 d
               else with_buffer (buffer_ d) cursor d, Ok payload).

Definition reset (d : FrameDecoder) : FrameDecoder := new_decoder (max_frame_bytes_ d).

(** ** The reference parser *)

(** What the bytes of a stream begin with. *)
Inductive Head :=
| Waiting
| Bad (e : FrameError) (s : Status)
| Frame (payload rest : bytes).

Definition frame_head (max : N) (data : bytes) : Head :=
  if (length data <? kFrameHeaderBytes)%nat then Waiting
  else if negb (get_le 4 0 data =? kFrameMagic) then Bad FrameError.BadMagic Status.Invalid
  else if negb (get_le 4 12 data =? 0) then Bad FrameError.UnexpectedFlags Status.Invalid
  else
    let len := get_le 4 4 data in
    if max <? len then Bad FrameError.LengthTooLarge Status.LimitExceeded
    else if (length data <? kFrameHeaderBytes + N.to_nat len)%nat then Waiting
    else
      let payload := take (N.to_nat len) (drop kFrameHeaderBytes data) in
      if negb (crc32c payload =? get_le 4 8 data)
      then Bad FrameError.ChecksumMismatch Status.Corrupt
      else Frame payload (drop (kFrameHeaderBytes + N.to_nat len) data).

(** The payloads of a stream, why the parser stops ([NotFound] when it needs
    more bytes) and the bytes it stops at. *)
Fixpoint parse_frames (fuel : nat) (max : N) (data : bytes) : list bytes * Status * bytes :=
  match fuel with
  | O => ([], Status.NotFound, data)
  | S fuel =>
      match frame_head max data with
      | Waiting => ([], Status.NotFound, data)
      | Bad _ s => ([], s, data)
      | Frame payload rest =>
          let '(payloads, s, rest) := parse_frames fuel max rest in (payload :: payloads, s, rest)
      end
  end.

(** A frame takes a header at least ([parse_fuel]). *)
Definition parse_stream (max : N) (data : bytes) : list bytes * Status * bytes :=
  parse_frames (S (length data)) max data.

(** ** The decoder in the receive loop *)

(** The calls of [next] after bytes have arrived, up to the first that fails. *)
Fixpoint drain (fuel : nat) (d : FrameDecoder) : FrameDecoder * list bytes * Status :=
  match fuel with
  | O => (d, [], Status.NotFound)
  | S fuel =>
      match next d with
      | (d, Fail s) => (d, [], s)
      | (d, Ok payload) =>
          let '(d, payloads, s) := drain fuel d in (d, payload :: payloads, s)
      end
  end.

(** The receive loop over the chunks a peer sends: it ends with the first
    failure other than the wait for more bytes. *)
Fixpoint feed (d : FrameDecoder) (chunks : list bytes) : FrameDecoder * list bytes * Status :=
  match chunks with
  | [] => (d, [], Status.NotFound)
  | chunk :: chunks =>
      let '(d, pushed) := push d chunk in
      if negb (is_ok pushed) then (d, [], pushed)
      else
        let '(d, payloads, s) := drain (S (length (buffer_ d))) d in
        if bool_decide (s = Status.NotFound) then
          let '(d, more, s) := feed d chunks in (d, payloads ++ more, s)
        else (d, payloads, s)
  end.

#[local] Opaque crc32c.

(** ** The parser is monotone in its input *)

Lemma frame_head_waiting max data :
  frame_head max data = Waiting -> blen data < max + 16.
Proof.
  unfold frame_head. destruct (_ <? _)%nat eqn:E1.
  { apply Nat.ltb_lt in E1. unfold kFrameHeaderBytes, blen in *. lia. }
  destruct (negb (get_le 4 0 data =? _)); [done|]. destruct (negb (get_le 4 12 data =? 0)); [done|].
  destruct (max <? _) eqn:E2; [done|]. apply N.ltb_ge in E2.
  destruct (_ <? kFrameHeaderBytes + _)%nat eqn:E3; [|by break_goal].
  intros _. apply Nat.ltb_lt in E3. unfold kFrameHeaderBytes, blen in *. lia.
Qed.

Lemma frame_head_app max data more :
  match frame_head max data with
  | Waiting => True
  | Bad e s => frame_head max (data ++ more) = Bad e s
  | Frame payload rest => frame_head max (data ++ more) = Frame payload (rest ++ more)
  end.
Proof.
  unfold frame_head. destruct (length data <? _)%nat eqn:E1; [done|]. apply Nat.ltb_ge in E1.
  unfold kFrameHeaderBytes in *.
  rewrite (proj2 (Nat.ltb_ge (length (data ++ more)) 16)) by (rewrite length_app; lia).
  rewrite !get_le_app by lia.
  destruct (negb (get_le 4 0 data =? _)); [done|]. destruct (negb (get_le 4 12 data =? 0)); [done|].
  destruct (max <? _); [done|]. destruct (length data <? _)%nat eqn:E2; [done|].
  apply Nat.ltb_ge in E2. rewrite (proj2 (Nat.ltb_ge (length (data ++ more)) _)) by (rewrite length_app; lia).
  rewrite drop_app_le by lia. rewrite take_app_le by (rewrite length_drop; lia).
  destruct (negb (crc32c _ =? _)); [done|]. by rewrite drop_app_le by lia.
Qed.

Lemma frame_head_bad max data e s : frame_head max data = Bad e s -> s <> Status.NotFound.
Proof.
  unfold frame_head. intros H. by break_in H.
Qed.

Lemma frame_head_shorter max data payload rest :
  frame_head max data = Frame payload rest -> (length rest + 16 <= length data)%nat.
Proof.
  unfold frame_head, kFrameHeaderBytes. intros H.
  destruct (length data <? 16)%nat eqn:E; [done|]. apply Nat.ltb_ge in E.
  break_in H. rewrite length_drop. lia.
Qed.

(** More fuel than bytes changes nothing. *)
Lemma parse_fuel n max data :
  (length data < n)%nat -> parse_frames n max data = parse_stream max data.
Proof.
  unfold parse_stream. remember (S (length data)) as m eqn:Hm.
  assert (length data < m)%nat as Hlt by lia. clear Hm. revert m data Hlt.
  induction n as [|n IH]; intros m data Hm Hn; [lia|]. destruct m as [|m]; [lia|].
  cbn [parse_frames]. destruct (frame_head max data) as [| |payload rest] eqn:E; [done|done|].
  apply frame_head_shorter in E. by rewrite (IH m) by lia.
Qed.

Lemma parse_stream_unfold max data :
  parse_stream max data =
  match frame_head max data with
  | Waiting => ([], Status.NotFound, data)
  | Bad _ s => ([], s, data)
  | Frame payload rest =>
      let '(payloads, s, rest) := parse_stream max rest in (payload :: payloads, s, rest)
  end.
Proof.
  unfold parse_stream at 1. cbn [parse_frames].
  destruct (frame_head max data) as [| |payload rest] eqn:E; [done|done|].
  apply frame_head_shorter in E. by rewrite parse_fuel by lia.
Qed.

(** The parser reads on where it stopped. *)
Lemma parse_stream_app max data more :
  parse_stream max (data ++ more) =
  let '(payloads, s, rest) := parse_stream max data in
  if bool_decide (s = Status.NotFound)
  then let '(more_payloads, s, rest) := parse_stream max (rest ++ more) in
       (payloads ++ more_payloads, s, rest)
  else (payloads, s, rest ++ more).
Proof.
  induction data as [data IH] using (induction_ltof1 _ (@length _)). unfold ltof in IH.
  rewrite (parse_stream_unfold max data).
  pose proof (frame_head_app max data more) as Happ.
  destruct (frame_head max data) as [|e s|payload rest] eqn:E.
  - rewrite bool_decide_eq_true_2 by done. by destruct (parse_stream max (data ++ more)) as [[ps s] r].
  - rewrite bool_decide_eq_false_2 by (by eapply frame_head_bad).
    by rewrite parse_stream_unfold, Happ.
  - rewrite parse_stream_unfold, Happ. apply frame_head_shorter in E.
    rewrite IH by lia. destruct (parse_stream max rest) as [[ps s] r].
    destruct (bool_decide (s = Status.NotFound)); [|done].
    by destruct (parse_stream max (r ++ more)) as [[qs s'] r'].
Qed.

(** ** The decoder implements the parser *)

(** The bytes a decoder has received and not handed out yet. *)
Definition unread (d : FrameDecoder) : bytes := drop (cursor_ d) (buffer_ d).

Record ready (max : N) (d : FrameDecoder) : Prop := {
  rd_max : max_frame_bytes_ d = max;
  rd_cursor : (cursor_ d <= length (buffer_ d))%nat;
  rd_failed : failed_ d = false;
}.

Lemma new_decoder_ready max : ready max (new_decoder max).
Proof. done. Qed.

Lemma length_unread d : length (unread d) = (length (buffer_ d) - cursor_ d)%nat.
Proof. unfold unread. apply length_drop. Qed.

Lemma next_spec max d :
  ready max d ->
  match frame_head max (unread d) with
  | Waiting => next d = (d, Fail Status.NotFound)
  | Bad e s => next d = (fail_with e d, Fail s)
  | Frame payload rest => exists d', next d = (d', Ok payload) /\ ready max d' /\ unread d' = rest
  end.
Proof.
  intros [<- Hcur Hf]. unfold next, frame_head. rewrite Hf, <-length_unread.
  change (drop (cursor_ d) (buffer_ d)) with (unread d).
  destruct (length (unread d) <? kFrameHeaderBytes)%nat; [done|].
  destruct (negb (get_le 4 0 (unread d) =? _)); [done|].
  destruct (negb (get_le 4 12 (unread d) =? 0)); [done|].
  destruct (max_frame_bytes_ d <? _); [done|].
  set (total := (kFrameHeaderBytes + N.to_nat (get_le 4 4 (unread d)))%nat).
  destruct (length (unread d) <? total)%nat eqn:E; [done|]. apply Nat.ltb_ge in E.
  destruct (negb (crc32c _ =? _)); [done|]. eexists. split; [done|].
  rewrite length_unread in E.
  destruct (cursor_ d + total =? length (buffer_ d))%nat eqn:Eend.
  - apply Nat.eqb_eq in Eend. split; [by split; cbn; [|lia|]|].
    unfold unread at 1. cbn [buffer_ cursor_ with_buffer]. rewrite drop_nil. symmetry. apply drop_ge.
    rewrite length_unread. fold total. lia.
  - split; [split; cbn [with_buffer max_frame_bytes_ buffer_ cursor_ failed_]; [done|fold total; lia|done]|].
    unfold unread. cbn [buffer_ cursor_ with_buffer].
    by rewrite drop_drop.
Qed.

(** Draining a decoder parses what it has not handed out. *)
Lemma drain_spec fuel max d :
  ready max d ->
  exists d' payloads s,
    drain fuel d = (d', payloads, s) /\ parse_frames fuel max (unread d) = (payloads, s, unread d') /\
    (s = Status.NotFound -> ready max d') /\ (s <> Status.NotFound -> failed_ d' = true).
Proof.
  revert d. induction fuel as [|fuel IH]; intros d Hd; cbn [drain parse_frames].
  { by exists d, [], Status.NotFound. }
  pose proof (next_spec max d Hd) as Hn.
  destruct (frame_head max (unread d)) as [|e s|payload rest] eqn:E.
  - rewrite Hn. by exists d, [], Status.NotFound.
  - rewrite Hn. exists (fail_with e d), [], s. apply frame_head_bad in E. by split_and!.
  - destruct Hn as (d' & -> & Hd' & Hrest). destruct (IH d' Hd') as (d2 & ps & s & Hdr & Hp & H1 & H2).
    rewrite Hdr, <-Hrest, Hp. by exists d2, (payload :: ps), s.
Qed.

Lemma drain_stream max d :
  ready max d ->
  exists d' payloads s,
    drain (S (length (buffer_ d))) d = (d', payloads, s) /\
    parse_stream max (unread d) = (payloads, s, unread d') /\
    (s = Status.NotFound -> ready max d') /\ (s <> Status.NotFound -> failed_ d' = true).
Proof.
  intros Hd. destruct (drain_spec (S (length (buffer_ d))) max d Hd) as (d' & ps & s & Hdr & Hp & H1 & H2).
  exists d', ps, s. rewrite parse_fuel in Hp by (rewrite length_unread; lia). by split_and!.
Qed.

Lemma parse_rest_waiting max data payloads rest :
  parse_stream max data = (payloads, Status.NotFound, rest) -> frame_head max rest = Waiting.
Proof.
  revert payloads. induction data as [data IH] using (induction_ltof1 _ (@length _)). unfold ltof in IH.
  intros payloads. rewrite parse_stream_unfold.
  destruct (frame_head max data) as [|e s|payload r] eqn:E.
  - by intros [= _ <-].
  - intros [= _ -> _]. by destruct (frame_head_bad _ _ _ _ E).
  - destruct (parse_stream max r) as [[ps s] r'] eqn:Er. intros [= _ -> ->].
    eapply IH; [|exact Er]. apply frame_head_shorter in E. lia.
Qed.

Definition frame_bound (max : N) : N := max + N.of_nat kFrameHeaderBytes.

(** A chunk of at most one frame is taken by a decoder that waits. *)
Lemma push_spec max d chunk :
  max <= kAbsoluteMaxFrameBytes -> ready max d -> frame_head max (unread d) = Waiting ->
  blen chunk <= frame_bound max ->
  exists d', push d chunk = (d', Status.Ok) /\ ready max d' /\ unread d' = unread d ++ chunk.
Proof.
  intros Hmax Hd Hw Hc. apply frame_head_waiting in Hw. destruct Hd as [Hm Hcur Hf].
  assert (forall d1, max_frame_bytes_ d1 = max -> buffer_bound d1 = frame_bound max * 2) as Hbound.
  { intros d1 Hd1. unfold buffer_bound, wrap64, frame_bound, kFrameHeaderBytes in *. rewrite Hd1.
    change kAbsoluteMaxFrameBytes with 67108864 in Hmax. change (N.of_nat 16) with 16.
    change (2 ^ 64) with 18446744073709551616. rewrite (N.mod_small (max + 16)) by lia.
    by rewrite N.mod_small by lia. }
  unfold push. rewrite Hf.
  set (d1 := if (0 <? cursor_ d)%nat then with_buffer (drop (cursor_ d) (buffer_ d)) 0 d else d).
  assert (buffer_ d1 = unread d /\ cursor_ d1 = 0%nat /\ max_frame_bytes_ d1 = max /\ failed_ d1 = false)
    as (Hb1 & Hc1 & Hm1 & Hf1).
  { unfold d1, unread. destruct (cursor_ d) eqn:E; cbn; rewrite ?E; by split_and!. }
  unfold frame_bound, kFrameHeaderBytes in *.
  rewrite (Hbound d1 Hm1), (proj2 (N.ltb_ge _ _)) by lia.
  rewrite (Hbound (with_buffer _ _ d1) Hm1), (proj2 (N.ltb_ge _ _)).
  - eexists. split; [done|]. split; [split; cbn; [done|rewrite Hc1; lia|done]|].
    unfold unread at 1. cbn. by rewrite Hb1, Hc1, drop_0.
  - cbn [buffer_ with_buffer]. rewrite Hb1. unfold blen in *. rewrite length_app. lia.
Qed.

Lemma feed_spec max d chunks :
  max <= kAbsoluteMaxFrameBytes -> ready max d -> frame_head max (unread d) = Waiting ->
  Forall (fun chunk => blen chunk <= frame_bound max) chunks ->
  exists d' payloads s rest,
    feed d chunks = (d', payloads, s) /\
    parse_stream max (unread d ++ mjoin chunks) = (payloads, s, rest) /\
    (s = Status.NotFound -> ready max d' /\ unread d' = rest) /\
    (s <> Status.NotFound -> failed_ d' = true).
Proof.
  intros Hmax Hd Hw Hcs. revert d Hd Hw. induction Hcs as [|chunk chunks Hc _ IH]; intros d Hd Hw.
  { exists d, [], Status.NotFound, (unread d). cbn [mjoin list_join foldr feed].
    rewrite app_nil_r, parse_stream_unfold, Hw. by split_and!. }
  destruct (push_spec max d chunk Hmax Hd Hw Hc) as (d1 & Hpush & Hd1 & Hu1).
  destruct (drain_stream max d1 Hd1) as (d2 & ps & s & Hdr & Hp & Hok & Hbad).
  cbn [feed]. rewrite Hpush. cbn [is_ok negb]. rewrite Hdr.
  change (mjoin (chunk :: chunks)) with (chunk ++ mjoin chunks).
  rewrite app_assoc, <-Hu1, parse_stream_app, Hp.
  destruct (decide (s = Status.NotFound)) as [->|Hne].
  - rewrite !bool_decide_eq_true_2 by done.
    destruct (IH d2 (Hok eq_refl) (parse_rest_waiting _ _ _ _ Hp)) as (d3 & qs & s3 & rest & Hf & Hq & H).
    rewrite Hf, Hq. by exists d3, (ps ++ qs), s3, rest.
  - rewrite !bool_decide_eq_false_2 by done. exists d2, ps, s, (unread d2 ++ mjoin chunks).
    by split_and!.
Qed.

(** A chunk of any size that a decoder takes. *)
Lemma push_ok max d data d' :
  ready max d -> push d data = (d', Status.Ok) -> ready max d' /\ unread d' = unread d ++ data.
Proof.
  intros [Hm Hcur Hf]. unfold push. rewrite Hf.
  set (d1 := if (0 <? cursor_ d)%nat then with_buffer (drop (cursor_ d) (buffer_ d)) 0 d else d).
  assert (buffer_ d1 = unread d /\ cursor_ d1 = 0%nat /\ max_frame_bytes_ d1 = max /\ failed_ d1 = false)
    as (Hb1 & Hc1 & Hm1 & Hf1).
  { unfold d1, unread. destruct (cursor_ d) eqn:E; cbn; rewrite ?E; by split_and!. }
  destruct (_ <? blen data); [done|]. destruct (_ <? blen (buffer_ _)); [done|]. intros [= <-].
  split; [split; cbn; [done|rewrite Hc1; lia|done]|]. unfold unread at 1. cbn. by rewrite Hb1, Hc1, drop_0.
Qed.

(** What was parsed stays parsed when the stream goes on. *)
Lemma parse_stream_more max data more payloads s rest :
  parse_stream max data = (payloads, s, rest) ->
  exists later s' rest', parse_stream max (data ++ more) = (payloads ++ later, s', rest').
Proof.
  intros Hp. rewrite parse_stream_app, Hp. destruct (bool_decide (s = Status.NotFound)).
  - destruct (parse_stream max (rest ++ more)) as [[ps s'] r']. by exists ps, s', r'.
  - exists [], s, (rest ++ more). by rewrite app_nil_r.
Qed.

(** [next] hands out what the parser finds first. *)
Lemma next_parses max d payloads s rest :
  ready max d -> parse_stream max (unread d) = (payloads, s, rest) ->
  match next d with
  | (d', Ok payload) =>
      exists later, payloads = payload :: later /\ ready max d' /\
        parse_stream max (unread d') = (later, s, rest)
  | (d', Fail e) => payloads = [] /\ s = e /\ (e = Status.NotFound -> d' = d) /\ (e <> Status.NotFound -> failed_ d' = true)
  end.
Proof.
  intros Hd Hp. pose proof (next_spec max d Hd) as Hn. rewrite parse_stream_unfold in Hp.
  destruct (frame_head max (unread d)) as [|e st|payload more] eqn:E.
  - rewrite Hn. by injection Hp as <- <- _.
  - rewrite Hn. injection Hp as <- <- _. apply frame_head_bad in E. by split_and!.
  - destruct Hn as (d' & -> & Hd' & Hu). destruct (parse_stream max more) as [[ps st] r] eqn:Hm.
    injection Hp as <- <- <-. exists ps. by rewrite Hu.
Qed.

(** ** Frames are parsed back *)

Lemma frame_head_encoded max payload rest :
  blen payload <= max -> max <= kAbsoluteMaxFrameBytes ->
  frame_head max (encode_frame payload ++ rest) = Frame payload rest.
Proof.
  intros Hp Hmax. change kAbsoluteMaxFrameBytes with 67108864 in Hmax.
  unfold frame_head, encode_frame, kFrameHeaderBytes. rewrite (N.mod_small (blen payload)) by lia.
  set (header := w_u32 kFrameMagic ++ w_u32 (blen payload) ++ w_u32 (crc32c payload) ++ w_u32 0).
  replace ((w_u32 kFrameMagic ++ w_u32 (blen payload) ++ w_u32 (crc32c payload) ++ w_u32 0 ++ payload) ++ rest)
    with (header ++ payload ++ rest) by (unfold header; by rewrite <-!app_assoc).
  assert (length header = 16%nat) as Hh by (unfold header, w_u32; by rewrite !length_app, !length_w_le).
  rewrite (proj2 (Nat.ltb_ge _ _)) by (rewrite length_app; lia).
  rewrite !get_le_app by lia.
  assert (get_le 4 0 header = kFrameMagic /\ get_le 4 4 header = blen payload /\
    get_le 4 8 header = crc32c payload /\ get_le 4 12 header = 0) as (-> & -> & -> & ->).
  { unfold header. split_and!; read_field; rewrite ?get_le_here; try done;
      [apply N.mod_small; change (2 ^ _) with 4294967296; lia|apply N.mod_small, crc32c_u32]. }
  rewrite !N.eqb_refl. cbn [negb]. rewrite (proj2 (N.ltb_ge _ _)) by done.
  unfold blen. rewrite Nat2N.id, (proj2 (Nat.ltb_ge _ _)) by (rewrite !length_app; lia).
  rewrite (drop_app_length' header) by done. rewrite take_app_length, N.eqb_refl. cbn [negb]. f_equal.
  rewrite app_assoc. apply drop_app_length'. rewrite length_app. lia.
Qed.

(** A payload above the bound is refused by its header. *)
Lemma frame_head_oversized max payload :
  max < blen payload < 2 ^ 32 -> frame_head max (encode_frame payload) = Bad FrameError.LengthTooLarge Status.LimitExceeded.
Proof.
  intros [Hlt Hle]. unfold frame_head, encode_frame, kFrameHeaderBytes. rewrite (N.mod_small (blen payload)) by done.
  set (header := w_u32 kFrameMagic ++ w_u32 (blen payload) ++ w_u32 (crc32c payload) ++ w_u32 0).
  replace (w_u32 kFrameMagic ++ w_u32 (blen payload) ++ w_u32 (crc32c payload) ++ w_u32 0 ++ payload)
    with (header ++ payload) by (unfold header; by rewrite <-!app_assoc).
  assert (length header = 16%nat) as Hh by (unfold header, w_u32; by rewrite !length_app, !length_w_le).
  rewrite (proj2 (Nat.ltb_ge _ _)) by (rewrite length_app; lia).
  rewrite !get_le_app by lia.
  assert (get_le 4 0 header = kFrameMagic /\ get_le 4 4 header = blen payload /\ get_le 4 12 header = 0) as (-> & -> & ->).
  { unfold header. split_and!; read_field; rewrite ?get_le_here; try done. by apply N.mod_small. }
  rewrite !N.eqb_refl. cbn [negb]. by rewrite (proj2 (N.ltb_lt _ _)).
Qed.

Lemma parse_encoded max payloads :
  max <= kAbsoluteMaxFrameBytes -> Forall (fun p => blen p <= max) payloads ->
  parse_stream max (mjoin (encode_frame <$> payloads)) = (payloads, Status.NotFound, []).
Proof.
  intros Hmax Hps. induction Hps as [|p payloads Hp _ IH]; [done|].
  change (mjoin (encode_frame <$> p :: payloads)) with (encode_frame p ++ mjoin (encode_frame <$> payloads)).
  by rewrite parse_stream_unfold, frame_head_encoded, IH.
Qed.

(** ** Memory *)

(** A call a peer can provoke. *)
Inductive DecoderCall := CallPush (data : bytes) | CallNext | CallReset.

Definition decoder_step (d : FrameDecoder) (call : DecoderCall) : FrameDecoder :=
  match call with
  | CallPush data => (push d data).1
  | CallNext => (next d).1
  | CallReset => reset d
  end.

Record bounded_decoder (max : N) (d : FrameDecoder) : Prop := {
  bd_max : max_frame_bytes_ d = max;
  bd_buffer : blen (buffer_ d) <= 4 * frame_bound max;
  bd_ready : failed_ d = false -> blen (buffer_ d) <= 2 * frame_bound max;
}.

Lemma new_decoder_bounded max : bounded_decoder max (new_decoder max).
Proof. split; [done|..]; intros; change (buffer_ (new_decoder max)) with (@nil byte); unfold blen; cbn [length]; lia. Qed.

Lemma with_buffer_bounded max d buffer cursor :
  bounded_decoder max d -> failed_ d = false -> blen buffer <= 2 * frame_bound max ->
  bounded_decoder max (with_buffer buffer cursor d).
Proof. intros [Hm _ _] Hf Hb. split; cbn; [done|lia|done]. Qed.

Lemma fail_with_bounded max d e :
  max_frame_bytes_ d = max -> blen (buffer_ d) <= 4 * frame_bound max ->
  bounded_decoder max (fail_with e d).
Proof. done. Qed.

Lemma buffer_bound_exact max d :
  max <= kAbsoluteMaxFrameBytes -> max_frame_bytes_ d = max -> buffer_bound d = 2 * frame_bound max.
Proof.
  intros Hmax Hm. unfold buffer_bound, wrap64, frame_bound, kFrameHeaderBytes. rewrite Hm.
  change kAbsoluteMaxFrameBytes with 67108864 in Hmax. change (N.of_nat 16) with 16.
  change (2 ^ 64) with 18446744073709551616.
  rewrite (N.mod_small (max + 16)), N.mod_small by lia. lia.
Qed.

Lemma push_bounded max d data :
  max <= kAbsoluteMaxFrameBytes -> bounded_decoder max d -> bounded_decoder max (push d data).1.
Proof.
  intros Hmax Hd. unfold push. destruct (failed_ d) eqn:Hf; [done|].
  set (d1 := if (0 <? cursor_ d)%nat then with_buffer (drop (cursor_ d) (buffer_ d)) 0 d else d).
  assert (bounded_decoder max d1 /\ failed_ d1 = false) as [Hd1 Hf1].
  { unfold d1. destruct (0 <? cursor_ d)%nat; [|done]. split; [|done].
    apply with_buffer_bounded; [done..|]. pose proof (bd_ready _ _ Hd Hf).
    unfold blen in *. rewrite length_drop. lia. }
  pose proof (bd_max _ _ Hd1) as Hm1. rewrite (buffer_bound_exact max d1) by done.
  destruct (_ <? blen data) eqn:E1; to_prop; [apply fail_with_bounded; [done|apply Hd1]|].
  rewrite (buffer_bound_exact max (with_buffer _ _ d1)) by done.
  pose proof (bd_ready _ _ Hd1 Hf1) as Hr.
  destruct (_ <? blen (buffer_ _)) eqn:E2; to_prop; cbn [buffer_ with_buffer] in E2.
  - apply fail_with_bounded; [done|]. cbn [buffer_ with_buffer]. unfold blen in *. rewrite length_app. lia.
  - by apply with_buffer_bounded.
Qed.

Lemma next_bounded max d : bounded_decoder max d -> bounded_decoder max (next d).1.
Proof.
  intros Hd. unfold next. destruct (failed_ d) eqn:Hf; [done|].
  pose proof (bd_max _ _ Hd) as Hm. pose proof (bd_buffer _ _ Hd) as Hb. pose proof (bd_ready _ _ Hd Hf) as Hr.
  assert (forall e, bounded_decoder max (fail_with e d)) as Hfail by (intros e; by apply fail_with_bounded).
  repeat (match goal with |- context [if ?b then _ else _] => destruct b end; try done; try apply Hfail).
  all: apply with_buffer_bounded; [done..|]; try done. change (blen []) with 0. lia.
Qed.

Lemma decoder_steps_bounded max d calls :
  max <= kAbsoluteMaxFrameBytes -> bounded_decoder max d ->
  bounded_decoder max (foldl decoder_step d calls).
Proof.
  intros Hmax. revert d. induction calls as [|call calls IH]; intros d Hd; [done|]. cbn [foldl].
  apply IH. destruct call; cbn [decoder_step]; [by apply push_bounded|by apply next_bounded|].
  unfold reset. rewrite (bd_max _ _ Hd). by apply new_decoder_bounded.
Qed.

(** ** Properties *)

(** C29: however a byte stream is cut into received chunks, each of at most the
    length of one header and one largest payload, the receive loop hands out the payloads and ends with the status that the
    parser of the whole stream gives; for the frames of a list of payloads
    these are the payloads, and nothing is left over. *)
Theorem decoder_ignores_segmentation max chunks :
  max <= kAbsoluteMaxFrameBytes -> Forall (fun chunk => blen chunk <= frame_bound max) chunks ->
  (exists d payloads s rest,
     feed (new_decoder max) chunks = (d, payloads, s) /\
    parse_stream max (mjoin chunks) = (payloads, s, rest) /\
    (s = Status.NotFound -> unread d = rest) /\ (s <> Status.NotFound -> failed_ d = true)) /\
 forall payloads,
    Forall (fun p => blen p <= max) payloads -> mjoin chunks = mjoin (encode_frame <$> payloads) ->
    exists d, feed (new_decoder max) chunks = (d, payloads, Status.NotFound) /\ unread d = [].
Proof.
  intros Hmax Hcs.
  assert (frame_head max (unread (new_decoder max)) = Waiting) as Hw by done.
  destruct (feed_spec max _ chunks Hmax (new_decoder_ready max) Hw Hcs)
    as (d & ps & s & rest & Hf & Hp & Hok & Hbad).
  change (unread (new_decoder max) ++ mjoin chunks) with (mjoin chunks) in Hp. split.
  - exists d, ps, s, rest. split_and!; try done. intros Hs. apply (Hok Hs).
  - intros payloads Hps Heq. rewrite Heq, parse_encoded in Hp by done.
    apply pair_equal_spec in Hp as [[-> <-]%pair_equal_spec <-]. exists d. split; [done|apply (Hok eq_refl)].
Qed.

(** C30: whatever calls a peer provokes, the decoder buffers at most two frames
    with their headers as long as it accepts bytes, and never more than
    four. *)
Theorem decoder_memory_bounded max calls :
  max <= kAbsoluteMaxFrameBytes ->
  let d := foldl decoder_step (new_decoder max) calls in
  blen (buffer_ d) <= 4 * frame_bound max /\
 (failed_ d = false -> blen (buffer_ d) <= 2 * frame_bound max).
Proof.
  intros Hmax. destruct (decoder_steps_bounded max (new_decoder max) calls Hmax) as [_ H1 H2]; [|done].
  apply new_decoder_bounded.
Qed.

(** The bytes of two small frames, cut inside the headers and the payloads. *)
Definition sample_payloads : list bytes := [str "hello"; str "fabric"].

Definition sample_chunks : list bytes :=
  let stream := mjoin (encode_frame <$> sample_payloads) in
  [take 3 stream; take 19 (drop 3 stream); drop 22 stream].

Lemma decoder_ignores_segmentation_witness :
  Forall (fun chunk => blen chunk <= frame_bound 64) sample_chunks /\
  exists d, feed (new_decoder 64) sample_chunks = (d, sample_payloads, Status.NotFound) /\ unread d = [].
Proof.
  assert (Forall (fun chunk => blen chunk <= frame_bound 64) sample_chunks) as Hcs
    by (repeat constructor; vm_compute; discriminate).
  split; [exact Hcs|].
  apply (proj2 (decoder_ignores_segmentation 64 sample_chunks ltac:(vm_compute; discriminate) Hcs)).
  - repeat constructor; vm_compute; discriminate.
  - vm_compute. reflexivity.
Defined.

(** Two full pushes exceed one frame: the last one is refused, with four frames
    in the buffer. *)
Lemma decoder_memory_bounded_witness :
  64 <= kAbsoluteMaxFrameBytes /\
  let d := foldl decoder_step (new_decoder 64)
             [CallPush (replicate 160 x00); CallPush (replicate 160 x00)] in
  blen (buffer_ d) = 320 /\ blen (buffer_ d) <= 4 * frame_bound 64.
Proof.
  split; [vm_compute; discriminate|]. split; [vm_compute; reflexivity|].
  apply (decoder_memory_bounded 64 [CallPush (replicate 160 x00); CallPush (replicate 160 x00)]).
  vm_compute. discriminate.
Defined.
