(* ===== verification/WellFormed.v ===== *)
(** * Well-formed states, requests and plans

    A state is well-formed when every field of every record fits its wire
    image.  The plans of well-formed requests then only contain objects that
    decode again, so that [apply] never rejects the images of a plan. *)

From Stdlib Require Import Strings.Byte.
From S2P Require Import Prelude Outcome Ids Lifecycle Capacity Policy Wire Utf8 Model Codecs.
From S2P Require Import State Ledger Changes Invariants Rebalance PlanFabric PlanGrants.
From S2P Require Import Operations.

Record authority_wf (a : Authority) : Prop := {
  wf_sites s : s ∈ sites a -> site_wf apply_limits s;
  wf_paths r : r ∈ paths a -> path_wf apply_limits r;
  wf_domains d : d ∈ domains a -> domain_wf apply_limits d;
  wf_attestations t : t ∈ attestations a -> attestation_wf apply_limits t;
  wf_grants g : g ∈ grants a -> grant_wf apply_limits g;
  wf_verifications v : v ∈ verifications a -> verification_wf apply_limits v;
  wf_oversubscriptions o : o ∈ oversubscriptions a -> oversubscription_wf o;
  wf_policy : policy_wf (policy a);
  wf_epoch : u64_ok (epoch_value (epoch a));
}.

(** A text that is still UTF-8 after [bounded] has cut it to 512 bytes. *)
Definition text_wf (s : bytes) : Prop := is_valid_utf8 (bounded s) = true.

Definition name_wf (s : bytes) : Prop := is_valid_utf8 s = true.

Definition operation_wf (op : GrantOperation) : Prop :=
  u64_ok (op_now_ms op) /\ text_wf (op_reason op).

(** Requests whose integers fit their width and whose texts are UTF-8. *)
Definition op_wf (op : Op) : Prop :=
  match op with
  | InstallPolicy p => policy_wf p
  | BumpEpoch e => u64_ok (epoch_value e)
  | RegisterSite r =>
      id_wf (raw (sd_id (sr_descriptor r))) /\ name_wf (sd_name (sr_descriptor r)) /\
      u64_ok (sd_advertised_capacity (sr_descriptor r)) /\ id_wf (raw (sr_incarnation r)) /\
      u64_ok (epoch_value (sr_epoch r)) /\ u64_ok (sr_now_ms r)
  | Heartbeat h => u64_ok (hb_advertised_capacity h) /\ u64_ok (hb_now_ms h)
  | SetSiteState _ _ reason now => text_wf reason /\ u64_ok now
  | RegisterPath r =>
      let d := pr_descriptor r in
      id_wf (raw (pd_id d)) /\ name_wf (pd_name d) /\ id_wf (raw (pd_edge d)) /\
      id_wf (raw (pd_shared_risk_domain d)) /\ id_wf (raw (pd_endpoint_a d)) /\
      id_wf (raw (pd_endpoint_b d)) /\ u64_ok (gen_value (pr_path_generation r)) /\
      u64_ok (pr_advertised r) /\ u64_ok (pr_observed r) /\ u64_ok (pr_now_ms r)
  | SetPathState _ _ reason now => text_wf reason /\ u64_ok now
  | AttestCapacity t => attestation_wf apply_limits t
  | IssueOversubscription o => oversubscription_wf o
  | ProposeGrant p =>
      id_wf (raw (gp_grant_id p)) /\ id_wf (raw (gp_request p)) /\ id_wf (raw (gp_holder p)) /\
      id_wf (raw (gp_lease p)) /\ u64_ok (gp_amount p) /\ u64_ok (gp_now_ms p) /\
      text_wf (gp_reason p)
  | EvaluateGrant op | ReserveGrant op | ActivateGrant op | DegradeGrant op | WithdrawGrant op
  | RetireGrant op | CancelGrant op | ReconcileGrant op _ _ => operation_wf op
  | AcknowledgeGrant ack => u64_ok (ack_now_ms ack)
  | VerifyGrant v =>
      id_wf (raw (gv_id v)) /\ id_wf (raw (gv_verifier v)) /\ digest_wf (gv_evidence v) /\
      u64_ok (gv_now_ms v) /\ text_wf (gv_detail v)
  | Tick now => u64_ok now
  end.

(** ** Texts *)

Lemma bounded_length s : (length (bounded s) <= 512)%nat.
Proof.
  unfold bounded. destruct (kMaxReasonText <? length s)%nat eqn:E.
  - rewrite length_take. unfold kMaxReasonText. lia.
  - apply Nat.ltb_ge in E. exact E.
Qed.

Lemma bounded_wf s : text_wf s -> bounded_str_wf apply_limits (bounded s).
Proof.
  intros Hs. pose proof (bounded_length s) as Hl. split; [exact Hl|].
  unfold str_wf, blen, u32_ok. cbn [max_string apply_limits]. split_and!; [lia|lia|exact Hs].
Qed.

Lemma bounded_bounded s : bounded_str_wf apply_limits s -> bounded s = s.
Proof.
  intros [Hl _]. unfold bounded. rewrite (proj2 (Nat.ltb_ge _ _)); [done|].
  exact Hl.
Qed.

Lemma ascii_take n s : ascii_text s -> ascii_text (take n s).
Proof. apply Forall_take. Qed.

Lemma ascii_text_wf s : ascii_text s -> text_wf s.
Proof.
  intros Hs. unfold text_wf, bounded. apply ascii_is_valid.
  destruct (_ <? _)%nat; [by apply ascii_take|done].
Qed.

Definition ascii_check (s : bytes) : bool := forallb (fun b => Byte.to_N b <? 0x80) s.

Lemma ascii_check_ok s : ascii_check s = true -> ascii_text s.
Proof.
  unfold ascii_check, ascii_text. rewrite forallb_forall, Forall_forall.
  intros Hs b Hb. apply N.ltb_lt, Hs. by apply list_elem_of_In.
Qed.

Lemma ascii_app s t : ascii_text s -> ascii_text t -> ascii_text (s ++ t).
Proof. apply Forall_app_2. Qed.

Lemma ascii_pretty_go x (s : string) :
  ascii_text (String.list_byte_of_string s) ->
  ascii_text (String.list_byte_of_string (pretty.pretty_N_go x s)).
Proof.
  revert s. induction (N.lt_wf_0 x) as [x _ IH]; intros s Hs.
  destruct (decide (x = 0)) as [->|Hx]; [by rewrite pretty.pretty_N_go_0|].
  rewrite pretty.pretty_N_go_step by lia. apply IH; [apply N.div_lt; lia|].
  cbn. constructor; [|done].
  pose proof (N.mod_lt x 10 ltac:(done)) as Hlt. unfold pretty.pretty_N_char.
  by repeat case_match.
Qed.

Lemma ascii_to_decimal n : ascii_text (to_decimal n).
Proof.
  unfold to_decimal, pretty.pretty, pretty.pretty_N. case_decide.
  - by apply ascii_check_ok.
  - apply ascii_pretty_go. constructor.
Qed.

Lemma ascii_hex_values k x : ascii_text (hex_char <$> hex_digit_values k x).
Proof.
  apply Forall_fmap, (Forall_impl _ _ _ (hex_digit_values_lt k x)). intros d Hd. cbn.
  rewrite <-(N2Nat.id d). assert (N.to_nat d < 16)%nat as Hk by lia.
  generalize dependent (N.to_nat d). clear. intros k Hk.
  do 16 (destruct k; [reflexivity|]). lia.
Qed.

(** ** Derived identities *)

Lemma u64_mod x : u64_ok x <-> x mod 2 ^ 64 = x.
Proof.
  unfold u64_ok. split; [apply N.mod_small|]. intros <-. by apply N.mod_lt.
Qed.

Lemma lxor_u64 a b : u64_ok a -> u64_ok b -> u64_ok (N.lxor a b).
Proof.
  rewrite !u64_mod. intros Ha Hb. apply N.bits_inj. intros n.
  destruct (N.lt_ge_cases n 64) as [Hn|Hn].
  - by rewrite N.mod_pow2_bits_low.
  - rewrite N.mod_pow2_bits_high by done. symmetry. rewrite N.lxor_spec, <-Ha, <-Hb.
    by rewrite !N.mod_pow2_bits_high.
Qed.

Lemma shiftr_u64 a n : u64_ok a -> u64_ok (N.shiftr a n).
Proof.
  unfold u64_ok. intros Ha. rewrite N.shiftr_div_pow2.
  apply N.le_lt_trans with a; [|done]. apply N.Div0.div_le_upper_bound.
  pose proof (N.pow_nonzero 2 n ltac:(done)). nia.
Qed.

Lemma splitmix64_u64 s : u64_ok (splitmix64 s).2.
Proof.
  unfold splitmix64. cbn [snd]. apply lxor_u64; [|apply shiftr_u64]; apply wrap64_u64.
Qed.

Lemma from_seed128_wf a b : id_wf (from_seed128 a b).
Proof.
  unfold from_seed128. destruct (splitmix64 _) as [s1 h] eqn:E1.
  pose proof (splitmix64_u64 (N.lxor a (wrap64 (b * 0xD6E8FEB86659FD93)))) as H1. rewrite E1 in H1.
  destruct (splitmix64 s1) as [s2 l] eqn:E2.
  pose proof (splitmix64_u64 s1) as H2. rewrite E2 in H2. cbn in H1, H2.
  destruct (is_nil _); by split.
Qed.

Lemma tid_to_string_length {tag} (i : TypedId tag) :
  (length (tid_to_string i) <= length (prefix tag) + 37)%nat.
Proof.
  unfold tid_to_string, to_canonical, slice. rewrite !length_app, !length_take.
  change (length (str ":")) with 1%nat. change (length (str "-")) with 1%nat. lia.
Qed.

Lemma ascii_prefix tag : ascii_text (prefix tag).
Proof. apply ascii_check_ok. by destruct tag. Qed.

Lemma ascii_to_canonical i : ascii_text (to_canonical i).
Proof.
  assert (ascii_text (to_hex i)) as Hhex by (apply ascii_app; apply ascii_hex_values).
  assert (forall p n, ascii_text (slice p n (to_hex i))) as Hs
    by (intros p n; apply Forall_take, Forall_drop, Hhex).
  assert (ascii_text (str "-")) as Hd by (by apply ascii_check_ok).
  unfold to_canonical. repeat (apply ascii_app; [solve [apply Hs|exact Hd]|]). apply Hs.
Qed.

Lemma ascii_tid_to_string {tag} (i : TypedId tag) : ascii_text (tid_to_string i).
Proof.
  unfold tid_to_string. apply ascii_app; [apply ascii_prefix|].
  apply ascii_app; [by apply ascii_check_ok|apply ascii_to_canonical].
Qed.

Lemma ascii_str_wf s : ascii_text s -> (length s <= 4096)%nat -> str_wf apply_limits s.
Proof.
  intros Hs Hl. unfold str_wf, blen, u32_ok. cbn [max_string apply_limits].
  split_and!; [lia|lia|by apply ascii_is_valid].
Qed.

Lemma new_domain_wf d : id_wf (raw d) -> domain_wf apply_limits (new_domain d).
Proof.
  intros Hd. pose proof (tid_to_string_length d) as Hlen.
  change (length (prefix DomainIdTag)) with 3%nat in Hlen.
  unfold new_domain, domain_wf. cbn [dom_id dom_name dom_description]. split_and!; [done|..].
  - apply ascii_str_wf.
    + apply ascii_app; [by apply ascii_check_ok|apply ascii_tid_to_string].
    + rewrite length_app. change (length (str "domain-")) with 7%nat. lia.
  - apply ascii_str_wf; [by apply ascii_check_ok|]. vm_compute. lia.
Qed.

(** ** The records a plan builds *)

(** A change of the mutable fields of a grant. *)
Ltac grant_wf_tac :=
  match goal with H : grant_wf _ ?g |- grant_wf _ _ =>
  let H' := fresh in pose proof H as H'; unfold grant_wf in H' |- *; destruct_and!; cbn;
  split_and!; try done
  end.

Section PlanWf.
Context (a : Authority) (Hwf : authority_wf a).

Lemma find_site_wf id s : find_site a id = Some s -> site_wf apply_limits s.
Proof. intros Hs. apply (wf_sites a Hwf), elem_of_values. by exists (raw id). Qed.

Lemma find_path_wf id r : find_path a id = Some r -> path_wf apply_limits r.
Proof. intros Hr. apply (wf_paths a Hwf), elem_of_values. by exists (raw id). Qed.

Lemma require_site_wf id s : require_site a id = Ok s -> site_wf apply_limits s.
Proof. intros Hs%found_ok. by eapply find_site_wf. Qed.

Lemma require_path_wf id r : require_path a id = Ok r -> path_wf apply_limits r.
Proof. intros Hr%found_ok. by eapply find_path_wf. Qed.

Lemma require_grant_wf id g : require_grant a id = Ok g -> grant_wf apply_limits g.
Proof. intros Hg%found_ok. apply (wf_grants a Hwf), elem_of_grants. by exists (raw id). Qed.

Lemma grant_binding_wf g b :
  grant_wf apply_limits g -> binding_wf b -> grant_wf apply_limits (set_g_binding b g).
Proof. unfold grant_wf. intros. destruct_and!. cbn. by split_and!. Qed.

Lemma grant_wf_parts g :
  grant_wf apply_limits g ->
  binding_wf (g_binding g) /\ u32_ok (g_ack_count g) /\ u64_ok (g_updated_at_ms g) /\
  bounded_str_wf apply_limits (g_reason g).
Proof. unfold grant_wf. intros. destruct_and!. by split_and!. Qed.

Lemma const_text_wf s : ascii_check s = true -> text_wf s.
Proof. intros Hs. by apply ascii_text_wf, ascii_check_ok. Qed.

Lemma or_default_wf r d : text_wf r -> text_wf d -> text_wf (or_default r d).
Proof. unfold or_default. by case_bool_decide. Qed.

Lemma retained_wf l :
  (forall u, u ∈ l -> grant_wf apply_limits u) -> Forall object_wf (retained <$> l).
Proof. intros Hl. apply Forall_fmap, Forall_forall. exact Hl. Qed.

Lemma grants_wf g : g ∈ grants a -> grant_wf apply_limits g.
Proof. apply (wf_grants a Hwf). Qed.

Lemma omap_grants_wf (f : GrantRecord -> option GrantRecord) :
  (forall g u, grant_wf apply_limits g -> f g = Some u -> grant_wf apply_limits u) ->
  Forall object_wf (retained <$> omap f (grants a)).
Proof.
  intros Hf. apply retained_wf. intros u (g & Hg & Hu)%list_elem_of_omap.
  eapply Hf; [by apply grants_wf|exact Hu].
Qed.

Lemma append_downgrades_wf reason site path now :
  text_wf reason -> u64_ok now ->
  Forall object_wf (append_downgrades a reason site path now).
Proof.
  intros Hr Hn. apply bounded_wf in Hr. apply omap_grants_wf. intros g u Hg.
  destruct (selected site path g); [|done]. unfold downgrade.
  destruct (g_state g); intros [= <-]; grant_wf_tac.
Qed.

Lemma withdraw_image_wf reason now g :
  text_wf reason -> u64_ok now -> grant_wf apply_limits g ->
  grant_wf apply_limits (withdraw_image reason now g).
Proof. intros Hr%bounded_wf Hn Hg. unfold withdraw_image. grant_wf_tac. Qed.

Lemma assign_if_wf c x y b set :
  binding_wf b -> (forall b, binding_wf b -> binding_wf (set y b)) ->
  binding_wf (assign_if c x y b set).1.
Proof. intros Hb Hset. unfold assign_if. destruct (_ && _); cbn; auto. Qed.

Lemma rebind_wf r p now reason rp rc g u :
  text_wf reason -> u64_ok now -> grant_wf apply_limits g -> path_wf apply_limits r ->
  policy_wf p -> rebind r p now reason rp rc g = Some u -> grant_wf apply_limits u.
Proof.
  intros Hr%bounded_wf Hn Hg Hpath Hpol. unfold rebind. destruct (negb _); [done|].
  destruct Hpol as (_ & Hpg & _). unfold path_wf in Hpath. destruct_and!.
  pose proof (grant_wf_parts g Hg) as (Hb & _).
  pose proof (assign_if_wf rp (b_policy_generation (g_binding g)) (pol_generation p) (g_binding g)
    set_b_policy_generation Hb) as H1'.
  destruct (assign_if rp _ _ _ _) as [b1 t1]. cbn in H1'.
  pose proof (assign_if_wf rc (b_path_generation b1) (path_generation r) b1
    set_b_path_generation) as H2'.
  destruct (assign_if rc _ _ b1 _) as [b2 t2]. cbn in H2'.
  pose proof (assign_if_wf rc (b_capacity_generation b2) (path_capacity_generation r) b2
    set_b_capacity_generation) as H3'.
  destruct (assign_if rc _ _ b2 _) as [b3 t3]. cbn in H3'.
  destruct (t1 || t2 || t3); [|done]. intros [= <-].
  assert (binding_wf b3) as Hb3.
  { apply H3'; [apply H2'; [apply H1'|]|]; unfold binding_wf; intros; destruct_and!; cbn;
    by split_and!. }
  grant_wf_tac.
Qed.

Lemma rebalance_path_wf r p now reason rp rc :
  text_wf reason -> u64_ok now -> path_wf apply_limits r -> policy_wf p ->
  Forall object_wf (rebalance_path a r p now reason rp rc).
Proof.
  intros Hr Hn Hpath Hpol. apply Forall_forall.
  intros o (g & u & Hg & -> & Hu)%rebalance_path_objects.
  unfold holding_on in Hg. rewrite merge_sort_Permutation, list_elem_of_filter in Hg.
  destruct Hg as [_ Hg%grants_wf]. cbn.
  destruct Hu as [[_ ->]|Hu]; [by apply withdraw_image_wf|by eapply rebind_wf].
Qed.

(** ** Every plan of a well-formed request *)

(** A change of the fields of a site or path record. *)
Ltac record_wf_tac :=
  repeat match goal with
  | H : site_wf _ _ |- _ => unfold site_wf in H
  | H : path_wf _ _ |- _ => unfold path_wf in H
  end; destruct_and?; unfold site_wf, path_wf; cbn; split_and!; first [done|lia|idtac].

Context (arb : ArbSeq) (m : Mutation) (Harb : u64_ok (arb_value arb)).

Abbreviation decodable := (Forall object_wf (m_objects m)).

Lemma install_policy_wf p :
  policy_wf p -> plan_install_policy a p arb = Ok m -> decodable.
Proof.
  intros Hp H. unfold plan_install_policy in H. plan_inv H. cbn [m_objects]. constructor; [exact Hp|].
  apply Forall_join, Forall_fmap, Forall_forall. intros r Hr. cbn.
  apply rebalance_path_wf; [by apply const_text_wf|done|by apply (wf_paths a Hwf)|done].
Qed.

Lemma bump_epoch_wf e :
  u64_ok (epoch_value e) -> plan_bump_epoch a e arb = Ok m -> decodable.
Proof.
  intros He H. unfold plan_bump_epoch in H. plan_inv H. cbn [m_objects]. constructor; [exact He|].
  set (reason := str "authority epoch advanced to " ++ _).
  assert (bounded_str_wf apply_limits (bounded reason)) as Hr.
  { apply bounded_wf, ascii_text_wf, ascii_app; [by apply ascii_check_ok|apply ascii_to_decimal]. }
  apply omap_grants_wf. intros g u Hg. unfold withdraw_for_epoch.
  destruct (negb _ || _); [done|]. intros [= <-]. pose proof (grant_wf_parts g Hg). grant_wf_tac.
Qed.

Lemma valid_name_wf n : valid_name n = true -> name_wf n -> str_wf apply_limits n.
Proof.
  unfold valid_name, kMaxNameLength. intros [_ Hl]%andb_prop Hn. apply Nat.leb_le in Hl.
  unfold str_wf, blen, u32_ok. cbn [max_string apply_limits]. split_and!; [lia|lia|exact Hn].
Qed.

Lemma empty_wf : bounded_str_wf apply_limits [].
Proof. split; [cbn; lia|]. by split_and!. Qed.

Lemma const_wf s : ascii_check s = true -> bounded_str_wf apply_limits (bounded s).
Proof. intros Hs. by apply bounded_wf, const_text_wf. Qed.

Lemma fence_grant_wf site now g u :
  u64_ok now -> grant_wf apply_limits g -> fence_grant site now g = Some u ->
  grant_wf apply_limits u.
Proof.
  intros Hn Hg. unfold fence_grant. destruct (negb _ || _); [done|].
  destruct (state_is _ _); [done|]. intros [= <-].
  assert (bounded_str_wf apply_limits (bounded (str "site incarnation superseded"))) as Hr
    by (by apply const_wf).
  grant_wf_tac.
Qed.

Lemma register_site_wf r :
  op_wf (RegisterSite r) -> plan_register_site a r arb = Ok m -> decodable.
Proof.
  cbn [op_wf]. intros (Hid & Hname & Hcap & Hinc & Hep & Hnow) H.
  unfold plan_register_site in H. plan_inv H.
  apply negb_false_iff, valid_name_wf in G0; [|done]. pose proof empty_wf.
  destruct (find_site a _) as [current|] eqn:Es; plan_inv H.
  2:{ constructor; [|constructor]. cbn. unfold new_site. record_wf_tac. }
  apply find_site_wf in Es.
  destruct (id_eqb _ _); plan_inv H; cbn [m_objects].
  - constructor; [|constructor]. cbn. unfold refreshed_site.
    destruct (bool_decide (site_state _ = SiteState.Unknown)); record_wf_tac.
  - apply Forall_app; split.
    + apply omap_grants_wf. intros g u. by apply fence_grant_wf.
    + constructor; [|constructor]. cbn. unfold superseding_site. record_wf_tac.
      apply wrap64_u64.
Qed.

Lemma heartbeat_wf h :
  op_wf (Heartbeat h) -> plan_heartbeat a h arb = Ok m -> decodable.
Proof.
  cbn [op_wf]. intros (Hcap & Hnow) H. unfold plan_heartbeat in H. plan_inv H.
  apply require_site_wf in E. constructor; [|constructor]. cbn. unfold beaten_site.
  destruct (site_state _); record_wf_tac.
Qed.

Lemma state_text_wf s : ascii_check s = true -> forall r, text_wf r -> text_wf (or_default r s).
Proof. intros Hs r Hr. apply or_default_wf; [done|by apply const_text_wf]. Qed.

Lemma set_site_state_wf site s reason now :
  op_wf (SetSiteState site s reason now) ->
  plan_set_site_state a site s reason now arb = Ok m -> decodable.
Proof.
  cbn [op_wf]. intros (Hr & Hnow) H. unfold plan_set_site_state in H. plan_inv H.
  apply require_site_wf in E. cbn [m_objects]. constructor.
  - cbn. unfold moved_site.
    pose proof (bounded_wf _ (state_text_wf (str "operator fence") eq_refl reason Hr)) as Hb.
    pose proof empty_wf. repeat case_bool_decide; record_wf_tac.
  - destruct (site_requires_degradation s); [|constructor].
    apply append_downgrades_wf; [|done]. by apply state_text_wf; [destruct s|].
Qed.

Lemma register_path_wf r :
  op_wf (RegisterPath r) -> plan_register_path a r arb = Ok m -> decodable.
Proof.
  cbn [op_wf]. intros (Hid & Hname & Hedge & Hdom & Ha & Hb & Hgen & Hadv & Hobs & Hnow) H.
  unfold plan_register_path in H. plan_inv H.
  apply negb_false_iff, valid_name_wf in G0; [|done].
  set (domain := if tid_is_nil _ then default_domain_id else _) in *.
  assert (id_wf (raw domain)) as Hd.
  { unfold domain. destruct (tid_is_nil (pd_shared_risk_domain _)); [apply from_seed128_wf|done]. }
  assert (forall b : bool, Forall object_wf (if b then [ODomain (new_domain domain)] else [])) as Hc.
  { intros []; [|constructor]. constructor; [by apply new_domain_wf|constructor]. }
  destruct (find_path a _) as [current|] eqn:Ep; plan_inv H; cbn [m_objects];
    apply Forall_app; (split; [apply Hc|]).
  - apply find_path_wf in Ep.
    assert (path_wf apply_limits (reregistered_path r domain current)) as Hu.
    { unfold reregistered_path. destruct (tid_is_nil (pd_edge _)); record_wf_tac. }
    constructor; [exact Hu|].
    apply rebalance_path_wf; [by apply const_text_wf|done|exact Hu|apply (wf_policy a Hwf)].
  - constructor; [|constructor]. cbn. unfold new_path.
    destruct (tid_is_nil (pd_edge _)); record_wf_tac; apply from_seed128_wf.
Qed.

Lemma moved_path_wf s now r :
  u64_ok now -> path_wf apply_limits r -> path_wf apply_limits (moved_path s now r).
Proof. intros Hn Hr. unfold moved_path. destruct s; record_wf_tac. Qed.

Lemma set_path_state_wf path s reason now :
  op_wf (SetPathState path s reason now) ->
  plan_set_path_state a path s reason now arb = Ok m -> decodable.
Proof.
  cbn [op_wf]. intros (Hr & Hnow) H. unfold plan_set_path_state in H. plan_inv H.
  apply require_path_wf in E. pose proof (moved_path_wf s now x Hnow E) as Hu. cbn [m_objects].
  constructor; [exact Hu|].
  assert (text_wf (or_default reason (str "path moved to " ++ path_state_name s))) as Ht
    by (by apply state_text_wf; [destruct s|]).
  assert (text_wf (str "path capacity withdrawn")) as Ht2 by (by apply const_text_wf).
  apply Forall_app; split; destruct s; try constructor;
    solve [by apply append_downgrades_wf
      |apply rebalance_path_wf; [done|done|done|apply (wf_policy a Hwf)]].
Qed.

Lemma attest_capacity_wf t :
  attestation_wf apply_limits t -> plan_attest_capacity a t arb = Ok m -> decodable.
Proof.
  intros Ht H. unfold plan_attest_capacity in H. plan_inv H. apply require_path_wf in E.
  assert (path_wf apply_limits (attested_path t x)) as Hu.
  { unfold attestation_wf in Ht. destruct_and!. unfold attested_path.
    match goal with |- context [if ?p <? ?q then _ else _] => destruct (N.ltb_spec p q) end;
      record_wf_tac. }
  cbn [m_objects]. constructor; [exact Ht|]. constructor; [exact Hu|].
  apply rebalance_path_wf; [by apply const_text_wf| |exact Hu|apply (wf_policy a Hwf)].
  unfold attestation_wf in Ht. by destruct_and!.
Qed.

Lemma single_wf g releases :
  grant_wf apply_limits g -> single g releases arb = Ok m -> decodable.
Proof. intros Hg H. plan_inv H. by constructor; [|constructor]. Qed.

Lemma propose_wf p : op_wf (ProposeGrant p) -> plan_propose_grant a p arb = Ok m -> decodable.
Proof.
  cbn [op_wf]. intros (Hid & Hreq & Hholder & Hlease & Ham & Hnow & Hr%bounded_wf) H.
  unfold plan_propose_grant in H. plan_inv H.
  apply require_site_wf in E. apply require_path_wf in E0.
  unfold site_wf, path_wf in E, E0. destruct_and!.
  destruct (wf_policy a Hwf) as (_ & Hpg & _). pose proof (wf_epoch a Hwf).
  cbn [m_objects]. constructor; [|constructor]. cbn [object_wf].
  unfold proposed_grant, grant_wf, binding_wf, derive_grant_id.
  cbn -[from_seed from_seed128 bounded wrap64]. split_and!; try done.
  - destruct (negb (tid_is_nil (gp_grant_id p))); [done|apply from_seed128_wf].
  - destruct (tid_is_nil (gp_lease p)); [apply from_seed128_wf|done].
  - apply wrap64_u64.
Qed.

Lemma refusal_wf site path : text_wf (evaluation_refusal a site path).
Proof.
  unfold evaluation_refusal, site_refusal, path_refusal.
  repeat match goal with |- context [if ?c then _ else _] => destruct c end;
    apply const_text_wf; [by destruct (site_state site)|by destruct (path_state path)|done..].
Qed.

Lemma evaluate_wf op : operation_wf op -> plan_evaluate_grant a op arb = Ok m -> decodable.
Proof.
  intros [Hnow _] H. unfold plan_evaluate_grant in H. plan_inv H. apply require_grant_wf in E.
  pose proof (grant_wf_parts x E). destruct_and!.
  pose proof (bounded_wf _ (refusal_wf x1 x2)) as Hr.
  cbn [m_objects]. constructor; [|constructor]. cbn [object_wf].
  destruct (bool_decide _); grant_wf_tac.
Qed.

Lemma rebound_wf site path b :
  binding_wf b -> site_wf apply_limits site -> path_wf apply_limits path ->
  binding_wf (rebound a site path b).
Proof.
  unfold binding_wf, site_wf, path_wf. intros Hb Hs Hp. destruct_and!.
  destruct (wf_policy a Hwf) as (_ & Hpg & _). pose proof (wf_epoch a Hwf). cbn. by split_and!.
Qed.

Lemma reserve_wf op : operation_wf op -> plan_reserve_grant a op arb = Ok m -> decodable.
Proof.
  intros [Hnow _] H. unfold plan_reserve_grant in H. plan_inv H. apply require_grant_wf in E.
  pose proof (grant_wf_parts x E). destruct_and!.
  apply require_site_wf in E1. apply require_path_wf in E2.
  cbn [m_objects]. constructor; [|constructor]. cbn [object_wf].
  apply grant_binding_wf; [grant_wf_tac|by apply rebound_wf].
Qed.

Lemma moved_grant_wf s op d g :
  operation_wf op -> ascii_check d = true -> grant_wf apply_limits g ->
  grant_wf apply_limits (moved_grant s op d g).
Proof.
  intros [Hnow Hr] Hd Hg. pose proof (bounded_wf _ (state_text_wf d Hd (op_reason op) Hr)).
  pose proof (grant_wf_parts g Hg). destruct_and!. unfold moved_grant. grant_wf_tac.
Qed.

Lemma unverified_wf g :
  grant_wf apply_limits g -> grant_wf apply_limits (set_g_verification VerificationState.Unverified g).
Proof. intros Hg. grant_wf_tac. Qed.

Lemma grant_op_wf op :
  operation_wf op ->
  plan_activate_grant a op arb = Ok m \/ plan_degrade_grant a op arb = Ok m \/
  plan_withdraw_grant a op arb = Ok m \/ plan_retire_grant a op arb = Ok m \/
  plan_cancel_grant a op arb = Ok m -> decodable.
Proof.
  intros Hop [H|[H|[H|[H|H]]]];
    [unfold plan_activate_grant in H|unfold plan_degrade_grant in H|unfold plan_withdraw_grant in H
    |unfold plan_retire_grant in H|unfold plan_cancel_grant in H];
    plan_inv H; apply require_grant_wf in E; cbn [m_objects];
    (constructor; [|constructor]); cbn [object_wf];
    try (apply unverified_wf); try (by apply moved_grant_wf).
  destruct Hop as [Hnow _]. pose proof (grant_wf_parts x E). destruct_and!. grant_wf_tac.
Qed.

Lemma acknowledge_wf ack :
  u64_ok (ack_now_ms ack) -> plan_acknowledge_grant a ack arb = Ok m -> decodable.
Proof.
  intros Hnow H. unfold plan_acknowledge_grant in H. plan_inv H. apply require_grant_wf in E.
  pose proof (grant_wf_parts x E). destruct_and!.
  cbn [m_objects]. constructor; [|constructor]. cbn [object_wf].
  assert (u32_ok (wrap32 (g_ack_count x + 1))) by (unfold u32_ok, wrap32; by apply N.mod_lt).
  grant_wf_tac.
Qed.

Lemma verify_wf v : op_wf (VerifyGrant v) -> plan_verify_grant a v arb = Ok m -> decodable.
Proof.
  cbn [op_wf]. intros (Hid & Hver & Hdig & Hnow & Hd%bounded_wf) H.
  unfold plan_verify_grant in H. plan_inv H. apply require_grant_wf in E.
  pose proof (grant_wf_parts x E). destruct_and!.
  assert (bounded_str_wf apply_limits (bounded (str "independent verification failed")))
    by (by apply const_wf).
  cbn [m_objects]. constructor; [|constructor; [|constructor]]; cbn [object_wf].
  - pose proof E as E'. unfold grant_wf in E'. destruct_and!. unfold verification_wf.
    cbn -[bounded]. by split_and!.
  - destruct (bool_decide (gv_result v = VerificationState.Failed)); grant_wf_tac.
Qed.

Lemma reconcile_wf op target principal :
  operation_wf op -> plan_reconcile_grant a op target principal arb = Ok m -> decodable.
Proof.
  intros [Hnow Hr%bounded_wf] H. unfold plan_reconcile_grant in H. plan_inv H.
  apply require_grant_wf in E. pose proof (grant_wf_parts x E). destruct_and!.
  destruct (bool_decide (target = GrantState.Active)); plan_inv H; cbn [m_objects];
    (constructor; [|constructor]); cbn [object_wf].
  - apply require_site_wf in E0. apply require_path_wf in E1.
    apply grant_binding_wf; [|by apply rebound_wf]. unfold reconciled. grant_wf_tac.
  - unfold reconciled. grant_wf_tac.
Qed.

Lemma tick_wf now : u64_ok now -> plan_tick a now arb = Ok m -> decodable.
Proof.
  intros Hnow H. unfold plan_tick in H. plan_inv H. cbn [m_objects]. apply Forall_app; split.
  - apply Forall_join, Forall_fmap, Forall_forall. intros s Hs. cbn. unfold tick_site.
    destruct (lapsed_site a now s) as [u|] eqn:Eu; constructor.
    + apply (wf_sites a Hwf) in Hs. cbn. unfold lapsed_site in Eu.
      assert (bounded_str_wf apply_limits (bounded (str "heartbeat lease expired")))
        by (by apply const_wf).
      assert (forall n, u32_ok (wrap32 n)) by (intros; unfold u32_ok, wrap32; by apply N.mod_lt).
      repeat case_match; simplify_eq; record_wf_tac.
    + apply append_downgrades_wf; [by apply const_text_wf|done].
  - apply Forall_fmap, Forall_forall. intros u (g & Hg & Hu)%list_elem_of_omap.
    apply grants_wf in Hg. cbn. unfold expired_grant in Hu. destruct (_ || _); simplify_eq.
    assert (bounded_str_wf apply_limits (bounded (str "lease expired"))) by (by apply const_wf).
    pose proof (grant_wf_parts g Hg). destruct_and!. grant_wf_tac.
Qed.

Lemma plan_decodable op : op_wf op -> plan a op arb = Ok m -> decodable.
Proof.
  destruct op; cbn [plan]; intros Hop H.
  - by eapply install_policy_wf.
  - by eapply bump_epoch_wf.
  - by eapply register_site_wf.
  - by eapply heartbeat_wf.
  - by eapply set_site_state_wf.
  - by eapply register_path_wf.
  - by eapply set_path_state_wf.
  - by eapply attest_capacity_wf.
  - unfold plan_issue_oversubscription in H. plan_inv H. by constructor; [|constructor].
  - by eapply propose_wf.
  - by eapply evaluate_wf.
  - by eapply reserve_wf.
  - by eapply grant_op_wf; eauto.
  - by eapply grant_op_wf; eauto.
  - by eapply grant_op_wf; eauto.
  - by eapply grant_op_wf; eauto 6.
  - by eapply grant_op_wf; eauto 6.
  - by eapply acknowledge_wf.
  - by eapply verify_wf.
  - by eapply reconcile_wf.
  - by eapply tick_wf.
Qed.
End PlanWf.

(** ** Applying well-formed objects *)

(** The tables, the index and every record are in order. *)
Record sound (a : Authority) : Prop := {
  sound_keyed : well_keyed a;
  sound_limits : within_limits a;
  sound_wf : authority_wf a;
}.

Lemma insert_values_wf {A} (P : A -> Prop) (m : gmap Id128 A) key v :
  P v -> (forall x, x ∈ values m -> P x) -> forall x, x ∈ values (<[key := v]> m) -> P x.
Proof.
  intros Hv Hm x [k [[_ <-]|[_ Hk]]%lookup_insert_Some]%elem_of_values; [done|].
  apply Hm, elem_of_values. by exists k.
Qed.

Lemma install_wf a key o a' :
  authority_wf a -> object_wf o -> install a key o = Ok a' -> authority_wf a'.
Proof.
  intros [Hs Hp Hd Ha Hg Hv Ho Hpol He] Hwf Hi.
  destruct o; cbn [install] in Hi; cbn [object_wf] in Hwf;
    try apply guard_fail_ok in Hi as [_ Hi];
    try (apply expected_bind_ok in Hi as (index & _ & Hi)); simplify_eq;
    split; try done; by apply insert_values_wf.
Qed.

Lemma install_objects_wf a objs :
  authority_wf a -> Forall object_wf objs -> authority_wf (install_objects a objs).1.
Proof.
  intros Ha Hobjs. revert a Ha. induction Hobjs as [|o objs Ho _ IH]; intros a Ha; [done|].
  rewrite install_objects_cons. destruct (install a (object_key o) o) as [a1|s] eqn:E; [|done].
  by apply IH, (install_wf a (object_key o) o).
Qed.

Lemma raise_arbitration_wf arb a : authority_wf a -> authority_wf (raise_arbitration arb a).
Proof. intros []. unfold raise_arbitration. by destruct (_ <? _). Qed.

Lemma objects_keyed objs : Forall keyed ((fun o => (object_key o, o)) <$> objs).
Proof. apply Forall_fmap, Forall_forall. intros o _. apply object_keyed. Qed.

Lemma finish_apply_ok arb r a' :
  finish_apply arb r = (a', Status.Ok) ->
  exists a1, r = (a1, Status.Ok) /\ a' = raise_arbitration arb a1.
Proof. destruct r as [a1 []]; cbn; intros [= <-]; eauto. Qed.

(** Applying the changes of well-formed objects keeps an authority in order. *)
Lemma install_sound a objs a1 arb :
  sound a -> Forall object_wf objs -> install_objects a objs = (a1, Status.Ok) ->
  sound (raise_arbitration arb a1).
Proof.
  intros [Hwk Hlim Hwf] Hobjs Hi.
  pose proof (install_all_well_keyed a _ Hwk (objects_keyed objs)) as Hwk1.
  pose proof (install_all_within_limits a ((fun o => (object_key o, o)) <$> objs) Hlim) as Hlim1.
  pose proof (install_objects_wf a _ Hwf Hobjs) as Hwf1.
  unfold install_objects in Hi, Hwf1. rewrite Hi in Hwk1, Hlim1, Hwf1. cbn in *.
  split; [by apply raise_arbitration_well_keyed| |by apply raise_arbitration_wf].
  unfold raise_arbitration. by destruct (_ <? _).
Qed.

Lemma apply_sound a objs arb a1 :
  sound a -> Forall object_wf objs -> apply a (change_for <$> objs) arb = (a1, Status.Ok) -> sound a1.
Proof.
  intros Ha Hobjs Happly. rewrite apply_objects in Happly by done.
  apply finish_apply_ok in Happly as (a0 & Hi & ->). by eapply install_sound.
Qed.

(** The sample fabric of [State] is well-formed. *)
Lemma sample_wf : authority_wf Sample.fabric.
Proof.
  split; try (intros x Hx; vm_compute in Hx; repeat apply elem_of_cons in Hx as [->|Hx]);
    try (by apply elem_of_nil in Hx);
    unfold site_wf, path_wf, grant_wf, binding_wf, policy_wf, bounded_str_wf, str_wf; wf_by_compute.
Qed.
