(* ===== verification/Snapshot.v ===== *)
(** * Snapshots (src/authority.cpp)

    The snapshot of an authority, its codec, and the reconstruction of an
    authority from a snapshot, as compaction and recovery use them. *)

From S2P Require Import Prelude Outcome Ids Lifecycle Capacity Policy Wire Model Codecs State Ledger.
From S2P Require Import Changes Invariants PlanFabric Operations WellFormed.

Record AuthoritySnapshot := mkAuthoritySnapshot {
  snap_epoch : Epoch;
  snap_incarnation : Incarnation;
  snap_policy : Policy;
  snap_sites : list SiteRecord;
  snap_paths : list PathRecord;
  snap_domains : list SharedRiskDomain;
  snap_attestations : list CapacityAttestation;
  snap_grants : list GrantRecord;
  snap_verifications : list VerificationRecord;
  snap_oversubscriptions : list OversubscriptionAuthority;
  snap_last_arbitration : ArbSeq;
}.

Definition snapshot (a : Authority) : AuthoritySnapshot :=
  mkAuthoritySnapshot (epoch a) (incarnation a) (policy a) (sites a) (paths a) (domains a)
    (attestations a) (grants a) (verifications a) (oversubscriptions a) (last_arbitration a).

(** ** Codec *)

Section Lists.
Context {A : Type} `{!Codec A}.

(** [w.u32(v.size()); for (item : v) encode(w, item);] *)
Definition w_list (l : list A) : bytes := w_u32 (blen l mod 2 ^ 32) ++ mjoin (encode <$> l).

Fixpoint r_items (count : nat) : reader (list A) :=
  match count with
  | O => mret []
  | S count => item ← decode; rest ← r_items count; mret (item :: rest)
  end.

Definition r_list : reader (list A) :=
  count ← r_container_count;
  r_items (N.to_nat count).
End Lists.

Definition encode_snapshot (v : AuthoritySnapshot) : bytes :=
  w_epoch (snap_epoch v) ++
  w_id128 (raw (snap_incarnation v)) ++
  encode (snap_policy v) ++
  w_list (snap_sites v) ++
  w_list (snap_paths v) ++
  w_list (snap_domains v) ++
  w_list (snap_attestations v) ++
  w_list (snap_grants v) ++
  w_list (snap_verifications v) ++
  w_list (snap_oversubscriptions v) ++
  w_u64 (arb_value (snap_last_arbitration v)).

Definition decode_snapshot : reader AuthoritySnapshot :=
  epoch ← r_epoch;
  incarnation ← r_id128;
  policy ← decode;
  sites ← r_list;
  paths ← r_list;
  domains ← r_list;
  attestations ← r_list;
  grants ← r_list;
  verifications ← r_list;
  oversubscriptions ← r_list;
  arb ← r_u64;
  mret (mkAuthoritySnapshot epoch (from_raw incarnation) policy sites paths domains attestations
          grants verifications oversubscriptions (mkArbSeq arb)).

(** ** Reconstruction *)

(** The constructor: defaults for nil members and the default domain.
    [random] is the identity the constructor draws for a nil incarnation. *)
Definition default_domain : SharedRiskDomain :=
  mkSharedRiskDomain default_domain_id (str "default")
    (str "shared risk domain applied to paths without an explicit domain").

Definition set_pol_generation (g : Generation) (p : Policy) : Policy :=
  mkPolicy (pol_id p) g (protected_floor_units p) (protected_floor_bps p) (min_free_units p)
    (min_free_bps p) (max_oversubscription_bps p) (max_lease_duration_ms p) (max_grants_per_path p)
    (max_grants_per_site p) (max_srd_concentration_bps p) (allow_degraded_activation p)
    (allow_partition_optimistic_recovery p) (require_verification_for_active p)
    (auto_reconcile_on_restart p) (site_lease_timeout_ms p).

Definition new_authority (random : Incarnation) (c : AuthorityConfig) : Authority :=
  let c := if gen_is_nil (pol_generation (cfg_policy c))
           then set_cfg_policy (set_pol_generation (mkGeneration 1) (cfg_policy c)) c else c in
  let c := if epoch_value (cfg_epoch c) =? 0 then set_cfg_epoch (mkEpoch 1) c else c in
  let c := if tid_is_nil (cfg_incarnation c) then set_cfg_incarnation random c else c in
  mkAuthority c (mkArbSeq 0) ∅ ∅ {[ raw default_domain_id := default_domain ]} ∅ ∅ ∅ ∅ ∅.

(** One loop over the records of a table: a nil identity is Corrupt, a repeated
    one overwrites. *)
Fixpoint load {A} (id_of : A -> Id128) (l : list A) (m : gmap Id128 A) :
    Expected (gmap Id128 A) :=
  match l with
  | [] => Ok m
  | x :: l =>
      fail_if is_nil (id_of x) with Status.Corrupt ;;
      load id_of l (<[id_of x := x]> m)
  end.

(** Recovered dynamic evidence is historical, never silently fresh. *)
Definition recover_grant (g : GrantRecord) : GrantRecord :=
  let g := if bool_decide (g_provenance g = Provenance.Live)
           then set_g_provenance Provenance.RecoveredFromSnapshot g else g in
  if negb (is_terminal (g_state g))
  then set_g_verification VerificationState.Unverified (set_g_historical true g) else g.

Fixpoint load_grants (l : list GrantRecord) (m : gmap Id128 GrantRecord) (index : gmap Id128 Id128) :
    Expected (gmap Id128 GrantRecord * gmap Id128 Id128) :=
  match l with
  | [] => Ok (m, index)
  | g :: l =>
      fail_if tid_is_nil (g_id g) with Status.Corrupt ;;
      let m := <[raw (g_id g) := recover_grant g]> m in
      if tid_is_nil (g_request g) then load_grants l m index
      else
        fail_if match index !! raw (g_request g) with
                | Some other => negb (bool_decide (other = raw (g_id g)))
                | None => false
                end with Status.Corrupt ;;
        load_grants l m (<[raw (g_request g) := raw (g_id g)]> index)
  end.

Definition from_snapshot (random : Incarnation) (c : AuthorityConfig) (s : AuthoritySnapshot) :
    Expected Authority :=
  fail_if negb (is_ok (validate (snap_policy s))) with Status.Corrupt ;;
  let a := new_authority random c in
  let epoch := if epoch_value (snap_epoch s) =? 0 then mkEpoch 1 else snap_epoch s in
  let config := set_cfg_epoch epoch (set_cfg_policy (snap_policy s) (config a)) in
  domains ← load (fun v => raw (dom_id v)) (snap_domains s) (domains_ a);
  sites ← load (fun v => raw (site_id v)) (snap_sites s) (sites_ a);
  paths ← load (fun v => raw (path_id v)) (snap_paths s) (paths_ a);
  attestations ← load (fun v => raw (att_id v)) (snap_attestations s) (attestations_ a);
  '(grants, index) ← load_grants (snap_grants s) (grants_ a) (request_index a);
  verifications ← load (fun v => raw (ver_id v)) (snap_verifications s) (verifications_ a);
  oversubscriptions ← load (fun v => raw (ovs_id v)) (snap_oversubscriptions s) (oversubscriptions_ a);
  Ok (mkAuthority config (snap_last_arbitration s) sites paths domains attestations grants
        verifications oversubscriptions index).

(** ** The codec round trip *)

(** Every record has an encoding of at least one byte, which is what the bound
    of [container_count] on the remaining bytes relies on. *)
Class NonEmptyCodec (A : Type) `{!Codec A} := encode_nonempty (v : A) : (1 <= length (encode v))%nat.

#[export] Instance site_nonempty : NonEmptyCodec SiteRecord.
Proof. intros v. cbn. lia. Qed.
#[export] Instance path_nonempty : NonEmptyCodec PathRecord.
Proof. intros v. cbn. lia. Qed.
#[export] Instance domain_nonempty : NonEmptyCodec SharedRiskDomain.
Proof. intros v. cbn. lia. Qed.
#[export] Instance attestation_nonempty : NonEmptyCodec CapacityAttestation.
Proof. intros v. cbn. lia. Qed.
#[export] Instance grant_nonempty : NonEmptyCodec GrantRecord.
Proof. intros v. cbn. lia. Qed.
#[export] Instance verification_nonempty : NonEmptyCodec VerificationRecord.
Proof. intros v. cbn. lia. Qed.
#[export] Instance oversubscription_nonempty : NonEmptyCodec OversubscriptionAuthority.
Proof. intros v. cbn. lia. Qed.

Section ListRoundtrip.
Context {A : Type} `{!Codec A} `{!NonEmptyCodec A}.

Definition list_wf (lim : WireLimits) (l : list A) : Prop :=
  blen l <= max_container lim /\ u32_ok (blen l) /\ Forall (codec_wf lim) l.

Lemma r_items_w lim l rest :
  Forall (codec_wf lim) l -> r_items (length l) lim (mjoin (encode <$> l) ++ rest) = Ok (l, rest).
Proof.
  intros Hl. induction Hl as [|x l Hx _ IH]; [done|].
  csimpl. rewrite <-app_assoc. cbn [length r_items].
  erewrite reader_bind_Ok by (by apply codec_roundtrip).
  by erewrite reader_bind_Ok by exact IH.
Qed.

Lemma encoded_length (l : list A) : (length l <= length (mjoin (encode <$> l)))%nat.
Proof.
  induction l as [|x l IH]; [done|]. csimpl. rewrite length_app.
  pose proof (encode_nonempty x). lia.
Qed.

Lemma r_list_w lim l rest : list_wf lim l -> r_list lim (w_list l ++ rest) = Ok (l, rest).
Proof.
  intros (Hmax & Hu & Hl). unfold r_list, w_list. rewrite <-app_assoc.
  assert (r_container_count lim (w_u32 (blen l mod 2 ^ 32) ++ mjoin (encode <$> l) ++ rest) =
    Ok (blen l, mjoin (encode <$> l) ++ rest)) as Hc.
  { unfold r_container_count. rewrite N.mod_small by done.
    erewrite reader_bind_Ok by (by apply r_u32_w). unfold r_limits, r_remaining, mbind, reader_bind.
    rewrite (proj2 (N.ltb_ge _ _)) by done. rewrite (proj2 (N.ltb_ge _ _)); [done|].
    pose proof (encoded_length l). unfold blen. rewrite length_app. lia. }
  rewrite (reader_bind_Ok _ _ _ _ _ _ Hc). unfold blen. rewrite Nat2N.id. by apply r_items_w.
Qed.
End ListRoundtrip.

Record snapshot_wf (lim : WireLimits) (v : AuthoritySnapshot) : Prop := {
  swf_epoch : u64_ok (epoch_value (snap_epoch v));
  swf_incarnation : id_wf (raw (snap_incarnation v));
  swf_policy : policy_wf (snap_policy v);
  swf_sites : list_wf lim (snap_sites v);
  swf_paths : list_wf lim (snap_paths v);
  swf_domains : list_wf lim (snap_domains v);
  swf_attestations : list_wf lim (snap_attestations v);
  swf_grants : list_wf lim (snap_grants v);
  swf_verifications : list_wf lim (snap_verifications v);
  swf_oversubscriptions : list_wf lim (snap_oversubscriptions v);
  swf_last_arbitration : u64_ok (arb_value (snap_last_arbitration v));
}.

Lemma decode_encode_snapshot lim v rest :
  snapshot_wf lim v -> decode_snapshot lim (encode_snapshot v ++ rest) = Ok (v, rest).
Proof.
  intros []. unfold encode_snapshot, decode_snapshot. rewrite <-?app_assoc.
  erewrite reader_bind_Ok by (by apply r_epoch_w).
  erewrite reader_bind_Ok by (by apply r_id128_w).
  erewrite reader_bind_Ok by (by apply codec_roundtrip).
  do 7 (erewrite reader_bind_Ok by (by apply r_list_w)).
  erewrite reader_bind_Ok by (by apply r_u64_w).
  cbv [mret reader_ret]. rewrite from_raw_raw. by destruct v as [? ? ? ? ? ? ? ? ? ? []].
Qed.

(** The snapshot of a well-formed authority has an encoding that decodes, as
    long as no table has more records than a container may have; the records
    only look at the bound on strings, which all readers of snapshots share. *)
Lemma snapshot_of_wf max_bytes max_container a :
  authority_wf a -> max_container < 2 ^ 32 ->
  (let fits {A} (t : gmap Id128 A) := blen (values t) <=? max_container in
   fits (sites_ a) && fits (paths_ a) && fits (domains_ a) && fits (attestations_ a) &&
   fits (grants_ a) && fits (verifications_ a) && fits (oversubscriptions_ a) = true)%bool ->
  id_wf (raw (incarnation a)) -> u64_ok (arb_value (last_arbitration a)) ->
  snapshot_wf (mkWireLimits max_bytes 4096 max_container 8) (snapshot a).
Proof.
  intros Hwf Hmax Hfit Hinc Harb. cbv beta zeta in Hfit. to_prop.
  set (lim := mkWireLimits _ _ _ _).
  assert (forall A `{!Codec A} (l : list A), blen l <= max_container ->
    (forall x, x ∈ l -> codec_wf lim x) -> list_wf lim l) as Hlist.
  { intros A ? l Hb Hl. split_and!; [done|unfold u32_ok; lia|by apply Forall_forall]. }
  split; try done; try (apply Hlist; [done|apply Hwf]).
  - apply (wf_epoch a Hwf).
  - apply (wf_policy a Hwf).
Qed.

(** ** Reconstruction gives the tables back *)

Section Load.
Context {A : Type} (id_of : A -> Id128).

Lemma load_lookup l m :
  NoDup (id_of <$> l) -> (forall x, x ∈ l -> is_nil (id_of x) = false) ->
  exists m', load id_of l m = Ok m' /\ (forall x, x ∈ l -> m' !! id_of x = Some x) /\
           (forall k, k ∉ id_of <$> l -> m' !! k = m !! k).
Proof.
  revert m. induction l as [|x l IH]; intros m Hnd Hnil; csimpl in *.
  { exists m. split_and!; [done|by intros ? ?%elem_of_nil|done]. }
  apply NoDup_cons in Hnd as [Hx Hnd].
  destruct (IH (<[id_of x := x]> m) Hnd) as (m' & Hm' & Hin & Hout).
  { intros y Hy. apply Hnil. by right. }
  exists m'. unfold guard_fail. rewrite Hnil by left. split_and!; [done|..].
  - intros y [->|Hy]%elem_of_cons; [|by apply Hin]. rewrite Hout by done. apply lookup_insert_eq.
  - intros k [Hk Hkl]%not_elem_of_cons. rewrite Hout by done. by rewrite lookup_insert_ne.
Qed.

(** Loading the values of a table puts the table back, over what was there. *)
Lemma load_image (f : A -> A) (t m : gmap Id128 A) :
  (forall x, id_of (f x) = id_of x) ->
  (forall k x, t !! k = Some x -> id_of x = k) ->
  (forall k x, t !! k = Some x -> is_nil k = false) ->
  load id_of (f <$> values t) m = Ok ((f <$> t) ∪ m).
Proof.
  intros Hf Hk Hnil.
  assert (id_of <$> (f <$> values t) = id_of <$> values t) as Hids.
  { rewrite <-list_fmap_compose. by apply list_fmap_ext; cbn. }
  destruct (load_lookup (f <$> values t) m) as (m' & -> & Hin & Hout).
  - rewrite Hids. by apply keyed_values.
  - intros x (y & -> & [k Hx]%elem_of_values)%list_elem_of_fmap. rewrite Hf, (Hk k y Hx). by eapply Hnil.
  - f_equal. apply map_eq. intros k. destruct (t !! k) as [x|] eqn:Hx.
    + rewrite (lookup_union_Some_l _ _ _ (f x)) by (by rewrite lookup_fmap, Hx).
      rewrite <-(Hk k x Hx), <-(Hf x). apply Hin, list_elem_of_fmap_2, elem_of_values. by exists k.
    + rewrite lookup_union_r by (by rewrite lookup_fmap, Hx). apply Hout. rewrite Hids.
      intros (x & -> & [k' Hx']%elem_of_values)%list_elem_of_fmap. rewrite (Hk k' x Hx') in Hx. congruence.
Qed.

Lemma load_values (t m : gmap Id128 A) :
  (forall k x, t !! k = Some x -> id_of x = k) ->
  (forall k x, t !! k = Some x -> is_nil k = false) ->
  load id_of (values t) m = Ok (t ∪ m).
Proof.
  intros Hk Hnil. pose proof (load_image id t m ltac:(done) Hk Hnil) as H.
  by rewrite list_fmap_id, map_fmap_id in H.
Qed.
End Load.

(** An index that says nothing the request index [full] does not say. *)
Definition requests_agree (full index : gmap Id128 Id128) : Prop :=
  forall r k, index !! r = Some k -> full !! r = Some k.

Lemma recover_grant_keeps g :
  g_id (recover_grant g) = g_id g /\ g_request (recover_grant g) = g_request g /\
  g_binding (recover_grant g) = g_binding g /\ g_class (recover_grant g) = g_class g /\
  g_amount (recover_grant g) = g_amount g /\ g_state (recover_grant g) = g_state g.
Proof. unfold recover_grant. repeat break_goal; done. Qed.

(** What is recovered of an open grant is historical and unverified. *)
Lemma recover_grant_historical g :
  is_terminal (g_state g) = false ->
  g_historical (recover_grant g) = true /\
  g_verification (recover_grant g) = VerificationState.Unverified /\
  g_provenance (recover_grant g) <> Provenance.Live.
Proof.
  intros Ht. unfold recover_grant. destruct g as [? ? ? ? ? ? st ? ? ? ? ? ? ? prov ? ?].
  cbn in Ht. by destruct prov, st.
Qed.

(** A grant and what is recovered of it: they differ in the marks alone. *)
Definition recovered (g g' : GrantRecord) : Prop :=
  g' = set_g_provenance (g_provenance g') (set_g_historical (g_historical g')
         (set_g_verification (g_verification g') g)) /\
  g_provenance g' <> Provenance.Live /\
  if is_terminal (g_state g)
  then g_historical g' = g_historical g /\ g_verification g' = g_verification g
  else g_historical g' = true /\ g_verification g' = VerificationState.Unverified.

Lemma recover_grant_recovered g : recovered g (recover_grant g).
Proof.
  unfold recovered, recover_grant. destruct g as [? ? ? ? ? ? st ? ? ? ? ? ? ? prov ? ?].
  by destruct prov, st.
Qed.

(** The grants of a table, recovered: the loop puts back the image of the
    table, and an index that holds the requests of its grants. *)
Lemma load_grants_effect (full : gmap Id128 Id128) l m index :
  NoDup ((fun g => raw (g_id g)) <$> l) -> (forall g, g ∈ l -> tid_is_nil (g_id g) = false) ->
  (forall g, g ∈ l -> tid_is_nil (g_request g) = false ->
     full !! raw (g_request g) = Some (raw (g_id g))) ->
  requests_agree full index ->
  exists index', load_grants l m index = (m' ← load (fun g => raw (g_id g)) (recover_grant <$> l) m;
                                          Ok (m', index')) /\
    requests_agree full index' /\
    (forall g, g ∈ l -> tid_is_nil (g_request g) = false ->
       index' !! raw (g_request g) = Some (raw (g_id g))) /\
    (forall r k, index !! r = Some k -> index' !! r = Some k).
Proof.
  revert m index. induction l as [|g l IH]; intros m index Hnd Hnil Hreq Hag; csimpl in *.
  { exists index. split_and!; [done|done|by intros ? ?%elem_of_nil|done]. }
  apply NoDup_cons in Hnd as [_ Hnd].
  destruct (recover_grant_keeps g) as (-> & _). unfold guard_fail at 1 3.
  assert (is_nil (raw (g_id g)) = false) as -> by (apply Hnil; by left).
  fold (tid_is_nil (g_id g)). rewrite (Hnil g) by by left.
  assert (forall x, x ∈ l -> tid_is_nil (g_id x) = false) as Hnil' by (intros; apply Hnil; by right).
  assert (forall x, x ∈ l -> tid_is_nil (g_request x) = false ->
    full !! raw (g_request x) = Some (raw (g_id x))) as Hreq' by (intros; apply Hreq; [by right|done]).
  destruct (tid_is_nil (g_request g)) eqn:Hq.
  { destruct (IH (<[raw (g_id g):=recover_grant g]> m) index Hnd Hnil' Hreq' Hag)
      as (index' & -> & H1 & H2 & H3).
    exists index'. split_and!; [done|done| |done].
    intros x [->|Hx]%elem_of_cons ?; [congruence|by apply H2]. }
  pose proof (Hreq g ltac:(by left) Hq) as Hg.
  rewrite guard_fail_false.
  2:{ destruct (index !! raw (g_request g)) as [k|] eqn:Hk; [|done].
      apply Hag in Hk. apply negb_false_iff, bool_decide_eq_true. congruence. }
  destruct (IH (<[raw (g_id g):=recover_grant g]> m)
    (<[raw (g_request g):=raw (g_id g)]> index) Hnd Hnil' Hreq') as (index' & -> & H1 & H2 & H3).
  { intros r k [[<- <-]|[_ Hk]]%lookup_insert_Some; [done|by apply Hag]. }
  exists index'. split_and!; [done|done|..].
  - intros x [->|Hx]%elem_of_cons ?; [apply H3, lookup_insert_eq|by apply H2].
  - intros r k Hk. destruct (decide (raw (g_request g) = r)) as [<-|Hne].
    + apply H3. rewrite lookup_insert_eq. f_equal. apply Hag in Hk. congruence.
    + apply H3. by rewrite lookup_insert_ne.
Qed.

Lemma load_grants_table a :
  well_keyed a -> (forall k g, grants_ a !! k = Some g -> is_nil k = false) ->
  exists index, load_grants (grants a) ∅ ∅ = Ok (recover_grant <$> grants_ a, index) /\
    (forall k g, grants_ a !! k = Some g -> tid_is_nil (g_request g) = false ->
      index !! raw (g_request g) = Some k) /\
    requests_agree (request_index a) index.
Proof.
  intros Hwk Hnil.
  destruct (load_grants_effect (request_index a) (grants a) ∅ ∅) as (index & -> & Hag & Hi & _).
  - apply keyed_values, (wk_grants a Hwk).
  - intros g [k Hg]%elem_of_grants. unfold tid_is_nil. rewrite (wk_grants a Hwk k g Hg). by eapply Hnil.
  - intros g [k Hg]%elem_of_grants ?. rewrite (wk_grants a Hwk k g Hg). by apply (wk_requests a Hwk).
  - by intros r k ?%lookup_empty_Some.
  - exists index. unfold grants.
    rewrite (load_image _ recover_grant _ ∅); [|intros; by rewrite (proj1 (recover_grant_keeps _))|
      apply (wk_grants a Hwk)|done].
    split_and!; [by rewrite (right_id_L ∅ (∪))| |exact Hag].
    intros k g Hg ?. rewrite (Hi g); [|by apply elem_of_grants; exists k|done].
    by rewrite (wk_grants a Hwk k g Hg).
Qed.

(** No record is stored under the nil identity. *)
Record identified (a : Authority) : Prop := {
  id_sites k v : sites_ a !! k = Some v -> is_nil k = false;
  id_paths k v : paths_ a !! k = Some v -> is_nil k = false;
  id_domains k v : domains_ a !! k = Some v -> is_nil k = false;
  id_attestations k v : attestations_ a !! k = Some v -> is_nil k = false;
  id_grants k v : grants_ a !! k = Some v -> is_nil k = false;
  id_verifications k v : verifications_ a !! k = Some v -> is_nil k = false;
  id_oversubscriptions k v : oversubscriptions_ a !! k = Some v -> is_nil k = false;
}.

(** A ledger depends on the policy, the epoch, the paths, the
    oversubscriptions and the totals only. *)
Lemma ledger_ext a a' p :
  policy a' = policy a -> epoch a' = epoch a -> paths_ a' = paths_ a ->
  oversubscriptions_ a' = oversubscriptions_ a -> totals_for a' p = totals_for a p ->
  ledger a' p = ledger a p.
Proof.
  intros Hp He Hpa Ho Ht.
  unfold ledger, fill_ledger, protected_floor, minimum_free, extension_for, live_oversubscription_bps,
    oversubscription_applies, require_path, find_path, oversubscriptions.
  by rewrite Hp, He, Hpa, Ho, Ht.
Qed.

Lemma recovered_sum (f : GrantRecord -> N) (t : gmap Id128 GrantRecord) :
  (forall g, f (recover_grant g) = f g) -> sumN f (values (recover_grant <$> t)) = sumN f (values t).
Proof.
  intros Hf. change (map_sum f (recover_grant <$> t) = map_sum f t). rewrite map_sum_fmap.
  apply sumN_ext. intros g _. apply Hf.
Qed.

Lemma recovered_totals a a' p :
  amounts_wf a -> grants_ a' = recover_grant <$> grants_ a -> totals_for a' p = totals_for a p.
Proof.
  intros Hwf Hg. rewrite !totals_for_sums; [|done|].
  - unfold sums_of, grants. rewrite Hg.
    by rewrite !recovered_sum by (intros x; unfold amount_if, on_path, live, reclaimable, holds, is_protected, state_is;
      destruct (recover_grant_keeps x) as (_ & _ & Hb & Hc & Ha & Hs); by rewrite ?Hb, ?Hc, ?Ha, ?Hs).
  - intros g [k Hk]%elem_of_grants. rewrite Hg, lookup_fmap_Some in Hk. destruct Hk as (x & <- & Hx).
    destruct (recover_grant_keeps x) as (_ & _ & _ & _ & -> & _). apply Hwf, elem_of_grants. by exists k.
Qed.

(** The recovered tables are keyed as the old ones, next to the default domain. *)
Lemma recovered_keyed a a' :
  well_keyed a -> sites_ a' = sites_ a -> paths_ a' = paths_ a ->
  domains_ a' = domains_ a ∪ {[raw default_domain_id := default_domain]} ->
  attestations_ a' = attestations_ a -> grants_ a' = recover_grant <$> grants_ a ->
  verifications_ a' = verifications_ a -> oversubscriptions_ a' = oversubscriptions_ a ->
  (forall k g, grants_ a !! k = Some g -> tid_is_nil (g_request g) = false ->
     request_index a' !! raw (g_request g) = Some k) ->
  well_keyed a'.
Proof.
  intros Hwk Hs Hp Hd Ht Hg Hv Ho Hi. split; intros k v; rewrite ?Hs, ?Hp, ?Hd, ?Ht, ?Hg, ?Hv, ?Ho.
  3:{ intros [Hk|[_ Hk]]%lookup_union_Some_raw; [by apply (wk_domains a Hwk)|].
      by apply lookup_singleton_Some in Hk as [<- <-]. }
  4,7: rewrite lookup_fmap_Some; intros (g & <- & Hk);
    destruct (recover_grant_keeps g) as (Hid & Hr & _); rewrite ?Hid, ?Hr.
  all: first [apply Hwk; done|by apply (wk_grants a Hwk)|by apply Hi].
Qed.

(** ** Properties *)

(** Decoding the encoding of a snapshot whose fields fit their widths and
    whose tables fit the limits of the reader gives the snapshot back, and
    leaves what follows it. *)
Theorem snapshot_roundtrip lim v rest :
  snapshot_wf lim v -> decode_snapshot lim (encode_snapshot v ++ rest) = Ok (v, rest).
Proof. apply decode_encode_snapshot. Qed.


(** ** Witnesses *)

Lemma nil_forall {A} (m : gmap Id128 A) :
  bool_decide (map_Forall (fun k _ => is_nil k = false) m) = true ->
  forall k x, m !! k = Some x -> is_nil k = false.
Proof. intros Hm. by apply bool_decide_eq_true in Hm. Qed.

Lemma sample_identified : identified Sample.fabric.
Proof. split; apply nil_forall; vm_compute; reflexivity. Qed.

Lemma sample_snapshot_wf : snapshot_wf apply_limits (snapshot Sample.fabric).
Proof. apply snapshot_of_wf; [exact sample_wf|by vm_compute..]. Qed.

Lemma snapshot_roundtrip_witness :
  snapshot_wf apply_limits (snapshot Sample.fabric) /\
  decode_snapshot apply_limits (encode_snapshot (snapshot Sample.fabric) ++ []) = Ok (snapshot Sample.fabric, []).
Proof. split; [exact sample_snapshot_wf|apply snapshot_roundtrip, sample_snapshot_wf]. Defined.

