(* ===== verification/Store.v ===== *)
(** * The durable store (include/isf/store.hpp, src/store.cpp)

    The log is a file header followed by framed records, chained by SHA-256.
    The file is a byte string; what the operating system answers (how many
    bytes a write took, whether a rename or a flush worked) is an argument of
    the operations. *)

From Stdlib Require Import Strings.Byte.
From S2P Require Import Prelude Outcome Ids Wire Model Codecs State Changes Digest Snapshot.

Module RecordType.
Inductive t := Intent | Commit | Snapshot | CleanShutdown | EpochMarker | Abort.
#[export] Instance t_eq_dec : EqDecision t.
Proof. solve_decision. Defined.
End RecordType.
Export (hints) RecordType.
Abbreviation RecordType := RecordType.t.

Definition record_types : list RecordType :=
  [RecordType.Intent; RecordType.Commit; RecordType.Snapshot; RecordType.CleanShutdown;
   RecordType.EpochMarker; RecordType.Abort].

(** The enumerators start from 1. *)
Definition record_type_value (t : RecordType) : N := enum_value record_types t + 1.
Definition record_type_of (v : N) : option RecordType :=
  if v =? 0 then None else record_types !! N.to_nat (v - 1).

Module RecoveryFidelity.
Inductive t :=
| Exact | TornTailTruncated | DegradedTruncated | AmbiguousIntentResolved | Corrupt
| Incompatible | Missing.
#[export] Instance t_eq_dec : EqDecision t.
Proof. solve_decision. Defined.
End RecoveryFidelity.
Export (hints) RecoveryFidelity.
Abbreviation RecoveryFidelity := RecoveryFidelity.t.

Definition servable (f : RecoveryFidelity) : bool :=
  negb (bool_decide (f = RecoveryFidelity.Corrupt)) &&
  negb (bool_decide (f = RecoveryFidelity.Incompatible)).

Record StoreOptions := mkStoreOptions {
  max_log_bytes : N;
  max_records : N;
  max_record_bytes : N;
  compact_threshold_bytes : N;
  compact_threshold_records : N;
  truncate_unreadable_tail : bool;
  durable_writes : bool;
}.

Definition default_options : StoreOptions :=
  mkStoreOptions (N.shiftl 64 20) (N.shiftl 1 20) (N.shiftl 16 20) (N.shiftl 8 20) (N.shiftl 1 16)
    true true.

Definition options_for_tests : StoreOptions :=
  mkStoreOptions (N.shiftl 1 20) 8192 (N.shiftl 1 20) (N.shiftl 1 18) 1024 true true.

(** One replayed unit of the log; [ActionSnapshot] and [ActionChanges] are the
    two kinds with the member each of them sets. *)
Inductive ActionKind :=
| ActionSnapshot (snapshot : AuthoritySnapshot)
| ActionChanges (changes : list StateChange) (arbitration : ArbSeq).

Record ReplayAction := mkReplayAction {
  act_kind : ActionKind;
  act_at_ms : N;
  act_intent_id : N;
  act_origin : Incarnation;
  act_committed : bool;
  act_ambiguous : bool;
  act_aborted : bool;
}.

Record RecoveryReport := mkRecoveryReport {
  rep_fidelity : RecoveryFidelity;
  rep_store_id : StoreId;
  rep_format_version : N;
  rep_records_read : N;
  rep_bytes_read : N;
  rep_dropped_tail_bytes : N;
  rep_ambiguous_intents : N;
  rep_suppressed_releases : N;
  rep_snapshots_seen : N;
  rep_aborted_intents : N;
  rep_chain_head : Digest256;
  rep_truncated_on_open : bool;
  rep_resolution_written_on_open : bool;
}.

Record ReplayResult := mkReplayResult {
  rr_report : RecoveryReport;
  rr_actions : list ReplayAction;
  rr_epoch : Epoch;
  rr_last_incarnation : Incarnation;
}.

(** The store; [st_file] is the file it has open, as the bytes up to the
    position the next write goes to. *)
Record Store := mkStore {
  st_file : option bytes;
  st_options : StoreOptions;
  st_sequence : N;
  st_log_bytes : N;
  st_record_count : N;
  st_chain : bytes;
  st_durable : bool;
}.

Definition is_open (s : Store) : bool := match st_file s with Some _ => true | None => false end.

(** ** Layout *)

Definition kFileMagic : N := 0x4953464C.
Definition kRecordMagic : N := 0x49534652.
Definition kRecordHeaderVersion : N := 1.
Definition kEndianMarker : N := 0x01020304.
Definition kStoreFormatVersion : N := 1.

Definition kStoreFileHeaderBytes : nat := 128.
Definition kStoreRecordHeaderBytes : nat := 56.
Definition kStoreChainBytes : nat := 32.

Definition zero_chain : bytes := replicate 32 x00.

Definition get_id (off : nat) (data : bytes) : Id128 :=
  mkId128 (get_le 8 off data) (get_le 8 (off + 8) data).

Definition all_zero (data : bytes) : bool := forallb (fun b => bool_decide (b = x00)) data.

(** The file header: magic, version, size, byte order, creation time, store
    identity, zeros, checksum. *)
Definition file_header (store_id : StoreId) : bytes :=
  let covered :=
    w_u32 kFileMagic ++ w_u32 kStoreFormatVersion ++ w_u32 (N.of_nat kStoreFileHeaderBytes) ++
    w_u32 kEndianMarker ++ w_u64 0 ++ w_id128 (raw store_id) ++ replicate 84 x00 in
  covered ++ w_u32 (crc32c covered).

(** A record header: magic, version, type, flags, length, checksum, sequence,
    intent, time, incarnation. *)
Definition record_header (t : RecordType) (payload : bytes) (sequence intent_id at_ms : N)
    (origin : Incarnation) : bytes :=
  w_u32 kRecordMagic ++ w_u16 kRecordHeaderVersion ++ w_u8 (record_type_value t) ++ w_u8 0 ++
  w_u32 (blen payload mod 2 ^ 32) ++ w_u32 (crc32c payload) ++ w_u64 sequence ++ w_u64 intent_id ++
  w_u64 at_ms ++ w_id128 (raw origin).

Definition chain_hash (previous header payload : bytes) : Digest256 :=
  digest_parts [previous; header; payload].

(** The bytes of a record in the log, and the chain after it. *)
Definition record_chain (chain : bytes) (t : RecordType) (payload : bytes)
    (sequence intent_id at_ms : N) (origin : Incarnation) : bytes :=
  digest_bytes (chain_hash chain (record_header t payload sequence intent_id at_ms origin) payload).

Definition record_frame (chain : bytes) (t : RecordType) (payload : bytes)
    (sequence intent_id at_ms : N) (origin : Incarnation) : bytes :=
  record_header t payload sequence intent_id at_ms origin ++ payload ++
  record_chain chain t payload sequence intent_id at_ms origin.

(** ** Payloads *)

Definition payload_limits : WireLimits := mkWireLimits (N.shiftl 16 20) 4096 (N.shiftl 1 20) 8.

Definition encode_intent_payload (intent_id : N) (arbitration : ArbSeq)
    (changes : list StateChange) : bytes :=
  w_u64 intent_id ++ w_u64 (arb_value arbitration) ++ w_list changes.

Definition r_intent_payload : reader (N * ArbSeq * list StateChange) :=
  id ← r_u64;
  arb ← r_u64;
  count ← r_u32;
  if N.shiftl 1 20 <? count then r_fail Status.LimitExceeded
  else
    changes ← r_items (N.to_nat count);
    mret (id, mkArbSeq arb, changes).

Definition decode_intent_payload (payload : bytes) : Expected (N * ArbSeq * list StateChange) :=
  '(out, rest) ← r_intent_payload payload_limits payload;
  fail_if negb (at_end rest) with Status.Invalid ;;
  Ok out.

(** ** Appending *)

(** The calls of [fwrite] for one record: the file takes [accepted] of its
    bytes, which is a failure when it is not all of them. *)
Definition write_frame (accepted : nat) (file frame : bytes) : bytes * bool :=
  (file ++ take accepted frame, (length frame <=? accepted)%nat).

Definition set_file (f : option bytes) (s : Store) : Store :=
  mkStore f (st_options s) (st_sequence s) (st_log_bytes s) (st_record_count s) (st_chain s)
    (st_durable s).

Definition write_record (s : Store) (accepted : nat) (t : RecordType) (intent_id at_ms : N)
    (origin : Incarnation) (payload : bytes) (count_toward_limits : bool) : Store * Status :=
  match st_file s with
  | None => (s, Status.Unavailable)
  | Some file =>
      let record_bytes :=
        N.of_nat kStoreRecordHeaderBytes + blen payload + N.of_nat kStoreChainBytes in
      let options := st_options s in
      if max_record_bytes options <? blen payload then (s, Status.LimitExceeded)
      else if count_toward_limits && ((max_log_bytes options <? st_log_bytes s) ||
                (max_log_bytes options - st_log_bytes s <? record_bytes))
        then (s, Status.LimitExceeded)
      else if count_toward_limits && (max_records options <=? st_record_count s)
        then (s, Status.LimitExceeded)
      else
        let '(file, written) :=
          write_frame accepted file
            (record_frame (st_chain s) t payload (st_sequence s) intent_id at_ms origin) in
        if negb written then (set_file (Some file) s, Status.Unavailable)
        else
          (mkStore (Some file) options (wrap64 (st_sequence s + 1))
             (wrap64 (st_log_bytes s + record_bytes)) (wrap64 (st_record_count s + 1))
             (record_chain (st_chain s) t payload (st_sequence s) intent_id at_ms origin)
             (st_durable s), Status.Ok)
  end.

Definition append_intent (s : Store) (accepted : nat) (intent_id : N) (arbitration : ArbSeq)
    (changes : list StateChange) (at_ms : N) (origin : Incarnation) : Store * Status :=
  write_record s accepted RecordType.Intent intent_id at_ms origin
    (encode_intent_payload intent_id arbitration changes) true.

Definition append_commit (s : Store) (accepted : nat) (intent_id at_ms : N) : Store * Status :=
  write_record s accepted RecordType.Commit intent_id at_ms tid_nil (w_u64 intent_id) true.

Definition append_clean_shutdown (s : Store) (accepted : nat) (at_ms : N) : Store * Status :=
  write_record s accepted RecordType.CleanShutdown 0 at_ms tid_nil (w_u64 at_ms) true.

Definition append_snapshot (s : Store) (accepted : nat) (snapshot : AuthoritySnapshot) (at_ms : N)
    (origin : Incarnation) : Store * Status :=
  write_record s accepted RecordType.Snapshot 0 at_ms origin (encode_snapshot snapshot) true.

Definition append_abort (s : Store) (accepted : nat) (intent_id at_ms : N) : Store * Status :=
  write_record s accepted RecordType.Abort intent_id at_ms tid_nil (w_u64 intent_id) true.

(** [flush]; [synced] is the answer of fflush and fsync. *)
Definition flush (s : Store) (synced : bool) : Status :=
  if is_open s then if synced then Status.Ok else Status.Unavailable else Status.Unavailable.

Definition needs_compaction (s : Store) : bool :=
  (compact_threshold_bytes (st_options s) <=? st_log_bytes s) ||
  (compact_threshold_records (st_options s) <=? st_record_count s).

(** ** The scan of a log *)

(** What the loop of [open] has read so far. *)
Record Scan := mkScan {
  sc_chain : bytes;
  sc_sequence : N;
  sc_open : option N;
  sc_actions : list ReplayAction;
  sc_records : N;
  sc_bytes : N;
  sc_snapshots : N;
  sc_epoch : Epoch;
  sc_origin : Incarnation;
}.

Definition scan_start : Scan := mkScan zero_chain 1 None [] 0 0 0 (mkEpoch 0) tid_nil.

(** How one turn of the loop ends: the loop stops, with the unread tail dropped
    or not, or goes on behind the record. *)
Inductive Turn :=
| Stop (fidelity : RecoveryFidelity) (dropped : bool) (s : Scan)
| Next (s : Scan) (rest : bytes).

(** [actions.back().committed = true], and [aborted] for an abort. *)
Definition resolve_action (aborted : bool) (a : ReplayAction) : ReplayAction :=
  mkReplayAction (act_kind a) (act_at_ms a) (act_intent_id a) (act_origin a) true (act_ambiguous a)
    (if aborted then true else act_aborted a).

Definition resolve_last (aborted : bool) (l : list ReplayAction) : list ReplayAction :=
  alter (resolve_action aborted) (pred (length l)) l.

(** The [switch] over the record type: the open intent, the actions, the
    number of snapshots and the epoch after the record, [None] when the record
    is corrupt. *)
Definition read_record (options : StoreOptions) (s : Scan) (t : RecordType) (payload : bytes)
    (intent_id at_ms : N) (origin : Incarnation) :
    option (option N * list ReplayAction * N * Epoch) :=
  let matching := bool_decide (sc_open s = Some intent_id) in
  match t with
  | RecordType.Intent =>
      match sc_open s, decode_intent_payload payload with
      | None, Ok (decoded, arbitration, changes) =>
          if decoded =? intent_id then
            Some (Some intent_id,
                  sc_actions s ++ [mkReplayAction (ActionChanges changes arbitration) at_ms intent_id
                                     origin false false false],
                  sc_snapshots s, sc_epoch s)
          else None
      | _, _ => None
      end
  | RecordType.Commit =>
      if matching then Some (None, resolve_last false (sc_actions s), sc_snapshots s, sc_epoch s)
      else None
  | RecordType.Snapshot =>
      match decode_snapshot (mkWireLimits (max_record_bytes options) 4096 (N.shiftl 1 20) 8) payload with
      | Ok (snapshot, []) =>
          Some (sc_open s,
                sc_actions s ++ [mkReplayAction (ActionSnapshot snapshot) at_ms intent_id origin
                                   true false false],
                sc_snapshots s + 1, sc_epoch s)
      | _ => None
      end
  | RecordType.Abort =>
      if matching then Some (None, resolve_last true (sc_actions s), sc_snapshots s, sc_epoch s)
      else None
  | RecordType.CleanShutdown | RecordType.EpochMarker =>
      match r_u64 (mkWireLimits 4096 4096 4096 8) payload with
      | Ok (value, _) =>
          Some (sc_open s, sc_actions s, sc_snapshots s,
                if bool_decide (t = RecordType.EpochMarker) then mkEpoch value else sc_epoch s)
      | Fail _ => None
      end
  end.

Definition with_origin (origin : Incarnation) (s : Scan) : Scan :=
  mkScan (sc_chain s) (sc_sequence s) (sc_open s) (sc_actions s) (sc_records s) (sc_bytes s)
    (sc_snapshots s) (sc_epoch s) (if tid_is_nil origin then sc_origin s else origin).

(** One turn of the loop on the bytes from [offset] on, which are not empty. *)
Definition scan_turn (options : StoreOptions) (s : Scan) (data : bytes) : Turn :=
  let zero_or f dropped :=
    if all_zero data then Stop RecoveryFidelity.DegradedTruncated true s else Stop f dropped s in
  if (length data <? kStoreRecordHeaderBytes)%nat then zero_or RecoveryFidelity.TornTailTruncated true
  else if negb (get_le 4 0 data =? kRecordMagic) then zero_or RecoveryFidelity.Corrupt false
  else if negb (get_le 2 4 data =? kRecordHeaderVersion) then Stop RecoveryFidelity.Incompatible false s
  else
    match record_type_of (get_le 1 6 data) with
    | None => Stop RecoveryFidelity.Corrupt false s
    | Some t =>
        let payload_len := get_le 4 8 data in
        if max_record_bytes options <? payload_len then Stop RecoveryFidelity.Corrupt false s
        else
          let len := N.to_nat payload_len in
          let record_bytes := (kStoreRecordHeaderBytes + len + kStoreChainBytes)%nat in
          if (length data <? record_bytes)%nat then zero_or RecoveryFidelity.TornTailTruncated true
          else
            let header := take kStoreRecordHeaderBytes data in
            let payload := take len (drop kStoreRecordHeaderBytes data) in
            let stored := take kStoreChainBytes (drop (kStoreRecordHeaderBytes + len) data) in
            if negb (crc32c payload =? get_le 4 12 data) then
              if all_zero data || (record_bytes =? length data)%nat
              then Stop RecoveryFidelity.TornTailTruncated true s
              else Stop RecoveryFidelity.Corrupt false s
            else
              let computed := digest_bytes (chain_hash (sc_chain s) header payload) in
              if negb (bool_decide (computed = stored)) then Stop RecoveryFidelity.Corrupt false s
              else if negb (get_le 8 16 data =? sc_sequence s) then Stop RecoveryFidelity.Corrupt false s
              else
                let s := with_origin (from_raw (get_id 40 data)) s in
                match read_record options s t payload (get_le 8 24 data) (get_le 8 32 data)
                        (from_raw (get_id 40 data)) with
                | None => Stop RecoveryFidelity.Corrupt false s
                | Some (open, actions, snapshots, epoch) =>
                    Next (mkScan computed (wrap64 (sc_sequence s + 1)) open actions
                            (sc_records s + 1) (sc_bytes s + N.of_nat record_bytes) snapshots epoch
                            (sc_origin s))
                      (drop record_bytes data)
                end
    end.

(** The loop, and its end: how the scan ended, whether a tail was dropped, and
    the bytes behind the last valid record. *)
Fixpoint scan_loop (fuel : nat) (options : StoreOptions) (s : Scan) (data : bytes) :
    RecoveryFidelity * bool * Scan * bytes :=
  match fuel, data with
  | _, [] => (RecoveryFidelity.Exact, false, s, [])
  | O, _ => (RecoveryFidelity.Corrupt, false, s, data)
  | S fuel, _ =>
      match scan_turn options s data with
      | Stop f dropped s => (f, dropped, s, data)
      | Next s rest => scan_loop fuel options s rest
      end
  end.

(** A turn that goes on consumes a header at least, so that the length of the
    data is fuel enough ([scan_loop_fuel]). *)
Definition scan (options : StoreOptions) (data : bytes) : RecoveryFidelity * bool * Scan * bytes :=
  scan_loop (length data) options scan_start data.

(** ** Opening *)

(** How the creation of a file ends: written, synced and reopened, not even
    opened, or given up with some of its bytes in place. *)
Inductive Creation := Created | NotOpened | GivenUp (written : nat).

(** What the operating system answers while a store is opened: the creation of
    a missing file, the truncation, the reopening with its seek, the bytes
    taken of the abort record, and the flush behind it. *)
Record OpenAnswers := mkOpenAnswers {
  os_create : Creation;
  os_truncate : bool;
  os_reopen : bool;
  os_accepted : nat;
  os_flush : bool;
}.

Definition all_well : OpenAnswers := mkOpenAnswers Created true true 4096 true.

(** [action.ambiguous = true] for changes without a completion record. *)
Definition mark_ambiguous (a : ReplayAction) : ReplayAction :=
  match act_kind a with
  | ActionChanges _ _ =>
      if act_committed a then a
      else mkReplayAction (act_kind a) (act_at_ms a) (act_intent_id a) (act_origin a) false true
             (act_aborted a)
  | ActionSnapshot _ => a
  end.

Definition open_ambiguous (a : ReplayAction) : bool :=
  match act_kind a with ActionChanges _ _ => negb (act_committed a) | ActionSnapshot _ => false end.

(** A result without records: a fresh file, or a header that is not usable. *)
Definition headless (fidelity : RecoveryFidelity) (store_id : StoreId) (version : N) : ReplayResult :=
  mkReplayResult
    (mkRecoveryReport fidelity store_id version 0 0 0 0 0 0 0 (mkDigest256 zero_chain) false false)
    [] (mkEpoch 0) tid_nil.

(** The checks of the file header, in the order of the code. *)
Definition check_header (data : bytes) : option ReplayResult :=
  if negb (get_le 4 0 data =? kFileMagic) then Some (headless RecoveryFidelity.Corrupt tid_nil 0)
  else if negb (get_le 4 12 data =? kEndianMarker)
    then Some (headless RecoveryFidelity.Incompatible tid_nil 0)
  else
    let version := get_le 4 4 data in
    if negb (version =? kStoreFormatVersion)
      then Some (headless RecoveryFidelity.Incompatible tid_nil version)
    else if negb (get_le 4 8 data =? N.of_nat kStoreFileHeaderBytes)
      then Some (headless RecoveryFidelity.Incompatible tid_nil version)
    else if negb (crc32c (take 124 data) =? get_le 4 124 data)
      then Some (headless RecoveryFidelity.Corrupt tid_nil version)
    else None.

(** The replay result of a log whose header is in order. *)
Definition replay_log (options : StoreOptions) (data : bytes) : ReplayResult * Scan * bytes :=
  let '(ended, dropped, s, tail) := scan options (drop kStoreFileHeaderBytes data) in
  let fidelity :=
    if bool_decide (sc_open s <> None) && bool_decide (ended = RecoveryFidelity.Exact)
    then RecoveryFidelity.AmbiguousIntentResolved else ended in
  (mkReplayResult
     (mkRecoveryReport fidelity (from_raw (get_id 24 data)) kStoreFormatVersion (sc_records s)
        (sc_bytes s) (if dropped then blen tail else 0)
        (N.of_nat (length (filter (fun a => open_ambiguous a = true) (sc_actions s)))) 0
        (sc_snapshots s) 0 (mkDigest256 (sc_chain s)) false false)
     (mark_ambiguous <$> sc_actions s) (sc_epoch s) (sc_origin s), s, tail).

Definition with_flags (truncated written : bool) (r : ReplayResult) : ReplayResult :=
  let p := rr_report r in
  mkReplayResult
    (mkRecoveryReport (rep_fidelity p) (rep_store_id p) (rep_format_version p) (rep_records_read p)
       (rep_bytes_read p) (rep_dropped_tail_bytes p) (rep_ambiguous_intents p)
       (rep_suppressed_releases p) (rep_snapshots_seen p)
       (rep_aborted_intents p + (if written then 1 else 0)) (rep_chain_head p) truncated written)
    (rr_actions r) (rr_epoch r) (rr_last_incarnation r).

Definition closed_store (options : StoreOptions) : Store :=
  mkStore None options 1 0 0 zero_chain (durable_writes options).

(** The branch of [open] for a file that is missing or shorter than its header.
    [random] is the identity a fresh store gets. *)
Definition create_store (os : OpenAnswers) (random : StoreId) (options : StoreOptions)
    (file : option bytes) : Expected (ReplayResult * Store) * option bytes :=
  match os_create os with
  | Created =>
      (Ok (headless RecoveryFidelity.Missing random kStoreFormatVersion,
           mkStore (Some (file_header random)) options 1 (N.of_nat kStoreFileHeaderBytes) 0
             zero_chain (durable_writes options)),
       Some (file_header random))
  | NotOpened => (Fail Status.Unavailable, file)
  | GivenUp written => (Fail Status.Unavailable, Some (take written (file_header random)))
  end.

(** The end of [open], behind the scan of a servable log: the unread tail is cut
    off, the store is opened for appending, and an open intent is closed. *)
Definition resume_store (os : OpenAnswers) (options : StoreOptions) (data : bytes)
    (result : ReplayResult) (s : Scan) (tail : bytes) :
    Expected (ReplayResult * Store) * option bytes :=
  if negb (bool_decide (tail = [])) && negb (truncate_unreadable_tail options)
    then (Fail Status.Unavailable, Some data)
  else if negb (bool_decide (tail = [])) && negb (os_truncate os)
    then (Fail Status.Unavailable, Some data)
  else
    let kept := take (length data - length tail) data in
    if negb (os_reopen os) then (Fail Status.Unavailable, Some kept)
    else
      let store :=
        mkStore (Some kept) options (sc_sequence s) (blen kept) (sc_records s) (sc_chain s)
          (durable_writes options) in
      let truncated := negb (bool_decide (tail = [])) in
      match sc_open s with
      | None => (Ok (with_flags truncated false result, store), Some kept)
      | Some intent =>
          let '(store, closed) := append_abort store (os_accepted os) intent 0 in
          if negb (is_ok closed) then (Fail Status.Unavailable, st_file store)
          else if negb (is_ok (flush store (os_flush os)))
            then (Fail Status.Unavailable, st_file store)
          else (Ok (with_flags truncated true result, store), st_file store)
      end.

(** [open] of a store that is closed, on the file [file] that the path names;
    the result holds the store, the second part is the file it leaves. *)
Definition open_store (os : OpenAnswers) (random : StoreId) (options : StoreOptions)
    (file : option bytes) : Expected (ReplayResult * Store) * option bytes :=
  if (max_record_bytes options =? 0) || (max_log_bytes options =? 0) || (max_records options =? 0)
  then (Fail Status.Invalid, file)
  else
    let data := default [] file in
    if max_log_bytes options + max_record_bytes options + 4096 <? blen data
    then (Fail Status.Unavailable, file)
    else if (length data <? kStoreFileHeaderBytes)%nat then create_store os random options file
    else
      match check_header data with
      | Some result => (Ok (result, closed_store options), file)
      | None =>
          let '(result, s, tail) := replay_log options data in
          if negb (servable (rep_fidelity (rr_report result))) then
            (Ok (result, closed_store options), file)
          else resume_store os options data result s tail
      end.

(** Proofs about the framing never look inside the two checksums. *)
#[global] Opaque crc32c chain_hash.
