(* ===== verification/Journal.v ===== *)
(** * The log as a list of entries (src/store.cpp)

    The abstract view of a log is the list of what was appended to it; its
    bytes are the frames of the entries.  Reading the frames gives the entries
    back, appending writes the next frame, and a log that a crash has cut
    inside its last frame is read up to that frame. *)

From Stdlib Require Import Strings.Byte.
From S2P Require Import Prelude Outcome Ids Wire Model Codecs State Changes Digest Snapshot Store.

(** ** The log as a list of entries

    The abstract view of a log: what was appended to it.  [frames] is its
    byte image, and [interpret] what the scan makes of an entry. *)

Inductive Entry :=
| EIntent (intent_id : N) (arbitration : ArbSeq) (changes : list StateChange) (at_ms : N)
    (origin : Incarnation)
| ECommit (intent_id at_ms : N)
| EAbort (intent_id at_ms : N)
| EShutdown (at_ms : N)
| ESnapshot (snapshot : AuthoritySnapshot) (at_ms : N) (origin : Incarnation).

Definition entry_type (e : Entry) : RecordType :=
  match e with
  | EIntent _ _ _ _ _ => RecordType.Intent
  | ECommit _ _ => RecordType.Commit
  | EAbort _ _ => RecordType.Abort
  | EShutdown _ => RecordType.CleanShutdown
  | ESnapshot _ _ _ => RecordType.Snapshot
  end.

Definition entry_payload (e : Entry) : bytes :=
  match e with
  | EIntent id arb changes _ _ => encode_intent_payload id arb changes
  | ECommit id _ | EAbort id _ => w_u64 id
  | EShutdown at_ms => w_u64 at_ms
  | ESnapshot snapshot _ _ => encode_snapshot snapshot
  end.

Definition entry_intent (e : Entry) : N :=
  match e with
  | EIntent id _ _ _ _ | ECommit id _ | EAbort id _ => id
  | EShutdown _ | ESnapshot _ _ _ => 0
  end.

Definition entry_at (e : Entry) : N :=
  match e with
  | EIntent _ _ _ at_ms _ | ECommit _ at_ms | EAbort _ at_ms | EShutdown at_ms
  | ESnapshot _ at_ms _ => at_ms
  end.

Definition entry_origin (e : Entry) : Incarnation :=
  match e with
  | EIntent _ _ _ _ origin | ESnapshot _ _ origin => origin
  | ECommit _ _ | EAbort _ _ | EShutdown _ => tid_nil
  end.

Definition append (s : Store) (accepted : nat) (e : Entry) : Store * Status :=
  match e with
  | EIntent id arb changes at_ms origin => append_intent s accepted id arb changes at_ms origin
  | ECommit id at_ms => append_commit s accepted id at_ms
  | EAbort id at_ms => append_abort s accepted id at_ms
  | EShutdown at_ms => append_clean_shutdown s accepted at_ms
  | ESnapshot snapshot at_ms origin => append_snapshot s accepted snapshot at_ms origin
  end.

Definition entry_frame (chain : bytes) (sequence : N) (e : Entry) : bytes :=
  record_frame chain (entry_type e) (entry_payload e) sequence (entry_intent e) (entry_at e)
    (entry_origin e).
Definition entry_chain (chain : bytes) (sequence : N) (e : Entry) : bytes :=
  record_chain chain (entry_type e) (entry_payload e) sequence (entry_intent e) (entry_at e)
    (entry_origin e).

Fixpoint frames (chain : bytes) (sequence : N) (es : list Entry) : bytes :=
  match es with
  | [] => []
  | e :: es =>
      entry_frame chain sequence e ++ frames (entry_chain chain sequence e) (wrap64 (sequence + 1)) es
  end.

(** The entries a reader with these options accepts. *)
Definition entry_wf (options : StoreOptions) (e : Entry) : Prop :=
  u64_ok (entry_intent e) /\ u64_ok (entry_at e) /\ id_wf (raw (entry_origin e)) /\
  blen (entry_payload e) <= max_record_bytes options /\ u32_ok (blen (entry_payload e)) /\
  match e with
  | EIntent _ arb changes _ _ =>
      u64_ok (arb_value arb) /\ blen changes <= N.shiftl 1 20 /\
      Forall (codec_wf payload_limits) changes
  | ESnapshot snapshot _ _ =>
      snapshot_wf (mkWireLimits (max_record_bytes options) 4096 (N.shiftl 1 20) 8) snapshot
  | _ => True
  end.

(** What [read_record] makes of an entry. *)
Definition interpret (s : Scan) (e : Entry) : option (option N * list ReplayAction * N * Epoch) :=
  let completes aborted id :=
    if bool_decide (sc_open s = Some id)
    then Some (None, resolve_last aborted (sc_actions s), sc_snapshots s, sc_epoch s) else None in
  match e with
  | EIntent id arb changes at_ms origin =>
      match sc_open s with
      | Some _ => None
      | None =>
          Some (Some id,
                sc_actions s ++ [mkReplayAction (ActionChanges changes arb) at_ms id origin
                                   false false false], sc_snapshots s, sc_epoch s)
      end
  | ECommit id _ => completes false id
  | EAbort id _ => completes true id
  | EShutdown _ => Some (sc_open s, sc_actions s, sc_snapshots s, sc_epoch s)
  | ESnapshot snapshot at_ms origin =>
      Some (sc_open s,
            sc_actions s ++ [mkReplayAction (ActionSnapshot snapshot) at_ms 0 origin true false false],
            sc_snapshots s + 1, sc_epoch s)
  end.

(** The scan after an entry, and after a log. *)
Definition advance (s : Scan) (e : Entry) : option Scan :=
  '(open, actions, snapshots, epoch) ← interpret s e;
  Some (mkScan (entry_chain (sc_chain s) (sc_sequence s) e) (wrap64 (sc_sequence s + 1)) open actions
          (sc_records s + 1)
          (sc_bytes s + N.of_nat (kStoreRecordHeaderBytes + length (entry_payload e) + kStoreChainBytes))
          snapshots epoch (sc_origin (with_origin (entry_origin e) s))).

Fixpoint advance_all (s : Scan) (es : list Entry) : option Scan :=
  match es with
  | [] => Some s
  | e :: es => s' ← advance s e; advance_all s' es
  end.

(** ** Frames can be read back *)

Lemma length_record_header t p seq i at_ms o :
  length (record_header t p seq i at_ms o) = kStoreRecordHeaderBytes.
Proof.
  unfold record_header, w_id128, w_u64, w_u32, w_u16, w_u8.
  by rewrite !length_app, !length_w_le.
Qed.

Lemma length_words_bytes s : length (words_bytes s) = 32%nat.
Proof.
  assert (forall x, length (big_endian 4 x) = 4%nat) as Hw
    by (intros x; unfold big_endian; by rewrite length_reverse, length_w_le).
  unfold words_bytes. cbn [fmap list_fmap mjoin list_join]. by rewrite !length_app, !Hw.
Qed.

Lemma length_record_chain chain t p seq i at_ms o :
  length (record_chain chain t p seq i at_ms o) = kStoreChainBytes.
Proof. apply length_words_bytes. Qed.

Lemma length_record_frame chain t p seq i at_ms o :
  length (record_frame chain t p seq i at_ms o) =
  (kStoreRecordHeaderBytes + length p + kStoreChainBytes)%nat.
Proof.
  unfold record_frame. by rewrite !length_app, length_record_header, length_record_chain, Nat.add_assoc.
Qed.

Record header_reads (t : RecordType) (p : bytes) (seq i at_ms : N) (o : Incarnation) (l : bytes) : Prop := {
  hr_magic : get_le 4 0 l = kRecordMagic;
  hr_version : get_le 2 4 l = kRecordHeaderVersion;
  hr_type : record_type_of (get_le 1 6 l) = Some t;
  hr_length : get_le 4 8 l = blen p;
  hr_crc : get_le 4 12 l = crc32c p;
  hr_sequence : get_le 8 16 l = seq;
  hr_intent : get_le 8 24 l = i;
  hr_at : get_le 8 32 l = at_ms;
  hr_hi : get_le 8 40 l = hi (raw o);
  hr_lo : get_le 8 48 l = lo (raw o);
}.

Lemma record_header_reads t p seq i at_ms o l :
  u32_ok (blen p) -> u64_ok seq -> u64_ok i -> u64_ok at_ms -> id_wf (raw o) ->
  header_reads t p seq i at_ms o (record_header t p seq i at_ms o ++ l).
Proof.
  intros Hp Hs Hi Ha [Hh Hl]. pose proof (crc32c_u32 p) as Hc.
  unfold record_header, u64_ok, u32_ok in *.
  replace (w_u8 (record_type_value t)) with (w_le 1 (record_type_value t)) by (by rewrite w_le_S).
  replace (w_u8 0) with (w_le 1 0) by done.
  split; read_field; rewrite ?get_le_here; change (N.of_nat 4 * 8) with 32;
    change (N.of_nat 8 * 8) with 64; rewrite ?N.Div0.mod_mod, ?N.mod_small; try done.
  - by destruct t.
  - by destruct t.
Qed.

Lemma header_reads_origin t p seq i at_ms o l :
  header_reads t p seq i at_ms o l -> from_raw (get_id 40 l) = o.
Proof.
  intros Hr. unfold get_id. change (40 + 8)%nat with 48%nat.
  rewrite (hr_hi _ _ _ _ _ _ _ Hr), (hr_lo _ _ _ _ _ _ _ Hr). by destruct o as [[]].
Qed.

(** The payload of an entry is read as the entry. *)
Lemma decode_intent_entry id arb changes :
  u64_ok id -> u64_ok (arb_value arb) -> blen changes <= N.shiftl 1 20 ->
  Forall (codec_wf payload_limits) changes ->
  decode_intent_payload (encode_intent_payload id arb changes) = Ok (id, arb, changes).
Proof.
  intros Hid Harb Hlen Hwf. unfold decode_intent_payload.
  assert (r_intent_payload payload_limits (encode_intent_payload id arb changes ++ []) =
    Ok ((id, arb, changes), [])) as Hr.
  { unfold r_intent_payload, encode_intent_payload, w_list. rewrite <-!app_assoc.
    erewrite reader_bind_Ok by (by apply r_u64_w).
    erewrite reader_bind_Ok by (by apply r_u64_w).
    assert (u32_ok (blen changes)) as Hu by (unfold u32_ok; change (N.shiftl 1 20) with 1048576 in Hlen; lia).
    rewrite N.mod_small by done. erewrite reader_bind_Ok by (by apply r_u32_w).
    rewrite (proj2 (N.ltb_ge _ _)) by done. unfold blen. rewrite Nat2N.id.
    erewrite reader_bind_Ok by (by apply r_items_w). by destruct arb. }
  rewrite app_nil_r in Hr. by rewrite Hr.
Qed.

Lemma read_record_entry options s e :
  entry_wf options e ->
  read_record options s (entry_type e) (entry_payload e) (entry_intent e) (entry_at e)
    (entry_origin e) = interpret s e.
Proof.
  intros (Hi & Ha & Ho & Hm & Hu & Hwf). destruct e as [id arb changes at_ms o|id at_ms|id at_ms|at_ms|snap at_ms o];
    cbn [entry_type entry_payload entry_intent entry_at entry_origin] in *; try done.
  - destruct Hwf as (Harb & Hlen & Hch). unfold read_record, interpret. destruct (sc_open s); [done|].
    rewrite decode_intent_entry by done. by rewrite N.eqb_refl.
  - unfold read_record. rewrite <-(app_nil_r (encode_snapshot snap)), decode_encode_snapshot by done. done.
Qed.

Lemma interpret_origin s e o : interpret (with_origin o s) e = interpret s e.
Proof. by destruct e. Qed.

(** The checks of a turn on data that starts with a frame of the log. *)
Lemma scan_turn_reads options s data t p i at_ms o rest :
  header_reads t p (sc_sequence s) i at_ms o data ->
  blen p <= max_record_bytes options ->
  let header := take kStoreRecordHeaderBytes data in
  let chain := digest_bytes (chain_hash (sc_chain s) header p) in
  data = header ++ p ++ chain ++ rest ->
  length header = kStoreRecordHeaderBytes -> length chain = kStoreChainBytes ->
  scan_turn options s data =
  match read_record options (with_origin o s) t p i at_ms o with
  | None => Stop RecoveryFidelity.Corrupt false (with_origin o s)
  | Some (open, actions, snapshots, epoch) =>
      Next (mkScan chain (wrap64 (sc_sequence s + 1)) open actions (sc_records s + 1)
              (sc_bytes s + N.of_nat (kStoreRecordHeaderBytes + length p + kStoreChainBytes))
              snapshots epoch (sc_origin (with_origin o s))) rest
  end.
Proof.
  intros Hr Hm header chain Hdata Hh Hc.
  assert (length data = kStoreRecordHeaderBytes + length p + kStoreChainBytes + length rest)%nat as Hlen
    by (rewrite Hdata, !length_app, Hh, Hc; lia).
  assert (drop kStoreRecordHeaderBytes data = p ++ chain ++ rest) as Hd
    by (rewrite Hdata; by apply drop_app_length').
  assert (drop (kStoreRecordHeaderBytes + length p) data = chain ++ rest) as Hdp
    by (rewrite <-drop_drop, Hd; by apply drop_app_length').
  assert (drop (kStoreRecordHeaderBytes + length p + kStoreChainBytes) data = rest) as Hdr
    by (rewrite <-drop_drop, Hdp; by apply drop_app_length').
  unfold scan_turn. rewrite (header_reads_origin _ _ _ _ _ _ _ Hr).
  rewrite (hr_magic _ _ _ _ _ _ _ Hr), (hr_version _ _ _ _ _ _ _ Hr), (hr_type _ _ _ _ _ _ _ Hr),
    (hr_length _ _ _ _ _ _ _ Hr), (hr_crc _ _ _ _ _ _ _ Hr), (hr_sequence _ _ _ _ _ _ _ Hr),
    (hr_intent _ _ _ _ _ _ _ Hr), (hr_at _ _ _ _ _ _ _ Hr).
  rewrite !N.eqb_refl. cbn [negb]. unfold blen in *. rewrite Nat2N.id.
  rewrite (proj2 (Nat.ltb_ge (length data) kStoreRecordHeaderBytes)) by lia.
  rewrite (proj2 (N.ltb_ge _ _)) by done.
  rewrite (proj2 (Nat.ltb_ge (length data) _)) by lia.
  rewrite Hd, Hdp, Hdr, !take_app_length' by done.
  rewrite N.eqb_refl. cbn [negb]. by rewrite bool_decide_eq_true_2 by done.
Qed.

Lemma scan_turn_frame options s e rest :
  entry_wf options e -> u64_ok (sc_sequence s) ->
  scan_turn options s (entry_frame (sc_chain s) (sc_sequence s) e ++ rest) =
  match advance s e with
  | Some s' => Next s' rest
  | None => Stop RecoveryFidelity.Corrupt false (with_origin (entry_origin e) s)
  end.
Proof.
  intros Hwf Hseq. pose proof Hwf as (Hi & Ha & Ho & Hm & Hu & _).
  unfold entry_frame, record_frame. rewrite <-!app_assoc.
  fold (entry_chain (sc_chain s) (sc_sequence s) e).
  pose proof (record_header_reads (entry_type e) (entry_payload e) (sc_sequence s) (entry_intent e)
    (entry_at e) (entry_origin e) (entry_payload e ++ entry_chain (sc_chain s) (sc_sequence s) e ++ rest)
    Hu Hseq Hi Ha Ho) as Hr.
  pose proof (length_record_header (entry_type e) (entry_payload e) (sc_sequence s) (entry_intent e)
    (entry_at e) (entry_origin e)) as Hl.
  rewrite (scan_turn_reads _ _ _ _ _ _ _ _ rest Hr Hm); rewrite ?(take_app_length' _ _ _ Hl); try done.
  rewrite (read_record_entry options), interpret_origin by done. unfold advance.
  by destruct (interpret s e) as [[[[? ?] ?] ?]|].
Qed.

(** ** A frame that a crash has cut *)

Lemma frame_first_byte chain t p seq i at_ms o :
  exists l, record_frame chain t p seq i at_ms o = x52 :: l.
Proof. unfold record_frame, record_header. by eexists. Qed.

Lemma cut_not_zero chain seq e n :
  (0 < n)%nat -> all_zero (take n (entry_frame chain seq e)) = false.
Proof.
  intros Hn. unfold entry_frame.
  destruct (frame_first_byte chain (entry_type e) (entry_payload e) seq (entry_intent e) (entry_at e)
    (entry_origin e)) as [l ->].
  by destruct n; [lia|].
Qed.

Lemma scan_turn_torn options s e n :
  entry_wf options e -> u64_ok (sc_sequence s) ->
  (0 < n < length (entry_frame (sc_chain s) (sc_sequence s) e))%nat ->
  scan_turn options s (take n (entry_frame (sc_chain s) (sc_sequence s) e)) =
  Stop RecoveryFidelity.TornTailTruncated true s.
Proof.
  intros (Hi & Ha & Ho & Hm & Hu & _) Hseq Hn.
  pose proof (cut_not_zero (sc_chain s) (sc_sequence s) e n ltac:(lia)) as Hz.
  assert (length (take n (entry_frame (sc_chain s) (sc_sequence s) e)) = n) as Hlen
    by (rewrite length_take; lia).
  unfold entry_frame in Hn, Hlen, Hz |- *. rewrite length_record_frame in Hn.
  unfold scan_turn. rewrite Hlen, Hz.
  destruct (Nat.ltb_spec n kStoreRecordHeaderBytes) as [|Hge]; [done|].
  pose proof (length_record_header (entry_type e) (entry_payload e) (sc_sequence s) (entry_intent e)
    (entry_at e) (entry_origin e)) as Hl.
  unfold record_frame. rewrite take_app_ge by lia.
  set (cut := take _ (entry_payload e ++ _)).
  pose proof (record_header_reads (entry_type e) (entry_payload e) (sc_sequence s) (entry_intent e)
    (entry_at e) (entry_origin e) cut Hu Hseq Hi Ha Ho) as Hr.
  rewrite (hr_magic _ _ _ _ _ _ _ Hr), (hr_version _ _ _ _ _ _ _ Hr), (hr_type _ _ _ _ _ _ _ Hr),
    (hr_length _ _ _ _ _ _ _ Hr).
  rewrite !N.eqb_refl. cbn [negb]. rewrite (proj2 (N.ltb_ge _ _)) by done.
  unfold blen. rewrite Nat2N.id. by rewrite (proj2 (Nat.ltb_lt _ _)) by lia.
Qed.

(** ** The scan of a whole log *)

Lemma next_rest s s' rest rest' : Next s rest = Next s' rest' -> rest = rest'.
Proof. by intros [= _ ->]. Qed.

(** A turn that goes on takes at least a header off the data. *)
Lemma scan_turn_next options s data s' rest :
  scan_turn options s data = Next s' rest -> (length rest < length data)%nat.
Proof.
  unfold scan_turn. cbv zeta. intros H.
  destruct (length data <? kStoreRecordHeaderBytes)%nat eqn:E; [by destruct (all_zero data)|].
  apply Nat.ltb_ge in E. unfold kStoreRecordHeaderBytes in E.
  repeat match type of H with
  | match ?x with _ => _ end = _ => destruct x; try discriminate H
  end.
  apply next_rest in H as <-. rewrite length_drop. unfold kStoreRecordHeaderBytes. lia.
Qed.

Lemma scan_loop_fuel f g options s data :
  (length data <= f)%nat -> (length data <= g)%nat ->
  scan_loop f options s data = scan_loop g options s data.
Proof.
  revert g s data. induction f as [|f IH]; intros g s data Hf Hg.
  - destruct data; [|cbn in Hf; lia]. by destruct g.
  - destruct data as [|b data]; [by destruct g|]. destruct g as [|g]; [cbn in Hg; lia|].
    cbn [scan_loop]. destruct (scan_turn options s (b :: data)) as [|s' rest] eqn:E; [done|].
    apply scan_turn_next in E. apply IH; cbn in *; lia.
Qed.

(** The scan from a state on, with fuel enough. *)
Definition scan_from (options : StoreOptions) (s : Scan) (data : bytes) :
    RecoveryFidelity * bool * Scan * bytes := scan_loop (length data) options s data.

Lemma scan_from_step options s data :
  data <> [] ->
  scan_from options s data =
  match scan_turn options s data with
  | Stop f dropped s => (f, dropped, s, data)
  | Next s rest => scan_from options s rest
  end.
Proof.
  intros Hne. destruct data as [|b data]; [done|]. unfold scan_from. cbn [length scan_loop].
  destruct (scan_turn options s (b :: data)) as [|s' rest] eqn:E; [done|].
  apply scan_turn_next in E. apply scan_loop_fuel; cbn in *; lia.
Qed.

Lemma advance_sequence s e s' : advance s e = Some s' -> sc_sequence s' = wrap64 (sc_sequence s + 1).
Proof. unfold advance. destruct (interpret s e) as [[[[? ?] ?] ?]|]; [|done]. by intros [= <-]. Qed.

Lemma advance_chain s e s' :
  advance s e = Some s' -> sc_chain s' = entry_chain (sc_chain s) (sc_sequence s) e.
Proof. unfold advance. destruct (interpret s e) as [[[[? ?] ?] ?]|]; [|done]. by intros [= <-]. Qed.

(** The frames of a log are read as the log, whatever follows them. *)
Lemma scan_frames options s es s' rest :
  Forall (entry_wf options) es -> u64_ok (sc_sequence s) -> advance_all s es = Some s' ->
  scan_from options s (frames (sc_chain s) (sc_sequence s) es ++ rest) = scan_from options s' rest.
Proof.
  intros Hwf. revert s. induction Hwf as [|e es He _ IH]; intros s Hseq Hs; [by injection Hs as ->|].
  cbn [advance_all] in Hs. destruct (advance s e) as [s1|] eqn:E; [|done]. cbn in Hs.
  cbn [frames]. rewrite <-app_assoc, scan_from_step.
  - rewrite scan_turn_frame, E by done. rewrite <-(advance_chain _ _ _ E), <-(advance_sequence _ _ _ E).
    apply IH; [|done]. rewrite (advance_sequence _ _ _ E). apply wrap64_u64.
  - unfold entry_frame. by destruct (frame_first_byte (sc_chain s) (entry_type e) (entry_payload e)
      (sc_sequence s) (entry_intent e) (entry_at e) (entry_origin e)) as [l ->].
Qed.

(** The loop as a relation: how it ends on every input. *)
Inductive loop_ends (options : StoreOptions) :
    Scan -> bytes -> RecoveryFidelity * bool * Scan * bytes -> Prop :=
| ends_empty s : loop_ends options s [] (RecoveryFidelity.Exact, false, s, [])
| ends_stop s s' data f dropped :
    data <> [] -> scan_turn options s data = Stop f dropped s' ->
    loop_ends options s data (f, dropped, s', data)
| ends_next s s' data rest r :
    data <> [] -> scan_turn options s data = Next s' rest -> loop_ends options s' rest r ->
    loop_ends options s data r.

Lemma scan_from_ends options s data : loop_ends options s data (scan_from options s data).
Proof.
  remember (length data) as n eqn:Hn. revert s data Hn.
  induction (lt_wf n) as [n _ IH]. intros s data ->.
  destruct (decide (data = [])) as [->|Hne]; [constructor|]. rewrite scan_from_step by done.
  destruct (scan_turn options s data) as [f dropped s'|s' rest] eqn:E.
  - by constructor.
  - eapply ends_next; [done|exact E|]. eapply IH; [|done]. by eapply scan_turn_next.
Qed.

(** ** The image of a log *)

Definition log_image (id : StoreId) (es : list Entry) : bytes :=
  file_header id ++ frames zero_chain 1 es.

Definition covered (id : StoreId) : bytes :=
  w_u32 kFileMagic ++ w_u32 kStoreFormatVersion ++ w_u32 (N.of_nat kStoreFileHeaderBytes) ++
  w_u32 kEndianMarker ++ w_u64 0 ++ w_id128 (raw id) ++ replicate 84 x00.

Lemma length_covered id : length (covered id) = 124%nat.
Proof.
  unfold covered, w_id128, w_u64, w_u32. by rewrite !length_app, !length_w_le, length_replicate.
Qed.

Lemma length_file_header id : length (file_header id) = kStoreFileHeaderBytes.
Proof.
  change (file_header id) with (covered id ++ w_le 4 (crc32c (covered id))).
  by rewrite length_app, length_w_le, length_covered.
Qed.

Lemma check_file_header id l : check_header (file_header id ++ l) = None.
Proof.
  change (file_header id) with (covered id ++ w_le 4 (crc32c (covered id))).
  assert (forall k off, (off + k <= 124)%nat ->
    get_le k off ((covered id ++ w_le 4 (crc32c (covered id))) ++ l) = get_le k off (covered id)) as Hcov.
  { intros k off Hk. rewrite <-app_assoc.
    rewrite <-(get_le_take k off 124 (covered id ++ _)) by done.
    by rewrite take_app_length' by apply (length_covered id). }
  unfold check_header.
  rewrite (Hcov 4%nat 0%nat), (Hcov 4%nat 12%nat), (Hcov 4%nat 4%nat), (Hcov 4%nat 8%nat) by lia.
  rewrite <-app_assoc, take_app_length' by apply (length_covered id).
  rewrite (get_le_skip (covered id)), length_covered by (by rewrite length_covered).
  cbn [Nat.sub]. rewrite get_le_here, N.mod_small by apply crc32c_u32.
  rewrite (N.eqb_refl (crc32c (covered id))).
  assert (get_le 4 0 (covered id) = kFileMagic) as -> by (unfold covered; read_field; by rewrite get_le_here).
  assert (get_le 4 4 (covered id) = kStoreFormatVersion) as -> by (unfold covered; read_field; by rewrite get_le_here).
  assert (get_le 4 8 (covered id) = N.of_nat kStoreFileHeaderBytes) as ->
    by (unfold covered; read_field; by rewrite get_le_here).
  by assert (get_le 4 12 (covered id) = kEndianMarker) as -> by (unfold covered; read_field; by rewrite get_le_here).
Qed.

Lemma file_header_id id l :
  id_wf (raw id) -> from_raw (get_id 24 (file_header id ++ l)) = id.
Proof.
  intros [Hh Hl]. destruct id as [[h lo]]. cbn in Hh, Hl. unfold get_id. cbn [Nat.add].
  change (file_header (from_raw (mkId128 h lo)))
    with (covered (from_raw (mkId128 h lo)) ++ w_le 4 (crc32c (covered (from_raw (mkId128 h lo))))).
  set (c := crc32c _). clearbody c. unfold covered. f_equal. f_equal.
  - read_field. by rewrite get_le_here, N.mod_small.
  - read_field. by rewrite get_le_here, N.mod_small.
Qed.

(** What a log that follows the protocol of intents and completions leaves
    behind: the scan at its end. *)
Definition replays (es : list Entry) (s : Scan) : Prop := advance_all scan_start es = Some s.

(** [open] closes the intent that is open at the end of the log. *)
Definition closing (s : Scan) : list Entry :=
  match sc_open s with Some id => [EAbort id 0] | None => [] end.

Lemma scan_image options id es s rest :
  Forall (entry_wf options) es -> replays es s ->
  scan options (drop kStoreFileHeaderBytes (log_image id es ++ rest)) = scan_from options s rest.
Proof.
  intros Hwf Hs. unfold log_image. rewrite <-app_assoc, drop_app_length' by apply (length_file_header id).
  by apply (scan_frames options scan_start).
Qed.

Lemma scan_from_torn options s e n :
  entry_wf options e -> u64_ok (sc_sequence s) ->
  (n < length (entry_frame (sc_chain s) (sc_sequence s) e))%nat ->
  let cut := take n (entry_frame (sc_chain s) (sc_sequence s) e) in
  scan_from options s cut =
  (if bool_decide (n = 0%nat) then RecoveryFidelity.Exact else RecoveryFidelity.TornTailTruncated,
   negb (bool_decide (n = 0%nat)), s, cut).
Proof.
  intros Hwf Hseq Hn cut. destruct n as [|n].
  { by unfold cut. }
  rewrite scan_from_step; [unfold cut; by rewrite scan_turn_torn by (try done; lia)|].
  unfold cut, entry_frame. by destruct (frame_first_byte (sc_chain s) (entry_type e) (entry_payload e)
    (sc_sequence s) (entry_intent e) (entry_at e) (entry_origin e)) as [l ->].
Qed.

Lemma scan_from_zeros options s n :
  (0 < n)%nat ->
  scan_from options s (replicate n x00) = (RecoveryFidelity.DegradedTruncated, true, s, replicate n x00).
Proof.
  intros Hn. destruct n as [|n]; [lia|]. rewrite scan_from_step by done.
  assert (all_zero (replicate (S n) x00) = true) as Hz.
  { unfold all_zero. apply forallb_forall. by intros b [-> _]%list_elem_of_In%elem_of_replicate. }
  unfold scan_turn. rewrite Hz, length_replicate.
  destruct (Nat.ltb_spec (S n) kStoreRecordHeaderBytes) as [|Hge]; [done|].
  assert (get_le 4 0 (replicate (S n) x00) = 0) as ->; [|done].
  unfold kStoreRecordHeaderBytes in Hge. do 4 (destruct n as [|n]; [lia|]). done.
Qed.

Definition options_wf (options : StoreOptions) : Prop :=
  0 < max_record_bytes options /\ 0 < max_log_bytes options /\ 0 < max_records options /\
  u64_ok (max_record_bytes options) /\ u64_ok (max_log_bytes options) /\ u64_ok (max_records options) /\
  truncate_unreadable_tail options = true.

(** The store that has the log [es] open, and the log it has. *)
Record represents (id : StoreId) (es : list Entry) (sc : Scan) (s : Store) : Prop := {
  rep_file : st_file s = Some (log_image id es);
  rep_entries : Forall (entry_wf (st_options s)) es;
  rep_replays : replays es sc;
  rep_chain : st_chain s = sc_chain sc;
  rep_sequence : st_sequence s = sc_sequence sc;
  rep_log_bytes : st_log_bytes s = blen (log_image id es);
  rep_records : st_record_count s = sc_records sc;
}.

Lemma advance_all_app s es es' : advance_all s (es ++ es') = (s' ← advance_all s es; advance_all s' es').
Proof.
  revert s. induction es as [|e es IH]; intros s; [done|]. cbn. destruct (advance s e) as [s1|]; [|done].
  cbn. apply IH.
Qed.

Lemma frames_app chain seq es e s s' :
  sc_chain s = chain -> sc_sequence s = seq -> advance_all s es = Some s' ->
  frames chain seq (es ++ [e]) = frames chain seq es ++ entry_frame (sc_chain s') (sc_sequence s') e.
Proof.
  revert chain seq s. induction es as [|d es IH]; intros chain seq s <- <- Hs.
  { injection Hs as ->. cbn. by rewrite app_nil_r. }
  cbn [advance_all] in Hs. destruct (advance s d) as [s1|] eqn:E; [|done]. cbn in Hs.
  cbn [app frames]. rewrite <-app_assoc. f_equal.
  by apply (IH _ _ s1 (advance_chain _ _ _ E) (advance_sequence _ _ _ E)).
Qed.

Lemma log_image_app id es e s :
  replays es s -> log_image id (es ++ [e]) = log_image id es ++ entry_frame (sc_chain s) (sc_sequence s) e.
Proof.
  intros Hs. unfold log_image. rewrite <-app_assoc. f_equal. by apply (frames_app _ _ _ _ scan_start).
Qed.

Lemma replays_app es e s s' : replays es s -> advance s e = Some s' -> replays (es ++ [e]) s'.
Proof. intros Hs He. unfold replays. rewrite advance_all_app, Hs. cbn. by rewrite He. Qed.

Lemma advance_records s e s' : advance s e = Some s' -> sc_records s' = sc_records s + 1.
Proof. unfold advance. destruct (interpret s e) as [[[[? ?] ?] ?]|]; [|done]. by intros [= <-]. Qed.

Lemma append_write s accepted e :
  append s accepted e =
  write_record s accepted (entry_type e) (entry_intent e) (entry_at e) (entry_origin e)
    (entry_payload e) true.
Proof. by destruct e. Qed.

(** The log of [s] has room for one more entry. *)
Definition has_room (s : Store) (e : Entry) : Prop :=
  st_log_bytes s + N.of_nat kStoreRecordHeaderBytes + blen (entry_payload e) +
    N.of_nat kStoreChainBytes <= max_log_bytes (st_options s) /\
  st_record_count s < max_records (st_options s).

(** What an append does to a store, as the code computes it. *)
Lemma append_spec s accepted e file :
  st_file s = Some file -> blen (entry_payload e) <= max_record_bytes (st_options s) ->
  options_wf (st_options s) ->
  let frame := entry_frame (st_chain s) (st_sequence s) e in
  (~ has_room s e /\ append s accepted e = (s, Status.LimitExceeded)) \/
  (has_room s e /\ (accepted < length frame)%nat /\
   append s accepted e = (set_file (Some (file ++ take accepted frame)) s, Status.Unavailable)) \/
  (has_room s e /\ (length frame <= accepted)%nat /\
   append s accepted e =
   (mkStore (Some (file ++ frame)) (st_options s) (wrap64 (st_sequence s + 1))
      (st_log_bytes s + blen frame) (st_record_count s + 1)
      (entry_chain (st_chain s) (st_sequence s) e) (st_durable s), Status.Ok)).
Proof.
  intros Hf Hp (_ & _ & _ & _ & Hlog & Hrec & _) frame. unfold has_room.
  assert (blen frame = N.of_nat kStoreRecordHeaderBytes + blen (entry_payload e) + N.of_nat kStoreChainBytes)
    as Hlen by (unfold blen, frame, entry_frame; rewrite length_record_frame; lia).
  rewrite append_write. unfold write_record. rewrite Hf, (proj2 (N.ltb_ge _ _)) by done.
  rewrite <-Hlen. cbn [andb].
  destruct (N.ltb_spec (max_log_bytes (st_options s)) (st_log_bytes s)) as [Hover|Hb]; cbn [orb].
  { left. split; [lia|done]. }
  destruct (N.ltb_spec (max_log_bytes (st_options s) - st_log_bytes s) (blen frame)) as [Hfull|Hfits].
  { left. split; [lia|done]. }
  destruct (N.leb_spec (max_records (st_options s)) (st_record_count s)) as [Hfull|Hcount].
  { left. split; [lia|done]. }
  right. unfold write_frame. fold (entry_frame (st_chain s) (st_sequence s) e). fold frame.
  destruct (Nat.leb_spec (length frame) accepted) as [Hall|Hsome]; cbn [negb].
  - right. split; [lia|]. split; [done|]. rewrite (firstn_all2 _ Hall).
    unfold wrap64 at 2 3. unfold u64_ok in *. by rewrite !N.mod_small by lia.
  - left. split; [lia|done].
Qed.

Lemma append_represents id es sc sc' s e accepted :
  represents id es sc s -> options_wf (st_options s) -> entry_wf (st_options s) e ->
  advance sc e = Some sc' -> has_room s e ->
  (length (entry_frame (sc_chain sc) (sc_sequence sc) e) <= accepted)%nat ->
  exists s', append s accepted e = (s', Status.Ok) /\ represents id (es ++ [e]) sc' s' /\
             st_options s' = st_options s.
Proof.
  intros [Hf Hwf Hs Hc Hq Hb Hr] Ho He Hadv Hroom Hacc. pose proof He as (_ & _ & _ & Hp & _).
  rewrite <-Hc, <-Hq in Hacc.
  destruct (append_spec s accepted e _ Hf Hp Ho) as [[Hno _]|[(_ & Hlt & _)|(_ & _ & ->)]]; [done|lia|].
  eexists. split; [done|]. split; [|done].
  split; cbn [st_file st_options st_chain st_sequence st_log_bytes st_record_count].
  - by rewrite (log_image_app id es e sc Hs), Hc, Hq.
  - apply Forall_app; by split; [|constructor].
  - by eapply replays_app.
  - by rewrite (advance_chain _ _ _ Hadv), Hc, Hq.
  - by rewrite (advance_sequence _ _ _ Hadv), Hq.
  - rewrite (log_image_app id es e sc Hs), Hb, Hc, Hq. unfold blen. rewrite length_app. lia.
  - by rewrite (advance_records _ _ _ Hadv), Hr.
Qed.

(** ** Opening a log with a damaged tail *)

Lemma length_log_image id es : blen (log_image id es) = 128 + blen (frames zero_chain 1 es).
Proof. unfold log_image, blen. rewrite length_app, length_file_header. unfold kStoreFileHeaderBytes. lia. Qed.

Lemma advance_all_records s es s' :
  advance_all s es = Some s' -> sc_records s' = sc_records s + N.of_nat (length es).
Proof.
  revert s. induction es as [|e es IH]; intros s; cbn [advance_all].
  - intros [= ->]. cbn. lia.
  - destruct (advance s e) as [s1|] eqn:E; [|done]. cbn [mbind option_bind].
    intros Hs%IH. rewrite Hs, (advance_records _ _ _ E). cbn [length]. lia.
Qed.

Lemma advance_abort sc id :
  sc_open sc = Some id -> exists sc', advance sc (EAbort id 0) = Some sc' /\ sc_open sc' = None /\
    sc_actions sc' = resolve_last true (sc_actions sc).
Proof.
  intros Ho. unfold advance, interpret. rewrite bool_decide_eq_true_2 by done.
  eexists. by split.
Qed.

(** The store right behind the scan of the log [es]. *)
Lemma represents_opened id es sc options :
  Forall (entry_wf options) es -> replays es sc ->
  represents id es sc
    (mkStore (Some (log_image id es)) options (sc_sequence sc) (blen (log_image id es)) (sc_records sc)
       (sc_chain sc) (durable_writes options)).
Proof. by split. Qed.

(** A tail at which the loop stops without a verdict against the log. *)
Definition damaged (options : StoreOptions) (sc : Scan) (tail : bytes) (ended : RecoveryFidelity) : Prop :=
  scan_from options sc tail = (ended, negb (bool_decide (tail = [])), sc, tail) /\
  (tail = [] /\ ended = RecoveryFidelity.Exact \/
   tail <> [] /\ (ended = RecoveryFidelity.TornTailTruncated \/ ended = RecoveryFidelity.DegradedTruncated)).

Definition room_to_close (options : StoreOptions) (id : StoreId) (es : list Entry) : Prop :=
  blen (log_image id es) + 96 <= max_log_bytes options /\
  N.of_nat (length es) < max_records options /\ 8 <= max_record_bytes options.

Lemma abort_wf options id :
  u64_ok id -> 8 <= max_record_bytes options -> entry_wf options (EAbort id 0).
Proof. by intros Hid H8. Qed.

Lemma abort_frame_size chain seq i at_ms : length (entry_frame chain seq (EAbort i at_ms)) = 96%nat.
Proof. unfold entry_frame. by rewrite length_record_frame. Qed.

Lemma abort_frame chain seq i at_ms : (length (entry_frame chain seq (EAbort i at_ms)) <= 4096)%nat.
Proof. rewrite abort_frame_size. lia. Qed.

Lemma replay_log_image options id es sc tail ended :
  Forall (entry_wf options) es -> replays es sc -> damaged options sc tail ended ->
  exists result,
    replay_log options (log_image id es ++ tail) = (result, sc, tail) /\
    rr_actions result = mark_ambiguous <$> sc_actions sc /\
    rep_fidelity (rr_report result) =
      (if bool_decide (sc_open sc <> None) && bool_decide (ended = RecoveryFidelity.Exact)
       then RecoveryFidelity.AmbiguousIntentResolved else ended) /\
    servable (rep_fidelity (rr_report result)) = true.
Proof.
  intros Hwf Hs [Hscan Hend]. unfold replay_log. rewrite (scan_image options id es sc tail) by done.
  rewrite Hscan. eexists. split_and!; [done..|]. cbn [rr_report rep_fidelity].
  destruct Hend as [[_ ->]|[_ [-> | ->]]]; by destruct (bool_decide (sc_open sc <> None)).
Qed.

Lemma open_log options random id es sc tail ended :
  options_wf options -> Forall (entry_wf options) es -> replays es sc ->
  damaged options sc tail ended ->
  blen (log_image id es ++ tail) <= max_log_bytes options + max_record_bytes options + 4096 ->
  (forall i, sc_open sc = Some i -> u64_ok i /\ room_to_close options id es) ->
  exists result store sc',
    open_store all_well random options (Some (log_image id es ++ tail)) =
      (Ok (result, store), Some (log_image id (es ++ closing sc))) /\
    represents id (es ++ closing sc) sc' store /\ st_options store = options /\ sc_open sc' = None /\
    rr_actions result = mark_ambiguous <$> sc_actions sc /\
    rep_fidelity (rr_report result) =
      (if bool_decide (sc_open sc <> None) && bool_decide (ended = RecoveryFidelity.Exact)
       then RecoveryFidelity.AmbiguousIntentResolved else ended) /\
    rep_truncated_on_open (rr_report result) = negb (bool_decide (tail = [])).
Proof.
  intros Hopt Hwf Hs Hdam Hsize Hroom.
  pose proof Hopt as (Hm1 & Hm2 & Hm3 & _ & _ & _ & Htrunc).
  destruct (replay_log_image options id es sc tail ended Hwf Hs Hdam) as (result & Hrep & Hact & Hfid & Hserv).
  pose proof (length_log_image id es) as Hlen.
  unfold open_store.
  rewrite (proj2 (N.eqb_neq (max_record_bytes options) 0)), (proj2 (N.eqb_neq (max_log_bytes options) 0)),
    (proj2 (N.eqb_neq (max_records options) 0)) by lia. cbn [orb].
  change (default [] (Some (log_image id es ++ tail))) with (log_image id es ++ tail).
  rewrite (proj2 (N.ltb_ge _ _)) by done.
  rewrite (proj2 (Nat.ltb_ge _ _)) by (unfold blen, kStoreFileHeaderBytes in *; rewrite length_app; lia).
  replace (check_header (log_image id es ++ tail)) with (@None ReplayResult)
    by (unfold log_image; by rewrite <-app_assoc, check_file_header).
  rewrite Hrep, Hserv. unfold resume_store. rewrite Htrunc. cbn [negb os_truncate os_reopen os_accepted os_flush all_well].
  rewrite !andb_false_r.
  assert (take (length (log_image id es ++ tail) - length tail) (log_image id es ++ tail) = log_image id es)
    as Hkept by (rewrite length_app, Nat.add_sub; by apply take_app_length).
  rewrite Hkept. pose proof (represents_opened id es sc options Hwf Hs) as Hst.
  set (store := mkStore _ _ _ _ _ _ _) in *. unfold closing.
  destruct (sc_open sc) as [i|] eqn:Hopen.
  - destruct (Hroom i eq_refl) as (Hi & Hbytes & Hcount & H8).
    destruct (advance_abort sc i Hopen) as (sc' & Hadv & Hnone & _).
    destruct (append_represents id es sc sc' store (EAbort i 0) 4096 Hst) as (store' & Happend & Hrep' & Ho');
      [done|by apply abort_wf|done| |apply abort_frame|].
    { unfold store. split; cbn [st_log_bytes st_options st_record_count].
      - change (blen (entry_payload (EAbort i 0))) with 8.
        unfold kStoreRecordHeaderBytes, kStoreChainBytes. lia.
      - rewrite (advance_all_records _ _ _ Hs). change (sc_records scan_start) with 0. lia. }
    cbn [append] in Happend. rewrite Happend. unfold flush, is_open.
    rewrite (rep_file _ _ _ _ Hrep'). cbn [is_ok negb bool_decide].
    exists (with_flags (negb (bool_decide (tail = []))) true result), store', sc'.
    split_and!; try done.
  - rewrite app_nil_r. exists (with_flags (negb (bool_decide (tail = []))) false result), store, sc.
    split_and!; try done.
Qed.

(** Cutting the bytes of a log leaves the frames of its first entries and a
    part of the next one. *)
Lemma frames_cut s es m s_end :
  advance_all s es = Some s_end ->
  exists kept lost s1 n,
    es = kept ++ lost /\ advance_all s kept = Some s1 /\
    take m (frames (sc_chain s) (sc_sequence s) es) =
      frames (sc_chain s) (sc_sequence s) kept ++
      match lost with [] => [] | e :: _ => take n (entry_frame (sc_chain s1) (sc_sequence s1) e) end /\
    (length (frames (sc_chain s) (sc_sequence s) kept) <= m)%nat /\
    match lost with
    | [] => True
    | e :: _ => (n < length (entry_frame (sc_chain s1) (sc_sequence s1) e) /\
                 m = length (frames (sc_chain s) (sc_sequence s) kept) + n)%nat
    end.
Proof.
  revert s m. induction es as [|e es IH]; intros s m Hs.
  { exists [], [], s, 0%nat. cbn. rewrite take_nil. split_and!; try done. lia. }
  cbn [advance_all] in Hs. destruct (advance s e) as [s1|] eqn:E; [|done]. cbn [mbind option_bind] in Hs.
  set (frame := entry_frame (sc_chain s) (sc_sequence s) e).
  destruct (decide (m < length frame)%nat) as [Hlt|Hge].
  - exists [], (e :: es), s, m. split_and!; try done; [|cbn; lia]. cbn [frames app]. fold frame.
    by rewrite take_app_le by lia.
  - destruct (IH s1 (m - length frame)%nat Hs) as (kept & lost & s2 & n & -> & H1 & H2 & Hle & H3).
    rewrite (advance_chain _ _ _ E), (advance_sequence _ _ _ E) in H2, Hle, H3.
    exists (e :: kept), lost, s2, n. split_and!; [done|cbn [advance_all]; by rewrite E| | |].
    + cbn [app frames]. fold frame. rewrite take_app_ge by lia. by rewrite H2, <-app_assoc.
    + cbn [frames]. fold frame. rewrite length_app. lia.
    + destruct lost; [done|]. destruct H3 as [Hn Hm]. split; [done|].
      cbn [frames]. fold frame. rewrite length_app. lia.
Qed.

Lemma advance_all_sequence s es s' :
  u64_ok (sc_sequence s) -> advance_all s es = Some s' -> u64_ok (sc_sequence s').
Proof.
  revert s. induction es as [|e es IH]; intros s Hs; cbn [advance_all]; [by intros [= <-]|].
  destruct (advance s e) as [s1|] eqn:E; [|done]. apply IH.
  rewrite (advance_sequence _ _ _ E). apply wrap64_u64.
Qed.

Definition open_u64 (s : Scan) : Prop := forall i, sc_open s = Some i -> u64_ok i.

Lemma advance_open options s e s' :
  entry_wf options e -> open_u64 s -> advance s e = Some s' -> open_u64 s'.
Proof.
  intros (Hi & _) Hs Hadv. unfold advance in Hadv.
  destruct (interpret s e) as [[[[o acts] n] ep]|] eqn:E; [|done]. cbn [mbind option_bind] in Hadv.
  apply (f_equal (fun x => sc_open <$> x)) in Hadv. cbn [fmap option_fmap option_map sc_open] in Hadv.
  intros i Hopen. rewrite Hopen in Hadv. injection Hadv as ->.
  destruct e; cbn in E; repeat case_match; simplify_eq; first [done|by apply Hs].
Qed.

Lemma advance_all_open options s es s' :
  Forall (entry_wf options) es -> open_u64 s -> advance_all s es = Some s' -> open_u64 s'.
Proof.
  intros Hwf. revert s. induction Hwf as [|e es He _ IH]; intros s Hs; cbn [advance_all]; [by intros [= <-]|].
  destruct (advance s e) as [s1|] eqn:E; [|done]. apply IH. by eapply advance_open.
Qed.

Lemma log_image_le id kept lost s :
  replays kept s -> (forall s', advance_all s lost = Some s' -> blen (log_image id kept) <= blen (log_image id (kept ++ lost))).
Proof.
  revert kept s. induction lost as [|e lost IH]; intros kept s Hk s' Hs; [by rewrite app_nil_r|].
  cbn [advance_all] in Hs. destruct (advance s e) as [s1|] eqn:E; [|done]. cbn [mbind option_bind] in Hs.
  pose proof (IH (kept ++ [e]) s1 (replays_app _ _ _ _ Hk E) s' Hs) as Hle.
  rewrite <-app_assoc in Hle. cbn [app] in Hle.
  rewrite (log_image_app id kept e s Hk) in Hle. unfold blen in *. rewrite length_app in Hle. lia.
Qed.

Lemma damaged_none options sc : damaged options sc [] RecoveryFidelity.Exact.
Proof. split; [done|by left]. Qed.

Lemma damaged_torn options s e n :
  entry_wf options e -> u64_ok (sc_sequence s) ->
  (n < length (entry_frame (sc_chain s) (sc_sequence s) e))%nat ->
  exists ended, damaged options s (take n (entry_frame (sc_chain s) (sc_sequence s) e)) ended.
Proof.
  intros He Hs Hn. destruct (decide (n = 0%nat)) as [->|Hne].
  { exists RecoveryFidelity.Exact. apply damaged_none. }
  exists RecoveryFidelity.TornTailTruncated.
  assert (take n (entry_frame (sc_chain s) (sc_sequence s) e) <> []) as Hcut.
  { intros Hcut%(f_equal length). rewrite length_take in Hcut. cbn in Hcut. lia. }
  split; [|by right; split; [|left]].
  rewrite scan_from_torn by done. by rewrite !bool_decide_eq_false_2 by done.
Qed.

Lemma damaged_zeros options s n :
  (0 < n)%nat -> damaged options s (replicate n x00) RecoveryFidelity.DegradedTruncated.
Proof.
  intros Hn. assert (replicate n x00 <> []) as Hne by (by destruct n; [lia|]).
  split; [|by right; split; [|right]]. rewrite scan_from_zeros by done. by rewrite bool_decide_eq_false_2.
Qed.

(** A log whose intents are all closed opens exactly, and stays as it is. *)
Lemma open_clean options random id es sc :
  options_wf options -> Forall (entry_wf options) es -> replays es sc -> sc_open sc = None ->
  blen (log_image id es) <= max_log_bytes options + max_record_bytes options + 4096 ->
  exists result store,
    open_store all_well random options (Some (log_image id es)) =
      (Ok (result, store), Some (log_image id es)) /\
    represents id es sc store /\ st_options store = options /\
    rr_actions result = mark_ambiguous <$> sc_actions sc /\
    rep_fidelity (rr_report result) = RecoveryFidelity.Exact /\
    rep_truncated_on_open (rr_report result) = false.
Proof.
  intros Hopt Hwf Hs Hclosed Hsize.
  destruct (open_log options random id es sc [] RecoveryFidelity.Exact Hopt Hwf Hs) as
    (result & store & sc' & Hopen & Hrep & Hopts & _ & Hact & Hfid & Htr).
  - apply damaged_none.
  - by rewrite app_nil_r.
  - by rewrite Hclosed.
  - assert (closing sc = []) as Hnil by (unfold closing; by rewrite Hclosed).
    rewrite Hnil, !app_nil_r in *. rewrite Hclosed in Hfid. exists result, store. split_and!; try done.
    pose proof (rep_replays _ _ _ _ Hrep) as Hs'. unfold replays in Hs, Hs'. rewrite Hs in Hs'.
    by injection Hs' as <-.
Qed.

Lemma crash_opens options random id es sc m :
  options_wf options -> Forall (entry_wf options) es -> replays es sc ->
  room_to_close options id es -> (128 <= m)%nat ->
  exists kept lost sc1 result store sc2 again store',
    es = kept ++ lost /\ replays kept sc1 /\ (length (log_image id kept) <= m)%nat /\
    match lost with [] => True | e :: _ => (m < length (log_image id (kept ++ [e])))%nat end /\
    let file := Some (log_image id (kept ++ closing sc1)) in
    open_store all_well random options (Some (take m (log_image id es))) = (Ok (result, store), file) /\
    represents id (kept ++ closing sc1) sc2 store /\ st_options store = options /\
    servable (rep_fidelity (rr_report result)) = true /\
    rr_actions result = mark_ambiguous <$> sc_actions sc1 /\
    open_store all_well random options file = (Ok (again, store'), file) /\
    represents id (kept ++ closing sc1) sc2 store' /\ rr_actions again = mark_ambiguous <$> sc_actions sc2 /\
    rep_fidelity (rr_report again) = RecoveryFidelity.Exact /\
    rep_truncated_on_open (rr_report again) = false.
Proof.
  intros Hopt Hwf Hs (Hroom & Hcount & H8) Hm.
  destruct (frames_cut scan_start es (m - 128) sc Hs) as (kept & lost & sc1 & n & -> & Hk & Hcut & Hkeep & Hn).
  set (tail := match lost with [] => [] | e :: _ => _ end) in Hcut.
  apply Forall_app in Hwf as [Hwk Hwl].
  assert (take m (log_image id (kept ++ lost)) = log_image id kept ++ tail) as Htake.
  { unfold log_image. rewrite take_app_ge by (rewrite length_file_header; unfold kStoreFileHeaderBytes; lia).
    rewrite length_file_header, <-app_assoc. by f_equal. }
  assert (u64_ok (sc_sequence sc1)) as Hseq by (by eapply (advance_all_sequence scan_start kept)).
  assert (exists ended, damaged options sc1 tail ended) as [ended Hdam].
  { unfold tail. destruct lost as [|e lost]; [by eexists; apply damaged_none|].
    apply Forall_cons in Hwl as [He _]. apply damaged_torn; [done..|apply Hn]. }
  assert (open_u64 sc1) as Hopen by (by eapply (advance_all_open options scan_start kept)).
  unfold replays in Hs. rewrite advance_all_app, Hk in Hs. cbn [mbind option_bind] in Hs.
  pose proof (log_image_le id kept lost sc1 Hk sc Hs) as Hle.
  assert (room_to_close options id kept) as Hroomk.
  { split_and!; [lia| |done]. rewrite length_app in Hcount. lia. }
  destruct (open_log options random id kept sc1 tail ended Hopt Hwk Hk Hdam) as
    (result & store & sc2 & Ho1 & Hrep & Hopts & Hclosed & Hact & Hfid1 & _).
  { rewrite <-Htake. unfold blen in *. rewrite length_take. lia. }
  { intros i Hi. split; [by apply Hopen|done]. }
  destruct (open_clean options random id (kept ++ closing sc1) sc2 Hopt) as
    (again & store' & Ho2 & Hrep2 & _ & Hact2 & Hfid & Htr); [rewrite <-Hopts; apply Hrep|apply Hrep|done| |].
  { unfold closing. destruct (sc_open sc1); [|rewrite app_nil_r; lia].
    rewrite (log_image_app id kept _ sc1 Hk). unfold blen in *. rewrite length_app, abort_frame_size. lia. }
  exists kept, lost, sc1, result, store, sc2, again, store'. rewrite Htake. split_and!; try done.
  3:{ rewrite Hfid1. destruct Hdam as [_ [[_ ->]|[_ [-> | ->]]]]; by destruct (bool_decide (sc_open sc1 <> None)). }
  { unfold log_image. rewrite length_app, length_file_header. unfold kStoreFileHeaderBytes.
    change (sc_chain scan_start) with zero_chain in Hkeep. change (sc_sequence scan_start) with 1 in Hkeep. lia. }
  destruct lost as [|e lost]; [done|]. rewrite (log_image_app id kept e sc1 Hk), length_app.
  unfold log_image. rewrite length_app, length_file_header. change (sc_chain scan_start) with zero_chain in Hn.
  change (sc_sequence scan_start) with 1 in Hn. unfold kStoreFileHeaderBytes. lia.
Qed.

(** A file that does not hold its header becomes an empty log. *)
Lemma open_headless options random data :
  options_wf options -> (length data < kStoreFileHeaderBytes)%nat ->
  exists result store,
    open_store all_well random options (Some data) = (Ok (result, store), Some (log_image random [])) /\
    represents random [] scan_start store /\ rr_actions result = [] /\
    rep_fidelity (rr_report result) = RecoveryFidelity.Missing.
Proof.
  intros (Hm1 & Hm2 & Hm3 & _) Hlen. unfold open_store.
  rewrite (proj2 (N.eqb_neq (max_record_bytes options) 0)), (proj2 (N.eqb_neq (max_log_bytes options) 0)),
    (proj2 (N.eqb_neq (max_records options) 0)) by lia. cbn [orb default].
  rewrite (proj2 (N.ltb_ge _ _)) by (unfold blen, kStoreFileHeaderBytes in *; cbn; lia).
  rewrite (proj2 (Nat.ltb_lt _ _)) by done.
  assert (log_image random [] = file_header random) as -> by (unfold log_image; cbn [frames]; by rewrite app_nil_r).
  do 2 eexists. split; [done|]. split_and!; try done.
Qed.

(** ** Properties *)

(** C26: the loop of [open] ends on every file, and the executable scan is that
    loop: it never runs out of the fuel it is given. *)
Theorem scan_terminates options data : loop_ends options scan_start data (scan options data).
Proof. apply scan_from_ends. Qed.

(** C25: appending an entry either extends the log by exactly this entry, when
    there is room and the file takes the whole frame; or refuses it and leaves
    the store as it was, when there is no room; or leaves the log with a part
    of the frame behind it, when the file takes no more. *)
Theorem append_refines id es sc sc' s e accepted :
  represents id es sc s -> options_wf (st_options s) -> entry_wf (st_options s) e ->
  advance sc e = Some sc' ->
  let frame := entry_frame (sc_chain sc) (sc_sequence sc) e in
  let '(s', status) := append s accepted e in
  match status with
  | Status.Ok => has_room s e /\ (length frame <= accepted)%nat /\ represents id (es ++ [e]) sc' s'
  | Status.LimitExceeded => ~ has_room s e /\ s' = s
  | Status.Unavailable =>
      has_room s e /\ (accepted < length frame)%nat /\
      st_file s' = Some (log_image id es ++ take accepted frame)
  | _ => False
  end.
Proof.
  intros Hrep Ho He Hadv frame. pose proof Hrep as [Hf _ _ Hc Hq _ _]. pose proof He as (_ & _ & _ & Hp & _).
  destruct (append_spec s accepted e _ Hf Hp Ho) as [[Hno ->]|[(Hroom & Hlt & ->)|(Hroom & Hle & Happ)]];
    rewrite ?Hc, ?Hq in *.
  - by split.
  - by split_and!.
  - destruct (append_represents id es sc sc' s e accepted Hrep Ho He Hadv Hroom Hle) as (s' & -> & Hs' & _).
    by split_and!.
Qed.

(** C23: a crash keeps any number of bytes of a log with room for one more record.
    Opening what is left succeeds when the calls of the operating system do.  Unless the header itself is cut, it recovers
    every entry whose frame is complete, in order, cuts the rest off, closes an
    intent left open by an abort record, and leaves a log that the store represents;
    a second opening finds exactly this log, with its actions and nothing to
    repair.  A file without its header becomes an empty log. *)
Theorem crash_recovers options random id es sc m :
  options_wf options -> Forall (entry_wf options) es -> replays es sc -> room_to_close options id es ->
  let cut := Some (take m (log_image id es)) in
  if (m <? kStoreFileHeaderBytes)%nat
  then exists result store,
    open_store all_well random options cut = (Ok (result, store), Some (log_image random [])) /\
    represents random [] scan_start store /\ rr_actions result = [] /\
    rep_fidelity (rr_report result) = RecoveryFidelity.Missing
  else exists kept lost sc1 result store sc2 again store',
    es = kept ++ lost /\ replays kept sc1 /\ (length (log_image id kept) <= m)%nat /\
    match lost with [] => True | e :: _ => (m < length (log_image id (kept ++ [e])))%nat end /\
    let file := Some (log_image id (kept ++ closing sc1)) in
    open_store all_well random options cut = (Ok (result, store), file) /\
    represents id (kept ++ closing sc1) sc2 store /\
    rr_actions result = mark_ambiguous <$> sc_actions sc1 /\
    open_store all_well random options file = (Ok (again, store'), file) /\
    represents id (kept ++ closing sc1) sc2 store' /\ rr_actions again = mark_ambiguous <$> sc_actions sc2 /\
    rep_fidelity (rr_report again) = RecoveryFidelity.Exact /\
    rep_truncated_on_open (rr_report again) = false.
Proof.
  intros Hopt Hwf Hs Hroom cut. destruct (Nat.ltb_spec m kStoreFileHeaderBytes) as [Hm|Hm].
  - apply open_headless; [exact Hopt|]. rewrite length_take. lia.
  - destruct (crash_opens options random id es sc m Hopt Hwf Hs Hroom Hm) as
      (kept & lost & sc1 & result & store & sc2 & again & store' & ? & ? & ? & ? & Ho & Hrep & _ & _ & Hrest).
    by exists kept, lost, sc1, result, store, sc2, again, store'.
Qed.

(** ** Witnesses *)

Definition sample_changes : list StateChange := change_for <$> [OSite (Sample.site 1)].

(** A committed intent and one that is still open. *)
Definition sample_log : list Entry :=
  [EIntent 1 (mkArbSeq 10) sample_changes 20 (Sample.id 900); ECommit 1 20;
   EIntent 2 (mkArbSeq 11) sample_changes 30 (Sample.id 900)].

Definition scan_of (es : list Entry) : Scan := default scan_start (advance_all scan_start es).

Lemma sample_log_wf : Forall (entry_wf default_options) sample_log.
Proof.
  repeat constructor; try (by vm_compute); split_and?; try (by vm_compute).
Qed.

Lemma sample_log_replays : replays sample_log (scan_of sample_log).
Proof. unfold replays, scan_of. by destruct (advance_all scan_start sample_log) eqn:E; [|vm_compute in E]. Qed.

Lemma default_options_wf : options_wf default_options.
Proof. by vm_compute. Qed.

Lemma sample_room : room_to_close default_options (Sample.id 500) sample_log.
Proof. by vm_compute. Qed.

Lemma crash_recovers_witness :
  room_to_close default_options (Sample.id 500) sample_log /\
  exists kept lost result store file,
    sample_log = kept ++ lost /\
    open_store all_well (Sample.id 1) default_options
      (Some (take 400 (log_image (Sample.id 500) sample_log))) = (Ok (result, store), file).
Proof.
  split; [exact sample_room|].
  destruct (crash_recovers default_options (Sample.id 1) (Sample.id 500) sample_log (scan_of sample_log) 400
    default_options_wf sample_log_wf sample_log_replays sample_room)
    as (kept & lost & sc1 & result & store & sc2 & again & store' & Hes & _ & _ & _ & Hopen & _).
  eexists kept, lost, result, store, _. split; [exact Hes|exact Hopen].
Defined.

(** The store with the first two entries of the sample log. *)
Definition sample_store : Store :=
  let es := take 2 sample_log in let sc := scan_of es in
  mkStore (Some (log_image (Sample.id 500) es)) default_options (sc_sequence sc)
    (blen (log_image (Sample.id 500) es)) (sc_records sc) (sc_chain sc) true.

Definition third_entry : Entry := EIntent 2 (mkArbSeq 11) sample_changes 30 (Sample.id 900).

Lemma sample_represents :
  represents (Sample.id 500) (take 2 sample_log) (scan_of (take 2 sample_log)) sample_store.
Proof.
  split; try done.
  - apply Forall_take, sample_log_wf.
Qed.

Lemma append_refines_witness :
  represents (Sample.id 500) (take 2 sample_log) (scan_of (take 2 sample_log)) sample_store /\
  (append sample_store 0 third_entry).2 = Status.Unavailable.
Proof.
  split; [exact sample_represents|].
  assert (entry_wf default_options third_entry) as Hwf
    by (pose proof sample_log_wf as Hall; rewrite Forall_forall in Hall; apply Hall; do 2 right; left).
  assert (exists sc', advance (scan_of (take 2 sample_log)) third_entry = Some sc') as [sc' Hadv]
    by (eexists; vm_compute; reflexivity).
  pose proof (append_refines (Sample.id 500) (take 2 sample_log) (scan_of (take 2 sample_log))
    sc' sample_store third_entry 0 sample_represents default_options_wf Hwf Hadv) as Happ.
  cbv zeta in Happ. destruct (append sample_store 0 third_entry) as [s' status].
  destruct status; try done; exfalso.
  - destruct Happ as (_ & Hle & _). apply Nat.le_0_r in Hle.
    unfold entry_frame in Hle. rewrite length_record_frame in Hle. unfold kStoreRecordHeaderBytes in Hle. lia.
  - destruct Happ as [Hno _]. apply Hno. by vm_compute.
Defined.
