(* ===== verification/Compaction.v ===== *)
(** * Compaction of the log (src/store.cpp)

    [compact] writes a fresh log that holds one snapshot next to the old one and
    swaps the two by renames; [settle_compaction_artifacts] resolves what a
    crash between the renames has left, before a store is opened. *)

From Stdlib Require Import Strings.Byte.
From S2P Require Import Prelude Outcome Ids Wire Model Codecs State Changes Digest Snapshot Store.
From S2P Require Import Invariants WellFormed Journal.

(** The log under its own name, and its two siblings ".new" and ".old". *)
Record Files := mkFiles {
  f_primary : option bytes;
  f_fresh : option bytes;
  f_previous : option bytes;
}.

(** A removal that may fail, which the code ignores. *)
Definition removed (done : bool) (f : option bytes) : option bytes := if done then None else f.

(** The answers to the calls of [settle_compaction_artifacts]. *)
Record SettleAnswers := mkSettleAnswers {
  sa_rename : bool;
  sa_remove_fresh : bool;
  sa_remove_previous : bool;
}.

Definition settle (os : SettleAnswers) (fs : Files) : Files * Status :=
  match f_primary fs, f_fresh fs with
  | None, Some fresh =>
      if sa_rename os
      then (mkFiles (Some fresh) None (removed (sa_remove_previous os) (f_previous fs)), Status.Ok)
      else (fs, Status.Unavailable)
  | primary, fresh =>
      let fresh := if bool_decide (primary <> None) then removed (sa_remove_fresh os) fresh else fresh in
      match primary, f_previous fs with
      | Some log, previous =>
          (mkFiles (Some log) fresh (removed (sa_remove_previous os) previous), Status.Ok)
      | None, Some previous =>
          if sa_rename os then (mkFiles (Some previous) fresh None, Status.Ok)
          else (mkFiles None fresh (Some previous), Status.Unavailable)
      | None, None => (mkFiles None fresh None, Status.Ok)
      end
  end.

(** The answers to the calls of [compact]: removing a stale fresh file, creating
    the fresh file, the bytes it takes, its flush, removing it when it is not
    complete, removing a stale previous file, the two renames, the rename back,
    removing the previous log, the reopening. *)
Record CompactAnswers := mkCompactAnswers {
  ca_clear : bool;
  ca_create : bool;
  ca_accepted : nat;
  ca_sync : bool;
  ca_discard : bool;
  ca_forget : bool;
  ca_aside : bool;
  ca_promote : bool;
  ca_restore : bool;
  ca_drop : bool;
  ca_reopen : bool;
}.

(** The fresh log. *)
Definition compact_image (random : StoreId) (snapshot : AuthoritySnapshot) (at_ms : N)
    (origin : Incarnation) : bytes :=
  file_header random ++
  record_frame zero_chain RecordType.Snapshot (encode_snapshot snapshot) 1 0 at_ms origin.

(** [compact] of a store that has a path; [random] is the identity of the fresh
    log.  The files are listed as they are on disk behind each of its calls, from
    the first to the last: a crash finds one of them.  While the fresh log is
    written any part of its bytes may be there. *)
Definition compact_run (os : CompactAnswers) (random : StoreId) (s : Store) (fs : Files)
    (snapshot : AuthoritySnapshot) (at_ms : N) (origin : Incarnation) : Store * list Files * Status :=
  let payload := encode_snapshot snapshot in
  if max_record_bytes (st_options s) <? blen payload then (s, [fs], Status.LimitExceeded)
  else
    let cleared := mkFiles (f_primary fs) (removed (ca_clear os) (f_fresh fs)) (f_previous fs) in
    if negb (ca_create os) then (s, [fs; cleared], Status.Unavailable)
    else
      let image := compact_image random snapshot at_ms origin in
      let holding n := mkFiles (f_primary fs) (Some (take n image)) (f_previous fs) in
      let taken := Nat.min (ca_accepted os) (length image) in
      let writing := [fs; cleared] ++ (holding <$> seq 0 (S taken)) in
      if (taken <? length image)%nat || negb (ca_sync os) then
        let discarded :=
          mkFiles (f_primary fs) (removed (ca_discard os) (Some (take taken image))) (f_previous fs) in
        (s, writing ++ [discarded], Status.Unavailable)
      else
        let closed := set_file None s in
        let had_primary := bool_decide (f_primary fs <> None) in
        let forgotten := mkFiles (f_primary fs) (Some image) (removed (ca_forget os) (f_previous fs)) in
        let written := writing ++ [forgotten] in
        if had_primary && negb (ca_aside os) then (closed, written, Status.Unavailable)
        else
          let aside := if had_primary then mkFiles None (Some image) (f_primary fs) else forgotten in
          if negb (ca_promote os) then
            let restored := mkFiles (f_primary fs) (Some image) None in
            (closed, written ++ [aside] ++ (if had_primary && ca_restore os then [restored] else []),
             Status.Unavailable)
          else
            let promoted := mkFiles (Some image) None (f_previous aside) in
            let swapped := mkFiles (Some image) None (removed (ca_drop os) (f_previous aside)) in
            let states := written ++ [aside; promoted; swapped] in
            if negb (ca_reopen os) then (closed, states, Status.Unavailable)
            else
              (mkStore (Some image) (st_options s) 2
                 (N.of_nat kStoreFileHeaderBytes + N.of_nat kStoreRecordHeaderBytes + blen payload +
                  N.of_nat kStoreChainBytes) 1
                 (record_chain zero_chain RecordType.Snapshot payload 1 0 at_ms origin)
                 (st_durable s), states, Status.Ok).

(** [compact] with the files it leaves. *)
Definition compact (os : CompactAnswers) (random : StoreId) (s : Store) (fs : Files)
    (snapshot : AuthoritySnapshot) (at_ms : N) (origin : Incarnation) : Store * Files * Status :=
  let '(s, states, status) := compact_run os random s fs snapshot at_ms origin in
  (s, default fs (last states), status).

(** The log of one snapshot is read as that snapshot. *)
Lemma snapshot_scan snapshot at_ms origin :
  exists sc, replays [ESnapshot snapshot at_ms origin] sc /\ sc_open sc = None /\
    sc_actions sc = [mkReplayAction (ActionSnapshot snapshot) at_ms 0 origin true false false].
Proof.
  unfold replays. cbn [advance_all]. unfold advance. cbn [interpret mbind option_bind]. by eexists.
Qed.

(** ** Crashes *)

(** Every call of the settlement succeeds. *)
Definition settled : SettleAnswers := mkSettleAnswers true true true.

Section Crash.
Context (random : StoreId) (snapshot : AuthoritySnapshot) (at_ms : N) (origin : Incarnation).

Definition fresh_image : bytes := compact_image random snapshot at_ms origin.

(** The three situations a compaction of the log [old] passes through: the old log
    is in its place, it is moved aside, the new one is in its place. *)
Inductive compacting (old : bytes) : Files -> Prop :=
| compacting_kept fresh previous : compacting old (mkFiles (Some old) fresh previous)
| compacting_aside : compacting old (mkFiles None (Some fresh_image) (Some old))
| compacting_promoted previous : compacting old (mkFiles (Some fresh_image) None previous).

(** The files are in one of them behind every call of [compact]. *)
Lemma compact_passes os s old fs :
  f_primary fs = Some old ->
  Forall (compacting old) (compact_run os random s fs snapshot at_ms origin).1.2.
Proof.
  intros Hold. assert (compacting old fs) as Hfs by (destruct fs; cbn in Hold; subst; constructor).
  unfold compact_run. fold fresh_image. rewrite Hold. rewrite (bool_decide_eq_true_2 (Some old <> None)) by done.
  cbn [andb]. destruct (_ <? _); [by repeat constructor|].
  destruct (negb (ca_create os)); [by repeat constructor|].
  set (writing := [fs; _] ++ _).
  assert (Forall (compacting old) writing) as Hwriting.
  { apply Forall_app. split; [by repeat constructor|]. apply Forall_fmap, Forall_true. constructor. }
  destruct (_ || _); [apply Forall_app; split; [exact Hwriting|by repeat constructor]|].
  destruct (negb (ca_aside os)); [apply Forall_app; split; [exact Hwriting|by repeat constructor]|].
  destruct (negb (ca_promote os)); [|destruct (negb (ca_reopen os))]; cbn [fst snd];
    rewrite <-?app_assoc; (apply Forall_app; split; [exact Hwriting|]);
    [destruct (ca_restore os)|..]; by repeat constructor.
Qed.

Lemma compact_run_last os s fs :
  exists found, last (compact_run os random s fs snapshot at_ms origin).1.2 = Some found.
Proof.
  apply last_is_Some. unfold compact_run. by repeat case_match.
Qed.

(** Whatever its calls answer, [compact] leaves the files in one of them. *)
Lemma compact_leaves os s old fs :
  f_primary fs = Some old -> compacting old (compact os random s fs snapshot at_ms origin).1.2.
Proof.
  intros Hold. pose proof (compact_passes os s old fs Hold) as H.
  destruct (compact_run_last os s fs) as [found Hlast]. unfold compact.
  destruct (compact_run _ _ _ _ _ _ _) as [[s' states] status]. cbn [fst snd] in *. rewrite Hlast. cbn.
  rewrite Forall_forall in H. apply H. by apply last_Some_elem_of.
Qed.

(** A compaction that fails keeps the store or leaves it closed. *)
Lemma compact_fails os s fs :
  let '(s', _, status) := compact os random s fs snapshot at_ms origin in
  s' = s \/ st_file s' = None \/ status = Status.Ok.
Proof.
  unfold compact, compact_run.
  destruct (_ <? _); [by left|]. destruct (negb (ca_create os)); [by left|].
  destruct (_ || _); [by left|]. destruct (_ && negb (ca_aside os)); [by right; left|].
  destruct (negb (ca_promote os)); [by right; left|].
  destruct (negb (ca_reopen os)); [by right; left|by right; right].
Qed.

Lemma compact_image_log : fresh_image = log_image random [ESnapshot snapshot at_ms origin].
Proof.
  unfold fresh_image, compact_image, log_image. cbn [frames]. by rewrite app_nil_r.
Qed.

(** A compaction that succeeds leaves the store with the log of one snapshot. *)
Lemma compact_represents os s fs s' states :
  entry_wf (st_options s) (ESnapshot snapshot at_ms origin) ->
  compact_run os random s fs snapshot at_ms origin = (s', states, Status.Ok) ->
  exists sc, represents random [ESnapshot snapshot at_ms origin] sc s' /\ st_options s' = st_options s /\
    (exists previous, last states = Some (mkFiles (st_file s') None previous)) /\
    sc_open sc = None /\
    sc_actions sc = [mkReplayAction (ActionSnapshot snapshot) at_ms 0 origin true false false].
Proof.
  intros Hwf. unfold compact_run. fold fresh_image.
  destruct (_ <? _); [done|]. destruct (negb (ca_create os)); [done|].
  destruct (_ || _); [done|]. destruct (_ && negb (ca_aside os)); [done|].
  destruct (negb (ca_promote os)); [done|]. destruct (negb (ca_reopen os)); [done|].
  intros [[<- <-]%pair_equal_spec _]%pair_equal_spec.
  destruct (snapshot_scan snapshot at_ms origin) as (sc & Hs & Ho & Ha).
  pose proof Hs as Hadv. unfold replays in Hadv. cbn [advance_all] in Hadv.
  destruct (advance scan_start _) as [sc0|] eqn:E; [|done]. injection Hadv as ->.
  exists sc. split_and!; [|done| |done..].
  2:{ rewrite last_app_cons. by eexists. }
  split; cbn [st_file st_options st_chain st_sequence st_log_bytes st_record_count].
  - by rewrite compact_image_log.
  - by apply Forall_singleton.
  - done.
  - by rewrite (advance_chain _ _ _ E).
  - by rewrite (advance_sequence _ _ _ E).
  - rewrite length_log_image. cbn [frames]. rewrite app_nil_r. unfold blen, entry_frame.
    rewrite length_record_frame. cbn [entry_payload].
    unfold kStoreFileHeaderBytes, kStoreRecordHeaderBytes, kStoreChainBytes. lia.
  - by rewrite (advance_records _ _ _ E).
Qed.

(** Settling gives the old log in the first situation, the new one in the others;
    a removal that fails leaves a sibling, which the next start removes. *)
Lemma settle_compacting sa old fs :
  compacting old fs -> sa_rename sa = true ->
  exists log fresh previous, settle sa fs = (mkFiles (Some log) fresh previous, Status.Ok) /\
    (log = old \/ log = fresh_image) /\ (sa = settled -> fresh = None /\ previous = None).
Proof.
  intros Hfs Hr. unfold settle. destruct Hfs as [fresh previous| |previous]; cbn [f_primary f_fresh f_previous].
  - do 3 eexists. split; [done|]. split; [by left|by intros ->].
  - rewrite Hr. do 3 eexists. split; [done|]. split; [by right|by intros ->].
  - do 3 eexists. split; [done|]. split; [by right|by intros ->].
Qed.
(** A compaction succeeds when every call of it does. *)
Lemma compact_succeeds s fs accepted :
  blen (encode_snapshot snapshot) <= max_record_bytes (st_options s) -> (length fresh_image <= accepted)%nat ->
  (compact_run (mkCompactAnswers true true accepted true true true true true true true true) random s fs snapshot
     at_ms origin).2 = Status.Ok.
Proof.
  intros Hfits Hlen. unfold compact_run. fold fresh_image. rewrite (proj2 (N.ltb_ge _ _)) by done.
  cbn [ca_create ca_accepted ca_sync ca_aside ca_promote ca_reopen negb]. rewrite andb_false_r.
  rewrite Nat.min_r, Nat.ltb_irrefl by done. done.
Qed.

(** Either log opens exactly. *)
Lemma opens_either draw id es sc s log :
  represents id es sc s -> sc_open sc = None -> options_wf (st_options s) ->
  entry_wf (st_options s) (ESnapshot snapshot at_ms origin) ->
  blen (log_image id es) <= max_log_bytes (st_options s) + max_record_bytes (st_options s) + 4096 ->
  blen fresh_image <= max_log_bytes (st_options s) + max_record_bytes (st_options s) + 4096 ->
  log = log_image id es \/ log = fresh_image ->
  exists result store,
    open_store all_well draw (st_options s) (Some log) = (Ok (result, store), Some log) /\
    rep_fidelity (rr_report result) = RecoveryFidelity.Exact /\
    (log = log_image id es /\ rr_actions result = mark_ambiguous <$> sc_actions sc \/
     log = fresh_image /\
     rr_actions result = [mkReplayAction (ActionSnapshot snapshot) at_ms 0 origin true false false]).
Proof.
  intros Hrep Hclosed Hopt Hsnap Hold Hnew [-> | ->].
  - destruct (open_clean (st_options s) draw id es sc) as (result & store & Ho & _ & _ & Hact & Hfid & _);
      [done|apply Hrep|apply Hrep|done..|].
    exists result, store. split_and!; [done..|]. by left.
  - rewrite compact_image_log in *. destruct (snapshot_scan snapshot at_ms origin) as (sc' & Hs' & Ho' & Ha').
    destruct (open_clean (st_options s) draw random [ESnapshot snapshot at_ms origin] sc')
      as (result & store & Ho & _ & _ & Hact & Hfid & _);
      [exact Hopt|rewrite Forall_singleton; exact Hsnap|exact Hs'|exact Ho'|exact Hnew|].
    exists result, store. split_and!; [exact Ho|exact Hfid|]. right. split; [done|]. by rewrite Hact, Ha'.
Qed.
End Crash.

(** ** Properties *)

(** C24: compaction is atomic.  Whatever the operating system answers [compact], at
    whichever of its calls the process dies, and whatever removals fail at the
    next start: as long as the settlement's renames work, settling puts one log in
    place, which opens exactly, as the old log or as the log of the snapshot alone.
    When [compact] answers Ok the store goes on with the snapshot's log, which is
    the file in place; otherwise the store is as it was, or closed. *)
Theorem compaction_crash_safe os random s fs snapshot at_ms origin id es sc :
  represents id es sc s -> sc_open sc = None -> options_wf (st_options s) -> f_primary fs = st_file s ->
  entry_wf (st_options s) (ESnapshot snapshot at_ms origin) ->
  blen (log_image id es) <= max_log_bytes (st_options s) + max_record_bytes (st_options s) + 4096 ->
  blen (fresh_image random snapshot at_ms origin) <=
    max_log_bytes (st_options s) + max_record_bytes (st_options s) + 4096 ->
  let '(s', states, status) := compact_run os random s fs snapshot at_ms origin in
  (forall found sa draw, found ∈ states -> sa_rename sa = true ->
     exists log fresh previous result store,
       settle sa found = (mkFiles (Some log) fresh previous, Status.Ok) /\
       open_store all_well draw (st_options s) (Some log) = (Ok (result, store), Some log) /\
       rep_fidelity (rr_report result) = RecoveryFidelity.Exact /\
       (log = log_image id es /\ rr_actions result = mark_ambiguous <$> sc_actions sc \/
        log = fresh_image random snapshot at_ms origin /\
        rr_actions result = [mkReplayAction (ActionSnapshot snapshot) at_ms 0 origin true false false])) /\
  (if is_ok status
   then exists sc' previous, represents random [ESnapshot snapshot at_ms origin] sc' s' /\
          last states = Some (mkFiles (Some (fresh_image random snapshot at_ms origin)) None previous)
   else s' = s \/ st_file s' = None).
Proof.
  intros Hrep Hclosed Hopt Hprimary Hsnap Hold Hnew. rewrite (rep_file _ _ _ _ Hrep) in Hprimary.
  pose proof (compact_passes random snapshot at_ms origin os s _ fs Hprimary) as Hpasses.
  pose proof (compact_fails random snapshot at_ms origin os s fs) as Hfails.
  pose proof (compact_represents random snapshot at_ms origin os s fs) as Hdone. unfold compact in Hfails.
  destruct (compact_run _ _ _ _ _ _ _) as [[s' states] status]. cbn [fst snd] in *. split.
  - intros found sa draw Hfound Hsa. rewrite Forall_forall in Hpasses.
    destruct (settle_compacting random snapshot at_ms origin sa _ _ (Hpasses _ Hfound) Hsa)
      as (log & fresh & previous & Hsettle & Hlog & _).
    destruct (opens_either random snapshot at_ms origin draw id es sc s log Hrep Hclosed Hopt Hsnap Hold Hnew Hlog)
      as (result & store & Hrest).
    by exists log, fresh, previous, result, store.
  - destruct (is_ok status) eqn:Hok.
    + apply is_ok_spec in Hok as ->. destruct (Hdone s' states Hsnap eq_refl) as (sc' & Hrep' & _ & (previous & Hlast) & _).
      exists sc', previous. split; [exact Hrep'|]. rewrite Hlast, (rep_file _ _ _ _ Hrep'). by rewrite compact_image_log.
    + destruct Hfails as [?|[?|Hs]]; [by left|by right|]. by rewrite Hs in Hok.
Qed.

(** ** Witness *)

Lemma sample_entry_wf :
  entry_wf default_options (ESnapshot (snapshot Sample.fabric) 40 (Sample.id 900)).
Proof.
  split_and!; try (by vm_compute). apply snapshot_of_wf; [exact sample_wf|by vm_compute..].
Qed.


(** The sample log is compacted, and the process dies behind the last call. *)
Lemma compaction_crash_safe_witness :
  let os := mkCompactAnswers true true 65536 true true true true true true true true in
  let '(s, states, status) :=
    compact_run os (Sample.id 501) sample_store (mkFiles (st_file sample_store) None None) (snapshot Sample.fabric) 40
      (Sample.id 900) in
  status = Status.Ok /\
  exists found log fresh previous, last states = Some found /\
    settle settled found = (mkFiles (Some log) fresh previous, Status.Ok).
Proof.
  cbv zeta. set (os := mkCompactAnswers _ _ _ _ _ _ _ _ _ _ _). set (fs := mkFiles _ _ _).
  assert (sc_open (scan_of (take 2 sample_log)) = None) as Hclosed by by vm_compute.
  assert (blen (encode_snapshot (snapshot Sample.fabric)) <= max_record_bytes (st_options sample_store)) as Hfits
    by (vm_compute; discriminate).
  assert (length (fresh_image (Sample.id 501) (snapshot Sample.fabric) 40 (Sample.id 900)) <= 65536)%nat as Hlen
    by (apply Nat.leb_le; by vm_compute).
  pose proof (compact_succeeds (Sample.id 501) (snapshot Sample.fabric) 40 (Sample.id 900) sample_store fs 65536
    Hfits Hlen) as Hok. fold os in Hok.
  pose proof (compaction_crash_safe os (Sample.id 501) sample_store fs (snapshot Sample.fabric) 40 (Sample.id 900)
    (Sample.id 500) (take 2 sample_log) (scan_of (take 2 sample_log)) sample_represents Hclosed default_options_wf
    eq_refl sample_entry_wf ltac:(vm_compute; discriminate) ltac:(vm_compute; discriminate)) as H.
  destruct (compact_run _ _ _ _ _ _ _) as [[s states] status]. cbn [snd] in Hok. subst status.
  destruct H as [Hcrash (sc & previous & _ & Hlast)]. split; [reflexivity|].
  destruct (Hcrash _ settled (Sample.id 1) (last_Some_elem_of _ _ Hlast) eq_refl)
    as (log & fresh & previous' & result & store & Hsettle & _).
  do 4 eexists. split; [exact Hlast|exact Hsettle].
Defined.
