(* ===== verification/Recovery.v ===== *)
(** * Replay of a log (src/daemon.cpp, apply_replay)

    How a daemon rebuilds its authority from the actions of a log, and the
    equivalence under which a rebuilt authority is the one that was lost:
    equality up to the incarnation and the recovery marks of the grants. *)

From Stdlib Require Import Strings.Byte.
From S2P Require Import Prelude Outcome Ids Lifecycle Policy Wire Model Codecs State Ledger Changes.
From S2P Require Import Invariants WellFormed Digest Snapshot Store Journal.

(** ** The replay *)

Record DaemonOptions := mkDaemonOptions {
  do_policy : Policy;
  do_epoch : Epoch;
  do_incarnation : Incarnation;
  do_store : StoreOptions;
  do_max_changes_in_reply : N;
  do_verify_after_mutation : bool;
  do_auto_compact : bool;
}.

Definition replay_config (o : DaemonOptions) : AuthorityConfig :=
  set_cfg_policy (do_policy o) (set_cfg_epoch (do_epoch o) (default_config (do_incarnation o))).

(** Changes of an ambiguous intent that would release capacity are not applied. *)
Definition effective (ambiguous : bool) (changes : list StateChange) : list StateChange :=
  filter (fun c => ambiguous && sc_releases c = false) changes.

Definition ambiguous_reason : bytes :=
  str "durable commit was ambiguous at restart; capacity retained conservatively".

(** One turn of the loop that marks the grants a change set names. *)
Definition mark_change (ambiguous : bool) (a : Authority) (c : StateChange) : Authority * Status :=
  if negb (bool_decide (sc_kind c = ObjectKind.Grant)) then (a, Status.Ok)
  else
    match find_grant a (from_raw (sc_key c)) with
    | None => (a, Status.Ok)
    | Some _ =>
        if ambiguous
        then mark_recovered a (from_raw (sc_key c)) Provenance.AmbiguousCommit true ambiguous_reason
        else mark_recovered a (from_raw (sc_key c)) Provenance.RecoveredFromLog false []
    end.

Fixpoint mark_changes (ambiguous : bool) (a : Authority) (changes : list StateChange) :
    Expected Authority :=
  match changes with
  | [] => Ok a
  | c :: changes =>
      let '(a, marked) := mark_change ambiguous a c in
      fail_if negb (is_ok marked) with marked ;;
      mark_changes ambiguous a changes
  end.

Definition replay_action (o : DaemonOptions) (random : Incarnation) (a : Authority)
    (act : ReplayAction) : Expected Authority :=
  match act_kind act with
  | ActionSnapshot snapshot => from_snapshot random (replay_config o) snapshot
  | ActionChanges changes arbitration =>
      let ambiguous := act_ambiguous act || act_aborted act in
      let '(a, applied) := apply a (effective ambiguous changes) arbitration in
      fail_if negb (is_ok applied) with applied ;;
      mark_changes ambiguous a changes
  end.

Fixpoint replay_actions (o : DaemonOptions) (random : Incarnation) (a : Authority)
    (acts : list ReplayAction) : Expected Authority :=
  match acts with
  | [] => Ok a
  | act :: acts => a ← replay_action o random a act; replay_actions o random a acts
  end.

(** The number of changes the replay suppresses. *)
Definition suppressed (acts : list ReplayAction) : N :=
  sumN (fun act =>
          match act_kind act with
          | ActionSnapshot _ => 0
          | ActionChanges changes _ =>
              if act_ambiguous act || act_aborted act
              then N.of_nat (length (filter (fun c => sc_releases c = true) changes)) else 0
          end) acts.

Definition apply_replay (o : DaemonOptions) (random : Incarnation) (acts : list ReplayAction) :
    Expected (Authority * N) :=
  a ← replay_actions o random (new_authority random (replay_config o)) acts;
  let a := mark_all_historical a in
  fail_if negb (is_ok (verify_invariants a)) with verify_invariants a ;;
  Ok (a, suppressed acts).

(** ** Authorities up to recovery marks *)

Definition unmarked (g : GrantRecord) : GrantRecord :=
  set_g_provenance Provenance.Live
    (set_g_historical false
       (set_g_ambiguous false
          (set_g_reason [] (set_g_verification VerificationState.Unverified g)))).

Definition unmarked_authority (a : Authority) : Authority :=
  set_config (set_cfg_incarnation tid_nil (config a)) (set_grants (unmarked <$> grants_ a) a).

#[export] Instance authority_equiv : Equiv Authority :=
  fun a a' => unmarked_authority a = unmarked_authority a'.

#[export] Instance authority_equivalence : Equivalence (≡@{Authority}).
Proof.
  split; [by intros a|by intros a a' Ha; symmetry|].
  intros a1 a2 a3 H12 H23. unfold equiv, authority_equiv in *. congruence.
Qed.

Definition unmarked_object (o : Object) : Object :=
  match o with OGrant g r => OGrant (unmarked g) r | _ => o end.

Definition unmarked_result (r : Expected Authority) : Expected Authority :=
  match r with Ok a => Ok (unmarked_authority a) | Fail s => Fail s end.

Lemma unmarked_idemp g : unmarked (unmarked g) = unmarked g.
Proof. done. Qed.

Lemma table_full_fmap {A} (f : A -> A) (m : gmap Id128 A) limit key :
  table_full (f <$> m) limit key = table_full m limit key.
Proof.
  unfold table_full. rewrite map_size_fmap. f_equal. apply bool_decide_ext. by rewrite lookup_fmap, fmap_None.
Qed.

(** Installing commutes with forgetting the marks. *)
Lemma install_unmarked a key o :
  install (unmarked_authority a) key (unmarked_object o) = unmarked_result (install a key o).
Proof.
  destruct o as [v|v|v|v|v r|v|v|v|v|]; unfold install, guard_fail; cbn [unmarked_object];
    try by (cbn; repeat break_goal).
  change (grants_ (unmarked_authority a)) with (unmarked <$> grants_ a).
  change (max_grants (config (unmarked_authority a))) with (max_grants (config a)).
  rewrite table_full_fmap. destruct (table_full _ _ _); [done|].
  change (index_request (unmarked_authority a) (unmarked v) key) with (index_request a v key).
  destruct (index_request a v key) as [index|s]; [|done]. cbn.
  unfold unmarked_authority. cbn. by rewrite fmap_insert.
Qed.

Lemma install_all_unmarked a l :
  install_all (unmarked_authority a) (prod_map id unmarked_object <$> l) =
  prod_map unmarked_authority id (install_all a l).
Proof.
  revert a. induction l as [|[key o] l IH]; intros a; [done|].
  csimpl. unfold prod_map at 1. cbn [fst snd install_all id]. rewrite install_unmarked.
  destruct (install a key o) as [a1|s]; [apply IH|done].
Qed.

Lemma raise_unmarked arb a :
  raise_arbitration arb (unmarked_authority a) = unmarked_authority (raise_arbitration arb a).
Proof. unfold raise_arbitration. cbn. by destruct (_ <? _). Qed.

(** Equivalent authorities stay so under [apply], which answers the same. *)
Lemma apply_equiv a a' changes arb :
  a ≡ a' ->
  (apply a changes arb).1 ≡ (apply a' changes arb).1 /\
  (apply a changes arb).2 = (apply a' changes arb).2.
Proof.
  intros Ha. unfold apply. destruct (mapM decode_change changes) as [objs|s]; [|done].
  set (l := zip _ _). pose proof (install_all_unmarked a l) as H1.
  pose proof (install_all_unmarked a' l) as H2.
  unfold equiv, authority_equiv in *. rewrite Ha in H1. rewrite H1 in H2. clear H1.
  destruct (install_all a l) as [b s], (install_all a' l) as [b' s'].
  apply pair_equal_spec in H2 as [Hb Hs]. cbn [id fst snd] in Hb, Hs. unfold id in Hs. subst s'. rename s into s'.
  destruct s'; cbn [finish_apply fst snd]; split; try done. by rewrite <-!raise_unmarked, Hb.
Qed.

Lemma mark_recovered_equiv a id p amb reason : (mark_recovered a id p amb reason).1 ≡ a.
Proof.
  unfold mark_recovered. destruct (grants_ a !! raw id) as [g|] eqn:Hg; [|done].
  unfold equiv, authority_equiv, unmarked_authority, set_grants, set_config. cbn. f_equal.
  rewrite fmap_insert. apply insert_id. rewrite lookup_fmap, Hg. cbn. f_equal.
  by destruct g, (bool_decide (reason = [])).
Qed.

Lemma mark_change_equiv amb a c :
  (mark_change amb a c).1 ≡ a /\ (mark_change amb a c).2 = Status.Ok.
Proof.
  unfold mark_change. destruct (negb _); [done|].
  destruct (find_grant a (from_raw (sc_key c))) as [g|] eqn:Hg; [|done].
  unfold find_grant in Hg.
  destruct amb; split; try apply mark_recovered_equiv; unfold mark_recovered; by rewrite Hg.
Qed.

Lemma mark_changes_equiv amb a changes :
  exists a', mark_changes amb a changes = Ok a' /\ a' ≡ a.
Proof.
  revert a. induction changes as [|c changes IH]; intros a; [by exists a|].
  cbn [mark_changes]. destruct (mark_change_equiv amb a c) as [Hequiv Hok].
  destruct (mark_change amb a c) as [a1 s]. cbn in Hequiv, Hok. subst s. cbn [is_ok negb guard_fail].
  destruct (IH a1) as (a' & Ha' & H1). exists a'. split; [done|by transitivity a1].
Qed.

Lemma mark_all_historical_equiv a : mark_all_historical a ≡ a.
Proof.
  unfold equiv, authority_equiv, unmarked_authority, mark_all_historical, set_grants, set_config. cbn. f_equal.
  rewrite <-map_fmap_compose. apply map_fmap_ext. intros k g _. cbn. unfold mark_historical.
  by destruct (is_terminal (g_state g)), g.
Qed.

(** ** What equivalent authorities share *)

Record same_tables (a a' : Authority) : Prop := {
  st_sites : sites_ a' = sites_ a;
  st_paths : paths_ a' = paths_ a;
  st_domains : domains_ a' = domains_ a;
  st_attestations : attestations_ a' = attestations_ a;
  st_verifications : verifications_ a' = verifications_ a;
  st_oversubscriptions : oversubscriptions_ a' = oversubscriptions_ a;
  st_grants : unmarked <$> grants_ a' = unmarked <$> grants_ a;
  st_requests : request_index a' = request_index a;
  st_policy : policy a' = policy a;
  st_epoch : epoch a' = epoch a;
  st_arbitration : last_arbitration a' = last_arbitration a;
}.

Lemma equiv_tables a a' : a ≡ a' -> same_tables a a'.
Proof.
  intros Ha. unfold equiv, authority_equiv in Ha.
  assert (forall B (f : Authority -> B), f (unmarked_authority a') = f (unmarked_authority a)) as Hf
    by (intros B f; by rewrite Ha).
  split; [exact (Hf _ sites_)|exact (Hf _ paths_)|exact (Hf _ domains_)|exact (Hf _ attestations_)
    |exact (Hf _ verifications_)|exact (Hf _ oversubscriptions_)|exact (Hf _ grants_)
    |exact (Hf _ request_index)|exact (Hf _ policy)|exact (Hf _ epoch)|exact (Hf _ last_arbitration)].
Qed.

(** The grant of an equivalent authority under the same key. *)
Lemma equiv_grant a a' k g :
  a ≡ a' -> grants_ a !! k = Some g -> exists g', grants_ a' !! k = Some g' /\ unmarked g' = unmarked g.
Proof.
  intros Ha Hg. pose proof (st_grants _ _ (equiv_tables _ _ Ha)) as Ht.
  apply (f_equal (.!! k)) in Ht. rewrite !lookup_fmap, Hg in Ht.
  destruct (grants_ a' !! k) as [g'|]; [|done]. apply (inj Some) in Ht. by exists g'.
Qed.

Lemma unmarked_keeps g g' :
  unmarked g' = unmarked g ->
  g_id g' = g_id g /\ g_request g' = g_request g /\ g_binding g' = g_binding g /\
  g_class g' = g_class g /\ g_amount g' = g_amount g /\ g_state g' = g_state g.
Proof.
  intros Hu. assert (forall B (f : GrantRecord -> B), f (unmarked g') = f (unmarked g)) as Hf
    by (intros B f; by rewrite Hu).
  split_and!; [exact (Hf _ g_id)|exact (Hf _ g_request)|exact (Hf _ g_binding)|exact (Hf _ g_class)
    |exact (Hf _ g_amount)|exact (Hf _ g_state)].
Qed.

Lemma unmarked_sum (f : GrantRecord -> N) (t : gmap Id128 GrantRecord) :
  (forall g, f (unmarked g) = f g) -> sumN f (values (unmarked <$> t)) = sumN f (values t).
Proof.
  intros Hf. change (map_sum f (unmarked <$> t) = map_sum f t). rewrite map_sum_fmap.
  apply sumN_ext. intros g _. apply Hf.
Qed.

Lemma equiv_amounts a a' : a ≡ a' -> amounts_wf a -> amounts_wf a'.
Proof.
  intros Ha Hwf g' [k Hg']%elem_of_grants. symmetry in Ha.
  destruct (equiv_grant a' a k g' Ha Hg') as (g & Hg & Hu).
  apply unmarked_keeps in Hu as (_ & _ & _ & _ & <- & _). apply Hwf, elem_of_grants. by exists k.
Qed.

Lemma equiv_totals a a' p : a ≡ a' -> amounts_wf a -> totals_for a' p = totals_for a p.
Proof.
  intros Ha Hwf. rewrite !totals_for_sums by eauto using equiv_amounts.
  pose proof (st_grants _ _ (equiv_tables _ _ Ha)) as Ht.
  assert (forall t, sums_of p (values (unmarked <$> t)) = sums_of p (values t)) as Hsum
    by (intros t; unfold sums_of; by rewrite !unmarked_sum).
  unfold grants. by rewrite <-Hsum, Ht, Hsum.
Qed.

(** Equivalent authorities have the same ledgers. *)
Lemma equiv_ledger a a' p : a ≡ a' -> amounts_wf a -> ledger a' p = ledger a p.
Proof.
  intros Ha Hwf. pose proof (equiv_tables _ _ Ha) as []. apply ledger_ext; try done.
  by apply equiv_totals.
Qed.

(** ** Authorities in order stay so *)

Lemma set_grants_sound a m :
  sound a ->
  (forall k g', m !! k = Some g' -> exists g, grants_ a !! k = Some g /\ g_id g' = g_id g /\
     g_request g' = g_request g /\ grant_wf apply_limits g') ->
  sound (set_grants m a).
Proof.
  intros [Hwk Hlim Hwf] Hm. split.
  - destruct Hwk as [H1 H2 H3 H4 H5 H6 H7 H8]. split; try done; intros k g' Hk; cbn in Hk;
      destruct (Hm k g' Hk) as (g & Hg & Hid & Hr & _).
    + rewrite Hid. by apply H5.
    + rewrite Hr. by eapply H8.
  - assert (size m <= size (grants_ a))%nat as Hsize.
    { rewrite <-!size_dom. apply subseteq_size. intros k [g' Hk]%elem_of_dom.
      destruct (Hm k g' Hk) as (g & Hg & _). by apply elem_of_dom. }
    unfold within_limits in *. cbn. destruct_and!. split_and!; try done. lia.
  - destruct Hwf as [H1 H2 H3 H4 H5 H6 H7 H8 H9]. split; try done.
    intros g' [k Hk]%elem_of_grants. cbn in Hk. by destruct (Hm k g' Hk) as (g & _ & _ & _ & Hg).
Qed.

Lemma sound_grant a k g : sound a -> grants_ a !! k = Some g -> grant_wf apply_limits g.
Proof. intros [_ _ Hwf] Hg. apply (wf_grants a Hwf), elem_of_grants. by exists k. Qed.

Lemma mark_recovered_sound a id p amb reason :
  sound a -> ascii_check reason = true -> sound (mark_recovered a id p amb reason).1.
Proof.
  intros Ha Hr. unfold mark_recovered. destruct (grants_ a !! raw id) as [g|] eqn:Hg; [|done].
  apply set_grants_sound; [done|]. intros k g' [[<- <-]|[_ Hk]]%lookup_insert_Some.
  - pose proof (sound_grant a _ g Ha Hg) as Hwf. pose proof (const_wf reason Hr) as Hb.
    exists g. destruct (bool_decide (reason = [])); (split_and!; [done..|]); grant_wf_tac.
  - exists g'. split_and!; [done..|by eapply sound_grant].
Qed.

Lemma mark_change_sound amb a c : sound a -> sound (mark_change amb a c).1.
Proof.
  intros Ha. unfold mark_change. destruct (negb _); [done|]. destruct (find_grant _ _); [|done].
  by destruct amb; apply mark_recovered_sound.
Qed.

Lemma mark_changes_sound amb a changes a' : sound a -> mark_changes amb a changes = Ok a' -> sound a'.
Proof.
  revert a. induction changes as [|c changes IH]; intros a Ha; cbn [mark_changes]; [by intros [= <-]|].
  pose proof (mark_change_sound amb a c Ha) as H1. destruct (mark_change amb a c) as [a1 s].
  intros [_ Hm]%guard_fail_ok. by eapply IH.
Qed.

Lemma mark_all_historical_sound a : sound a -> sound (mark_all_historical a).
Proof.
  intros Ha. apply set_grants_sound; [done|].
  intros k g' (g & <- & Hg)%lookup_fmap_Some. exists g. pose proof (sound_grant a k g Ha Hg) as Hwf.
  unfold mark_historical. destruct (is_terminal (g_state g)); (split_and!; [done..|]); [done|grant_wf_tac].
Qed.

(** ** Replaying a change set *)

(** What an ambiguous mutation still does: the objects that release nothing. *)
Definition retained (objs : list Object) : list Object := filter (fun o => object_releases o = false) objs.

Lemma effective_changes objs : effective true (change_for <$> objs) = change_for <$> retained objs.
Proof.
  unfold effective, retained. cbn [andb]. induction objs as [|o objs IH]; [done|]. csimpl.
  destruct (object_releases o) eqn:E.
  - rewrite !filter_cons_False by (cbn; by rewrite E). exact IH.
  - rewrite !filter_cons_True by done. csimpl. by f_equal.
Qed.

Lemma effective_false changes : effective false changes = changes.
Proof.
  unfold effective. induction changes as [|c changes IH]; [done|].
  rewrite filter_cons_True by done. by rewrite IH.
Qed.

Definition effective_objects (ambiguous : bool) (objs : list Object) : list Object :=
  if ambiguous then retained objs else objs.

Lemma effective_objects_changes ambiguous objs :
  effective ambiguous (change_for <$> objs) = change_for <$> effective_objects ambiguous objs.
Proof. destruct ambiguous; [apply effective_changes|apply effective_false]. Qed.

Lemma effective_objects_wf ambiguous objs :
  Forall object_wf objs -> Forall object_wf (effective_objects ambiguous objs).
Proof.
  destruct ambiguous; [|done]. rewrite !Forall_forall. intros Hwf x [_ Hx]%list_elem_of_filter. by apply Hwf.
Qed.

(** The replay of a change set does to an equivalent authority what [apply]
    does with its effective changes. *)
Lemma replay_change_equiv o random a a1 a' act objs arb :
  act_kind act = ActionChanges (change_for <$> objs) arb -> Forall object_wf objs ->
  apply a (effective (act_ambiguous act || act_aborted act) (change_for <$> objs)) arb = (a1, Status.Ok) ->
  a' ≡ a -> sound a' ->
  exists b, replay_action o random a' act = Ok b /\ b ≡ a1 /\ sound b.
Proof.
  intros Hact Hwf Happly Ha Hsound. unfold replay_action. rewrite Hact.
  set (amb := act_ambiguous act || act_aborted act) in *. set (changes := change_for <$> objs) in *.
  destruct (apply_equiv a' a (effective amb changes) arb Ha) as [Hequiv Hs].
  rewrite Happly in Hequiv, Hs. cbn [fst snd] in Hequiv, Hs.
  destruct (apply a' (effective amb changes) arb) as [b1 s] eqn:Hb1. cbn [fst snd] in Hequiv, Hs. subst s.
  cbn [is_ok negb guard_fail]. unfold changes in Hb1. rewrite effective_objects_changes in Hb1.
  apply apply_sound in Hb1; [|done|by apply effective_objects_wf].
  destruct (mark_changes_equiv amb b1 changes) as (b & Hb & Hequiv1). exists b.
  split_and!; [done|by transitivity b1|by eapply mark_changes_sound].
Qed.

Lemma replay_actions_app o random a l1 l2 :
  replay_actions o random a (l1 ++ l2) = (a' ← replay_actions o random a l1; replay_actions o random a' l2).
Proof.
  revert a. induction l1 as [|act l1 IH]; intros a; [done|]. cbn.
  destruct (replay_action o random a act); [apply IH|done].
Qed.

(** ** Logs that rebuild an authority *)

(** The replay of the actions gives an authority in order that is [a] up to the
    recovery marks, whatever incarnation is drawn. *)
Definition replays_to (o : DaemonOptions) (acts : list ReplayAction) (a : Authority) : Prop :=
  forall random, exists b,
    replay_actions o random (new_authority random (replay_config o)) acts = Ok b /\ b ≡ a /\ sound b.

(** The log [es] has no open intent and its replay gives [a] back. *)
Definition rebuilds (o : DaemonOptions) (es : list Entry) (a : Authority) : Prop :=
  exists sc, replays es sc /\ sc_open sc = None /\ replays_to o (mark_ambiguous <$> sc_actions sc) a.

Lemma replays_to_equiv o acts a a' : a ≡ a' -> replays_to o acts a -> replays_to o acts a'.
Proof.
  intros Ha H random. destruct (H random) as (b & Hb & Hequiv & Hs). exists b.
  split_and!; [done|by transitivity a|done].
Qed.

Section Intent.
Context (o : DaemonOptions) (es : list Entry) (sc : Scan).
Context (id : N) (arb : ArbSeq) (objs : list Object) (at_ms : N) (origin : Incarnation).
Context (Hs : replays es sc) (Hclosed : sc_open sc = None) (Hwf : Forall object_wf objs).

Definition intent : Entry := EIntent id arb (change_for <$> objs) at_ms origin.

Definition intent_action (committed aborted : bool) : ReplayAction :=
  mkReplayAction (ActionChanges (change_for <$> objs) arb) at_ms id origin committed false aborted.

Lemma resolve_last_app aborted l act :
  resolve_last aborted (l ++ [act]) = l ++ [resolve_action aborted act].
Proof.
  unfold resolve_last. rewrite length_app, Nat.add_1_r. cbn [pred length].
  replace (length l) with (length l + 0)%nat by lia. by rewrite alter_app_r.
Qed.

Lemma intent_opens :
  exists sc1, advance sc intent = Some sc1 /\ replays (es ++ [intent]) sc1 /\ sc_open sc1 = Some id /\
    sc_actions sc1 = sc_actions sc ++ [intent_action false false].
Proof.
  assert (exists sc1, advance sc intent = Some sc1 /\ sc_open sc1 = Some id /\
    sc_actions sc1 = sc_actions sc ++ [intent_action false false]) as (sc1 & Hadv & Ho & Ha).
  { unfold advance, intent, interpret. rewrite Hclosed. by eexists. }
  exists sc1. split_and!; [done|by eapply replays_app|done|done].
Qed.

(** The intent is closed by its completion or by an abort. *)
Lemma intent_closes (aborted : bool) t :
  let e := if aborted then EAbort id t else ECommit id t in
  exists sc1 sc2, advance sc intent = Some sc1 /\ advance sc1 e = Some sc2 /\
    replays (es ++ [intent; e]) sc2 /\ sc_open sc2 = None /\
    sc_actions sc2 = sc_actions sc ++ [intent_action true aborted].
Proof.
  intros e. destruct intent_opens as (sc1 & Hadv1 & Hs1 & Ho & Ha).
  assert (exists sc2, advance sc1 e = Some sc2 /\ sc_open sc2 = None /\
    sc_actions sc2 = resolve_last aborted (sc_actions sc1)) as (sc2 & Hadv & Ho2 & Ha2).
  { unfold e. destruct aborted; unfold advance, interpret; rewrite bool_decide_eq_true_2 by done; by eexists. }
  exists sc1, sc2. split_and!; [done..| |done|by rewrite Ha2, Ha, resolve_last_app; destruct aborted].
  replace (es ++ [intent; e]) with ((es ++ [intent]) ++ [e]) by (by rewrite <-app_assoc).
  by eapply replays_app.
Qed.

Context (a a1 : Authority) (Ha : replays_to o (mark_ambiguous <$> sc_actions sc) a).

(** The replay of the log with one more change set, as [ambiguous] says. *)
Lemma replays_one_more act ambiguous :
  act_kind act = ActionChanges (change_for <$> objs) arb -> act_ambiguous act || act_aborted act = ambiguous ->
  apply a (effective ambiguous (change_for <$> objs)) arb = (a1, Status.Ok) ->
  replays_to o ((mark_ambiguous <$> sc_actions sc) ++ [act]) a1.
Proof.
  intros Hk <- Happly random. destruct (Ha random) as (b & Hb & Hequiv & Hsound).
  rewrite replay_actions_app, Hb. cbn [mbind expected_bind replay_actions].
  destruct (replay_change_equiv o random a a1 b act objs arb) as (b1 & -> & He & Hs1); [done..|].
  by exists b1.
Qed.

(** The log whose intent is closed: all changes behind a completion, those that
    release nothing behind an abort. *)
Lemma rebuilds_closed (aborted : bool) t :
  apply a (effective aborted (change_for <$> objs)) arb = (a1, Status.Ok) ->
  rebuilds o (es ++ [intent; if aborted then EAbort id t else ECommit id t]) a1.
Proof.
  intros Happly. destruct (intent_closes aborted t) as (_ & sc2 & _ & _ & Hs2 & Ho2 & Ha2).
  exists sc2. split_and!; [done..|]. rewrite Ha2, fmap_app. by apply replays_one_more with aborted.
Qed.

(** What the restart right after the crash replays: the intent is ambiguous. *)
Lemma replays_open_intent sc1 :
  apply a (effective true (change_for <$> objs)) arb = (a1, Status.Ok) ->
  replays (es ++ [intent]) sc1 -> replays_to o (mark_ambiguous <$> sc_actions sc1) a1.
Proof.
  intros Happly Hs1. destruct intent_opens as (sc2 & _ & Hs2 & _ & Ha2).
  unfold replays in Hs1, Hs2. rewrite Hs1 in Hs2. injection Hs2 as ->.
  rewrite Ha2, fmap_app. by apply replays_one_more with true.
Qed.
End Intent.
