(* ===== verification/Protocol.v ===== *)
(** * Wire messages: requests (include/isf/protocol.hpp, src/protocol.cpp)

    The message types, the request and response envelopes, and the bodies of
    the requests.  [decode_op] reads the body of a mutating request, as the
    daemon does; [encode_op] writes it, as the client does. *)

From Stdlib Require Import Strings.Byte.
From S2P Require Import Prelude Outcome Ids Lifecycle Policy Wire Model Codecs State Ledger Changes.
From S2P Require Import PlanFabric Operations Frames WellFormed.

(** ** Message types *)

(** The enumeration has a fixed underlying type, so that a cast from the wire
    can have a value without an enumerator. *)
Module MessageType.
Inductive t :=
  | Invalid | Hello | HelloAck | ErrorReply | StatusRequest | SiteRegister | SiteHeartbeat
  | SiteSetState | PathRegister | PathSetState | CapacityAttest | Oversubscribe | PolicyInstall
  | EpochBump | GrantPropose | GrantEvaluate | GrantReserve | GrantActivate | GrantDegrade
  | GrantWithdraw | GrantRetire | GrantCancel | GrantAcknowledge | GrantVerify | GrantReconcile
  | ListSites | ListPaths | ListGrants | LedgerRequest | DigestRequest | SnapshotRequest
  | TickRequest | ShutdownRequest | MutationReply | StatusReply | SitesReply | PathsReply
  | GrantsReply | LedgerReply | DigestReply | SnapshotReply | ShutdownReply | Unnamed (v : N).
#[export] Instance t_eq_dec : EqDecision t.
Proof. solve_decision. Defined.
End MessageType.
Export (hints) MessageType.
Abbreviation MessageType := MessageType.t.

Definition message_types : list (MessageType * N) :=
  [(MessageType.Invalid, 0); (MessageType.Hello, 1); (MessageType.HelloAck, 2);
   (MessageType.ErrorReply, 3); (MessageType.StatusRequest, 10);
   (MessageType.SiteRegister, 20); (MessageType.SiteHeartbeat, 21);
   (MessageType.SiteSetState, 22); (MessageType.PathRegister, 30);
   (MessageType.PathSetState, 31); (MessageType.CapacityAttest, 32);
   (MessageType.Oversubscribe, 33); (MessageType.PolicyInstall, 40);
   (MessageType.EpochBump, 41); (MessageType.GrantPropose, 50);
   (MessageType.GrantEvaluate, 51); (MessageType.GrantReserve, 52);
   (MessageType.GrantActivate, 53); (MessageType.GrantDegrade, 54);
   (MessageType.GrantWithdraw, 55); (MessageType.GrantRetire, 56);
   (MessageType.GrantCancel, 57); (MessageType.GrantAcknowledge, 58);
   (MessageType.GrantVerify, 59); (MessageType.GrantReconcile, 60);
   (MessageType.ListSites, 70); (MessageType.ListPaths, 71); (MessageType.ListGrants, 72);
   (MessageType.LedgerRequest, 73); (MessageType.DigestRequest, 74);
   (MessageType.SnapshotRequest, 75); (MessageType.TickRequest, 76);
   (MessageType.ShutdownRequest, 77); (MessageType.MutationReply, 100);
   (MessageType.StatusReply, 101); (MessageType.SitesReply, 102);
   (MessageType.PathsReply, 103); (MessageType.GrantsReply, 104);
   (MessageType.LedgerReply, 105); (MessageType.DigestReply, 106);
   (MessageType.SnapshotReply, 107); (MessageType.ShutdownReply, 108)].

(** The cast to [std::uint16_t] and back. *)
Definition message_type_value (t : MessageType) : N :=
  match t with
  | MessageType.Unnamed v => v
  | _ => default 0 (snd <$> find_entry (fun e => bool_decide (fst e = t)) message_types)
  end.

Definition message_type_of (v : N) : MessageType :=
  match find_entry (fun e => snd e =? v) message_types with
  | Some e => fst e
  | None => MessageType.Unnamed v
  end.

Definition message_type_name (t : MessageType) : bytes :=
  match t with
  | MessageType.Invalid => str "INVALID"
  | MessageType.Hello => str "HELLO"
  | MessageType.HelloAck => str "HELLO_ACK"
  | MessageType.ErrorReply => str "ERROR"
  | MessageType.StatusRequest => str "STATUS_REQUEST"
  | MessageType.SiteRegister => str "SITE_REGISTER"
  | MessageType.SiteHeartbeat => str "SITE_HEARTBEAT"
  | MessageType.SiteSetState => str "SITE_SET_STATE"
  | MessageType.PathRegister => str "PATH_REGISTER"
  | MessageType.PathSetState => str "PATH_SET_STATE"
  | MessageType.CapacityAttest => str "CAPACITY_ATTEST"
  | MessageType.Oversubscribe => str "OVERSUBSCRIBE"
  | MessageType.PolicyInstall => str "POLICY_INSTALL"
  | MessageType.EpochBump => str "EPOCH_BUMP"
  | MessageType.GrantPropose => str "GRANT_PROPOSE"
  | MessageType.GrantEvaluate => str "GRANT_EVALUATE"
  | MessageType.GrantReserve => str "GRANT_RESERVE"
  | MessageType.GrantActivate => str "GRANT_ACTIVATE"
  | MessageType.GrantDegrade => str "GRANT_DEGRADE"
  | MessageType.GrantWithdraw => str "GRANT_WITHDRAW"
  | MessageType.GrantRetire => str "GRANT_RETIRE"
  | MessageType.GrantCancel => str "GRANT_CANCEL"
  | MessageType.GrantAcknowledge => str "GRANT_ACKNOWLEDGE"
  | MessageType.GrantVerify => str "GRANT_VERIFY"
  | MessageType.GrantReconcile => str "GRANT_RECONCILE"
  | MessageType.ListSites => str "LIST_SITES"
  | MessageType.ListPaths => str "LIST_PATHS"
  | MessageType.ListGrants => str "LIST_GRANTS"
  | MessageType.LedgerRequest => str "LEDGER_REQUEST"
  | MessageType.DigestRequest => str "DIGEST_REQUEST"
  | MessageType.SnapshotRequest => str "SNAPSHOT_REQUEST"
  | MessageType.TickRequest => str "TICK_REQUEST"
  | MessageType.ShutdownRequest => str "SHUTDOWN_REQUEST"
  | MessageType.MutationReply => str "MUTATION_REPLY"
  | MessageType.StatusReply => str "STATUS_REPLY"
  | MessageType.SitesReply => str "SITES_REPLY"
  | MessageType.PathsReply => str "PATHS_REPLY"
  | MessageType.GrantsReply => str "GRANTS_REPLY"
  | MessageType.LedgerReply => str "LEDGER_REPLY"
  | MessageType.DigestReply => str "DIGEST_REPLY"
  | MessageType.SnapshotReply => str "SNAPSHOT_REPLY"
  | MessageType.ShutdownReply => str "SHUTDOWN_REPLY"
  | MessageType.Unnamed _ => str "INVALID"
  end.

Definition in_range (t first last : MessageType) : bool :=
  (message_type_value first <=? message_type_value t) && (message_type_value t <=? message_type_value last).

Definition message_type_is_request (t : MessageType) : bool :=
  bool_decide (t = MessageType.Hello) ||
  in_range t MessageType.StatusRequest MessageType.ShutdownRequest.

Definition message_type_is_reply (t : MessageType) : bool :=
  bool_decide (t = MessageType.HelloAck) || bool_decide (t = MessageType.ErrorReply) ||
  in_range t MessageType.MutationReply MessageType.ShutdownReply.

Definition message_limits : WireLimits := mkWireLimits kDefaultMaxFrameBytes 4096 65536 8.

Definition kWireProtocolVersion : N := 1.

(** ** Envelopes *)

Record Request := mkRequest {
  rq_protocol_version : N;
  rq_type : MessageType;
  rq_session_seq : N;
  rq_id : RequestId;
  rq_payload : bytes;
}.

Record Response := mkResponse {
  rp_protocol_version : N;
  rp_type : MessageType;
  rp_session_seq : N;
  rp_id : RequestId;
  rp_status : Status;
  rp_detail : bytes;
  rp_payload : bytes;
}.

(** The reader, then the check that it consumed the whole payload. *)
Definition read_all {A} (r : reader A) (limits : WireLimits) (payload : bytes) : Expected A :=
  match r limits payload with
  | Ok (out, rest) => fail_if negb (at_end rest) with Status.Invalid ;; Ok out
  | Fail s => Fail s
  end.

Definition w_message_type (t : MessageType) : bytes := w_u16 (message_type_value t).

Definition encode_request (request : Request) : bytes :=
  w_u16 (rq_protocol_version request) ++
  w_message_type (rq_type request) ++
  w_u64 (rq_session_seq request) ++
  w_id128 (raw (rq_id request)) ++
  w_bytes (rq_payload request).

Definition r_request : reader Request :=
  version ← r_u16;
  type ← r_u16;
  let type := message_type_of type in
  if negb (message_type_is_request type) then r_fail Status.Invalid
  else
  sequence ← r_u64;
  id ← r_id128;
  body ← r_bytes;
  mret (mkRequest version type sequence (from_raw id) body).

Definition decode_request (payload : bytes) (limits : WireLimits) : Expected Request :=
  read_all r_request limits payload.

Definition encode_response (response : Response) : bytes :=
  w_u16 (rp_protocol_version response) ++
  w_message_type (rp_type response) ++
  w_u64 (rp_session_seq response) ++
  w_id128 (raw (rp_id response)) ++
  w_enum Status.all (rp_status response) ++
  w_str (rp_detail response) ++
  w_bytes (rp_payload response).

Definition r_response : reader Response :=
  version ← r_u16;
  type ← r_u16;
  let type := message_type_of type in
  if negb (message_type_is_reply type) then r_fail Status.Invalid
  else
  sequence ← r_u64;
  id ← r_id128;
  status ← r_enum Status.all;
  detail ← r_str;
  body ← r_bytes;
  mret (mkResponse version type sequence (from_raw id) status detail body).

Definition decode_response (payload : bytes) (limits : WireLimits) : Expected Response :=
  read_all r_response limits payload.

(** ** Request bodies *)

Definition encode_site_registration (value : SiteRegistration) : bytes :=
  w_id128 (raw (sd_id (sr_descriptor value))) ++
  w_str (sd_name (sr_descriptor value)) ++
  w_u64 (sd_advertised_capacity (sr_descriptor value)) ++
  w_id128 (raw (sr_incarnation value)) ++
  w_epoch (sr_epoch value) ++
  w_u64 (sr_now_ms value).

Definition r_site_registration : reader SiteRegistration :=
  id ← r_id128;
  name ← r_str;
  advertised ← r_u64;
  incarnation ← r_id128;
  epoch ← r_epoch;
  now ← r_u64;
  mret (mkSiteRegistration (mkSiteDescriptor (from_raw id) name advertised) (from_raw incarnation)
          epoch now).

Definition encode_heartbeat (value : SiteHeartbeat) : bytes :=
  w_id128 (raw (hb_id value)) ++
  w_id128 (raw (hb_incarnation value)) ++
  w_generation (hb_generation value) ++
  w_epoch (hb_epoch value) ++
  w_u64 (hb_advertised_capacity value) ++
  w_u64 (hb_now_ms value).

Definition r_heartbeat : reader SiteHeartbeat :=
  id ← r_id128;
  incarnation ← r_id128;
  generation ← r_generation;
  epoch ← r_epoch;
  advertised ← r_u64;
  now ← r_u64;
  mret (mkSiteHeartbeat (from_raw id) (from_raw incarnation) generation epoch advertised now).

Definition encode_path_registration (value : PathRegistration) : bytes :=
  let descriptor := pr_descriptor value in
  w_id128 (raw (pd_id descriptor)) ++
  w_str (pd_name descriptor) ++
  w_id128 (raw (pd_edge descriptor)) ++
  w_id128 (raw (pd_shared_risk_domain descriptor)) ++
  w_id128 (raw (pd_endpoint_a descriptor)) ++
  w_id128 (raw (pd_endpoint_b descriptor)) ++
  w_generation (pr_path_generation value) ++
  w_enum path_states (pr_state value) ++
  w_u64 (pr_advertised value) ++
  w_u64 (pr_observed value) ++
  w_u64 (pr_now_ms value).

Definition r_path_registration : reader PathRegistration :=
  id ← r_id128;
  name ← r_str;
  edge ← r_id128;
  domain ← r_id128;
  a ← r_id128;
  b ← r_id128;
  generation ← r_generation;
  state ← r_enum path_states;
  advertised ← r_u64;
  observed ← r_u64;
  now ← r_u64;
  mret (mkPathRegistration
          (mkPathDescriptor (from_raw id) name (from_raw edge) (from_raw domain) (from_raw a) (from_raw b))
          generation state advertised observed now).

Definition encode_grant_proposal (value : GrantProposal) : bytes :=
  w_id128 (raw (gp_request value)) ++
  w_id128 (raw (gp_holder value)) ++
  w_id128 (raw (gp_holder_incarnation value)) ++
  w_generation (gp_holder_generation value) ++
  w_id128 (raw (gp_path value)) ++
  w_u64 (gp_amount value) ++
  w_enum grant_classes (gp_class value) ++
  w_u64 (gp_duration_ms value) ++
  w_u64 (gp_now_ms value) ++
  w_str (gp_reason value) ++
  w_id128 (raw (gp_grant_id value)) ++
  w_id128 (raw (gp_lease value)).

Definition r_grant_proposal : reader GrantProposal :=
  request ← r_id128;
  holder ← r_id128;
  incarnation ← r_id128;
  generation ← r_generation;
  path ← r_id128;
  amount ← r_u64;
  class ← r_enum grant_classes;
  duration ← r_u64;
  now ← r_u64;
  reason ← r_str;
  grant ← r_id128;
  lease ← r_id128;
  mret (mkGrantProposal (from_raw request) (from_raw holder) (from_raw incarnation) generation
          (from_raw path) amount class duration now reason (from_raw grant) (from_raw lease)).

Definition encode_grant_operation (value : GrantOperation) : bytes :=
  w_id128 (raw (op_grant value)) ++
  w_id128 (raw (op_request value)) ++
  w_id128 (raw (op_actor value)) ++
  w_id128 (raw (op_actor_incarnation value)) ++
  w_generation (op_actor_generation value) ++
  w_epoch (op_epoch value) ++
  w_generation (op_path_generation value) ++
  w_generation (op_capacity_generation value) ++
  w_generation (op_policy_generation value) ++
  w_id128 (raw (op_lease value)) ++
  w_u64 (op_now_ms value) ++
  w_str (op_reason value).

Definition r_grant_operation : reader GrantOperation :=
  grant ← r_id128;
  request ← r_id128;
  actor ← r_id128;
  incarnation ← r_id128;
  actor_generation ← r_generation;
  epoch ← r_epoch;
  path_generation ← r_generation;
  capacity_generation ← r_generation;
  policy_generation ← r_generation;
  lease ← r_id128;
  now ← r_u64;
  reason ← r_str;
  mret (mkGrantOperation (from_raw grant) (from_raw request) (from_raw actor) (from_raw incarnation)
          actor_generation epoch path_generation capacity_generation policy_generation
          (from_raw lease) now reason).

Definition encode_acknowledgement (value : GrantAcknowledgement) : bytes :=
  w_id128 (raw (ack_grant value)) ++
  w_id128 (raw (ack_actor value)) ++
  w_id128 (raw (ack_actor_incarnation value)) ++
  w_epoch (ack_epoch value) ++
  w_u64 (ack_now_ms value).

Definition r_acknowledgement : reader GrantAcknowledgement :=
  grant ← r_id128;
  actor ← r_id128;
  incarnation ← r_id128;
  epoch ← r_epoch;
  now ← r_u64;
  mret (mkGrantAcknowledgement (from_raw grant) (from_raw actor) (from_raw incarnation) epoch now).

Definition encode_verification_message (value : GrantVerification) : bytes :=
  w_id128 (raw (gv_id value)) ++
  w_id128 (raw (gv_grant value)) ++
  w_id128 (raw (gv_verifier value)) ++
  w_enum verification_states (gv_result value) ++
  w_digest (gv_evidence value) ++
  w_u64 (gv_now_ms value) ++
  w_str (gv_detail value).

Definition r_verification_message : reader GrantVerification :=
  id ← r_id128;
  grant ← r_id128;
  verifier ← r_id128;
  result ← r_enum verification_states;
  evidence ← r_digest;
  now ← r_u64;
  detail ← r_str;
  mret (mkGrantVerification (from_raw id) (from_raw grant) (from_raw verifier) result evidence now detail).

Section StateRequests.
Context {tag : IdTag} {S : Type} `{EqDecision S} (states : list S).

(** The bodies of the two requests that set a state. *)
Definition encode_state_request (id : TypedId tag) (state : S) (reason : bytes) (now_ms : N) : bytes :=
  w_id128 (raw id) ++ w_enum states state ++ w_str reason ++ w_u64 now_ms.

Definition r_state_request : reader (TypedId tag * S * bytes * N) :=
  id ← r_id128;
  state ← r_enum states;
  reason ← r_str;
  now ← r_u64;
  mret (from_raw id, state, reason, now).
End StateRequests.

Definition encode_policy_install_request (policy : Policy) (principal : PrincipalId) : bytes :=
  encode_policy policy ++ w_id128 (raw principal).

Definition r_policy_install_request : reader (Policy * PrincipalId) :=
  policy ← decode_policy;
  principal ← r_id128;
  mret (policy, from_raw principal).

Definition encode_epoch_bump_request (epoch : Epoch) (principal : PrincipalId) : bytes :=
  w_epoch epoch ++ w_id128 (raw principal).

Definition r_epoch_bump_request : reader (Epoch * PrincipalId) :=
  epoch ← r_epoch;
  principal ← r_id128;
  mret (epoch, from_raw principal).

Definition encode_reconcile_request (op : GrantOperation) (target : GrantState)
    (principal : PrincipalId) : bytes :=
  w_bytes (encode_grant_operation op) ++ w_enum grant_states target ++ w_id128 (raw principal).

(** The operation is a byte field of its own, read to its end. *)
Definition r_nested {A} (r : reader A) : reader A :=
  base ← r_bytes;
  match read_all r message_limits base with
  | Ok out => mret out
  | Fail s => r_fail s
  end.

Definition r_reconcile_request : reader (GrantOperation * GrantState * PrincipalId) :=
  op ← r_nested r_grant_operation;
  target ← r_enum grant_states;
  principal ← r_id128;
  mret (op, target, from_raw principal).

Definition encode_u64_body (value : N) : bytes := w_u64 value.
Definition decode_u64_body (payload : bytes) : Expected N := read_all r_u64 message_limits payload.

Definition encode_id_body (value : Id128) : bytes := w_id128 value.
Definition decode_id_body (payload : bytes) : Expected Id128 := read_all r_id128 message_limits payload.

(** ** The mutating requests *)

Definition read_as {A B} (f : A -> B) (r : reader A) (limits : WireLimits) (payload : bytes) : Expected B :=
  v ← read_all r limits payload; Ok (f v).

(** The body of a mutating request, read as the operation to plan; the
    attestation and the oversubscription are read under the default limits. *)
Definition decode_op (type : MessageType) (payload : bytes) : Expected Op :=
  let read {A} (r : reader A) (op : A -> Op) := read_as op r message_limits payload in
  match type with
  | MessageType.SiteRegister => read r_site_registration RegisterSite
  | MessageType.SiteHeartbeat => read r_heartbeat Heartbeat
  | MessageType.SiteSetState =>
      read (r_state_request site_states) (fun '(id, s, reason, now) => SetSiteState id s reason now)
  | MessageType.PathRegister => read r_path_registration RegisterPath
  | MessageType.PathSetState =>
      read (r_state_request path_states) (fun '(id, s, reason, now) => SetPathState id s reason now)
  | MessageType.CapacityAttest => read_as AttestCapacity decode_attestation default_limits payload
  | MessageType.Oversubscribe =>
      read_as IssueOversubscription decode_oversubscription default_limits payload
  | MessageType.PolicyInstall => read r_policy_install_request (fun body => InstallPolicy (fst body))
  | MessageType.EpochBump => read r_epoch_bump_request (fun body => BumpEpoch (fst body))
  | MessageType.GrantPropose => read r_grant_proposal ProposeGrant
  | MessageType.GrantEvaluate => read r_grant_operation EvaluateGrant
  | MessageType.GrantReserve => read r_grant_operation ReserveGrant
  | MessageType.GrantActivate => read r_grant_operation ActivateGrant
  | MessageType.GrantDegrade => read r_grant_operation DegradeGrant
  | MessageType.GrantWithdraw => read r_grant_operation WithdrawGrant
  | MessageType.GrantRetire => read r_grant_operation RetireGrant
  | MessageType.GrantCancel => read r_grant_operation CancelGrant
  | MessageType.GrantAcknowledge => read r_acknowledgement AcknowledgeGrant
  | MessageType.GrantVerify => read r_verification_message VerifyGrant
  | MessageType.GrantReconcile =>
      read r_reconcile_request (fun '(op, target, principal) => ReconcileGrant op target principal)
  | MessageType.TickRequest => read r_u64 Tick
  | _ => Fail Status.Unsupported
  end.

(** The type and the body the client sends for an operation; [principal] signs
    the policy and epoch requests. *)
Definition encode_op (principal : PrincipalId) (op : Op) : MessageType * bytes :=
  match op with
  | InstallPolicy p => (MessageType.PolicyInstall, encode_policy_install_request p principal)
  | BumpEpoch e => (MessageType.EpochBump, encode_epoch_bump_request e principal)
  | RegisterSite r => (MessageType.SiteRegister, encode_site_registration r)
  | Heartbeat h => (MessageType.SiteHeartbeat, encode_heartbeat h)
  | SetSiteState id s reason now =>
      (MessageType.SiteSetState, encode_state_request site_states id s reason now)
  | RegisterPath r => (MessageType.PathRegister, encode_path_registration r)
  | SetPathState id s reason now =>
      (MessageType.PathSetState, encode_state_request path_states id s reason now)
  | AttestCapacity t => (MessageType.CapacityAttest, encode_attestation t)
  | IssueOversubscription o => (MessageType.Oversubscribe, encode_oversubscription o)
  | ProposeGrant p => (MessageType.GrantPropose, encode_grant_proposal p)
  | EvaluateGrant op => (MessageType.GrantEvaluate, encode_grant_operation op)
  | ReserveGrant op => (MessageType.GrantReserve, encode_grant_operation op)
  | ActivateGrant op => (MessageType.GrantActivate, encode_grant_operation op)
  | DegradeGrant op => (MessageType.GrantDegrade, encode_grant_operation op)
  | WithdrawGrant op => (MessageType.GrantWithdraw, encode_grant_operation op)
  | RetireGrant op => (MessageType.GrantRetire, encode_grant_operation op)
  | CancelGrant op => (MessageType.GrantCancel, encode_grant_operation op)
  | AcknowledgeGrant ack => (MessageType.GrantAcknowledge, encode_acknowledgement ack)
  | VerifyGrant v => (MessageType.GrantVerify, encode_verification_message v)
  | ReconcileGrant op target who => (MessageType.GrantReconcile, encode_reconcile_request op target who)
  | Tick now => (MessageType.TickRequest, encode_u64_body now)
  end.

(** ** Well-formed requests on the wire *)

Definition wire_text (s : bytes) : Prop := str_wf message_limits s.

Definition site_registration_fits (v : SiteRegistration) : Prop :=
  id_wf (raw (sd_id (sr_descriptor v))) /\ wire_text (sd_name (sr_descriptor v)) /\
  u64_ok (sd_advertised_capacity (sr_descriptor v)) /\ id_wf (raw (sr_incarnation v)) /\
  u64_ok (epoch_value (sr_epoch v)) /\ u64_ok (sr_now_ms v).

Definition heartbeat_fits (v : SiteHeartbeat) : Prop :=
  id_wf (raw (hb_id v)) /\ id_wf (raw (hb_incarnation v)) /\ u64_ok (gen_value (hb_generation v)) /\
  u64_ok (epoch_value (hb_epoch v)) /\ u64_ok (hb_advertised_capacity v) /\ u64_ok (hb_now_ms v).

Definition path_registration_fits (v : PathRegistration) : Prop :=
  let d := pr_descriptor v in
  id_wf (raw (pd_id d)) /\ wire_text (pd_name d) /\ id_wf (raw (pd_edge d)) /\
  id_wf (raw (pd_shared_risk_domain d)) /\ id_wf (raw (pd_endpoint_a d)) /\
  id_wf (raw (pd_endpoint_b d)) /\ u64_ok (gen_value (pr_path_generation v)) /\
  u64_ok (pr_advertised v) /\ u64_ok (pr_observed v) /\ u64_ok (pr_now_ms v).

Definition grant_proposal_fits (v : GrantProposal) : Prop :=
  id_wf (raw (gp_request v)) /\ id_wf (raw (gp_holder v)) /\ id_wf (raw (gp_holder_incarnation v)) /\
  u64_ok (gen_value (gp_holder_generation v)) /\ id_wf (raw (gp_path v)) /\ u64_ok (gp_amount v) /\
  u64_ok (gp_duration_ms v) /\ u64_ok (gp_now_ms v) /\ wire_text (gp_reason v) /\
  id_wf (raw (gp_grant_id v)) /\ id_wf (raw (gp_lease v)).

Definition grant_operation_fits (v : GrantOperation) : Prop :=
  id_wf (raw (op_grant v)) /\ id_wf (raw (op_request v)) /\ id_wf (raw (op_actor v)) /\
  id_wf (raw (op_actor_incarnation v)) /\ u64_ok (gen_value (op_actor_generation v)) /\
  u64_ok (epoch_value (op_epoch v)) /\ u64_ok (gen_value (op_path_generation v)) /\
  u64_ok (gen_value (op_capacity_generation v)) /\ u64_ok (gen_value (op_policy_generation v)) /\
  id_wf (raw (op_lease v)) /\ u64_ok (op_now_ms v) /\ wire_text (op_reason v).

Definition acknowledgement_fits (v : GrantAcknowledgement) : Prop :=
  id_wf (raw (ack_grant v)) /\ id_wf (raw (ack_actor v)) /\ id_wf (raw (ack_actor_incarnation v)) /\
  u64_ok (epoch_value (ack_epoch v)) /\ u64_ok (ack_now_ms v).

Definition verification_fits (v : GrantVerification) : Prop :=
  id_wf (raw (gv_id v)) /\ id_wf (raw (gv_grant v)) /\ id_wf (raw (gv_verifier v)) /\
  digest_wf (gv_evidence v) /\ u64_ok (gv_now_ms v) /\ wire_text (gv_detail v).

(** A request whose fields fit the wire. *)
Definition op_fits (op : Op) : Prop :=
  match op with
  | InstallPolicy p => policy_wf p
  | BumpEpoch e => u64_ok (epoch_value e)
  | RegisterSite r => site_registration_fits r
  | Heartbeat h => heartbeat_fits h
  | SetSiteState id _ reason now => id_wf (raw id) /\ wire_text reason /\ u64_ok now
  | RegisterPath r => path_registration_fits r
  | SetPathState id _ reason now => id_wf (raw id) /\ wire_text reason /\ u64_ok now
  | AttestCapacity t => attestation_wf default_limits t
  | IssueOversubscription o => oversubscription_wf o
  | ProposeGrant p => grant_proposal_fits p
  | EvaluateGrant op | ReserveGrant op | ActivateGrant op | DegradeGrant op | WithdrawGrant op
  | RetireGrant op | CancelGrant op => grant_operation_fits op
  | AcknowledgeGrant ack => acknowledgement_fits ack
  | VerifyGrant v => verification_fits v
  | ReconcileGrant op _ principal => grant_operation_fits op /\ id_wf (raw principal)
  | Tick now => u64_ok now
  end.

(** ** Round trips *)

Lemma read_all_w {A} (r : reader A) limits payload v :
  r limits (payload ++ []) = Ok (v, []) -> read_all r limits payload = Ok v.
Proof. rewrite app_nil_r. unfold read_all. by intros ->. Qed.

Lemma read_as_w {A B} (f : A -> B) (r : reader A) limits payload v :
  r limits (payload ++ []) = Ok (v, []) -> read_as f r limits payload = Ok (f v).
Proof. intros Hr. unfold read_as. by rewrite (read_all_w r limits payload v Hr). Qed.

Ltac body_roundtrip fits enc dec :=
  intros Hwf; unfold fits, wire_text in Hwf; cbv zeta in Hwf; destruct_and!;
  unfold enc, dec; cbv zeta; codec_roundtrip_tac.

Section Bodies.
Context (rest : bytes).
Abbreviation reads r e v := (r message_limits (e v ++ rest) = Ok (v, rest)).

Lemma decode_encode_site_registration v :
  site_registration_fits v -> reads r_site_registration encode_site_registration v.
Proof. body_roundtrip site_registration_fits encode_site_registration r_site_registration. by destruct v as [[] ? ? ?]. Qed.

Lemma decode_encode_heartbeat v : heartbeat_fits v -> reads r_heartbeat encode_heartbeat v.
Proof. body_roundtrip heartbeat_fits encode_heartbeat r_heartbeat. by destruct v. Qed.

Lemma decode_encode_path_registration v :
  path_registration_fits v -> reads r_path_registration encode_path_registration v.
Proof. body_roundtrip path_registration_fits encode_path_registration r_path_registration. by destruct v as [[] ? ? ? ? ?]. Qed.

Lemma decode_encode_grant_proposal v :
  grant_proposal_fits v -> reads r_grant_proposal encode_grant_proposal v.
Proof. body_roundtrip grant_proposal_fits encode_grant_proposal r_grant_proposal. by destruct v. Qed.

Lemma decode_encode_grant_operation v :
  grant_operation_fits v -> reads r_grant_operation encode_grant_operation v.
Proof. body_roundtrip grant_operation_fits encode_grant_operation r_grant_operation. by destruct v. Qed.

Lemma decode_encode_acknowledgement v :
  acknowledgement_fits v -> reads r_acknowledgement encode_acknowledgement v.
Proof. body_roundtrip acknowledgement_fits encode_acknowledgement r_acknowledgement. by destruct v. Qed.

Lemma decode_encode_verification_message v :
  verification_fits v -> reads r_verification_message encode_verification_message v.
Proof. body_roundtrip verification_fits encode_verification_message r_verification_message. by destruct v. Qed.
End Bodies.

Lemma decode_encode_state_request {tag : IdTag} {S : Type} `{EqDecision S} (states : list S)
    (id : TypedId tag) (state : S) reason now rest :
  states !! N.to_nat (enum_value states state) = Some state -> enum_value states state < 256 ->
  id_wf (raw id) -> wire_text reason -> u64_ok now ->
  r_state_request states message_limits (encode_state_request states id state reason now ++ rest) =
  Ok ((id, state, reason, now), rest).
Proof.
  intros. unfold encode_state_request, r_state_request, wire_text in *. rewrite <-?app_assoc. codec_field.
  eapply reader_bind_step; [by apply r_enum_w_enum|cbv beta]. codec_roundtrip_tac. done.
Qed.

(** The operation nested in a reconciliation fits its byte field. *)
Lemma grant_operation_length v :
  blen (encode_grant_operation v) = 132 + blen (op_reason v).
Proof.
  unfold encode_grant_operation, w_id128, w_generation, w_epoch, w_str, w_u64, w_u32, blen.
  rewrite !length_app, !length_w_le. lia.
Qed.

Lemma decode_encode_reconcile_request op target principal rest :
  grant_operation_fits op -> id_wf (raw principal) ->
  r_reconcile_request message_limits (encode_reconcile_request op target principal ++ rest) =
  Ok ((op, target, principal), rest).
Proof.
  intros Hop Hp. unfold r_reconcile_request, encode_reconcile_request. rewrite <-?app_assoc.
  assert (r_nested r_grant_operation message_limits (w_bytes (encode_grant_operation op) ++
    w_enum grant_states target ++ w_id128 (raw principal) ++ rest) =
    Ok (op, w_enum grant_states target ++ w_id128 (raw principal) ++ rest)) as Hn.
  { unfold r_nested. eapply reader_bind_step.
    - apply r_bytes_w. unfold bytes_wf, u32_ok. rewrite grant_operation_length.
      unfold grant_operation_fits, wire_text, str_wf in Hop. destruct_and!.
      change (max_string message_limits) with 4096 in *. change (max_bytes message_limits) with 1048576.
      change (2 ^ 32) with 4294967296. lia.
    - cbv beta. by rewrite (read_all_w _ _ _ op) by (by apply decode_encode_grant_operation). }
  rewrite (reader_bind_Ok _ _ _ _ _ _ Hn). codec_roundtrip_tac. done.
Qed.

Lemma decode_encode_op principal op :
  op_fits op -> id_wf (raw principal) ->
  let '(type, body) := encode_op principal op in decode_op type body = Ok op.
Proof.
  intros Hop Hp. destruct op; cbn [encode_op decode_op op_fits] in *;
    try (apply read_as_w; by auto using decode_encode_site_registration, decode_encode_heartbeat,
      decode_encode_path_registration, decode_encode_grant_proposal, decode_encode_grant_operation,
      decode_encode_acknowledgement, decode_encode_verification_message, decode_encode_attestation,
      decode_encode_oversubscription, r_u64_w).
  - apply (read_as_w (fun body => InstallPolicy (fst body)) _ _ _ (p, principal)). unfold encode_policy_install_request, r_policy_install_request.
    rewrite <-app_assoc. erewrite reader_bind_Ok by (by apply decode_encode_policy).
    by codec_roundtrip_tac.
  - apply (read_as_w (fun body => BumpEpoch (fst body)) _ _ _ (e, principal)). unfold encode_epoch_bump_request, r_epoch_bump_request.
    by codec_roundtrip_tac.
  - apply (read_as_w (fun '(id, s, reason, now) => SetSiteState id s reason now) _ _ _
      (site, s, reason, now_ms)).
    destruct_and!. apply decode_encode_state_request; try done; by destruct s.
  - apply (read_as_w (fun '(id, s, reason, now) => SetPathState id s reason now) _ _ _
      (path, s, reason, now_ms)).
    destruct_and!. apply decode_encode_state_request; try done; by destruct s.
  - apply (read_as_w (fun '(op, target, principal) => ReconcileGrant op target principal) _ _ _
      (op, target, principal0)). destruct Hop. by apply decode_encode_reconcile_request.
Qed.

(** ** Envelopes *)

Lemma message_type_of_value t :
  (forall v, t <> MessageType.Unnamed v) -> message_type_of (message_type_value t) = t.
Proof. intros Ht. destruct t; try done. by destruct (Ht v). Qed.

Lemma message_type_value_u16 t :
  (forall v, t <> MessageType.Unnamed v) -> message_type_value t < 2 ^ 16.
Proof. intros Ht. destruct t; try done. by destruct (Ht v). Qed.

Record request_fits (limits : WireLimits) (r : Request) : Prop := {
  rqf_version : rq_protocol_version r < 2 ^ 16;
  rqf_type : message_type_is_request (rq_type r) = true /\ forall v, rq_type r <> MessageType.Unnamed v;
  rqf_seq : u64_ok (rq_session_seq r);
  rqf_id : id_wf (raw (rq_id r));
  rqf_payload : bytes_wf limits (rq_payload r);
}.

Lemma decode_encode_request limits r :
  request_fits limits r -> decode_request (encode_request r) limits = Ok r.
Proof.
  intros [Hv [Ht Hn] Hs Hi Hp]. apply (read_all_w r_request). unfold encode_request, r_request, w_message_type.
  rewrite <-?app_assoc. eapply reader_bind_step; [by apply r_u16_w|cbv beta].
  eapply reader_bind_step; [by apply r_u16_w, message_type_value_u16|cbv beta].
  rewrite message_type_of_value, Ht by done. cbn [negb]. codec_roundtrip_tac. by destruct r.
Qed.

Record response_fits (limits : WireLimits) (r : Response) : Prop := {
  rpf_version : rp_protocol_version r < 2 ^ 16;
  rpf_type : message_type_is_reply (rp_type r) = true /\ forall v, rp_type r <> MessageType.Unnamed v;
  rpf_seq : u64_ok (rp_session_seq r);
  rpf_id : id_wf (raw (rp_id r));
  rpf_detail : str_wf limits (rp_detail r);
  rpf_payload : bytes_wf limits (rp_payload r);
}.

Lemma decode_encode_response limits r :
  response_fits limits r -> decode_response (encode_response r) limits = Ok r.
Proof.
  intros [Hv [Ht Hn] Hs Hi Hd Hp]. apply (read_all_w r_response).
  unfold encode_response, r_response, w_message_type.
  rewrite <-?app_assoc. eapply reader_bind_step; [by apply r_u16_w|cbv beta].
  eapply reader_bind_step; [by apply r_u16_w, message_type_value_u16|cbv beta].
  rewrite message_type_of_value, Ht by done. cbn [negb]. codec_roundtrip_tac. by destruct r.
Qed.

(** ** What a reader guarantees

    A record read from any bytes has fields within their width and texts that
    are UTF-8 of at most 4096 bytes. *)

Definition yields {A} (r : reader A) (P : A -> Prop) : Prop :=
  forall limits data v rest, max_string limits = 4096 -> r limits data = Ok (v, rest) -> P v.

Definition read_text (s : bytes) : Prop := is_valid_utf8 s = true /\ blen s <= 4096.

Create HintDb yields.

Lemma yields_bind {A B} (r : reader A) (f : A -> reader B) P Q :
  yields r P -> (forall v, P v -> yields (f v) Q) -> yields (r ≫= f) Q.
Proof.
  intros Hr Hf limits data v rest Hl Hb. apply reader_bind_inv in Hb as (a & data' & Ha & Hb).
  by eapply Hf, Hb; [eapply Hr|].
Qed.

Lemma yields_ret {A} (v : A) (P : A -> Prop) : P v -> yields (mret v) P.
Proof. by intros Hv limits data w rest _ [= <- _]. Qed.

Lemma yields_fail {A} s (P : A -> Prop) : yields (r_fail s) P.
Proof. by intros limits data w rest _ [=]. Qed.

Lemma yields_weaken {A} (r : reader A) (P Q : A -> Prop) :
  yields r P -> (forall v, P v -> Q v) -> yields r Q.
Proof. intros Hr HPQ limits data v rest Hl Hv. by eapply HPQ, Hr. Qed.

Lemma yields_take n : yields (r_take n) (fun s => blen s = n).
Proof.
  intros limits data v rest _ Hr. unfold r_take in Hr. destruct (_ <? _) eqn:E; [done|]. to_prop.
  injection Hr as <- _. unfold blen in *. rewrite length_take. lia.
Qed.

Lemma yields_le k : yields (r_le k) (fun v => v < 2 ^ (N.of_nat k * 8)).
Proof.
  unfold r_le. eapply yields_bind; [apply yields_take|]. intros s Hs. apply yields_ret.
  rewrite <-Hs. apply le_value_bound.
Qed.

Lemma yields_u32 : yields r_u32 u32_ok.
Proof. apply (yields_le 4). Qed.
Lemma yields_u64 : yields r_u64 u64_ok.
Proof. apply (yields_le 8). Qed.

Lemma yields_id128 : yields r_id128 id_wf.
Proof.
  unfold r_id128. eapply yields_bind; [apply yields_u64|]. intros h Hh.
  eapply yields_bind; [apply yields_u64|]. intros l Hl. by apply yields_ret.
Qed.

Lemma yields_generation : yields r_generation (fun g => u64_ok (gen_value g)).
Proof. unfold r_generation. eapply yields_bind; [apply yields_u64|]. intros v Hv. by apply yields_ret. Qed.
Lemma yields_epoch : yields r_epoch (fun e => u64_ok (epoch_value e)).
Proof. unfold r_epoch. eapply yields_bind; [apply yields_u64|]. intros v Hv. by apply yields_ret. Qed.

Lemma yields_digest : yields r_digest digest_wf.
Proof.
  unfold r_digest. eapply yields_bind; [apply yields_take|]. intros s Hs. apply yields_ret.
  unfold digest_wf, blen in *. cbn [digest_bytes]. lia.
Qed.

Lemma yields_enum {A} (all : list A) : yields (r_enum all) (fun _ => True).
Proof. by intros limits data v rest. Qed.
Lemma yields_boolean : yields r_boolean (fun _ => True).
Proof. by intros limits data v rest. Qed.
Lemma yields_bytes : yields r_bytes (fun _ => True).
Proof. by intros limits data v rest. Qed.

Lemma yields_str : yields r_str read_text.
Proof.
  intros limits data v rest Hl Hr. unfold r_str in Hr.
  apply reader_bind_inv in Hr as (count & d1 & _ & Hr).
  apply reader_bind_inv in Hr as (l & d2 & Hlim & Hr). injection Hlim as <- <-.
  destruct (max_string limits <? count) eqn:E; [done|]. to_prop.
  apply reader_bind_inv in Hr as (span & d3 & Hspan & Hr).
  destruct (is_valid_utf8 span) eqn:Hu; [|done]. injection Hr as <- _. split; [done|].
  rewrite (yields_take count limits d1 span d3 Hl Hspan). lia.
Qed.

#[export] Hint Resolve yields_u32 yields_u64 yields_id128 yields_generation yields_epoch yields_digest
  yields_enum yields_boolean yields_bytes yields_str : yields.

Ltac yields_fields := repeat (eapply yields_bind; [solve [eauto 2 with yields]|intros ? ?]).
Ltac yields_record := yields_fields; apply yields_ret; cbn; try (split_and!; done).

Lemma yields_binding : yields decode_binding binding_wf.
Proof. unfold decode_binding, binding_wf. yields_record. Qed.

Lemma read_text_str limits s : max_string limits = 4096 -> read_text s -> str_wf limits s.
Proof.
  intros Hl [Hu Hs]. unfold str_wf, u32_ok. rewrite Hl. change (2 ^ 32) with 4294967296.
  split_and!; [done|lia|done].
Qed.

Lemma yields_attestation :
  yields decode_attestation
    (fun v => (length (att_source v) <= kMaxReasonBytes)%nat -> attestation_wf apply_limits v).
Proof.
  unfold decode_attestation. yields_fields. apply yields_ret. intros Hsource.
  unfold attestation_wf, bounded_str_wf. cbn. split_and!; try done. by apply read_text_str.
Qed.

Lemma yields_oversubscription : yields decode_oversubscription oversubscription_wf.
Proof. unfold decode_oversubscription, oversubscription_wf. yields_record. Qed.

Lemma yields_policy : yields decode_policy policy_wf.
Proof. unfold decode_policy, policy_wf. yields_record. Qed.

Lemma yields_grant_operation :
  yields r_grant_operation (fun v => u64_ok (op_now_ms v) /\ read_text (op_reason v)).
Proof. unfold r_grant_operation. yields_record. Qed.

#[export] Hint Resolve yields_policy yields_grant_operation : yields.

(** ** Requests from the wire are well-formed *)

(** The texts of a request survive the cut to 512 bytes: a reason is not cut
    inside a character, the source of an attestation is short enough. *)
Definition texts_survive (op : Op) : bool :=
  let survives s := is_valid_utf8 (bounded s) in
  match op with
  | SetSiteState _ _ reason _ | SetPathState _ _ reason _ => survives reason
  | AttestCapacity t => (length (att_source t) <=? kMaxReasonBytes)%nat
  | ProposeGrant p => survives (gp_reason p)
  | EvaluateGrant op | ReserveGrant op | ActivateGrant op | DegradeGrant op | WithdrawGrant op
  | RetireGrant op | CancelGrant op | ReconcileGrant op _ _ => survives (op_reason op)
  | VerifyGrant v => survives (gv_detail v)
  | _ => true
  end.

Lemma read_as_yields {A B} (f : A -> B) (r : reader A) limits payload b (P : A -> Prop) :
  max_string limits = 4096 -> yields r P -> read_as f r limits payload = Ok b -> exists v, P v /\ b = f v.
Proof.
  intros Hl Hr H. unfold read_as in H. apply expected_bind_ok in H as (v & H & Hb).
  unfold read_all in H. destruct (r limits payload) as [[v' rest]|s] eqn:E; [|done].
  apply guard_fail_ok in H as [_ H]. injection H as <-. injection Hb as <-.
  exists v'. split; [|done]. by eapply Hr.
Qed.

Lemma yields_nested {A} (r : reader A) P : yields r P -> yields (r_nested r) P.
Proof.
  intros Hr. unfold r_nested. eapply yields_bind; [apply yields_bytes|]. intros base _.
  unfold read_all. destruct (r message_limits base) as [[v rest]|s] eqn:E; [|apply yields_fail].
  destruct (at_end rest); cbn; [|apply yields_fail]. apply yields_ret.
  by eapply (Hr message_limits); [|exact E].
Qed.

(** Reading a body as an operation, field by field. *)
Definition reads_well {A} (f : A -> Op) (v : A) : Prop := texts_survive (f v) = true -> op_wf (f v).

Lemma read_as_well {A} (f : A -> Op) (r : reader A) limits payload op :
  max_string limits = 4096 -> yields r (reads_well f) -> read_as f r limits payload = Ok op ->
  texts_survive op = true -> op_wf op.
Proof. intros Hl Hr H. by destruct (read_as_yields f r limits payload op _ Hl Hr H) as (v & Hv & ->). Qed.

Ltac read_well :=
  yields_fields; apply yields_ret; unfold reads_well; cbn; intros;
  repeat match goal with H : read_text _ |- _ => destruct H end; first [done|split_and!; done].

Lemma read_registration_well : yields r_site_registration (reads_well RegisterSite).
Proof. unfold r_site_registration. read_well. Qed.
Lemma read_heartbeat_well : yields r_heartbeat (reads_well Heartbeat).
Proof. unfold r_heartbeat. read_well. Qed.
Lemma read_path_well : yields r_path_registration (reads_well RegisterPath).
Proof. unfold r_path_registration. read_well. Qed.
Lemma read_site_state_well :
  yields (r_state_request site_states) (reads_well (fun '(id, s, reason, now) => SetSiteState id s reason now)).
Proof. unfold r_state_request. read_well. Qed.
Lemma read_path_state_well :
  yields (r_state_request path_states) (reads_well (fun '(id, s, reason, now) => SetPathState id s reason now)).
Proof. unfold r_state_request. read_well. Qed.
Lemma read_attestation_well : yields decode_attestation (reads_well AttestCapacity).
Proof.
  eapply yields_weaken; [apply yields_attestation|]. intros v Hv Ht. apply Hv. by apply Nat.leb_le in Ht.
Qed.
Lemma read_policy_well : yields r_policy_install_request (reads_well (fun body => InstallPolicy (fst body))).
Proof. unfold r_policy_install_request. read_well. Qed.
Lemma read_epoch_well : yields r_epoch_bump_request (reads_well (fun body => BumpEpoch (fst body))).
Proof. unfold r_epoch_bump_request. read_well. Qed.
Lemma read_proposal_well : yields r_grant_proposal (reads_well ProposeGrant).
Proof. unfold r_grant_proposal. read_well. Qed.
Lemma read_operation_well (f : GrantOperation -> Op) :
  (forall v, texts_survive (f v) = true -> u64_ok (op_now_ms v) -> op_wf (f v)) ->
  yields r_grant_operation (reads_well f).
Proof.
  intros Hf. eapply yields_weaken; [apply yields_grant_operation|]. intros v [Hn _] Ht. by apply Hf.
Qed.
Lemma read_acknowledgement_well : yields r_acknowledgement (reads_well AcknowledgeGrant).
Proof. unfold r_acknowledgement. read_well. Qed.
Lemma read_verification_well : yields r_verification_message (reads_well VerifyGrant).
Proof. unfold r_verification_message. read_well. Qed.
Lemma read_reconcile_well :
  yields r_reconcile_request
    (reads_well (fun '(op, target, principal) => ReconcileGrant op target principal)).
Proof.
  unfold r_reconcile_request. eapply yields_bind; [apply yields_nested, yields_grant_operation|].
  intros op [Hnow _]. yields_fields. apply yields_ret. by intros Ht.
Qed.

Lemma decode_op_wf type payload op :
  decode_op type payload = Ok op -> texts_survive op = true -> op_wf op.
Proof.
  destruct type; try discriminate; apply read_as_well; try reflexivity;
    eauto using read_registration_well, read_heartbeat_well, read_path_well, read_site_state_well,
      read_path_state_well, read_attestation_well, yields_oversubscription, read_policy_well,
      read_epoch_well, read_proposal_well, read_acknowledgement_well, read_verification_well,
      read_reconcile_well.
  all: try by apply read_operation_well.
  - eapply yields_weaken; [apply yields_oversubscription|]. by intros v Hv _.
  - eapply yields_weaken; [apply yields_u64|]. by intros v Hv _.
Qed.

(** ** Bodies fit a frame *)

Lemma length_w_str s : length (w_str s) = (4 + length s)%nat.
Proof. unfold w_str, w_u32. by rewrite length_app, length_w_le. Qed.

Lemma length_bounded_string s : (length (encode_string_bounded s) <= 516)%nat.
Proof.
  unfold encode_string_bounded. rewrite length_w_str. destruct (_ <? _)%nat eqn:E.
  - rewrite length_take. unfold kMaxReasonBytes. lia.
  - apply Nat.ltb_ge in E. unfold kMaxReasonBytes in E. lia.
Qed.

Lemma wire_text_length s : wire_text s -> N.of_nat (length s) <= 4096.
Proof. intros (Hl & _). change (max_string message_limits) with 4096 in Hl. exact Hl. Qed.

Ltac body_length :=
  try match goal with |- context [encode_string_bounded ?s] => pose proof (length_bounded_string s) end;
  rewrite ?length_app;
  unfold w_epoch, w_generation, w_id128, w_boolean, w_enum, w_digest, w_u64, w_u32, w_u8;
  rewrite ?length_app, ?length_w_str, ?length_w_le; cbn [length];
  repeat match goal with H : wire_text _ |- _ => apply wire_text_length in H end;
  repeat match goal with H : digest_wf _ |- _ => unfold digest_wf in H end; lia.

Lemma op_body_length principal op :
  op_fits op -> blen (snd (encode_op principal op)) <= 8192.
Proof.
  intros Hop. unfold blen. destruct op; cbn [encode_op snd op_fits] in *;
    unfold site_registration_fits, heartbeat_fits, path_registration_fits, grant_proposal_fits,
      grant_operation_fits, acknowledgement_fits, verification_fits, attestation_wf in Hop;
    cbv zeta in Hop; destruct_and?;
    unfold encode_policy_install_request, encode_policy, encode_epoch_bump_request,
      encode_site_registration, encode_heartbeat, encode_state_request, encode_path_registration,
      encode_attestation, encode_oversubscription, encode_grant_proposal, encode_reconcile_request, w_bytes,
      encode_grant_operation, encode_acknowledgement, encode_verification_message, encode_u64_body;
    cbv zeta; body_length.
Qed.

(** ** Properties *)

(** C36: a request survives the wire: the envelope decodes to the request that
    was sent, and its body to the operation that was sent, for every operation
    whose fields fit. *)
Theorem request_roundtrip principal op seq id :
  op_fits op -> id_wf (raw principal) -> u64_ok seq -> id_wf (raw id) ->
  let '(type, body) := encode_op principal op in
  let request := mkRequest kWireProtocolVersion type seq id body in
  decode_request (encode_request request) default_limits = Ok request /\
  decode_op (rq_type request) (rq_payload request) = Ok op.
Proof.
  intros Hop Hp Hs Hi. pose proof (decode_encode_op principal op Hop Hp) as Hdec.
  assert (message_type_is_request (fst (encode_op principal op)) = true /\
    forall v, fst (encode_op principal op) <> MessageType.Unnamed v) as Ht by by destruct op.
  pose proof (op_body_length principal op Hop) as Hb.
  destruct (encode_op principal op) as [type body]. cbn [fst snd] in Ht, Hb. intros request.
  split; [|exact Hdec]. apply decode_encode_request. split; try done.
  unfold bytes_wf, u32_ok. cbn [rq_payload request]. change (max_bytes default_limits) with 1048576.
  change (2 ^ 32) with 4294967296. lia.
Qed.

(** C37: whatever bytes a peer sends as the body of a mutating request, the
    operation the daemon reads from them is well-formed, unless one of its texts
    is longer than 512 bytes and cut there inside a character, or the source of an
    attestation is longer than 512 bytes. *)
Theorem wire_requests_wf type payload op :
  decode_op type payload = Ok op -> texts_survive op = true -> op_wf op.
Proof. apply decode_op_wf. Qed.

Lemma request_roundtrip_witness :
  op_fits (BumpEpoch (mkEpoch 2)) /\
  let request := mkRequest kWireProtocolVersion MessageType.EpochBump 7 (Sample.id 8)
                   (encode_epoch_bump_request (mkEpoch 2) (Sample.id 9)) in
  decode_request (encode_request request) default_limits = Ok request /\
  decode_op (rq_type request) (rq_payload request) = Ok (BumpEpoch (mkEpoch 2)).
Proof.
  split; [by vm_compute|].
  exact (request_roundtrip (Sample.id 9) (BumpEpoch (mkEpoch 2)) 7 (Sample.id 8)
    ltac:(by vm_compute) ltac:(by vm_compute) ltac:(by vm_compute) ltac:(by vm_compute)).
Defined.

(** The bytes of a request that sets the state of a site. *)
Lemma wire_requests_wf_witness :
  exists op,
    decode_op MessageType.SiteSetState
      (encode_state_request (tag := SiteIdTag) site_states (Sample.id 1) SiteState.Draining (str "upkeep") 7) =
      Ok op /\ op_wf op.
Proof.
  eexists. split; [vm_compute; reflexivity|].
  eapply (wire_requests_wf MessageType.SiteSetState
    (encode_state_request (tag := SiteIdTag) site_states (Sample.id 1) SiteState.Draining (str "upkeep") 7)).
  - vm_compute. reflexivity.
  - vm_compute. reflexivity.
Defined.
