(* ===== verification/Replies.v ===== *)
(** * Wire messages: handshake and replies (include/isf/protocol.hpp, src/protocol.cpp)

    The bodies of the handshake, of the read requests and of every reply, with
    their round trips. *)

From Stdlib Require Import Strings.Byte.
From S2P Require Import Prelude Outcome Ids Lifecycle Capacity Policy Wire Model Codecs State Ledger.
From S2P Require Import Changes Snapshot Store Frames Protocol.

(** ** Handshake *)

Definition fidelities : list RecoveryFidelity :=
  [RecoveryFidelity.Exact; RecoveryFidelity.TornTailTruncated; RecoveryFidelity.DegradedTruncated;
   RecoveryFidelity.AmbiguousIntentResolved; RecoveryFidelity.Corrupt;
   RecoveryFidelity.Incompatible; RecoveryFidelity.Missing].

Record HelloRequest := mkHelloRequest {
  hq_protocol_version : N;
  hq_client_nonce : Id128;
  hq_client_kind : bytes;
  hq_max_frame_bytes : N;
}.

Definition encode_hello_request (value : HelloRequest) : bytes :=
  w_u16 (hq_protocol_version value) ++
  w_id128 (hq_client_nonce value) ++
  w_str (hq_client_kind value) ++
  w_u32 (hq_max_frame_bytes value).

Definition r_hello_request : reader HelloRequest :=
  version ← r_u16;
  nonce ← r_id128;
  kind ← r_str;
  max_frame ← r_u32;
  mret (mkHelloRequest version nonce kind max_frame).

Definition decode_hello_request (payload : bytes) : Expected HelloRequest :=
  read_all r_hello_request message_limits payload.

Record HelloReply := mkHelloReply {
  hr_protocol_version : N;
  hr_session : SessionId;
  hr_server_incarnation : Incarnation;
  hr_epoch : Epoch;
  hr_max_frame_bytes : N;
  hr_store_fidelity : RecoveryFidelity;
  hr_store_servable : bool;
  hr_durable_writes : bool;
  hr_format_version : N;
}.

Definition encode_hello_reply (value : HelloReply) : bytes :=
  w_u16 (hr_protocol_version value) ++
  w_id128 (raw (hr_session value)) ++
  w_id128 (raw (hr_server_incarnation value)) ++
  w_epoch (hr_epoch value) ++
  w_u32 (hr_max_frame_bytes value) ++
  w_enum fidelities (hr_store_fidelity value) ++
  w_boolean (hr_store_servable value) ++
  w_boolean (hr_durable_writes value) ++
  w_u32 (hr_format_version value).

Definition r_hello_reply : reader HelloReply :=
  version ← r_u16;
  session ← r_id128;
  incarnation ← r_id128;
  epoch ← r_epoch;
  max_frame ← r_u32;
  fidelity ← r_enum fidelities;
  servable ← r_boolean;
  durable ← r_boolean;
  format ← r_u32;
  mret (mkHelloReply version (from_raw session) (from_raw incarnation) epoch max_frame fidelity
          servable durable format).

Definition decode_hello_reply (payload : bytes) : Expected HelloReply :=
  read_all r_hello_reply message_limits payload.

(** ** Read requests *)

Record ListFilter := mkListFilter {
  lf_include_terminal : bool;
  lf_limit : N;
  lf_path : PathId;
  lf_site : SiteId;
}.

Definition encode_list_filter (value : ListFilter) : bytes :=
  w_boolean (lf_include_terminal value) ++
  w_u32 (lf_limit value) ++
  w_id128 (raw (lf_path value)) ++
  w_id128 (raw (lf_site value)).

Definition r_list_filter : reader ListFilter :=
  include ← r_boolean;
  limit ← r_u32;
  if 65536 <? limit then r_fail Status.LimitExceeded
  else
  path ← r_id128;
  site ← r_id128;
  mret (mkListFilter include limit (from_raw path) (from_raw site)).

Definition decode_list_filter (payload : bytes) : Expected ListFilter :=
  read_all r_list_filter message_limits payload.

(** ** Mutation reports *)

(** [mr_primary_kind] is [None] for the value 0, which has no enumerator and
    which the decoder lets pass. *)
Record MutationReport := mkMutationReport {
  mr_arbitration : ArbSeq;
  mr_primary_kind : option ObjectKind;
  mr_primary_key : Id128;
  mr_total_changes : N;
  mr_truncated : bool;
  mr_changes : list StateChange;
}.

Definition encode_mutation_report (value : MutationReport) : bytes :=
  w_u64 (arb_value (mr_arbitration value)) ++
  w_u8 (match mr_primary_kind value with Some kind => object_kind_value kind | None => 0 end) ++
  w_id128 (mr_primary_key value) ++
  w_u32 (mr_total_changes value) ++
  w_boolean (mr_truncated value) ++
  w_list (mr_changes value).

Definition r_primary_kind : reader (option ObjectKind) :=
  kind ← r_u8;
  if 10 <? kind then r_fail Status.Invalid
  else mret (if kind =? 0 then None else object_kinds !! N.to_nat (kind - 1)).

Definition r_mutation_report : reader MutationReport :=
  arbitration ← r_u64;
  kind ← r_primary_kind;
  key ← r_id128;
  total ← r_u32;
  truncated ← r_boolean;
  count ← r_container_count;
  if 8192 <? count then r_fail Status.LimitExceeded
  else
  changes ← r_items (N.to_nat count);
  mret (mkMutationReport (mkArbSeq arbitration) kind key total truncated changes).

Definition decode_mutation_report (payload : bytes) (limits : WireLimits) : Expected MutationReport :=
  read_all r_mutation_report limits payload.

(** ** Ledgers *)

Definition encode_ledger (l : CapacityLedger) : bytes :=
  w_u64 (led_usable l) ++
  w_u64 (led_committed l) ++
  w_u64 (led_withdrawing l) ++
  w_u64 (led_reserved l) ++
  w_u64 (led_protected_headroom l) ++
  w_u64 (led_unavailable l) ++
  w_u64 (led_free l) ++
  w_u64 (led_allocatable l) ++
  w_u64 (led_reclaimable l) ++
  w_u64 (led_oversubscribed l) ++
  w_u64 (led_authorized_extension l).

Definition r_ledger : reader CapacityLedger :=
  usable ← r_u64;
  committed ← r_u64;
  withdrawing ← r_u64;
  reserved ← r_u64;
  headroom ← r_u64;
  unavailable ← r_u64;
  free ← r_u64;
  allocatable ← r_u64;
  reclaimable ← r_u64;
  oversubscribed ← r_u64;
  extension ← r_u64;
  mret (mkCapacityLedger usable committed withdrawing reserved headroom unavailable free allocatable
          reclaimable oversubscribed extension).

Record LedgerReport := mkLedgerReport { lr_path : PathId; lr_ledger : CapacityLedger }.

Definition encode_ledger_report (value : LedgerReport) : bytes :=
  w_id128 (raw (lr_path value)) ++ encode_ledger (lr_ledger value).

Definition r_ledger_report : reader LedgerReport :=
  path ← r_id128;
  ledger ← r_ledger;
  mret (mkLedgerReport (from_raw path) ledger).

Definition decode_ledger_report (payload : bytes) : Expected LedgerReport :=
  read_all r_ledger_report message_limits payload.

(** ** Status and digest reports *)

Record Version := mkVersion { major : N; minor : N; patch : N }.

Record StatusReport := mkStatusReport {
  sp_version : Version;
  sp_wire_protocol : N;
  sp_incarnation : Incarnation;
  sp_epoch : Epoch;
  sp_policy : Policy;
  sp_store_fidelity : RecoveryFidelity;
  sp_store_id : StoreId;
  sp_store_format_version : N;
  sp_store_records : N;
  sp_store_bytes : N;
  sp_ambiguous_intents : N;
  sp_store_servable : bool;
  sp_store_truncated_on_open : bool;
  sp_uptime_ms : N;
  sp_mutations_applied : N;
  sp_mutations_refused : N;
  sp_mutations_failed : N;
  sp_connections_accepted : N;
  sp_frames_decoded : N;
  sp_frames_rejected : N;
  sp_duplicate_requests : N;
  sp_stale_requests : N;
  sp_sites : N;
  sp_paths : N;
  sp_grants : N;
  sp_aggregate : CapacityLedger;
  sp_state_digest : Digest256;
  sp_detail : bytes;
}.

Definition encode_status_report (value : StatusReport) : bytes :=
  w_u32 (major (sp_version value)) ++
  w_u32 (minor (sp_version value)) ++
  w_u32 (patch (sp_version value)) ++
  w_u16 (sp_wire_protocol value) ++
  w_id128 (raw (sp_incarnation value)) ++
  w_epoch (sp_epoch value) ++
  encode_policy (sp_policy value) ++
  w_enum fidelities (sp_store_fidelity value) ++
  w_id128 (raw (sp_store_id value)) ++
  w_u32 (sp_store_format_version value) ++
  w_u64 (sp_store_records value) ++
  w_u64 (sp_store_bytes value) ++
  w_u64 (sp_ambiguous_intents value) ++
  w_boolean (sp_store_servable value) ++
  w_boolean (sp_store_truncated_on_open value) ++
  w_u64 (sp_uptime_ms value) ++
  w_u64 (sp_mutations_applied value) ++
  w_u64 (sp_mutations_refused value) ++
  w_u64 (sp_mutations_failed value) ++
  w_u64 (sp_connections_accepted value) ++
  w_u64 (sp_frames_decoded value) ++
  w_u64 (sp_frames_rejected value) ++
  w_u64 (sp_duplicate_requests value) ++
  w_u64 (sp_stale_requests value) ++
  w_u64 (sp_sites value) ++
  w_u64 (sp_paths value) ++
  w_u64 (sp_grants value) ++
  encode_ledger (sp_aggregate value) ++
  w_digest (sp_state_digest value) ++
  w_str (sp_detail value).

Definition r_status_report : reader StatusReport :=
  major ← r_u32;
  minor ← r_u32;
  patch ← r_u32;
  wire ← r_u16;
  incarnation ← r_id128;
  epoch ← r_epoch;
  policy ← decode_policy;
  fidelity ← r_enum fidelities;
  store_id ← r_id128;
  format ← r_u32;
  records ← r_u64;
  bytes ← r_u64;
  ambiguous ← r_u64;
  servable ← r_boolean;
  truncated ← r_boolean;
  uptime ← r_u64;
  applied ← r_u64;
  refused ← r_u64;
  failed ← r_u64;
  accepted ← r_u64;
  decoded ← r_u64;
  rejected ← r_u64;
  duplicates ← r_u64;
  stale ← r_u64;
  sites ← r_u64;
  paths ← r_u64;
  grants ← r_u64;
  aggregate ← r_ledger;
  digest ← r_digest;
  detail ← r_str;
  mret (mkStatusReport (mkVersion major minor patch) wire (from_raw incarnation) epoch policy fidelity
          (from_raw store_id) format records bytes ambiguous servable truncated uptime applied refused
          failed accepted decoded rejected duplicates stale sites paths grants aggregate digest detail).

Definition decode_status_report (payload : bytes) : Expected StatusReport :=
  read_all r_status_report message_limits payload.

Record DigestReport := mkDigestReport {
  dr_state_digest : Digest256;
  dr_policy_digest : bytes;
  dr_last_arbitration : N;
  dr_sites : N;
  dr_paths : N;
  dr_grants : N;
}.

Definition encode_digest_report (value : DigestReport) : bytes :=
  w_digest (dr_state_digest value) ++
  w_str (dr_policy_digest value) ++
  w_u64 (dr_last_arbitration value) ++
  w_u64 (dr_sites value) ++
  w_u64 (dr_paths value) ++
  w_u64 (dr_grants value).

Definition r_digest_report : reader DigestReport :=
  digest ← r_digest;
  policy ← r_str;
  arb ← r_u64;
  sites ← r_u64;
  paths ← r_u64;
  grants ← r_u64;
  mret (mkDigestReport digest policy arb sites paths grants).

Definition decode_digest_report (payload : bytes) : Expected DigestReport :=
  read_all r_digest_report message_limits payload.

(** ** Record lists *)

Definition encode_site_list (value : list SiteRecord) : bytes := w_list value.
Definition decode_site_list (payload : bytes) : Expected (list SiteRecord) :=
  read_all r_list message_limits payload.
Definition encode_path_list (value : list PathRecord) : bytes := w_list value.
Definition decode_path_list (payload : bytes) : Expected (list PathRecord) :=
  read_all r_list message_limits payload.
Definition encode_grant_list (value : list GrantRecord) : bytes := w_list value.
Definition decode_grant_list (payload : bytes) : Expected (list GrantRecord) :=
  read_all r_list message_limits payload.

(** ** Well-formed bodies *)

Definition hello_request_fits (v : HelloRequest) : Prop :=
  hq_protocol_version v < 2 ^ 16 /\ id_wf (hq_client_nonce v) /\ wire_text (hq_client_kind v) /\
  u32_ok (hq_max_frame_bytes v).

Definition hello_reply_fits (v : HelloReply) : Prop :=
  hr_protocol_version v < 2 ^ 16 /\ id_wf (raw (hr_session v)) /\
  id_wf (raw (hr_server_incarnation v)) /\ u64_ok (epoch_value (hr_epoch v)) /\
  u32_ok (hr_max_frame_bytes v) /\ u32_ok (hr_format_version v).

Definition list_filter_fits (v : ListFilter) : Prop :=
  lf_limit v <= 65536 /\ id_wf (raw (lf_path v)) /\ id_wf (raw (lf_site v)).

Definition mutation_report_fits (limits : WireLimits) (v : MutationReport) : Prop :=
  u64_ok (arb_value (mr_arbitration v)) /\ id_wf (mr_primary_key v) /\ u32_ok (mr_total_changes v) /\
  blen (mr_changes v) <= 8192 /\ list_wf limits (mr_changes v).

Definition wire_ledger_fits (l : CapacityLedger) : Prop :=
  u64_ok (led_usable l) /\ u64_ok (led_committed l) /\ u64_ok (led_withdrawing l) /\
  u64_ok (led_reserved l) /\ u64_ok (led_protected_headroom l) /\ u64_ok (led_unavailable l) /\
  u64_ok (led_free l) /\ u64_ok (led_allocatable l) /\ u64_ok (led_reclaimable l) /\
  u64_ok (led_oversubscribed l) /\ u64_ok (led_authorized_extension l).

Definition ledger_report_fits (v : LedgerReport) : Prop :=
  id_wf (raw (lr_path v)) /\ wire_ledger_fits (lr_ledger v).

Definition status_report_fits (v : StatusReport) : Prop :=
  u32_ok (major (sp_version v)) /\ u32_ok (minor (sp_version v)) /\ u32_ok (patch (sp_version v)) /\
  sp_wire_protocol v < 2 ^ 16 /\ id_wf (raw (sp_incarnation v)) /\ u64_ok (epoch_value (sp_epoch v)) /\
  policy_wf (sp_policy v) /\ id_wf (raw (sp_store_id v)) /\ u32_ok (sp_store_format_version v) /\
  u64_ok (sp_store_records v) /\ u64_ok (sp_store_bytes v) /\ u64_ok (sp_ambiguous_intents v) /\
  u64_ok (sp_uptime_ms v) /\ u64_ok (sp_mutations_applied v) /\ u64_ok (sp_mutations_refused v) /\
  u64_ok (sp_mutations_failed v) /\ u64_ok (sp_connections_accepted v) /\
  u64_ok (sp_frames_decoded v) /\ u64_ok (sp_frames_rejected v) /\ u64_ok (sp_duplicate_requests v) /\
  u64_ok (sp_stale_requests v) /\ u64_ok (sp_sites v) /\ u64_ok (sp_paths v) /\
  u64_ok (sp_grants v) /\ wire_ledger_fits (sp_aggregate v) /\ digest_wf (sp_state_digest v) /\
  wire_text (sp_detail v).

Definition digest_report_fits (v : DigestReport) : Prop :=
  digest_wf (dr_state_digest v) /\ wire_text (dr_policy_digest v) /\ u64_ok (dr_last_arbitration v) /\
  u64_ok (dr_sites v) /\ u64_ok (dr_paths v) /\ u64_ok (dr_grants v).

(** ** Round trips *)


Lemma decode_encode_hello_request v :
  hello_request_fits v -> decode_hello_request (encode_hello_request v) = Ok v.
Proof.
  intros Hwf. apply (read_all_w r_hello_request). revert Hwf.
  body_roundtrip hello_request_fits encode_hello_request r_hello_request. by destruct v.
Qed.

Lemma decode_encode_hello_reply v :
  hello_reply_fits v -> decode_hello_reply (encode_hello_reply v) = Ok v.
Proof.
  intros Hwf. apply (read_all_w r_hello_reply). revert Hwf.
  body_roundtrip hello_reply_fits encode_hello_reply r_hello_reply. by destruct v.
Qed.

Lemma decode_encode_list_filter v :
  list_filter_fits v -> decode_list_filter (encode_list_filter v) = Ok v.
Proof.
  intros Hwf. apply (read_all_w r_list_filter). destruct Hwf as (Hl & Hp & Hs).
  assert (u32_ok (lf_limit v)) by (unfold u32_ok; change (2 ^ 32) with 4294967296; lia).
  unfold encode_list_filter, r_list_filter. codec_roundtrip_tac. rewrite (proj2 (N.ltb_ge _ _)) by done.
  codec_roundtrip_tac. by destruct v.
Qed.

Lemma decode_encode_ledger limits l rest :
  wire_ledger_fits l -> r_ledger limits (encode_ledger l ++ rest) = Ok (l, rest).
Proof. body_roundtrip wire_ledger_fits encode_ledger r_ledger. by destruct l. Qed.

#[export] Hint Resolve decode_encode_ledger decode_encode_policy : codec.

Lemma decode_encode_ledger_report v :
  ledger_report_fits v -> decode_ledger_report (encode_ledger_report v) = Ok v.
Proof.
  intros Hwf. apply (read_all_w r_ledger_report). revert Hwf.
  body_roundtrip ledger_report_fits encode_ledger_report r_ledger_report. by destruct v.
Qed.

Lemma decode_encode_status_report v :
  status_report_fits v -> decode_status_report (encode_status_report v) = Ok v.
Proof.
  intros Hwf. apply (read_all_w r_status_report). revert Hwf.
  body_roundtrip status_report_fits encode_status_report r_status_report. by destruct v as [[]].
Qed.

Lemma decode_encode_digest_report v :
  digest_report_fits v -> decode_digest_report (encode_digest_report v) = Ok v.
Proof.
  intros Hwf. apply (read_all_w r_digest_report). revert Hwf.
  body_roundtrip digest_report_fits encode_digest_report r_digest_report. by destruct v.
Qed.

#[export] Instance state_change_nonempty : NonEmptyCodec StateChange.
Proof. intros v. cbn. lia. Qed.

Lemma r_primary_kind_w limits kind rest :
  r_primary_kind limits
    (w_u8 (match kind with Some kind => object_kind_value kind | None => 0 end) ++ rest) = Ok (kind, rest).
Proof.
  unfold r_primary_kind. eapply reader_bind_step; [apply r_u8_w; by destruct kind as [[]|]|].
  by destruct kind as [[]|].
Qed.

(** [container_count], then the items. *)
Lemma container_count_w limits (l : list StateChange) rest :
  list_wf limits l ->
  r_container_count limits (w_u32 (blen l mod 2 ^ 32) ++ mjoin (encode <$> l) ++ rest) =
  Ok (blen l, mjoin (encode <$> l) ++ rest).
Proof.
  intros (Hmax & Hu & _). unfold r_container_count. rewrite N.mod_small by done.
  erewrite reader_bind_Ok by (by apply r_u32_w). unfold r_limits, r_remaining, mbind, reader_bind.
  rewrite (proj2 (N.ltb_ge _ _)) by done. rewrite (proj2 (N.ltb_ge _ _)); [done|].
  pose proof (encoded_length l). unfold blen. rewrite length_app. lia.
Qed.

Lemma decode_encode_mutation_report limits v :
  mutation_report_fits limits v -> decode_mutation_report (encode_mutation_report v) limits = Ok v.
Proof.
  intros (Ha & Hk & Ht & Hc & Hl). apply (read_all_w r_mutation_report).
  unfold encode_mutation_report, r_mutation_report, w_list. rewrite <-?app_assoc. codec_field.
  erewrite reader_bind_Ok by apply r_primary_kind_w. do 3 codec_field.
  erewrite reader_bind_Ok by (by apply container_count_w). rewrite (proj2 (N.ltb_ge _ _)) by done.
  unfold blen. rewrite Nat2N.id. erewrite reader_bind_Ok by (apply r_items_w, Hl).
  by destruct v as [[] ? ? ? ? ?].
Qed.

Lemma decode_encode_list {A} `{!Codec A} `{!NonEmptyCodec A} (l : list A) :
  list_wf message_limits l -> read_all r_list message_limits (w_list l) = Ok l.
Proof. intros Hl. apply (read_all_w r_list). by apply r_list_w. Qed.

(** ** Properties *)

(** Every body of a handshake, of a read request and of a reply decodes to
    the value that was encoded, as long as its fields fit their width and its
    lists the protocol bounds. *)
Theorem reply_bodies_roundtrip :
  (forall v, hello_request_fits v -> decode_hello_request (encode_hello_request v) = Ok v) /\
  (forall v, hello_reply_fits v -> decode_hello_reply (encode_hello_reply v) = Ok v) /\
  (forall v, list_filter_fits v -> decode_list_filter (encode_list_filter v) = Ok v) /\
  (forall limits v, mutation_report_fits limits v ->
     decode_mutation_report (encode_mutation_report v) limits = Ok v) /\
  (forall v, ledger_report_fits v -> decode_ledger_report (encode_ledger_report v) = Ok v) /\
  (forall v, status_report_fits v -> decode_status_report (encode_status_report v) = Ok v) /\
  (forall v, digest_report_fits v -> decode_digest_report (encode_digest_report v) = Ok v) /\
  (forall l, list_wf message_limits l -> decode_site_list (encode_site_list l) = Ok l) /\
  (forall l, list_wf message_limits l -> decode_path_list (encode_path_list l) = Ok l) /\
  (forall l, list_wf message_limits l -> decode_grant_list (encode_grant_list l) = Ok l).
Proof.
  split_and!; eauto using decode_encode_hello_request, decode_encode_hello_reply, decode_encode_list_filter,
    decode_encode_mutation_report, decode_encode_ledger_report, decode_encode_status_report,
    decode_encode_digest_report; intros l; apply decode_encode_list.
Qed.

Lemma reply_bodies_roundtrip_witness :
  list_filter_fits (mkListFilter false 100 (Sample.id 3) (Sample.id 1)) /\
  decode_list_filter (encode_list_filter (mkListFilter false 100 (Sample.id 3) (Sample.id 1))) =
    Ok (mkListFilter false 100 (Sample.id 3) (Sample.id 1)).
Proof.
  assert (list_filter_fits (mkListFilter false 100 (Sample.id 3) (Sample.id 1))) as Hf
    by (split_and!; by vm_compute).
  split; [exact Hf|]. destruct reply_bodies_roundtrip as (_ & _ & Hfilter & _). exact (Hfilter _ Hf).
Defined.
