(* ===== verification/Daemon.v ===== *)
(** * The daemon (include/isf/daemon.hpp, src/daemon.cpp)

    The commit pipeline that binds an authority to a durable store, the start
    and stop of a daemon, and the dispatch of requests.  The clock, the answers
    of the operating system and the random identities are arguments; the locks
    serialise the operations, so that each is one function of the state.  The
    diagnostic text of a response is not modelled. *)

From Stdlib Require Import Strings.Byte.
From S2P Require Import Prelude Outcome Ids Lifecycle Capacity Policy Wire Model Codecs State Ledger.
From S2P Require Import Changes Invariants PlanFabric Operations Digest Snapshot Store Compaction.
From S2P Require Import Recovery Frames Protocol Replies.

(** ** Digests of the state (src/authority.cpp, src/policy.cpp) *)

Section HashRecords.
Context {A : Type} `{!Codec A}.

(** [hash_records]: a tag, then every entry of the table with its key. *)
Definition record_parts (tag : N) (m : gmap Id128 A) : list bytes :=
  w_u8 tag :: ((fun e => w_id128 (fst e) ++ encode (snd e)) <$> entries m).
End HashRecords.

Definition state_parts (a : Authority) : list bytes :=
  [w_u8 1; encode (policy a); w_u8 2; w_u64 (epoch_value (epoch a))] ++
  record_parts 3 (sites_ a) ++ record_parts 4 (paths_ a) ++ record_parts 5 (domains_ a) ++
  record_parts 6 (attestations_ a) ++ record_parts 7 (grants_ a) ++
  record_parts 8 (verifications_ a) ++ record_parts 9 (oversubscriptions_ a) ++
  [w_u64 (arb_value (last_arbitration a))].

Definition state_digest (a : Authority) : Digest256 := digest_parts (state_parts a).

Definition policy_digest_hex (p : Policy) : bytes :=
  digest_to_hex (digest_of
    (w_id128 (raw (pol_id p)) ++ w_generation (pol_generation p) ++
     w_u64 (protected_floor_units p) ++ w_u32 (protected_floor_bps p) ++
     w_u64 (min_free_units p) ++ w_u32 (min_free_bps p) ++
     w_u32 (max_oversubscription_bps p) ++ w_u64 (max_lease_duration_ms p) ++
     w_u32 (max_grants_per_path p) ++ w_u32 (max_grants_per_site p) ++
     w_u32 (max_srd_concentration_bps p) ++ w_boolean (allow_degraded_activation p) ++
     w_boolean (allow_partition_optimistic_recovery p) ++
     w_boolean (require_verification_for_active p) ++ w_boolean (auto_reconcile_on_restart p) ++
     w_u64 (site_lease_timeout_ms p))).

(** ** State *)

(** The counters are atomics of 64 bits. *)
Record Daemon := mkDaemon {
  d_options : DaemonOptions;
  d_authority : Authority;
  d_store : Store;
  d_files : Files;
  d_durability_failed : bool;
  d_intent_counter : N;
  d_arbitration : N;
  d_applied : N;
  d_refused : N;
  d_failed : N;
  d_suppressed : N;
  d_recovery : RecoveryReport;
  d_started_ms : N;
}.

Definition set_d_authority (a : Authority) (d : Daemon) : Daemon :=
  mkDaemon (d_options d) a (d_store d) (d_files d) (d_durability_failed d) (d_intent_counter d)
    (d_arbitration d) (d_applied d) (d_refused d) (d_failed d) (d_suppressed d) (d_recovery d)
    (d_started_ms d).

Definition set_d_store (s : Store) (d : Daemon) : Daemon :=
  mkDaemon (d_options d) (d_authority d) s (d_files d) (d_durability_failed d) (d_intent_counter d)
    (d_arbitration d) (d_applied d) (d_refused d) (d_failed d) (d_suppressed d) (d_recovery d)
    (d_started_ms d).

Definition set_d_files (fs : Files) (d : Daemon) : Daemon :=
  mkDaemon (d_options d) (d_authority d) (d_store d) fs (d_durability_failed d) (d_intent_counter d)
    (d_arbitration d) (d_applied d) (d_refused d) (d_failed d) (d_suppressed d) (d_recovery d)
    (d_started_ms d).

Definition fail_durability (d : Daemon) : Daemon :=
  mkDaemon (d_options d) (d_authority d) (d_store d) (d_files d) true (d_intent_counter d)
    (d_arbitration d) (d_applied d) (d_refused d) (d_failed d) (d_suppressed d) (d_recovery d)
    (d_started_ms d).

(** [intent_counter_.fetch_add(1)] and [arbitration_.fetch_add(1)]. *)
Definition next_intent (d : Daemon) : Daemon :=
  mkDaemon (d_options d) (d_authority d) (d_store d) (d_files d) (d_durability_failed d)
    (wrap64 (d_intent_counter d + 1)) (d_arbitration d) (d_applied d) (d_refused d) (d_failed d)
    (d_suppressed d) (d_recovery d) (d_started_ms d).

Definition next_arbitration (d : Daemon) : Daemon :=
  mkDaemon (d_options d) (d_authority d) (d_store d) (d_files d) (d_durability_failed d)
    (d_intent_counter d) (wrap64 (d_arbitration d + 1)) (d_applied d) (d_refused d) (d_failed d)
    (d_suppressed d) (d_recovery d) (d_started_ms d).

Inductive Counter := Applied | Refused | Failed.

Definition count (c : Counter) (d : Daemon) : Daemon :=
  let bump (c' : Counter) n := match c, c' with
    | Applied, Applied | Refused, Refused | Failed, Failed => wrap64 (n + 1)
    | _, _ => n
    end in
  mkDaemon (d_options d) (d_authority d) (d_store d) (d_files d) (d_durability_failed d)
    (d_intent_counter d) (d_arbitration d) (bump Applied (d_applied d)) (bump Refused (d_refused d))
    (bump Failed (d_failed d)) (d_suppressed d) (d_recovery d) (d_started_ms d).

(** ** Committing *)

(** What the operating system answers while a mutation is committed: the bytes
    taken of the two records, the two flushes, the calls of a compaction, and
    the identity a compacted log gets. *)
Record CommitAnswers := mkCommitAnswers {
  ca_intent : nat;
  ca_intent_flush : bool;
  ca_commit : nat;
  ca_commit_flush : bool;
  ca_compact : CompactAnswers;
  ca_store_id : StoreId;
}.

(** The files on disk: an open store writes the log under its own name. *)
Definition disk (d : Daemon) : Files :=
  match st_file (d_store d) with
  | Some log => mkFiles (Some log) (f_fresh (d_files d)) (f_previous (d_files d))
  | None => d_files d
  end.

Definition maybe_compact (os : CompactAnswers) (random : StoreId) (d : Daemon) (now : N) :
    Daemon * Status :=
  if negb (do_auto_compact (d_options d)) || negb (needs_compaction (d_store d)) then (d, Status.Ok)
  else
    let '(store, files, status) :=
      compact os random (d_store d) (disk d) (snapshot (d_authority d)) now
        (do_incarnation (d_options d)) in
    (set_d_files files (set_d_store store d), status).

(** [append_...] followed by [flush]. *)
Definition make_durable (appended : Store * Status) (flushed : bool) : Store * bool :=
  let '(store, status) := appended in
  (store, is_ok status && is_ok (flush store flushed)).

Definition commit (os : CommitAnswers) (d : Daemon) (m : Mutation) (arb : ArbSeq) (now : N) :
    Daemon * Status :=
  let d := next_intent d in
  let intent := d_intent_counter d in
  let '(store, durable) :=
    make_durable
      (append_intent (d_store d) (ca_intent os) intent arb (m_changes m) now
         (do_incarnation (d_options d)))
      (ca_intent_flush os) in
  let d := set_d_store store d in
  if negb durable then (fail_durability d, Status.Unavailable)
  else
    let '(a, applied) := apply (d_authority d) (m_changes m) arb in
    let d := set_d_authority a d in
    if negb (is_ok applied) then (fail_durability d, Status.Corrupt)
    else if do_verify_after_mutation (d_options d) && negb (is_ok (verify_invariants a))
    then (fail_durability d, verify_invariants a)
    else
      let '(store, durable) :=
        make_durable (append_commit (d_store d) (ca_commit os) intent now) (ca_commit_flush os) in
      let d := set_d_store store d in
      if negb durable then (fail_durability d, Status.Indeterminate)
      else ((maybe_compact (ca_compact os) (ca_store_id os) d now).1, Status.Ok).

(** ** Requests *)

Definition is_mutation (type : MessageType) : bool :=
  match type with
  | MessageType.SiteRegister | MessageType.SiteHeartbeat | MessageType.SiteSetState
  | MessageType.PathRegister | MessageType.PathSetState | MessageType.CapacityAttest
  | MessageType.Oversubscribe | MessageType.PolicyInstall | MessageType.EpochBump
  | MessageType.GrantPropose | MessageType.GrantEvaluate | MessageType.GrantReserve
  | MessageType.GrantActivate | MessageType.GrantDegrade | MessageType.GrantWithdraw
  | MessageType.GrantRetire | MessageType.GrantCancel | MessageType.GrantAcknowledge
  | MessageType.GrantVerify | MessageType.GrantReconcile | MessageType.TickRequest => true
  | _ => false
  end.

Definition reply_type_for (request : MessageType) : MessageType :=
  match request with
  | MessageType.StatusRequest => MessageType.StatusReply
  | MessageType.ListSites => MessageType.SitesReply
  | MessageType.ListPaths => MessageType.PathsReply
  | MessageType.ListGrants => MessageType.GrantsReply
  | MessageType.LedgerRequest => MessageType.LedgerReply
  | MessageType.DigestRequest => MessageType.DigestReply
  | MessageType.SnapshotRequest => MessageType.SnapshotReply
  | MessageType.ShutdownRequest => MessageType.ShutdownReply
  | _ => MessageType.MutationReply
  end.

(** A response without its diagnostic text. *)
Record Answer := mkAnswer {
  an_type : MessageType;
  an_session_seq : N;
  an_id : RequestId;
  an_status : Status;
  an_payload : bytes;
}.

Definition answer_to (request : Request) (status : Status) (payload : bytes) : Answer :=
  mkAnswer (reply_type_for (rq_type request)) (rq_session_seq request) (rq_id request) status payload.

(** [plan_for] *)
Definition plan_for (a : Authority) (request : Request) (arb : ArbSeq) : MutationResult :=
  op ← decode_op (rq_type request) (rq_payload request);
  plan a op arb.

(** The object a mutation is about: kind, key and whether any key matches. *)
Definition primary_for (request : Request) : ObjectKind * Id128 * bool :=
  let payload := rq_payload request in
  let keyed {A} (kind : ObjectKind) (body : Expected A) (key : A -> Id128) :=
    match body with
    | Ok v => (kind, key v, false)
    | Fail _ => (ObjectKind.AuthorityMeta, nil_id, true)
    end in
  let read {A} (r : reader A) := read_all r message_limits payload in
  match rq_type request with
  | MessageType.SiteRegister =>
      keyed ObjectKind.Site (read r_site_registration) (fun v => raw (sd_id (sr_descriptor v)))
  | MessageType.SiteHeartbeat => keyed ObjectKind.Site (read r_heartbeat) (fun v => raw (hb_id v))
  | MessageType.SiteSetState =>
      keyed ObjectKind.Site (read (r_state_request (tag := SiteIdTag) site_states))
        (fun '(id, _, _, _) => raw id)
  | MessageType.PathRegister =>
      keyed ObjectKind.Path (read r_path_registration) (fun v => raw (pd_id (pr_descriptor v)))
  | MessageType.PathSetState =>
      keyed ObjectKind.Path (read (r_state_request (tag := PathIdTag) path_states))
        (fun '(id, _, _, _) => raw id)
  | MessageType.CapacityAttest =>
      keyed ObjectKind.Path (decode_attestation default_limits payload) (fun v => raw (att_path (fst v)))
  | MessageType.PolicyInstall => (ObjectKind.Policy, nil_id, false)
  | MessageType.EpochBump => (ObjectKind.Epoch, nil_id, false)
  | MessageType.GrantPropose | MessageType.GrantEvaluate | MessageType.GrantReserve
  | MessageType.GrantActivate | MessageType.GrantDegrade | MessageType.GrantWithdraw
  | MessageType.GrantRetire | MessageType.GrantCancel | MessageType.GrantAcknowledge
  | MessageType.GrantVerify | MessageType.GrantReconcile => (ObjectKind.Grant, nil_id, true)
  | _ => (ObjectKind.AuthorityMeta, nil_id, true)
  end.

(** The report of a committed mutation; the last loop of the code finds an
    object it then names with the kind and the key it already has. *)
Definition report_for (o : DaemonOptions) (request : Request) (arb : ArbSeq) (changes : list StateChange) :
    MutationReport :=
  let '(kind, key, _) := primary_for request in
  let limit := if do_max_changes_in_reply o =? 0 then 1 else do_max_changes_in_reply o in
  mkMutationReport arb (Some kind) key (blen changes mod 2 ^ 32) (limit <? blen changes)
    (take (N.to_nat limit) changes).

Definition handle_mutation (os : CommitAnswers) (d : Daemon) (now : N) (request : Request) :
    Daemon * Answer :=
  if negb (servable (rep_fidelity (d_recovery d)))
  then (count Failed d, answer_to request Status.Corrupt [])
  else if d_durability_failed d then (count Failed d, answer_to request Status.Unavailable [])
  else
    let d := next_arbitration d in
    let arb := mkArbSeq (d_arbitration d) in
    match plan_for (d_authority d) request arb with
    | Fail s =>
        if bool_decide (s = Status.NotFound) && bool_decide (rq_type request = MessageType.TickRequest)
        then (d, answer_to request Status.Refused [])
        else (count Refused d, answer_to request s [])
    | Ok m =>
        if bool_decide (m_changes m = []) then (count Refused d, answer_to request Status.Refused [])
        else
          let '(d, committed) := commit os d m arb now in
          if negb (is_ok committed) then (count Failed d, answer_to request committed [])
          else
            (count Applied d,
             answer_to request Status.Ok
               (encode_mutation_report (report_for (d_options d) request arb (m_changes m))))
    end.

(** ** Reading *)

(** The version the build configures, and the text that explains the recovery. *)
Record Diagnostics := mkDiagnostics { dg_version : Version; dg_recovery_detail : bytes }.

Definition status_report (dg : Diagnostics) (now : N) (d : Daemon) : StatusReport :=
  let r := d_recovery d in
  let a := d_authority d in
  mkStatusReport (dg_version dg) kWireProtocolVersion (incarnation a) (epoch a) (policy a) (rep_fidelity r)
    (rep_store_id r) (rep_format_version r) (st_record_count (d_store d)) (st_log_bytes (d_store d))
    (rep_ambiguous_intents r) (servable (rep_fidelity r)) (rep_truncated_on_open r)
    (wrap64 (now + 2 ^ 64 - d_started_ms d)) (d_applied d) (d_refused d) (d_failed d) 0 0 0 0 0
    (blen (sites a)) (blen (paths a)) (blen (grants a)) (aggregate_ledger a) (state_digest a)
    (dg_recovery_detail dg).

Definition listed (f : ListFilter) (g : GrantRecord) : bool :=
  (lf_include_terminal f || negb (is_terminal (g_state g))) &&
  (tid_is_nil (lf_path f) || id_eqb (b_path (g_binding g)) (lf_path f)) &&
  (tid_is_nil (lf_site f) || id_eqb (b_holder (g_binding g)) (lf_site f)).

(** The loop stops at the limit. *)
Definition list_grants (f : ListFilter) (a : Authority) : list GrantRecord :=
  take (N.to_nat (lf_limit f)) (filter (fun g => listed f g = true) (grants a)).

Definition digest_report (a : Authority) : DigestReport :=
  mkDigestReport (state_digest a) (policy_digest_hex (policy a)) (arb_value (last_arbitration a))
    (blen (sites a)) (blen (paths a)) (blen (grants a)).

Definition handle_read (dg : Diagnostics) (now : N) (d : Daemon) (request : Request) : Answer :=
  let a := d_authority d in
  let payload := rq_payload request in
  let body_expected := bool_decide (rq_type request = MessageType.ListGrants) ||
                       bool_decide (rq_type request = MessageType.LedgerRequest) in
  let ok := answer_to request Status.Ok in
  if negb body_expected && negb (bool_decide (payload = [])) then answer_to request Status.Invalid []
  else
    match rq_type request with
    | MessageType.StatusRequest => ok (encode_status_report (status_report dg now d))
    | MessageType.ListSites => ok (encode_site_list (sites a))
    | MessageType.ListPaths => ok (encode_path_list (paths a))
    | MessageType.ListGrants =>
        match decode_list_filter payload with
        | Fail s => answer_to request s []
        | Ok f => ok (encode_grant_list (list_grants f a))
        end
    | MessageType.LedgerRequest =>
        match decode_id_body payload with
        | Fail s => answer_to request s []
        | Ok id =>
            match ledger a (from_raw id) with
            | Fail s => answer_to request s []
            | Ok l => ok (encode_ledger_report (mkLedgerReport (from_raw id) l))
            end
        end
    | MessageType.DigestRequest => ok (encode_digest_report (digest_report a))
    | MessageType.SnapshotRequest => ok (encode_snapshot (snapshot a))
    | MessageType.ShutdownRequest => ok []
    | _ => answer_to request Status.Unsupported []
    end.

Definition handle (os : CommitAnswers) (dg : Diagnostics) (now : N) (d : Daemon) (request : Request) :
    Daemon * Answer :=
  let error s := mkAnswer MessageType.ErrorReply (rq_session_seq request) (rq_id request) s [] in
  if negb (rq_protocol_version request =? kWireProtocolVersion) then (d, error Status.VersionMismatch)
  else if negb (message_type_is_request (rq_type request)) then (d, error Status.Invalid)
  else if d_durability_failed d && is_mutation (rq_type request)
    then (d, answer_to request Status.Unavailable [])
  else if is_mutation (rq_type request) then handle_mutation os d now request
  else (d, handle_read dg now d request).

(** [tick_once]; [random] is the identity of its request. *)
Definition tick_once (os : CommitAnswers) (dg : Diagnostics) (random : RequestId) (d : Daemon) (now : N) :
    Daemon * Expected N :=
  let request := mkRequest kWireProtocolVersion MessageType.TickRequest 0 random (encode_u64_body now) in
  let '(d, answer) := handle os dg now d request in
  (d, match an_status answer with
      | Status.Ok =>
          report ← decode_mutation_report (an_payload answer) default_limits;
          Ok (mr_total_changes report)
      | Status.Refused => Ok 0
      | s => Fail s
      end).

(** ** Starting and stopping *)

(** [stop]: the mark of a clean shutdown, and the file closed; [accepted] bytes
    of the record are taken. *)
Definition stop (accepted : nat) (d : Daemon) (now : N) : Daemon :=
  if is_open (d_store d) then
    let '(store, _) := append_clean_shutdown (d_store d) accepted now in
    let d := set_d_store store d in
    set_d_store (set_file None (d_store d)) (set_d_files (disk d) d)
  else d.

(** What is drawn and answered while a daemon starts; [sta_shutdown] bytes are
    taken of the record that a daemon writes when its replay fails. *)
Record StartAnswers := mkStartAnswers {
  sta_settle : SettleAnswers;
  sta_open : OpenAnswers;
  sta_store_id : StoreId;
  sta_incarnation : Incarnation;
  sta_shutdown : nat;
}.

(** A daemon whose store is open and whose state is not replayed yet. *)
Definition opened_daemon (o : DaemonOptions) (files : Files) (replay : ReplayResult) (store : Store)
    (a : Authority) (suppressed now : N) : Daemon :=
  mkDaemon o a store files false 0 (arb_value (last_arbitration a)) 0 0 0 suppressed (rr_report replay) now.

(** The start of a daemon over the files of its store; the second part is the
    files it leaves.  A daemon that fails to replay is destroyed, which stops it. *)
Definition start (os : StartAnswers) (o : DaemonOptions) (files : Files) (now : N) :
    Expected Daemon * Files :=
  if negb (is_ok (validate (do_policy o))) then (Fail Status.Invalid, files)
  else if (max_record_bytes (do_store o) =? 0) || (max_log_bytes (do_store o) =? 0) ||
          (max_records (do_store o) =? 0) then (Fail Status.Invalid, files)
  else
    let '(files, settled) := settle (sta_settle os) files in
    if negb (is_ok settled) then (Fail settled, files)
    else
      let '(opened, primary) := open_store (sta_open os) (sta_store_id os) (do_store o) (f_primary files) in
      let files := mkFiles primary (f_fresh files) (f_previous files) in
      match opened with
      | Fail s => (Fail s, files)
      | Ok (replay, store) =>
          let opened := opened_daemon o files replay store in
          if negb (servable (rep_fidelity (rr_report replay))) then (Fail Status.Corrupt, files)
          else
            match apply_replay o (sta_incarnation os) (rr_actions replay) with
            | Fail s =>
                let a := new_authority (sta_incarnation os) (replay_config o) in
                (Fail s, disk (stop (sta_shutdown os) (opened a 0 now) now))
            | Ok (a, suppressed) => (Ok (opened a suppressed now), files)
            end
      end.
