(* ===== verification/Failures.v ===== *)
(** * Failures are never Ok

    A failure of a plan or of a decoder carries a status other than Ok, so that
    a caller can tell an answer by its status. *)

From Stdlib Require Import Strings.Byte.
From S2P Require Import Prelude Outcome Ids Lifecycle Capacity Policy Wire Model Codecs State Ledger.
From S2P Require Import Changes Invariants Rebalance PlanFabric PlanGrants Operations Frames Protocol.

(** ** Plans *)

Ltac proper_tac :=
  repeat first
    [ apply proper_ok | apply proper_guard_status | apply proper_add
    | apply proper_guard; [discriminate|] | apply proper_bind; [|intros ?]
    | apply proper_fold; intros ? ?
    | solve [auto with proper]
    | progress cbv zeta
    | match goal with |- proper (match ?x with _ => _ end) => destruct x end ].

Lemma proper_found {A} (o : option A) : proper (found o).
Proof. by destruct o. Qed.

Lemma proper_mul a b : proper (checked_mul a b).
Proof. unfold checked_mul. proper_tac. Qed.

#[export] Hint Resolve proper_found proper_mul : proper.

Lemma proper_require_site a id : proper (require_site a id).
Proof. apply proper_found. Qed.
Lemma proper_require_path a id : proper (require_path a id).
Proof. apply proper_found. Qed.
Lemma proper_require_grant a id : proper (require_grant a id).
Proof. apply proper_found. Qed.
Lemma proper_concentration a path amount : proper (check_concentration a path amount).
Proof. unfold check_concentration. proper_tac. Qed.

#[export] Hint Resolve proper_require_site proper_require_path proper_require_grant proper_concentration : proper.

Lemma proper_holder_of a g : proper (holder_of a g).
Proof. apply proper_require_site. Qed.
Lemma proper_path_of a g : proper (path_of a g).
Proof. apply proper_require_path. Qed.

#[export] Hint Resolve proper_holder_of proper_path_of : proper.

Lemma proper_plan a op arb : proper (plan a op arb).
Proof.
  destruct op; cbn [plan]; lazymatch goal with
  | |- proper (?f _ _ _ _ _ _) => unfold f
  | |- proper (?f _ _ _ _ _) => unfold f
  | |- proper (?f _ _ _) => unfold f
  end; proper_tac.

Qed.

(** ** Decoders *)

Definition proper_reader {A} (r : reader A) : Prop := forall limits data, proper (r limits data).

Lemma proper_reader_bind {A B} (r : reader A) (f : A -> reader B) :
  proper_reader r -> (forall v, proper_reader (f v)) -> proper_reader (r ≫= f).
Proof.
  intros Hr Hf limits data. specialize (Hr limits data). unfold mbind, reader_bind.
  destruct (r limits data) as [[v rest]|s]; [apply Hf|unfold proper in *; congruence].
Qed.

Lemma proper_reader_ret {A} (v : A) : proper_reader (mret v).
Proof. done. Qed.
Lemma proper_reader_fail {A} s : s <> Status.Ok -> proper_reader (r_fail (A := A) s).
Proof. intros Hs limits data. unfold r_fail, proper. congruence. Qed.
Lemma proper_reader_take n : proper_reader (r_take n).
Proof. intros limits data. unfold r_take. by destruct (_ <? _). Qed.
Lemma proper_reader_limits : proper_reader r_limits.
Proof. done. Qed.

Lemma proper_reader_le k : proper_reader (r_le k).
Proof. apply proper_reader_bind; [apply proper_reader_take|intros; apply proper_reader_ret]. Qed.

Create HintDb proper_reader.
#[export] Hint Resolve proper_reader_ret proper_reader_take proper_reader_limits proper_reader_le : proper_reader.
#[export] Hint Extern 1 (proper_reader (r_fail _)) => apply proper_reader_fail; discriminate : proper_reader.
#[export] Hint Unfold r_u8 r_u16 r_u32 r_u64 : proper_reader.

Ltac proper_reader_tac :=
  repeat first
    [ solve [auto 2 with proper_reader]
    | apply proper_reader_bind; [|intros ?]
    | match goal with |- proper_reader (match ?x with _ => _ end) => destruct x end ].

Lemma proper_boolean : proper_reader r_boolean.
Proof. unfold r_boolean. proper_reader_tac. Qed.
Lemma proper_bytes : proper_reader r_bytes.
Proof. unfold r_bytes. proper_reader_tac. Qed.
Lemma proper_str : proper_reader r_str.
Proof. unfold r_str. proper_reader_tac. Qed.
Lemma proper_id128 : proper_reader r_id128.
Proof. unfold r_id128. proper_reader_tac. Qed.
Lemma proper_digest : proper_reader r_digest.
Proof. unfold r_digest. proper_reader_tac. Qed.
Lemma proper_generation : proper_reader r_generation.
Proof. unfold r_generation. proper_reader_tac. Qed.
Lemma proper_epoch : proper_reader r_epoch.
Proof. unfold r_epoch. proper_reader_tac. Qed.
Lemma proper_enum {A} (all : list A) : proper_reader (r_enum all).
Proof. unfold r_enum. proper_reader_tac. Qed.

#[export] Hint Resolve proper_boolean proper_bytes proper_str proper_id128 proper_digest proper_generation
  proper_epoch proper_enum : proper_reader.

Lemma proper_read_all {A} (r : reader A) limits payload : proper_reader r -> proper (read_all r limits payload).
Proof.
  intros Hr. specialize (Hr limits payload). unfold read_all, proper in *.
  destruct (r limits payload) as [[v rest]|s]; [|congruence]. by destruct (at_end rest).
Qed.

Lemma proper_read_as {A B} (f : A -> B) (r : reader A) limits payload :
  proper_reader r -> proper (read_as f r limits payload).
Proof. intros Hr. apply proper_bind; [by apply proper_read_all|done]. Qed.

Lemma proper_nested {A} (r : reader A) : proper_reader r -> proper_reader (r_nested r).
Proof.
  intros Hr. unfold r_nested. apply proper_reader_bind; [auto with proper_reader|]. intros base.
  pose proof (proper_read_all r message_limits base Hr) as H.
  destruct (read_all r message_limits base) as [v|s]; [done|]. apply proper_reader_fail. unfold proper in H. congruence.
Qed.

Lemma proper_policy : proper_reader decode_policy.
Proof. unfold decode_policy. proper_reader_tac. Qed.
Lemma proper_grant_operation : proper_reader r_grant_operation.
Proof. unfold r_grant_operation. proper_reader_tac. Qed.

#[export] Hint Resolve proper_nested proper_policy proper_grant_operation : proper_reader.

Lemma proper_decode_op type payload : proper (decode_op type payload).
Proof.
  unfold decode_op, r_site_registration, r_heartbeat, r_state_request, r_path_registration, decode_attestation,
    decode_oversubscription, r_policy_install_request, r_epoch_bump_request, r_grant_proposal,
    r_acknowledgement, r_verification_message, r_reconcile_request.
  destruct type; try discriminate; apply proper_read_as; proper_reader_tac.
Qed.
