(* ===== verification/Applicable.v ===== *)
(** * Every plan applies

    The planning operations check the bounds and the duplicates that [apply]
    checks again, so that a mutation planned from a state in order is always
    applied: a mutation is a few creations that fit, of different kinds,
    followed by updates of records that exist. *)

From S2P Require Import Prelude Outcome Ids Lifecycle Capacity Policy Wire Model State Ledger.
From S2P Require Import Changes Invariants Rebalance PlanFabric PlanGrants Operations.

(** An object that replaces a stored one. *)
Definition updates (a : Authority) (o : Object) : Prop :=
  match o with
  | OSite v => is_Some (sites_ a !! raw (site_id v))
  | OPath v => is_Some (paths_ a !! raw (path_id v))
  | OGrant v _ => exists g, grants_ a !! raw (g_id v) = Some g /\ g_request v = g_request g
  | OPolicy v => validate v = Status.Ok
  | OEpoch v => epoch_value v <> 0
  | OMeta => True
  | ODomain _ | OAttestation _ | OVerification _ | OOversubscription _ => False
  end.

Definition room {A} (m : gmap Id128 A) (limit : N) : Prop := N.of_nat (size m) < limit.

(** An object with an identity for which its table has room. *)
Definition creates (a : Authority) (o : Object) : Prop :=
  let c := config a in
  is_nil (object_key o) = false /\
  match o with
  | OSite _ => room (sites_ a) (max_sites c)
  | OPath _ => room (paths_ a) (max_paths c)
  | ODomain _ => room (domains_ a) (max_domains c)
  | OAttestation _ => room (attestations_ a) (max_attestations c)
  | OGrant v _ =>
      room (grants_ a) (max_grants c) /\ grants_ a !! raw (g_id v) = None /\
      request_index a !! raw (g_request v) = None
  | OVerification _ => room (verifications_ a) (max_verifications c)
  | OOversubscription _ => room (oversubscriptions_ a) (max_oversubscriptions c)
  | OPolicy _ | OEpoch _ | OMeta => False
  end.

(** Creations of different kinds, then updates. *)
Definition applicable (a : Authority) (objs : list Object) : Prop :=
  exists news olds, objs = news ++ olds /\
    NoDup (object_kind <$> news) /\ Forall (creates a) news /\ Forall (updates a) olds.

Lemma room_not_full {A} (m : gmap Id128 A) limit key : room m limit -> table_full m limit key = false.
Proof. unfold room, table_full. intros H. by rewrite (proj2 (N.leb_gt _ _)). Qed.

Lemma stored_not_full {A} (m : gmap Id128 A) limit key :
  is_Some (m !! key) -> table_full m limit key = false.
Proof. intros [x Hx]. unfold table_full. rewrite Hx. by rewrite andb_false_r. Qed.

Lemma install_ready a o :
  well_keyed a -> updates a o \/ creates a o -> exists a1, install a (object_key o) o = Ok a1.
Proof.
  intros Hwk. destruct o as [v|v|v|v|v r|v|v|v|v|]; cbn [updates creates install object_key];
    intros [H|[_ H]]; try done; try (rewrite room_not_full by done; by eexists);
    try (rewrite stored_not_full by done; by eexists).
  - destruct H as (g & Hg & Hr). rewrite stored_not_full by done. unfold guard_fail, index_request.
    destruct (tid_is_nil (g_request v)) eqn:Hn; [by eexists|].
    rewrite Hr in Hn |- *. rewrite (wk_requests a Hwk _ _ Hg Hn). cbn.
    rewrite bool_decide_eq_true_2 by done. by eexists.
  - destruct H as (Hroom & _ & Hi). rewrite room_not_full by done. unfold guard_fail, index_request.
    rewrite Hi. destruct (tid_is_nil _); by eexists.
  - rewrite H. by eexists.
  - rewrite (proj2 (N.eqb_neq _ _) H). by eexists.
  - by eexists.
Qed.

(** What an installed object leaves alone. *)
Lemma insert_is_Some {A} (m : gmap Id128 A) k k' v : is_Some (m !! k) -> is_Some (<[k' := v]> m !! k).
Proof.
  intros H. destruct (decide (k' = k)) as [->|]; [by rewrite lookup_insert_eq|by rewrite lookup_insert_ne].
Qed.

Lemma install_keeps_updates a o a1 o' :
  updates a o \/ creates a o -> install a (object_key o) o = Ok a1 -> updates a o' -> updates a1 o'.
Proof.
  intros Ho Hi Hu.
  destruct o as [v|v|v|v|v r|v|v|v|v|]; cbn [install object_key] in Hi;
    try apply guard_fail_ok in Hi as [_ Hi];
    try (apply expected_bind_ok in Hi as (index & _ & Hi)); apply Ok_inj in Hi as <-;
    destruct o'; try done; try (by apply insert_is_Some).
  destruct Hu as (g & Hg & Hr). cbn [updates set_grants grants_].
  destruct (decide (raw (g_id v) = raw (g_id v0))) as [He|Hne].
  - rewrite He, lookup_insert_eq. exists v. split; [done|].
    destruct Ho as [(h & Hh & ->)|(_ & _ & Hh & _)]; cbn in Hh; rewrite He in Hh; congruence.
  - rewrite lookup_insert_ne by done. by exists g.
Qed.

Lemma install_keeps_creates a o a1 o' :
  object_kind o <> object_kind o' -> install a (object_key o) o = Ok a1 ->
  creates a o' -> creates a1 o'.
Proof.
  intros Hk Hi Hc.
  destruct o as [v|v|v|v|v r|v|v|v|v|]; cbn [install object_key] in Hi;
    try apply guard_fail_ok in Hi as [_ Hi];
    try (apply expected_bind_ok in Hi as (index & _ & Hi)); apply Ok_inj in Hi as <-;
    destruct o'; done.
Qed.

(** ** A list of objects *)

Lemma Forall_updates_keep a o a1 l :
  updates a o \/ creates a o -> install a (object_key o) o = Ok a1 ->
  Forall (updates a) l -> Forall (updates a1) l.
Proof.
  intros Ho Hi Hl. eapply Forall_impl; [exact Hl|]. intros o' Hu. by eapply install_keeps_updates.
Qed.

Lemma install_updates a objs :
  well_keyed a -> Forall (updates a) objs -> exists a', install_objects a objs = (a', Status.Ok).
Proof.
  intros Hwk Hobjs. revert a Hwk Hobjs. induction objs as [|o objs IH]; intros a Hwk Hobjs.
  { by exists a. }
  apply Forall_cons in Hobjs as [Ho Hobjs]. rewrite install_objects_cons.
  destruct (install_ready a o Hwk (or_introl Ho)) as [a1 Hi]. rewrite Hi.
  apply IH; [|by eapply Forall_updates_keep; eauto].
  by eapply install_well_keyed; [|apply object_keyed|].
Qed.

Lemma install_applicable a objs :
  well_keyed a -> applicable a objs -> exists a', install_objects a objs = (a', Status.Ok).
Proof.
  intros Hwk (news & olds & -> & Hnd & Hnews & Holds). revert a Hwk Hnews Holds.
  induction news as [|o news IH]; intros a Hwk Hnews Holds; [by apply install_updates|].
  apply Forall_cons in Hnews as [Ho Hnews]. csimpl in Hnd. apply NoDup_cons in Hnd as [Hk Hnd].
  cbn [app]. rewrite install_objects_cons.
  destruct (install_ready a o Hwk (or_intror Ho)) as [a1 Hi]. rewrite Hi.
  apply IH; [done|by eapply install_well_keyed; [|apply object_keyed|]| |
             by eapply Forall_updates_keep; eauto].
  apply Forall_forall. intros o' Hin. rewrite Forall_forall in Hnews.
  eapply install_keeps_creates; [|done|by apply Hnews].
  intros Heq. apply Hk. apply list_elem_of_fmap. by exists o'.
Qed.

(** What installing an object that updates or creates a record preserves, the
    installation of an applicable list preserves. *)
Section Preserved.
Context (P : Authority -> Prop).
Context (HP : forall a o a1, well_keyed a -> updates a o \/ creates a o ->
  install a (object_key o) o = Ok a1 -> P a -> P a1).

Lemma install_updates_keeps a objs a' :
  well_keyed a -> Forall (updates a) objs -> install_objects a objs = (a', Status.Ok) -> P a -> P a'.
Proof.
  revert a. induction objs as [|o objs IH]; intros a Hwk Hobjs; [by intros [= <-]|].
  apply Forall_cons in Hobjs as [Ho Hobjs]. rewrite install_objects_cons.
  destruct (install a (object_key o) o) as [a1|s] eqn:Hi; [|intros [= -> ->]].
  - intros Hrest HPa. eapply IH; [| |exact Hrest|by eapply HP; eauto].
    + by eapply install_well_keyed; [|apply object_keyed|].
    + by eapply Forall_updates_keep; eauto.
  - destruct (install_ready a' o Hwk (or_introl Ho)) as [a1 Ha1]. congruence.
Qed.

Lemma install_applicable_keeps a objs a' :
  well_keyed a -> applicable a objs -> install_objects a objs = (a', Status.Ok) -> P a -> P a'.
Proof.
  intros Hwk (news & olds & -> & Hnd & Hnews & Holds). revert a Hwk Hnews Holds.
  induction news as [|o news IH]; intros a Hwk Hnews Holds; [by apply install_updates_keeps|].
  apply Forall_cons in Hnews as [Ho Hnews]. csimpl in Hnd. apply NoDup_cons in Hnd as [Hk Hnd].
  cbn [app]. rewrite install_objects_cons.
  destruct (install_ready a o Hwk (or_intror Ho)) as [a1 Hi]. rewrite Hi. intros Hrest HPa.
  eapply IH; [done| | |by eapply Forall_updates_keep; eauto|exact Hrest|by eapply HP; eauto].
  - by eapply install_well_keyed; [|apply object_keyed|].
  - apply Forall_forall. intros o' Hin. rewrite Forall_forall in Hnews.
    eapply install_keeps_creates; [|done|by apply Hnews].
    intros Heq. apply Hk. apply list_elem_of_fmap. by exists o'.
Qed.
End Preserved.

(** ** Every plan *)

Lemma applicable_updates a objs : Forall (updates a) objs -> applicable a objs.
Proof. intros H. exists [], objs. split_and!; [done|constructor|constructor|done]. Qed.

Lemma applicable_new a o objs : creates a o -> Forall (updates a) objs -> applicable a (o :: objs).
Proof.
  intros Ho Hobjs. exists [o], objs. split_and!; [done|apply NoDup_singleton|by constructor|done].
Qed.

Lemma image_updates a o : image_of a o -> updates a o.
Proof.
  intros (g & u & r & -> & Hg & [Hid _]). cbn. destruct Hid as (Hi & Hr & _).
  exists g. by rewrite Hi.
Qed.

Lemma images_update a l : Forall (image_of a) l -> Forall (updates a) l.
Proof. intros Hl. eapply Forall_impl; [exact Hl|]. apply image_updates. Qed.

Lemma derive_grant_id_not_nil arb p : tid_is_nil (derive_grant_id arb p) = false.
Proof.
  unfold derive_grant_id. destruct (tid_is_nil (gp_grant_id p)) eqn:E; [|done]. apply from_seed128_not_nil.
Qed.

(** The identity of a new domain is the one named, or the default. *)
Lemma domain_or_default (d : DomainId) :
  tid_is_nil (if tid_is_nil d then default_domain_id else d) = false.
Proof. destruct (tid_is_nil d) eqn:E; [by vm_compute|done]. Qed.

Lemma room_of {A} (m : gmap Id128 A) limit : (limit <=? N.of_nat (size m)) = false -> room m limit.
Proof. apply N.leb_gt. Qed.

Section Plans.
Context (a : Authority) (Hwk : well_keyed a) (arb : ArbSeq) (m : Mutation).

Abbreviation applies := (applicable a (m_objects m)).

Lemma site_updates id s u : find_site a id = Some s -> site_id u = site_id s -> updates a (OSite u).
Proof.
  unfold find_site. cbn. intros Hs ->. rewrite (wk_sites a Hwk _ _ Hs). by eexists.
Qed.

Lemma path_updates id s u : find_path a id = Some s -> path_id u = path_id s -> updates a (OPath u).
Proof.
  unfold find_path. cbn. intros Hs ->. rewrite (wk_paths a Hwk _ _ Hs). by eexists.
Qed.

Lemma install_policy_applies p : plan_install_policy a p arb = Ok m -> applies.
Proof.
  unfold plan_install_policy. intros H. plan_inv H. apply applicable_updates. cbn [m_objects].
  constructor; [by apply not_is_ok in G|].
  apply Forall_join, Forall_fmap, Forall_forall. intros r _.
  by apply images_update, rebalance_path_images.
Qed.

Lemma bump_epoch_applies e : plan_bump_epoch a e arb = Ok m -> applies.
Proof.
  unfold plan_bump_epoch. intros H. plan_inv H. apply applicable_updates. to_prop. cbn [m_objects].
  constructor; [cbn; lia|].
  apply images_update, omap_images; [by apply stored_grants|]. intros g u. apply withdraw_for_epoch_lawful.
Qed.

Lemma register_site_applies r : plan_register_site a r arb = Ok m -> applies.
Proof.
  unfold plan_register_site. intros H. plan_inv H.
  destruct (find_site a _) as [current|] eqn:Es; plan_inv H.
  2:{ apply applicable_new; [split; [done|by apply room_of]|constructor]. }
  destruct (id_eqb _ _); plan_inv H; apply applicable_updates; cbn [m_objects].
  - constructor; [|constructor]. apply (site_updates _ _ _ Es).
    unfold refreshed_site. cbn zeta. by break_goal.
  - apply Forall_app; split.
    + apply images_update, omap_images; [by apply stored_grants|]. intros g u. apply fence_grant_lawful.
    + constructor; [|constructor]. by apply (site_updates _ _ _ Es).
Qed.

Lemma heartbeat_applies h : plan_heartbeat a h arb = Ok m -> applies.
Proof.
  unfold plan_heartbeat. intros H. plan_inv H. apply found_ok in E. apply applicable_updates.
  constructor; [|constructor]. apply (site_updates _ _ _ E).
  unfold beaten_site. cbn. by destruct (site_state x).
Qed.

Lemma set_site_state_applies site s reason now :
  plan_set_site_state a site s reason now arb = Ok m -> applies.
Proof.
  unfold plan_set_site_state. intros H. plan_inv H. apply found_ok in E. apply applicable_updates.
  cbn [m_objects]. constructor.
  - apply (site_updates _ _ _ E). unfold moved_site. cbn zeta. by repeat break_goal.
  - destruct (site_requires_degradation s); [|constructor].
    by apply images_update, append_downgrades_images.
Qed.

Lemma register_path_applies r : plan_register_path a r arb = Ok m -> applies.
Proof.
  unfold plan_register_path. intros H. plan_inv H.
  pose proof (domain_or_default (pd_shared_risk_domain (pr_descriptor r))) as Hdomain.
  set (domain := if tid_is_nil _ then _ else _) in *.
  destruct (find_path a _) as [current|] eqn:Ep; plan_inv H; cbn [m_objects].
  - assert (Forall (updates a) (OPath (reregistered_path r domain current) ::
      rebalance_path a (reregistered_path r domain current) (policy a) (pr_now_ms r)
      (str "path generation changed") false true)) as Hold.
    { constructor; [by apply (path_updates _ _ _ Ep)|by apply images_update, rebalance_path_images]. }
    destruct (bool_decide (domains_ a !! raw domain = None)); cbn [app andb] in *.
    + apply applicable_new; [split; [done|by apply room_of]|done].
    + by apply applicable_updates.
  - assert (creates a (OPath (new_path r domain))) as Hnew by (split; [done|by apply room_of]).
    destruct (bool_decide (domains_ a !! raw domain = None)); cbn [app andb] in *.
    + exists [ODomain (new_domain domain); OPath (new_path r domain)], [].
      split_and!; [done| |constructor; [split; [done|by apply room_of]|by constructor]|constructor].
      apply (bool_decide_unpack _). vm_compute. done.
    + apply applicable_new; [done|constructor].
Qed.

Lemma set_path_state_applies path s reason now :
  plan_set_path_state a path s reason now arb = Ok m -> applies.
Proof.
  unfold plan_set_path_state. intros H. plan_inv H. apply found_ok in E. apply applicable_updates.
  cbn [m_objects]. constructor; [by apply (path_updates _ _ _ E); destruct s|].
  apply Forall_app; split; destruct s; try constructor; apply images_update;
    by apply append_downgrades_images || by apply rebalance_path_images.
Qed.

Lemma attest_capacity_applies t : plan_attest_capacity a t arb = Ok m -> applies.
Proof.
  unfold plan_attest_capacity. intros H. plan_inv H. apply found_ok in E.
  apply applicable_new; [split; [done|by apply room_of]|].
  constructor; [|by apply images_update, rebalance_path_images].
  apply (path_updates _ _ _ E). unfold attested_path. cbn zeta. by break_goal.
Qed.

Lemma propose_applies p : plan_propose_grant a p arb = Ok m -> applies.
Proof.
  unfold plan_propose_grant. intros H. plan_inv H. apply applicable_new; [|constructor].
  cbn -[bounded derive_grant_id]. split_and!; [apply derive_grant_id_not_nil|by apply room_of|by to_prop|by to_prop].
Qed.

Lemma verify_applies v : plan_verify_grant a v arb = Ok m -> applies.
Proof.
  unfold plan_verify_grant. intros H. plan_inv H. apply require_grant_stored in E; [|done].
  apply applicable_new; [split; [done|by apply room_of]|]. apply images_update.
  apply (single_image a _ _ _ E).
  destruct (bool_decide (gv_result v = VerificationState.Failed)); by apply lawful_same_state.
Qed.

Lemma reconcile_applies op target principal :
  plan_reconcile_grant a op target principal arb = Ok m -> applies.
Proof.
  unfold plan_reconcile_grant. intros H. plan_inv H. apply require_grant_stored in E; [|done].
  apply applicable_updates.
  destruct (bool_decide (target = GrantState.Active)); plan_inv H;
    (constructor; [by exists x|constructor]).
Qed.

Lemma tick_applies now : plan_tick a now arb = Ok m -> applies.
Proof.
  unfold plan_tick. intros H. plan_inv H. apply applicable_updates. cbn [m_objects].
  apply Forall_app; split.
  - apply Forall_join, Forall_fmap, Forall_forall. intros s Hs. cbn. unfold tick_site.
    destruct (lapsed_site a now s) as [u|] eqn:Eu; constructor;
      [|by apply images_update, append_downgrades_images].
    apply elem_of_values in Hs as [k Hk]. cbn. unfold lapsed_site in Eu.
    assert (site_id u = site_id s) as -> by (repeat case_match; by simplify_eq).
    rewrite (wk_sites a Hwk _ _ Hk). by eexists.
  - apply images_update, omap_images; [by apply stored_grants|]. intros g u. apply expired_lawful.
Qed.

Lemma plan_applicable op : plan a op arb = Ok m -> applies.
Proof.
  destruct op; cbn [plan]; intros H;
    try (apply applicable_updates, images_update;
     eauto using evaluate_images, reserve_images, activate_images, degrade_images,
       withdraw_images, retire_images, cancel_images, acknowledge_images; fail).
  - by eapply install_policy_applies.
  - by eapply bump_epoch_applies.
  - by eapply register_site_applies.
  - by eapply heartbeat_applies.
  - by eapply set_site_state_applies.
  - by eapply register_path_applies.
  - by eapply set_path_state_applies.
  - by eapply attest_capacity_applies.
  - unfold plan_issue_oversubscription in H. plan_inv H. apply applicable_new; [split; [done|by apply room_of]|constructor].
  - by eapply propose_applies.
  - by eapply verify_applies.
  - by eapply reconcile_applies.
  - by eapply tick_applies.
Qed.
End Plans.
