(* ===== verification/Steps.v ===== *)
(** * The authority as a transition system

    A [Step] plans an operation on a well-formed request and applies its encoded
    changes, as the commit pipeline does; a [History] is a sequence of steps.
    The theorems carry the invariants of the tables and the history of every
    grant along the steps. *)

From S2P Require Import Prelude Outcome Ids Lifecycle Capacity Policy Wire Model Codecs State.
From S2P Require Import Ledger Changes Invariants Rebalance PlanFabric PlanGrants Operations.
From S2P Require Import WellFormed Applicable.

(** One committed operation: the plan succeeds on a well-formed request and its
    encoded changes are applied. *)
Inductive Step : Op -> Authority -> Authority -> Prop :=
| step op arb m a a' :
    u64_ok (arb_value arb) -> op_wf op -> plan a op arb = Ok m ->
    apply a (m_changes m) arb = (a', Status.Ok) -> Step op a a'.

Inductive History : list Op -> Authority -> Authority -> Prop :=
| history_start a : History [] a a
| history_step op ops a a' a'' :
    Step op a a' -> History ops a' a'' -> History (op :: ops) a a''.

(** ** What installing changes *)

Lemma install_fields a key o a' :
  install a key o = Ok a' ->
  grants_ a' = match o with OGrant g _ => <[key := g]> (grants_ a) | _ => grants_ a end /\
  paths_ a' = match o with OPath r => <[key := r]> (paths_ a) | _ => paths_ a end /\
  epoch a' = match o with OEpoch e => e | _ => epoch a end /\
  policy a' = match o with OPolicy p => p | _ => policy a end.
Proof.
  unfold install. intros Hi.
  destruct o; try apply guard_fail_ok in Hi as [_ Hi];
    try (apply expected_bind_ok in Hi as (index & _ & Hi)); by simplify_eq.
Qed.

(** Every grant and path is the old one or an image of the mutation; the epoch
    and the policy are the old ones or those of the mutation. *)
Lemma install_objects_effect a objs a' s :
  install_objects a objs = (a', s) ->
  (forall k, grants_ a' !! k = grants_ a !! k \/
     exists g r, OGrant g r ∈ objs /\ raw (g_id g) = k /\ grants_ a' !! k = Some g) /\
  (forall k, paths_ a' !! k = paths_ a !! k \/
     exists p, OPath p ∈ objs /\ raw (path_id p) = k /\ paths_ a' !! k = Some p) /\
  (epoch a' = epoch a \/ OEpoch (epoch a') ∈ objs) /\
  (policy a' = policy a \/ OPolicy (policy a') ∈ objs).
Proof.
  revert a. induction objs as [|o objs IH]; intros a.
  { intros [= <- <-]. split_and!; auto. }
  rewrite install_objects_cons. destruct (install a (object_key o) o) as [a1|s1] eqn:E.
  2:{ intros [= <- <-]. split_and!; auto. }
  intros (Hg & Hp & He & Hpol)%IH. apply install_fields in E as (Eg & Ep & Ee & Epol).
  split_and!.
  - intros k. destruct (Hg k) as [Hk|(g & r & Hin & Hk & Hl)].
    2:{ right. exists g, r. split; [by right|done]. }
    rewrite Hk, Eg. destruct o; auto. cbn [object_key].
    destruct (decide (raw (g_id v) = k)) as [<-|Hne]; [|rewrite lookup_insert_ne by done; auto].
    right. exists v, releases. split_and!; [left|done|by rewrite lookup_insert_eq].
  - intros k. destruct (Hp k) as [Hk|(p & Hin & Hk & Hl)].
    2:{ right. exists p. split; [by right|done]. }
    rewrite Hk, Ep. destruct o; auto. cbn [object_key].
    destruct (decide (raw (path_id v) = k)) as [<-|Hne]; [|rewrite lookup_insert_ne by done; auto].
    right. exists v. split_and!; [left|done|by rewrite lookup_insert_eq].
  - destruct He as [->|He]; [|right; by right]. rewrite Ee. destruct o; auto. right. left.
  - destruct Hpol as [->|Hpol]; [|right; by right]. rewrite Epol. destruct o; auto. right. left.
Qed.

Lemma raise_arbitration_fields arb a :
  grants_ (raise_arbitration arb a) = grants_ a /\ paths_ (raise_arbitration arb a) = paths_ a /\
  epoch (raise_arbitration arb a) = epoch a /\ policy (raise_arbitration arb a) = policy a.
Proof. unfold raise_arbitration. by destruct (_ <? _). Qed.

(** ** One step *)

Lemma step_inv op a a' :
  sound a -> Step op a a' ->
  exists m a1 arb,
    plan a op arb = Ok m /\ Forall object_wf (m_objects m) /\
    install_objects a (m_objects m) = (a1, Status.Ok) /\ a' = raise_arbitration arb a1.
Proof.
  intros [Hwk Hlim Hwf] Hs. destruct Hs as [op arb m a a' Harb Hop Hp Ha].
  pose proof (plan_decodable a Hwf arb m Harb op Hop Hp) as Hobjs.
  unfold m_changes in Ha. rewrite apply_objects in Ha by done.
  apply finish_apply_ok in Ha as (a1 & Hi & ->). by exists m, a1, arb.
Qed.

Lemma step_sound op a a' : sound a -> Step op a a' -> sound a'.
Proof.
  intros Ha Hs. destruct (step_inv op a a' Ha Hs) as (m & a1 & arb & _ & Hobjs & Hi & ->).
  by eapply install_sound.
Qed.

Lemma history_sound ops a a' : sound a -> History ops a a' -> sound a'.
Proof.
  intros Ha Hh. induction Hh as [|op ops a a' a'' Hs _ IH]; [done|]. by eapply IH, step_sound.
Qed.

Lemma plan_apply_ok op a arb m :
  sound a -> u64_ok (arb_value arb) -> op_wf op -> plan a op arb = Ok m ->
  exists a1, install_objects a (m_objects m) = (a1, Status.Ok) /\
             apply a (m_changes m) arb = (raise_arbitration arb a1, Status.Ok).
Proof.
  intros [Hwk _ Hwf] Harb Hop Hp.
  destruct (install_applicable a _ Hwk (plan_applicable a Hwk arb m op Hp)) as [a1 Hi].
  exists a1. split; [done|]. unfold m_changes.
  rewrite apply_objects by (by eapply plan_decodable). by rewrite Hi.
Qed.

(** ** The history of a grant *)

Lemma step_grant op a a' k g :
  sound a -> Step op a a' -> is_reconcile op = false -> grants_ a !! k = Some g ->
  exists g', grants_ a' !! k = Some g' /\ same_identity g g' /\
    (g_state g' = g_state g \/ can_transition (g_state g) (g_state g') = true).
Proof.
  intros Ha Hs Hr Hg. destruct (step_inv op a a' Ha Hs) as (m & a1 & arb & Hp & _ & Hi & ->).
  destruct (raise_arbitration_fields arb a1) as (-> & _).
  pose proof (plan_evolution a (sound_keyed a Ha) arb m op Hr Hp) as Hev.
  apply install_objects_effect in Hi as (Heff & _).
  destruct (Heff k) as [Hk|(g' & r & Hin & <- & Hl)].
  - rewrite Hk. exists g. split_and!; [done|done|by left].
  - exists g'. split; [done|]. rewrite Forall_forall in Hev. specialize (Hev _ Hin).
    cbn in Hev. unfold evolves in Hev. rewrite Hg in Hev. destruct Hev as (? & ? & _). done.
Qed.

Lemma same_identity_trans g1 g2 g3 :
  same_identity g1 g2 -> same_identity g2 g3 -> same_identity g1 g3.
Proof. unfold same_identity. intros. destruct_and!. split_and!; congruence. Qed.

Lemma history_grant ops a a' k g :
  sound a -> History ops a a' -> Forall (fun op => is_reconcile op = false) ops ->
  grants_ a !! k = Some g ->
  exists g', grants_ a' !! k = Some g' /\ same_identity g g' /\ GrantSteps (g_state g) (g_state g').
Proof.
  intros Ha Hh. revert g. induction Hh as [a|op ops a a' a'' Hs _ IH]; intros g Hops Hg.
  { by exists g. }
  inversion Hops as [|? ? Hop Hops']; subst.
  destruct (step_grant op a a' k g Ha Hs Hop Hg) as (g1 & Hg1 & Hid1 & Hst).
  destruct (IH (step_sound _ _ _ Ha Hs) g1 Hops' Hg1) as (g2 & Hg2 & Hid2 & Hst2).
  exists g2. split_and!; [done|by eapply same_identity_trans|].
  destruct Hst as [Hst|Hst]; [by rewrite <-Hst|]. by eapply rtc_l.
Qed.

(** ** Epoch and generations *)

Lemma reconcile_objects a op target principal arb m :
  plan_reconcile_grant a op target principal arb = Ok m ->
  exists g r, m_objects m = [OGrant g r].
Proof.
  unfold plan_reconcile_grant. intros H. plan_inv H.
  destruct (bool_decide (target = GrantState.Active)); plan_inv H; by eexists _, _.
Qed.

(** No object takes the epoch, the policy or a path back. *)
Lemma plan_monotone a op arb m o :
  well_keyed a -> plan a op arb = Ok m -> o ∈ m_objects m ->
  match o with OGrant _ _ => True | _ => object_evolves a o end.
Proof.
  intros Hwk Hp Ho. destruct (is_reconcile op) eqn:Er.
  - destruct op; try done. apply reconcile_objects in Hp as (g & r & Hm). rewrite Hm in Ho.
    by apply list_elem_of_singleton in Ho as ->.
  - pose proof (plan_evolution a Hwk arb m op Er Hp) as Hev. rewrite Forall_forall in Hev.
    specialize (Hev o Ho). by destruct o.
Qed.

(** Everything that only moves forward. *)
Definition no_later (a a' : Authority) : Prop :=
  epoch_value (epoch a) <= epoch_value (epoch a') /\
  gen_value (pol_generation (policy a)) <= gen_value (pol_generation (policy a')) /\
  arb_value (last_arbitration a) <= arb_value (last_arbitration a') /\
  forall k r, paths_ a !! k = Some r -> exists r', paths_ a' !! k = Some r' /\
    gen_value (path_generation r) <= gen_value (path_generation r') /\
    gen_value (path_capacity_generation r) <= gen_value (path_capacity_generation r').

#[export] Instance no_later_refl : Reflexive no_later.
Proof. intros a. split_and!; [done..|]. intros k r Hr. by exists r. Qed.

#[export] Instance no_later_trans : Transitive no_later.
Proof.
  intros a b c (H1 & H2 & H3 & H4) (K1 & K2 & K3 & K4). split_and!; [lia..|].
  intros k r (r' & Hr' & ? & ?)%H4. destruct (K4 k r' Hr') as (r'' & Hr'' & ? & ?).
  exists r''. split_and!; [done|lia..].
Qed.

Lemma raise_arbitration_le arb a :
  arb_value (last_arbitration a) <= arb_value (last_arbitration (raise_arbitration arb a)).
Proof. unfold raise_arbitration. destruct (_ <? _) eqn:E; [|done]. cbn. to_prop. lia. Qed.

Lemma step_no_later op a a' : sound a -> Step op a a' -> no_later a a'.
Proof.
  intros Ha Hs. destruct (step_inv op a a' Ha Hs) as (m & a1 & arb & Hp & _ & Hi & ->).
  pose proof (fun o => plan_monotone a op arb m o (sound_keyed a Ha) Hp) as Hmono.
  pose proof (install_all_last_arbitration a ((fun o => (object_key o, o)) <$> m_objects m)) as Hlast.
  unfold install_objects in Hi. rewrite Hi in Hlast. cbn in Hlast.
  apply install_objects_effect in Hi as (_ & Hpath & Hep & Hpol).
  destruct (raise_arbitration_fields arb a1) as (_ & Ep & Ee & Epol).
  unfold no_later. rewrite Ep, Ee, Epol. split_and!.
  - destruct Hep as [->|Hin]; [done|]. apply (Hmono _ Hin).
  - destruct Hpol as [->|Hin]; [done|]. apply (Hmono _ Hin).
  - rewrite <-Hlast. apply raise_arbitration_le.
  - intros k r Hr. destruct (Hpath k) as [->|(r' & Hin & <- & Hl)]; [by exists r|].
    exists r'. specialize (Hmono _ Hin). cbn in Hmono. unfold path_evolves in Hmono.
    by rewrite Hr in Hmono.
Qed.

Lemma history_no_later ops a a' : sound a -> History ops a a' -> no_later a a'.
Proof.
  intros Ha Hh. induction Hh as [|op ops a a' a'' Hs _ IH]; [done|].
  etrans; [by eapply step_no_later|]. apply IH. by eapply step_sound.
Qed.

(** ** Concrete steps *)

(** A step computed by [plan] and [apply]. *)
Definition run (op : Op) (arb : ArbSeq) (a : Authority) : Authority :=
  match plan a op arb with
  | Ok m => (apply a (m_changes m) arb).1
  | Fail _ => a
  end.

Definition runs (op : Op) (arb : ArbSeq) (a : Authority) : bool :=
  match plan a op arb with
  | Ok m => is_ok (apply a (m_changes m) arb).2
  | Fail _ => false
  end.

Lemma run_step op arb a :
  u64_ok (arb_value arb) -> op_wf op -> runs op arb a = true -> Step op a (run op arb a).
Proof.
  intros Harb Hop. unfold runs, run. destruct (plan a op arb) as [m|s] eqn:Hp; [|done].
  intros Hok%is_ok_spec. econstructor; [done|done|done|].
  by destruct (apply a (m_changes m) arb) as [a' s]; cbn in *; subst.
Qed.

(** An operation by the holder of the sample grants, and one by an operator. *)
Definition sample_op (n : N) (now : N) : GrantOperation :=
  mkGrantOperation (Sample.id n) (Sample.id 0) (Sample.id 1) (Sample.id 101) (mkGeneration 1)
    (mkEpoch 1) (mkGeneration 1) (mkGeneration 1) (mkGeneration 1) (Sample.id (n + 300)) now [].

Lemma sample_sound : sound Sample.fabric.
Proof. split; [exact sample_well_keyed|exact sample_within_limits|exact sample_wf]. Qed.

(** Withdraws and retires the active sample grant. *)
Definition sample_ops : list Op := [WithdrawGrant (sample_op 5 20); RetireGrant (sample_op 5 30)].

Definition sample_middle : Authority :=
  run (WithdrawGrant (sample_op 5 20)) (mkArbSeq 10) Sample.fabric.
Definition sample_end : Authority :=
  run (RetireGrant (sample_op 5 30)) (mkArbSeq 11) sample_middle.

Lemma sample_history : History sample_ops Sample.fabric sample_end.
Proof.
  apply (history_step _ _ _ sample_middle); [|apply (history_step _ _ _ sample_end)].
  - apply run_step; [by vm_compute|split; by vm_compute|by vm_compute].
  - apply run_step; [by vm_compute|split; by vm_compute|by vm_compute].
  - constructor.
Qed.

(** ** Properties *)

(** C12: a mutation planned from an authority in order for a well-formed request
    is always applied: its images decode, the tables have room, no request is a
    duplicate, and the new state is in order again. *)
Theorem planned_mutation_applies a op arb m :
  sound a -> u64_ok (arb_value arb) -> op_wf op -> plan a op arb = Ok m ->
  exists a', apply a (m_changes m) arb = (a', Status.Ok) /\ sound a'.
Proof.
  intros Ha Harb Hop Hp. destruct (plan_apply_ok op a arb m Ha Harb Hop Hp) as (a1 & _ & Happ).
  eexists. split; [exact Happ|]. eapply (step_sound op a); [done|]. by econstructor.
Qed.

(** Every grant image a plan carries, operator reconciliation apart, keeps
    the grant's identity, request, sequence, class, amount, holder, path and
    lease, leaves its state or moves it along the transition table, and is
    flagged as releasing capacity exactly when the grant held capacity before
    and holds none after; an image of an unknown grant is a fresh proposal. *)
Theorem planned_grants_lawful a op arb m g' releases :
  well_keyed a -> is_reconcile op = false -> plan a op arb = Ok m ->
  OGrant g' releases ∈ m_objects m ->
  match grants_ a !! raw (g_id g') with
  | Some g => lawful g g' releases
  | None => g_state g' = GrantState.Proposed /\ releases = false
  end.
Proof.
  intros Hwk Hr Hp Hin. pose proof (plan_evolution a Hwk arb m op Hr Hp) as Hev.
  rewrite Forall_forall in Hev. exact (Hev _ Hin).
Qed.

(** C15: over any sequence of operations without operator reconciliation a grant
    stays in the table with its identity, and its states follow the transition
    table. *)
Theorem grant_history ops a a' k g :
  sound a -> History ops a a' -> Forall (fun op => is_reconcile op = false) ops ->
  grants_ a !! k = Some g ->
  exists g', grants_ a' !! k = Some g' /\ same_identity g g' /\
             GrantSteps (g_state g) (g_state g').
Proof. apply history_grant. Qed.

(** C17: over any sequence of operations the epoch, the policy generation, the
    arbitration sequence and the generations of every path never go back, no
    path disappears, and the tables stay in order. *)
Theorem history_monotone ops a a' :
  sound a -> History ops a a' -> no_later a a' /\ sound a'.
Proof. intros Ha Hh. split; [by eapply history_no_later|by eapply history_sound]. Qed.

(** ** Witnesses *)

Lemma planned_mutation_applies_witness :
  sound Sample.fabric /\ op_wf (WithdrawGrant (sample_op 5 20)) /\
  exists m a', plan Sample.fabric (WithdrawGrant (sample_op 5 20)) (mkArbSeq 10) = Ok m /\
    apply Sample.fabric (m_changes m) (mkArbSeq 10) = (a', Status.Ok).
Proof.
  assert (op_wf (WithdrawGrant (sample_op 5 20))) as Hop by (split; by vm_compute).
  split_and!; [exact sample_sound|exact Hop|].
  destruct (plan Sample.fabric (WithdrawGrant (sample_op 5 20)) (mkArbSeq 10)) as [m|s] eqn:Hp;
    [|vm_compute in Hp; discriminate].
  destruct (planned_mutation_applies _ _ (mkArbSeq 10) m sample_sound ltac:(by vm_compute) Hop Hp)
    as (a' & Ha' & _).
  exists m, a'. split; [reflexivity|exact Ha'].
Defined.

Lemma planned_grants_lawful_witness :
  exists m g', plan Sample.fabric (RetireGrant (sample_op 7 20)) (mkArbSeq 10) = Ok m /\
    OGrant g' true ∈ m_objects m /\
    lawful (Sample.grant 7 GrantClass.General 30 GrantState.Withdrawing) g' true.
Proof.
  destruct (plan Sample.fabric (RetireGrant (sample_op 7 20)) (mkArbSeq 10)) as [m|s] eqn:Hp;
    [|vm_compute in Hp; discriminate].
  assert (exists g', m_objects m = [OGrant g' true] /\ raw (g_id g') = mkId128 0 7) as (g' & Hm & Hk).
  { vm_compute in Hp. injection Hp as <-. eexists. split; vm_compute; reflexivity. }
  assert (OGrant g' true ∈ m_objects m) as Hin by (rewrite Hm; constructor).
  exists m, g'. split_and!; [reflexivity|exact Hin|].
  pose proof (planned_grants_lawful Sample.fabric (RetireGrant (sample_op 7 20)) _ m g' true
    sample_well_keyed eq_refl Hp Hin) as Hl.
  rewrite Hk in Hl. vm_compute in Hl |- *. exact Hl.
Defined.

Lemma sample_no_reconcile : Forall (fun op => is_reconcile op = false) sample_ops.
Proof. by repeat constructor. Qed.

Lemma grant_history_witness :
  sound Sample.fabric /\ History sample_ops Sample.fabric sample_end /\
  exists g', grants_ sample_end !! mkId128 0 5 = Some g' /\
    GrantSteps GrantState.Active (g_state g') /\ g_state g' = GrantState.Retired.
Proof.
  split_and!; [exact sample_sound|exact sample_history|].
  assert (grants_ Sample.fabric !! mkId128 0 5 =
    Some (Sample.grant 5 GrantClass.General 100 GrantState.Active)) as Hg by (vm_compute; reflexivity).
  destruct (grant_history _ _ _ _ _ sample_sound sample_history sample_no_reconcile Hg)
    as (g' & Hg' & _ & Hst).
  exists g'. split_and!; [exact Hg'|exact Hst|]. vm_compute in Hg'. injection Hg' as <-. reflexivity.
Defined.

Lemma history_monotone_witness :
  sound Sample.fabric /\ History sample_ops Sample.fabric sample_end /\ sound sample_end.
Proof.
  split_and!; [exact sample_sound|exact sample_history|].
  exact (proj2 (history_monotone _ _ _ sample_sound sample_history)).
Defined.
