(* ===== verification/Accounting.v ===== *)
(** * Capacity accounting along operations

    [budgeted] strengthens what [verify_invariants] demands of a path: the
    general obligations fit beside the whole protected floor.  It is inductive:
    every operation that only moves grants and sites keeps it, so the obligations
    of a path never exceed its usable capacity plus authorised extension. *)

From S2P Require Import Prelude Outcome Ids Lifecycle Capacity Policy Wire Model Codecs State Ledger.
From S2P Require Import Changes Invariants Rebalance PlanFabric PlanGrants Operations WellFormed.
From S2P Require Import Applicable Steps.

(** ** Budgets *)

Definition authorized (g : GrantRecord) : bool := live g || state_is GrantState.Reserved g.
Definition is_general (g : GrantRecord) : bool := negb (is_protected g).

(** General capacity promised to grants that may use it, general capacity not
    yet given back, and protected capacity not yet given back. *)
Definition promised (a : Authority) (p : PathId) : N :=
  path_sum a p (fun g => is_general g && authorized g).
Definition held_general (a : Authority) (p : PathId) : N :=
  path_sum a p (fun g => is_general g && holds g).
Definition held_protected (a : Authority) (p : PathId) : N :=
  path_sum a p (fun g => is_protected g && holds g).

Record budgeted (a : Authority) (r : PathRecord) : Prop := {
  bud_unavailable : path_unavailable r <= path_authoritative_usable r;
  bud_general :
    promised a (path_id r) + protected_floor a r + path_unavailable r <=
    path_authoritative_usable r + extension_for a r (path_id r) 0;
  bud_protected : held_protected a (path_id r) <= protected_floor a r;
  bud_ceiling : path_authoritative_usable r + extension_for a r (path_id r) 0 <= kAmountMax;
  bud_total :
    held_general a (path_id r) + protected_floor a r + path_unavailable r + minimum_free a r <=
    kAmountMax;
}.

(** The state of an authority between operations. *)
Record accounted (a : Authority) : Prop := {
  acc_consistent : consistent a;
  acc_budget r : r ∈ paths a -> budgeted a r;
  acc_issued g : g ∈ grants a -> arb_value (g_arbitration g) <= arb_value (last_arbitration a);
}.

(** ** Sums *)

(** The sum of [amount_if] over a disjunction of exclusive conditions. *)
Lemma path_sum_split a p (q q1 q2 : GrantRecord -> bool) :
  (forall g, q g = q1 g || q2 g) -> (forall g, q1 g && q2 g = false) ->
  path_sum a p q = path_sum a p q1 + path_sum a p q2.
Proof.
  intros Hq Hd. unfold path_sum. rewrite sumN_add. apply sumN_ext. intros g _. rewrite Hq.
  specialize (Hd g). unfold amount_if. destruct (on_path p g), (q1 g), (q2 g); cbn in *; done || lia.
Qed.

Lemma path_sum_ext a p q q' : (forall g, q g = q' g) -> path_sum a p q = path_sum a p q'.
Proof. intros Hq. unfold path_sum. apply sumN_ext. intros g _. by rewrite Hq. Qed.

(** The held capacity of a path by state and by class. *)
Lemma held_by_state a p :
  path_sum a p live + path_sum a p (state_is GrantState.Reserved) +
  path_sum a p (state_is GrantState.Withdrawing) = held_general a p + held_protected a p.
Proof.
  assert (forall g, authorized g = live g || state_is GrantState.Reserved g) as Ha by done.
  rewrite <-(path_sum_split a p authorized) by
    (intros g; unfold authorized, live, state_is; by destruct (g_state g)).
  rewrite <-(path_sum_split a p holds) by
    (intros g; unfold authorized, live, state_is, holds; by destruct (g_state g)).
  apply path_sum_split; intros g; unfold is_general; by destruct (is_protected g), (holds g).
Qed.

Lemma authorized_by_class a p :
  path_sum a p live + path_sum a p (state_is GrantState.Reserved) =
  promised a p + path_sum a p (fun g => is_protected g && authorized g).
Proof.
  rewrite <-(path_sum_split a p authorized) by
    (intros g; unfold authorized, live, state_is; by destruct (g_state g)).
  apply path_sum_split; intros g; unfold is_general; by destruct (is_protected g), (authorized g).
Qed.

Lemma path_sum_le a p (q q' : GrantRecord -> bool) :
  (forall g, q g = true -> q' g = true) -> path_sum a p q <= path_sum a p q'.
Proof.
  intros Hq. unfold path_sum. apply sumN_le. intros g _. specialize (Hq g). unfold amount_if.
  destruct (on_path p g), (q g), (q' g); cbn; first [lia | by specialize (Hq eq_refl)].
Qed.

Lemma totals_exact a p :
  amounts_wf a -> held_general a p + held_protected a p <= kAmountMax ->
  totals_for a p =
  mkPathTotals (path_sum a p live) (path_sum a p (state_is GrantState.Withdrawing))
    (path_sum a p (state_is GrantState.Reserved)) (path_sum a p reclaimable) (held_protected a p).
Proof.
  intros Hwf Hmax. rewrite totals_for_sums by done. unfold sums_of.
  pose proof (held_by_state a p) as Hs.
  assert (path_sum a p reclaimable <= path_sum a p holds) as Hr
    by (apply path_sum_le; intros g; unfold reclaimable, holds; by destruct (g_state g)).
  assert (path_sum a p holds = held_general a p + held_protected a p) as Hh
    by (apply path_sum_split; intros g; unfold is_general; by destruct (is_protected g), (holds g)).
  assert (path_sum a p (fun g => holds g && is_protected g) = held_protected a p) as Hp
    by (apply path_sum_ext; intros g; apply andb_comm).
  unfold path_sum in Hr, Hp at 1, Hs, Hh. rewrite Hp.
  f_equal; unfold path_sum; apply N.min_r; lia.
Qed.

(** ** A budget implies what [verify_invariants] checks of a path *)

Lemma budget_path_consistent a r : amounts_wf a -> budgeted a r -> path_consistent a r.
Proof.
  intros Hwf [Hun Hgen Hprot Hceil Htot]. unfold path_consistent.
  pose proof (held_by_state a (path_id r)) as Hs.
  pose proof (authorized_by_class a (path_id r)) as Hc.
  assert (path_sum a (path_id r) (fun g => is_protected g && authorized g) <=
          held_protected a (path_id r)) as Hle.
  { apply path_sum_le. intros g. unfold authorized, live, state_is, holds.
    by destruct (is_protected g), (g_state g). }
  rewrite totals_exact by (done || lia).
  unfold ledger_fits, blocked_of, structural_of.
  cbn [tot_committed tot_withdrawing tot_reserved tot_protected_held].
  split_and!; lia.
Qed.

(** ** Pointwise comparison of grant tables *)

Lemma map_sum_pointwise (f f' : GrantRecord -> N) (m m' : gmap Id128 GrantRecord) :
  (forall k x', m' !! k = Some x' -> f' x' = 0 \/ exists x, m !! k = Some x /\ f' x' <= f x) ->
  map_sum f' m' <= map_sum f m.
Proof.
  revert m. induction m' as [|k x' m' Hk IH] using map_ind; intros m Hm.
  { unfold map_sum at 1. vm_compute values. cbn. lia. }
  rewrite map_sum_insert_new by done.
  assert (forall k' y', m' !! k' = Some y' ->
    k <> k' /\ (f' y' = 0 \/ exists y, m !! k' = Some y /\ f' y' <= f y)) as Hrest.
  { intros k' y' Hy'. assert (k <> k') by (intros ->; congruence).
    split; [done|]. apply Hm. by rewrite lookup_insert_ne. }
  destruct (Hm k x') as [->|(x & Hx & Hle)]; [apply lookup_insert_eq|apply IH; naive_solver|].
  rewrite (map_sum_lookup f m k x) by done. apply N.add_le_mono; [done|]. apply IH.
  intros k' y' (Hne & Hy)%Hrest. by rewrite lookup_delete_ne.
Qed.

(** Every grant of [a'] is the image [R] of the grant of [a] with its key. *)
Definition grants_by (R : GrantRecord -> GrantRecord -> Prop) (a a' : Authority) : Prop :=
  forall k g', grants_ a' !! k = Some g' -> exists g, grants_ a !! k = Some g /\ R g g'.

Lemma path_sum_pointwise a a' p (q q' : GrantRecord -> bool) :
  grants_by (fun g g' => same_identity g g' /\ (q' g' = true -> q g = true)) a a' ->
  path_sum a' p q' <= path_sum a p q.
Proof.
  intros Hby. unfold path_sum, grants. apply map_sum_pointwise.
  intros k g' (g & Hg & Hid & Hq)%Hby. right. exists g. split; [done|].
  unfold same_identity in Hid. destruct_and!. unfold amount_if, on_path.
  replace (b_path (g_binding g')) with (b_path (g_binding g)) by done.
  replace (g_amount g') with (g_amount g) by done.
  destruct (id_eqb _ _), (q' g'); cbn; try lia. by rewrite Hq.
Qed.

(** ** What stays the same *)

(** Everything that the budget of a path depends on, the grants apart. *)
Definition same_fabric (a a' : Authority) : Prop :=
  policy a' = policy a /\ epoch a' = epoch a /\ paths_ a' = paths_ a /\ domains_ a' = domains_ a /\
  oversubscriptions_ a' = oversubscriptions_ a.

Lemma same_fabric_terms a a' r now :
  same_fabric a a' ->
  protected_floor a' r = protected_floor a r /\ minimum_free a' r = minimum_free a r /\
  extension_for a' r (path_id r) now = extension_for a r (path_id r) now.
Proof.
  intros (Hp & He & Hpath & _ & Ho). unfold protected_floor, minimum_free, extension_for,
    live_oversubscription_bps, require_path, find_path, oversubscriptions, oversubscription_applies.
  by rewrite Hp, He, Hpath, Ho.
Qed.

(** A grant that gains no hold on capacity. *)
Definition no_gain (g g' : GrantRecord) : Prop :=
  (holds g' = true -> holds g = true) /\ (authorized g' = true -> authorized g = true).

Lemma same_class g g' : same_identity g g' -> is_protected g' = is_protected g.
Proof. intros (_ & _ & _ & Hc & _). unfold is_protected. by rewrite Hc. Qed.

Lemma grants_by_impl (R R' : GrantRecord -> GrantRecord -> Prop) a a' :
  (forall g g', R g g' -> R' g g') -> grants_by R a a' -> grants_by R' a a'.
Proof. intros HR Hby k g' (g & Hg & HRg)%Hby. eauto. Qed.

Lemma budget_no_gain a a' r :
  same_fabric a a' -> grants_by (fun g g' => same_identity g g' /\ no_gain g g') a a' ->
  budgeted a r -> budgeted a' r.
Proof.
  intros Hf Hby [Hun Hgen Hprot Hceil Htot].
  destruct (same_fabric_terms a a' r 0 Hf) as (Efl & Emf & Ex).
  assert (promised a' (path_id r) <= promised a (path_id r)) as H1.
  { apply path_sum_pointwise. eapply grants_by_impl; [|exact Hby]. intros g g' [Hid [Hh Ha]].
    split; [done|]. unfold is_general. rewrite (same_class g g') by done.
    destruct (is_protected g); cbn; auto. }
  assert (held_general a' (path_id r) <= held_general a (path_id r)) as H2.
  { apply path_sum_pointwise. eapply grants_by_impl; [|exact Hby]. intros g g' [Hid [Hh Ha]].
    split; [done|]. unfold is_general. rewrite (same_class g g') by done.
    destruct (is_protected g); cbn; auto. }
  assert (held_protected a' (path_id r) <= held_protected a (path_id r)) as H3.
  { apply path_sum_pointwise. eapply grants_by_impl; [|exact Hby]. intros g g' [Hid [Hh Ha]].
    split; [done|]. rewrite (same_class g g') by done. destruct (is_protected g); cbn; auto. }
  split; rewrite ?Efl, ?Emf, ?Ex; lia.
Qed.

(** ** Operations on sites and grants *)

Definition touches (o : Object) : bool :=
  match o with OSite _ | OGrant _ _ => true | _ => false end.

Lemma install_touches a key o a' :
  touches o = true -> install a key o = Ok a' ->
  config a' = config a /\ paths_ a' = paths_ a /\ domains_ a' = domains_ a /\
  oversubscriptions_ a' = oversubscriptions_ a /\
  sites_ a' = match o with OSite u => <[key := u]> (sites_ a) | _ => sites_ a end.
Proof.
  intros Ht Hi. destruct o; try done; cbn [install] in Hi; apply guard_fail_ok in Hi as [_ Hi];
    try (apply expected_bind_ok in Hi as (index & _ & Hi)); by apply Ok_inj in Hi as <-.
Qed.

Lemma install_objects_touches a objs a' s :
  Forall (fun o => touches o = true) objs -> install_objects a objs = (a', s) ->
  config a' = config a /\ paths_ a' = paths_ a /\ domains_ a' = domains_ a /\
  oversubscriptions_ a' = oversubscriptions_ a /\
  (forall k, sites_ a' !! k = sites_ a !! k \/
     exists u, OSite u ∈ objs /\ raw (site_id u) = k /\ sites_ a' !! k = Some u).
Proof.
  intros Hobjs. revert a. induction Hobjs as [|o objs Ho _ IH]; intros a.
  { intros [= <- <-]. split_and!; auto. }
  rewrite install_objects_cons. destruct (install a (object_key o) o) as [a1|s1] eqn:E.
  2:{ intros [= <- <-]. split_and!; auto. }
  intros (Hc & Hp & Hd & Hov & Hs)%IH. apply install_touches in E as (Ec & Ep & Ed & Eo & Es); [|done].
  rewrite Hc, Hp, Hd, Hov, Ec, Ep, Ed, Eo.
  split_and!; [done..|]. intros k. destruct (Hs k) as [Hk|(u & Hin & Hk & Hl)].
  2:{ right. exists u. split; [by right|done]. }
  rewrite Hk, Es. destruct o; auto. cbn [object_key].
  destruct (decide (raw (site_id v) = k)) as [<-|Hne]; [|rewrite lookup_insert_ne by done; auto].
  right. exists v. split_and!; [left|done|by rewrite lookup_insert_eq].
Qed.

(** What [verify_invariants] asks of a grant beyond its identity. *)
Definition grant_ok (a : Authority) (g : GrantRecord) : Prop :=
  (requires_current_binding (g_state g) = true ->
     exists path site, find_path a (b_path (g_binding g)) = Some path /\
       find_site a (b_holder (g_binding g)) = Some site /\ binding_current a site path (g_binding g)) /\
  (g_state g = GrantState.Active -> require_verification_for_active (policy a) = true ->
     g_verification g = VerificationState.Verified).

(** An object that replaces a site, keeping its incarnation, or a grant. *)
Definition keeps (a : Authority) (o : Object) : Prop :=
  match o with
  | OSite u => exists s, sites_ a !! raw (site_id u) = Some s /\
                         site_incarnation u = site_incarnation s
  | OGrant u _ => exists g, grants_ a !! raw (g_id u) = Some g /\ same_identity g u /\ grant_ok a u
  | _ => False
  end.

Lemma keeps_touches a objs : Forall (keeps a) objs -> Forall (fun o => touches o = true) objs.
Proof. intros Hk. eapply Forall_impl; [exact Hk|]. by intros []. Qed.

Lemma raise_arbitration_fabric arb a : same_fabric a (raise_arbitration arb a).
Proof. unfold raise_arbitration. by destruct (_ <? _). Qed.

Lemma raise_arbitration_sites arb a : sites_ (raise_arbitration arb a) = sites_ a.
Proof. unfold raise_arbitration. by destruct (_ <? _). Qed.

(** A grant of the new state: the old one, or an image of the mutation. *)
Definition kept_or_image (objs : list Object) (g g' : GrantRecord) : Prop :=
  g' = g \/ exists r, OGrant g' r ∈ objs.

Section Keeps.
Context (a a1 : Authority) (arb : ArbSeq) (objs : list Object).
Context (Hsound : sound a) (Hkeeps : Forall (keeps a) objs).
Context (Hinstall : install_objects a objs = (a1, Status.Ok)).

Let a' := raise_arbitration arb a1.

Lemma keeps_fabric : same_fabric a a'.
Proof.
  destruct (install_objects_touches a objs a1 _ (keeps_touches a objs Hkeeps) Hinstall)
    as (Hc & Hp & Hd & Ho & _).
  destruct (raise_arbitration_fabric arb a1) as (E1 & E2 & E3 & E4 & E5). unfold a'.
  unfold same_fabric. rewrite E1, E2, E3, E4, E5, Hp, Hd, Ho. unfold policy, epoch. by rewrite Hc.
Qed.

Lemma keeps_grants :
  grants_by (fun g g' => same_identity g g' /\ kept_or_image objs g g' /\ (g' = g \/ grant_ok a g')) a a'.
Proof.
  destruct (install_objects_effect a objs a1 _ Hinstall) as (Hg & _).
  intros k g' Hg'. unfold a' in Hg'. destruct (raise_arbitration_fields arb a1) as (E & _).
  rewrite E in Hg'. destruct (Hg k) as [Hk|(u & r & Hin & <- & Hl)].
  - exists g'. rewrite <-Hk. split; [done|]. split_and!; [done|by left|by left].
  - rewrite Hl in Hg'. injection Hg' as <-. pose proof Hkeeps as Hk. rewrite Forall_forall in Hk.
    destruct (Hk _ Hin) as (g & Hgg & Hid & Hok). exists g.
    split_and!; [done|done|right; by exists r|by right].
Qed.

Lemma keeps_sites k s :
  sites_ a !! k = Some s ->
  exists s', sites_ a' !! k = Some s' /\ site_incarnation s' = site_incarnation s.
Proof.
  destruct (install_objects_touches a objs a1 _ (keeps_touches a objs Hkeeps) Hinstall)
    as (_ & _ & _ & _ & Hs).
  intros Hk. unfold a'. rewrite raise_arbitration_sites.
  destruct (Hs k) as [->|(u & Hin & <- & Hl)]; [by exists s|]. exists u. split; [done|].
  pose proof Hkeeps as Hall. rewrite Forall_forall in Hall.
  destruct (Hall _ Hin) as (s0 & Hs0 & ->). congruence.
Qed.

Lemma keeps_issued : arb_value (last_arbitration a) <= arb_value (last_arbitration a').
Proof.
  pose proof (install_all_last_arbitration a ((fun o => (object_key o, o)) <$> objs)) as Hl.
  unfold install_objects in Hinstall. rewrite Hinstall in Hl. cbn in Hl. rewrite <-Hl.
  apply raise_arbitration_le.
Qed.

Lemma keeps_grant_ok g : grant_ok a g -> grant_ok a' g.
Proof.
  destruct keeps_fabric as (Hp & He & Hpaths & _ & _). intros [Hreq Hact]. split; [|by rewrite Hp].
  intros Hr. destruct (Hreq Hr) as (path & site & Hfp & Hfs & Hcur).
  destruct (keeps_sites _ _ Hfs) as (s' & Hs' & Hinc). exists path, s'. unfold find_path.
  rewrite Hpaths. split_and!; [done|done|]. unfold binding_current in *. rewrite He, Hp, Hinc. done.
Qed.

Lemma consistent_grant_ok g : grant_consistent a g -> grant_ok a g.
Proof.
  intros (_ & _ & _ & path & site & Hp & Hs & Hcur & Hver). split; [|done].
  intros Hr. exists path, site. split_and!; [done|done|by apply Hcur].
Qed.

Lemma keeps_grant_consistent g g' :
  accounted a -> g ∈ grants a -> same_identity g g' -> (g' = g \/ grant_ok a g') ->
  grant_consistent a' g' /\ arb_value (g_arbitration g') <= arb_value (last_arbitration a').
Proof.
  intros [Hcons _ Hissued] Hg Hid Hok. pose proof (cons_grants a Hcons g Hg) as Hgc.
  assert (grant_ok a' g') as [Hreq Hact].
  { apply keeps_grant_ok. destruct Hok as [->|Hok]; [by apply consistent_grant_ok|done]. }
  pose proof keeps_issued as Hiss. specialize (Hissued g Hg).
  destruct Hid as (Ei & _ & Ea & _ & _ & _ & _ & Eh & Ep & _).
  destruct Hgc as (Hn & Hz & _ & path & site & Hfp & Hfs & _).
  destruct keeps_fabric as (_ & _ & Hpaths & _ & _).
  destruct (keeps_sites _ _ Hfs) as (s' & Hs' & _).
  rewrite Ea. split; [|lia]. unfold grant_consistent. rewrite Ei, Ea. split_and!; [done|done|left; lia|].
  exists path, s'. rewrite Eh, Ep. unfold find_path. rewrite Hpaths. split_and!; [done|done| |done].
  intros Hr. destruct (Hreq Hr) as (path' & site' & Hp' & Hs'' & Hcur).
  rewrite Ep in Hp'. rewrite Eh in Hs''. unfold find_path in Hp'. rewrite Hpaths in Hp'.
  unfold find_path in Hfp. unfold find_site in Hs''. simplify_eq. done.
Qed.
End Keeps.

Lemma sound_inputs a : sound a -> ledger_inputs_wf a.
Proof.
  intros [_ _ Hwf]. split_and!.
  - intros g Hg. apply (wf_grants a Hwf) in Hg. unfold grant_wf in Hg. by destruct_and!.
  - intros k r Hr. assert (r ∈ paths a) as Hp by (apply elem_of_values; by exists k).
    apply (wf_paths a Hwf) in Hp. unfold path_wf in Hp. unfold path_amounts_wf. by destruct_and!.
  - pose proof (wf_policy a Hwf) as Hp. unfold policy_wf in Hp. by destruct_and!.
Qed.

Lemma elem_of_grants_by R a a' g' :
  grants_by R a a' -> g' ∈ grants a' -> exists g, g ∈ grants a /\ R g g'.
Proof.
  intros Hby [k Hk]%elem_of_grants. destruct (Hby k g' Hk) as (g & Hg & HR).
  exists g. split; [|done]. apply elem_of_grants. by exists k.
Qed.

Lemma distinct_images g h g' h' :
  same_identity g g' -> same_identity h h' -> grants_distinct g h -> grants_distinct g' h'.
Proof.
  intros (Eg & _ & Ega & _ & _ & _ & _ & _ & _ & Egl) (Eh & _ & Eha & _ & _ & _ & _ & _ & _ & Ehl).
  unfold grants_distinct. by rewrite Eg, Eh, Ega, Eha, Egl, Ehl.
Qed.

Lemma keeps_accounted a a1 arb objs :
  let a' := raise_arbitration arb a1 in
  sound a' -> Forall (keeps a) objs -> install_objects a objs = (a1, Status.Ok) ->
  accounted a -> (forall r, r ∈ paths a -> budgeted a' r) -> accounted a'.
Proof.
  intros a' Hsound Hkeeps Hinst Hacc Hbud.
  pose proof (keeps_fabric a a1 arb objs Hkeeps Hinst) as Hfab.
  pose proof (keeps_grants a a1 arb objs Hkeeps Hinst) as Hby.
  pose proof (keeps_sites a a1 arb objs Hkeeps Hinst) as Hsites.
  fold a' in Hfab, Hby, Hsites. destruct Hfab as (Ep & _ & Epaths & Ed & _).
  assert (paths a' = paths a) as Hpaths by (unfold paths; by rewrite Epaths).
  pose proof (acc_consistent a Hacc) as Hcons.
  assert (forall g', g' ∈ grants a' ->
    grant_consistent a' g' /\ arb_value (g_arbitration g') <= arb_value (last_arbitration a')) as Hgr.
  { intros g' Hg'. destruct (elem_of_grants_by _ _ _ _ Hby Hg') as (g & Hg & Hid & _ & Hok).
    by apply (keeps_grant_consistent a a1 arb objs Hkeeps Hinst g). }
  split; [split| |].
  - intros r Hr. rewrite Hpaths in Hr. apply budget_path_consistent; [|by apply Hbud].
    by apply sound_inputs.
  - intros g' Hg'. by apply Hgr.
  - intros g' h' Hg' Hh'.
    destruct (elem_of_grants_by _ _ _ _ Hby Hg') as (g & Hg & Hid & _).
    destruct (elem_of_grants_by _ _ _ _ Hby Hh') as (h & Hh & Hih & _).
    by apply (distinct_images g h), (cons_distinct a Hcons).
  - intros r Hr. rewrite Hpaths in Hr. destruct (cons_references a Hcons r Hr) as (H1 & H2 & H3).
    unfold references_consistent. rewrite Ed.
    split_and!; [done|intros Hn; destruct (H2 Hn) as [s Hs]|intros Hn; destruct (H3 Hn) as [s Hs]];
      destruct (Hsites _ _ Hs) as (s' & -> & _); by eexists.
  - rewrite Ep. apply (cons_policy a Hcons).
  - apply (sound_limits a' Hsound).
  - intros r Hr. rewrite Hpaths in Hr. by apply Hbud.
  - intros g' Hg'. by apply Hgr.
Qed.

(** ** Moves: images that gain nothing *)

Definition moves (a : Authority) (o : Object) : Prop :=
  match o with
  | OGrant u _ => exists g, grants_ a !! raw (g_id u) = Some g /\ same_identity g u /\
                            no_gain g u /\ grant_ok a u
  | _ => keeps a o
  end.

Lemma moves_keep a objs : Forall (moves a) objs -> Forall (keeps a) objs.
Proof.
  intros Hm. eapply Forall_impl; [exact Hm|]. intros [] Ho; try done. destruct Ho as (g & ? & ? & _ & ?).
  by exists g.
Qed.

Lemma moves_accounted a a1 arb objs :
  let a' := raise_arbitration arb a1 in
  sound a -> sound a' -> Forall (moves a) objs -> install_objects a objs = (a1, Status.Ok) ->
  accounted a -> accounted a'.
Proof.
  intros a' Ha Ha' Hm Hinst Hacc. pose proof (moves_keep a objs Hm) as Hkeeps.
  apply (keeps_accounted a a1 arb objs); [done..|]. intros r Hr.
  apply (budget_no_gain a); [by apply (keeps_fabric a a1 arb objs)| |by apply acc_budget].
  intros k g' Hg'. destruct (keeps_grants a a1 arb objs Hkeeps Hinst k g' Hg') as (g & Hg & Hid & Hki & _).
  exists g. split; [done|]. split; [done|]. destruct Hki as [->|[r' Hin]]; [by split|].
  rewrite Forall_forall in Hm. destruct (Hm _ Hin) as (g0 & Hg0 & _ & Hgain & _).
  destruct Hid as [Hid _]. rewrite Hid in Hg0.
  rewrite (wk_grants a (sound_keyed a Ha) k g Hg) in Hg0. congruence.
Qed.

(** An image with the binding of a grant in order. *)
Lemma grant_ok_kept a g u :
  grant_ok a g -> g_binding u = g_binding g ->
  (requires_current_binding (g_state u) = true -> requires_current_binding (g_state g) = true) ->
  (g_state u = GrantState.Active -> require_verification_for_active (policy a) = true ->
     g_verification u = VerificationState.Verified) -> grant_ok a u.
Proof. intros [Hreq _] Hb Hr Hv. split; [|done]. rewrite Hb. auto. Qed.

Section Moves.
Context (a : Authority) (Hsound : sound a) (Hcons : consistent a).

Lemma stored_ok g : stored a g -> grant_ok a g.
Proof.
  intros Hg. apply (consistent_grant_ok a), (cons_grants a Hcons), elem_of_grants. by eexists.
Qed.

(** The image [u] of [g] with the binding of [g]. *)
Lemma move_image g u r :
  stored a g -> same_identity g u -> g_binding u = g_binding g -> no_gain g u ->
  (requires_current_binding (g_state u) = true -> requires_current_binding (g_state g) = true) ->
  (g_state u = GrantState.Active -> require_verification_for_active (policy a) = true ->
 g_verification u = VerificationState.Verified) -> moves a (OGrant u r).
Proof.
  intros Hg Hid Hb Hgain Hr Hv. exists g. pose proof Hid as [Ei _]. rewrite Ei.
  split_and!; [done|done|done|]. by apply (grant_ok_kept a g); [apply stored_ok|..].
Qed.

(** The images of the grants that a function moves. *)
Lemma omap_moves (f : GrantRecord -> option GrantRecord) r :
  (forall g u, f g = Some u ->
 same_identity g u /\ g_binding u = g_binding g /\ no_gain g u /\
 (requires_current_binding (g_state u) = true -> requires_current_binding (g_state g) = true) /\
 g_state u <> GrantState.Active) ->
  Forall (moves a) ((fun u => OGrant u r) <$> omap f (grants a)).
Proof.
  intros Hf. apply Forall_fmap, Forall_forall. intros u (g & Hg & Hu)%list_elem_of_omap.
  destruct (Hf g u Hu) as (? & ? & ? & ? & ?).
  apply (move_image g); try done. apply stored_grants; [|done]. by apply sound_keyed.
Qed.

Lemma downgrade_moves reason now g u :
  downgrade reason now g = Some u ->
  same_identity g u /\ g_binding u = g_binding g /\ no_gain g u /\
  (requires_current_binding (g_state u) = true -> requires_current_binding (g_state g) = true) /\
  g_state u <> GrantState.Active.
Proof.
  unfold downgrade, no_gain, holds, authorized, live, state_is.
  destruct (g_state g); intros [= <-]; cbn; split_and!; done.
Qed.

Lemma append_downgrades_moves reason site path now :
  Forall (moves a) (append_downgrades a reason site path now).
Proof.
  apply omap_moves. intros g u. destruct (selected site path g); [apply downgrade_moves|done].
Qed.
End Moves.

(** The operations that gain no capacity for a grant. *)
Definition only_moves (op : Op) : bool :=
  match op with
  | EvaluateGrant _ | ActivateGrant _ | DegradeGrant _ | WithdrawGrant _ | RetireGrant _
  | CancelGrant _ | AcknowledgeGrant _ | Heartbeat _ | SetSiteState _ _ _ _ | Tick _ => true
  | _ => false
  end.

Section PlanMoves.
Context (a : Authority) (Hsound : sound a) (Hcons : consistent a) (arb : ArbSeq) (m : Mutation).

Abbreviation moved := (Forall (moves a) (m_objects m)).

(** The obligations of [move_image] for an image whose state is known. *)
Ltac solve_move Hstate :=
  unfold no_gain, holds, authorized, live, state_is; cbn; rewrite ?Hstate; cbn; try done.

Lemma require_grant_moves id g : require_grant a id = Ok g -> stored a g.
Proof. apply require_grant_stored. by apply sound_keyed. Qed.

Lemma evaluate_moves op : plan_evaluate_grant a op arb = Ok m -> moved.
Proof.
  unfold plan_evaluate_grant. intros H. plan_inv H. apply require_grant_moves in E.
  apply state_is_not in G. constructor; [|constructor].
  destruct (bool_decide _); apply (move_image a Hcons x); solve_move G.
Qed.

Lemma activate_moves op : plan_activate_grant a op arb = Ok m -> moved.
Proof.
  unfold plan_activate_grant. intros H. plan_inv H. apply require_grant_moves in E.
  apply state_is_not in G. constructor; [|constructor].
  apply (move_image a Hcons x); solve_move G. intros _ Hreq.
  match goal with G : _ && negb (bool_decide (g_verification x = _)) = false |- _ =>
    rewrite Hreq in G; cbn in G; by to_prop end.
Qed.

Lemma degrade_moves op : plan_degrade_grant a op arb = Ok m -> moved.
Proof.
  unfold plan_degrade_grant. intros H. plan_inv H. apply require_grant_moves in E.
  apply state_is_not in G. constructor; [|constructor]. apply (move_image a Hcons x); solve_move G.
Qed.

Lemma withdraw_moves op : plan_withdraw_grant a op arb = Ok m -> moved.
Proof.
  unfold plan_withdraw_grant. intros H. plan_inv H. apply require_grant_moves in E.
  constructor; [|constructor]. unfold state_is in G.
  apply (move_image a Hcons x); unfold no_gain, holds, authorized, live, state_is; cbn; try done.
  by destruct (g_state x).
Qed.

Lemma retire_moves op : plan_retire_grant a op arb = Ok m -> moved.
Proof.
  unfold plan_retire_grant. intros H. plan_inv H. apply require_grant_moves in E.
  apply state_is_not in G. constructor; [|constructor]. apply (move_image a Hcons x); solve_move G.
Qed.

Lemma cancel_moves op : plan_cancel_grant a op arb = Ok m -> moved.
Proof.
  unfold plan_cancel_grant. intros H. plan_inv H. apply require_grant_moves in E.
  constructor; [|constructor].
  apply (move_image a Hcons x); unfold no_gain, holds, authorized, live, state_is; cbn; done.
Qed.

Lemma acknowledge_moves ack : plan_acknowledge_grant a ack arb = Ok m -> moved.
Proof.
  unfold plan_acknowledge_grant. intros H. plan_inv H. apply require_grant_moves in E.
  constructor; [|constructor]. apply (move_image a Hcons x); try done.
  intros Hs Hreq. cbn in *. by apply (stored_ok a Hcons x).
Qed.

Lemma stored_site id s u :
  find_site a id = Some s -> site_id u = site_id s -> site_incarnation u = site_incarnation s ->
  moves a (OSite u).
Proof.
  intros Hs Hid Hinc. exists s. rewrite Hid. unfold find_site in Hs.
  by rewrite (wk_sites a (sound_keyed a Hsound) _ _ Hs).
Qed.

Lemma heartbeat_moves h : plan_heartbeat a h arb = Ok m -> moved.
Proof.
  unfold plan_heartbeat. intros H. plan_inv H. apply found_ok in E.
  constructor; [|constructor].
  eapply (stored_site _ x); [exact E|..]; unfold beaten_site; cbn; by destruct (site_state x).
Qed.

Lemma set_site_state_moves site s reason now :
  plan_set_site_state a site s reason now arb = Ok m -> moved.
Proof.
  unfold plan_set_site_state. intros H. plan_inv H. apply found_ok in E. cbn [m_objects]. constructor.
  - eapply (stored_site _ x); [exact E|..]; unfold moved_site; cbn zeta; by repeat break_goal.
  - destruct (site_requires_degradation s); [|constructor]. by apply append_downgrades_moves.
Qed.

Lemma expired_moves now g u :
  expired_grant now g = Some u ->
  same_identity g u /\ g_binding u = g_binding g /\ no_gain g u /\
  (requires_current_binding (g_state u) = true -> requires_current_binding (g_state g) = true) /\
  g_state u <> GrantState.Active.
Proof.
  unfold expired_grant, no_gain, holds, authorized, live, state_is.
  destruct (_ || _); [done|]. intros [= <-]. cbn. by split_and!.
Qed.

Lemma tick_moves now : plan_tick a now arb = Ok m -> moved.
Proof.
  unfold plan_tick. intros H. plan_inv H. cbn [m_objects]. apply Forall_app; split.
  - apply Forall_join, Forall_fmap, Forall_forall. intros s Hs. cbn. unfold tick_site.
    destruct (lapsed_site a now s) as [u|] eqn:Eu; constructor; [|by apply append_downgrades_moves].
    apply elem_of_values in Hs as [k Hk].
    pose proof (wk_sites a (sound_keyed a Hsound) _ _ Hk) as Hid. subst k.
    apply (stored_site (site_id s) s); [exact Hk|..]; unfold lapsed_site in Eu;
      repeat case_match; by simplify_eq.
  - apply omap_moves; [done..|]. intros g u. apply expired_moves.
Qed.

Lemma plan_moves op : only_moves op = true -> plan a op arb = Ok m -> moved.
Proof.
  destruct op; try done; intros _; cbn [plan];
    eauto using evaluate_moves, activate_moves, degrade_moves, withdraw_moves, retire_moves,
    cancel_moves, acknowledge_moves, heartbeat_moves, set_site_state_moves, tick_moves.
Qed.
End PlanMoves.

(** ** Reservation *)

Lemma foldl_max_mono {A} (p q : A -> bool) (f : A -> N) l x y :
  (forall z, p z = true -> q z = true) -> x <= y ->
  foldl (fun b z => if p z then N.max b (f z) else b) x l <=
  foldl (fun b z => if q z then N.max b (f z) else b) y l.
Proof.
  intros Hpq. revert x y. induction l as [|z l IH]; intros x y Hxy; [done|]. cbn. apply IH.
  specialize (Hpq z). destruct (p z), (q z); first [lia | by specialize (Hpq eq_refl)].
Qed.

(** An authority that is live now also counts when liveness is not asked for. *)
Lemma oversubscription_applies_any a p now r o :
  oversubscription_applies a p now r o = true -> oversubscription_applies a p 0 r o = true.
Proof.
  unfold oversubscription_applies. cbn [N.eqb negb andb].
  destruct (negb (id_eqb _ _)); [done|]. destruct (ovs_ratio_bps o <=? 10000); [done|].
  by destruct (negb (now =? 0) && negb (is_live_at o now)).
Qed.

Lemma oversubscription_extension_mono u b b' :
  u64_ok u -> u32_ok b' -> b <= b' ->
  oversubscription_extension u b <= oversubscription_extension u b'.
Proof.
  intros Hu Hb' Hle. unfold oversubscription_extension.
  destruct (N.leb_spec b 10000); [lia|]. destruct (N.leb_spec b' 10000); [lia|].
  assert (u32_ok (b - 10000) /\ u32_ok (b' - 10000)) as [H1 H2] by (unfold u32_ok in *; lia).
  rewrite !fraction_bps_spec by done.
  assert (u * (b - 10000) / 10000 <= u * (b' - 10000) / 10000); [|lia].
  apply N.Div0.div_le_mono, N.mul_le_mono_l. lia.
Qed.

Lemma extension_live_le a r p now :
  u64_ok (path_authoritative_usable r) -> u32_ok (max_oversubscription_bps (policy a)) ->
  extension_for a r p now <= extension_for a r p 0.
Proof.
  intros Hu Hm. unfold extension_for.
  assert (value_or (live_oversubscription_bps a p now) 0 <= value_or (live_oversubscription_bps a p 0) 0
    /\ u32_ok (value_or (live_oversubscription_bps a p 0) 0)) as [Hle Hb].
  2:{ by apply oversubscription_extension_mono. }
  unfold live_oversubscription_bps. destruct (require_path a p) as [r'|s]; [cbn [mbind]|done].
  cbn. unfold guard_fail. destruct (max_oversubscription_bps (policy a) =? 0); [done|].
  pose proof (foldl_max_mono (oversubscription_applies a p now r') (oversubscription_applies a p 0 r')
    ovs_ratio_bps (oversubscriptions a) 0 0
    (fun o => oversubscription_applies_any a p now r' o) (N.le_refl 0)) as Hf.
  set (x := foldl _ 0 _) in *. set (y := foldl _ 0 _) in Hf |- *.
  unfold u32_ok in *.
  destruct (N.eqb_spec x 0), (N.eqb_spec y 0); cbn; lia.
Qed.

Lemma path_sum_update a a' k g u p q :
  grants_ a !! k = Some g -> grants_ a' = <[k := u]> (grants_ a) -> same_identity g u ->
  path_sum a' p q + amount_if (on_path p g && q g) g =
  amount_if (on_path p g && q u) g + path_sum a p q.
Proof.
  intros Hg Hg' (_ & _ & _ & _ & Ha & _ & _ & _ & Hp & _). unfold path_sum, grants. rewrite Hg'.
  pose proof (map_sum_insert_upd (fun g => amount_if (on_path p g && q g) g) (grants_ a) k g u Hg) as Hs.
  unfold map_sum in Hs. rewrite Hs. f_equal. unfold amount_if, on_path. by rewrite Ha, Hp.
Qed.

(** There is room for [g] on the path [r]. *)
Definition fits (a : Authority) (r : PathRecord) (g : GrantRecord) : Prop :=
  if is_protected g then held_protected a (path_id r) + g_amount g <= protected_floor a r
  else g_amount g = 0 \/
       held_general a (path_id r) + held_protected a (path_id r) + protected_floor a r +
       minimum_free a r + path_unavailable r + g_amount g <=
       path_authoritative_usable r + extension_for a r (path_id r) 0.

Lemma allocatable_fits a r g n now :
  ledger_inputs_wf a -> find_path a (path_id r) = Some r -> budgeted a r ->
  allocatable a (path_id r) (g_class g) now = Ok n -> g_amount g <= n -> fits a r g.
Proof.
  intros Hwf Hr [Hun Hgen Hprot Hceil Htot] Hn Hle. unfold fits.
  destruct (require_path_inputs a (path_id r) r Hwf) as ([Hu64 _] & _ & Hx); [by apply found_ok|].
  pose proof (extension_live_le a r (path_id r) now Hu64 (proj2 (proj2 Hwf))) as Hext.
  assert (totals_for a (path_id r) = _) as Ht by (apply totals_exact; [apply Hwf|lia]).
  unfold is_protected. destruct (g_class g).
  - rewrite bool_decide_eq_false_2 by done.
    destruct (N.eq_dec (g_amount g) 0); [by left|right].
    apply (allocatable_general a _ r) in Hn; [|done..]. cbn zeta in Hn.
    rewrite saturating_add_spec in Hn by done. unfold general_load in Hn. rewrite Ht in Hn.
    cbn [tot_committed tot_reserved tot_withdrawing] in Hn.
    pose proof (held_by_state a (path_id r)). lia.
  - rewrite bool_decide_eq_true_2 by done.
    apply (allocatable_protected a _ r) in Hn; [|done]. rewrite Ht in Hn. cbn in Hn. lia.
Qed.

(** The sums of a path once [g], which held nothing, is reserved as [u]. *)
Lemma sums_after_reservation a a' k g u p :
  grants_ a !! k = Some g -> grants_ a' = <[k := u]> (grants_ a) -> same_identity g u ->
  g_state g = GrantState.Eligible -> g_state u = GrantState.Reserved ->
  let taken c := amount_if (on_path p g && c) g in
  promised a' p = taken (is_general g) + promised a p /\
  held_general a' p = taken (is_general g) + held_general a p /\
  held_protected a' p = taken (is_protected g) + held_protected a p.
Proof.
  intros Hg Hg' Hid Hs Hu taken. pose proof (same_class g u Hid) as Ecl.
  assert (holds g = false /\ authorized g = false) as [Hh Ha]
    by (unfold holds, authorized, live, state_is; by rewrite Hs).
  assert (holds u = true /\ authorized u = true) as [Hhu Hau]
    by (unfold holds, authorized, live, state_is; by rewrite Hu).
  pose proof (fun q => path_sum_update a a' k g u p q Hg Hg' Hid) as Hsum.
  pose proof (Hsum (fun g => is_general g && authorized g)) as S1.
  pose proof (Hsum (fun g => is_general g && holds g)) as S2.
  pose proof (Hsum (fun g => is_protected g && holds g)) as S3. cbv beta in S1, S2, S3.
  unfold taken, promised, held_general, held_protected, is_general in *.
  rewrite Ecl, Hau, Ha, !andb_false_r, andb_true_r, N.add_0_r in S1.
  rewrite Ecl, Hhu, Hh, !andb_false_r, andb_true_r, N.add_0_r in S2.
  rewrite Ecl, Hhu, Hh, !andb_false_r, andb_true_r, N.add_0_r in S3.
  done.
Qed.

(** A grant that fits on its path is reserved. *)
Lemma budget_gain a a' k g u r :
  same_fabric a a' ->
  grants_ a !! k = Some g -> grants_ a' = <[k := u]> (grants_ a) -> same_identity g u ->
  g_state g = GrantState.Eligible -> g_state u = GrantState.Reserved ->
  (path_id r = b_path (g_binding g) -> fits a r g) -> budgeted a r -> budgeted a' r.
Proof.
  intros Hf Hg Hg' Hid Hs Hu Hfit [Hun Hgen Hprot Hceil Htot].
  destruct (same_fabric_terms a a' r 0 Hf) as (Efl & Emf & Ex).
  destruct (sums_after_reservation a a' k g u (path_id r) Hg Hg' Hid Hs Hu) as (S1 & S2 & S3).
  unfold amount_if in S1, S2, S3.
  assert (promised a (path_id r) <= held_general a (path_id r)) as Hpg.
  { apply path_sum_le. intros g0. unfold authorized, live, state_is, holds.
    by destruct (is_general g0), (g_state g0). }
  assert (on_path (path_id r) g = true -> fits a r g) as Hfit'
    by (intros Hon%id_eqb_spec; by apply Hfit).
  unfold fits, is_general in *.
  split; rewrite ?Efl, ?Emf, ?Ex; try done;
    destruct (on_path (path_id r) g), (is_protected g); cbn in *;
    try specialize (Hfit' eq_refl); lia.
Qed.

Section Reserve.
Context (a : Authority) (Hsound : sound a) (arb : ArbSeq) (m : Mutation) (op : GrantOperation).
Context (Hplan : plan_reserve_grant a op arb = Ok m).

(** What a successful reservation found, and the image it plans. *)
Lemma reserve_plan :
  exists g u path n,
  m_objects m = [OGrant u false] /\ stored a g /\ same_identity g u /\
  g_state g = GrantState.Eligible /\ g_state u = GrantState.Reserved /\ grant_ok a u /\
  find_path a (b_path (g_binding g)) = Some path /\
  allocatable a (path_id path) (g_class g) (op_now_ms op) = Ok n /\ g_amount g <= n.
Proof.
  pose proof Hplan as H. unfold plan_reserve_grant in H. plan_inv H.
  apply require_grant_stored in E; [|by apply sound_keyed]. apply state_is_not in G.
  apply found_ok in E1, E2. to_prop. cbn [m_objects].
  eexists x, _, x2, x3. split_and!; [done|done|done|done|done| |done|done|done].
  split; [|done]. intros _. exists x2, x1. split_and!; [done|done|].
  by unfold binding_current.
Qed.

Lemma reserve_accounted a1 :
  let a' := raise_arbitration arb a1 in
  sound a' -> install_objects a (m_objects m) = (a1, Status.Ok) -> accounted a -> accounted a'.
Proof.
  intros a' Ha' Hinst Hacc.
  destruct reserve_plan as (g & u & path & n & Hm & Hg & Hid & Hs & Hu & Hok & Hp & Hn & Hle).
  rewrite Hm in Hinst. pose proof Hid as [Ei _].
  assert (Forall (keeps a) [OGrant u false]) as Hkeeps
    by (constructor; [exists g; by rewrite Ei|constructor]).
  assert (grants_ a' = <[raw (g_id g) := u]> (grants_ a)) as Hg'.
  { unfold a'. destruct (raise_arbitration_fields arb a1) as (-> & _).
    rewrite install_objects_cons in Hinst. destruct (install a _ _) as [a2|s] eqn:E.
    2:{ apply install_status in E. injection Hinst as _ ->. naive_solver. }
    apply install_fields in E as (E & _). injection Hinst as <-. cbn in E. by rewrite E, Ei. }
  apply (keeps_accounted a a1 arb [OGrant u false]); [done..|]. intros r Hr.
  apply (budget_gain a a' (raw (g_id g)) g u); try done.
  - by apply (keeps_fabric a a1 arb [OGrant u false]).
  - intros Heq. apply elem_of_values in Hr as Hr'. destruct Hr' as [k Hk].
    pose proof (wk_paths a (sound_keyed a Hsound) _ _ Hk) as Hrk.
    assert (find_path a (path_id r) = Some r) as Hfr by (unfold find_path; by rewrite Hrk).
    rewrite <-Heq, Hfr in Hp. injection Hp as <-.
    apply (allocatable_fits a r g n (op_now_ms op)); [by apply sound_inputs|done|by apply acc_budget|done|done].
  - by apply acc_budget.
Qed.
End Reserve.

(** ** Properties *)

(** The operations that keep the accounts: reservation and the moves. *)
Definition keeps_accounts (op : Op) : bool :=
  match op with ReserveGrant _ => true | _ => only_moves op end.

Lemma step_accounted op a a' :
  sound a -> accounted a -> keeps_accounts op = true -> Step op a a' -> accounted a'.
Proof.
  intros Ha Hacc Hop Hs. pose proof (step_sound op a a' Ha Hs) as Ha'.
  destruct (step_inv op a a' Ha Hs) as (m & a1 & arb & Hp & _ & Hi & ->).
  destruct (only_moves op) eqn:Em.
  - pose proof (plan_moves a Ha (acc_consistent a Hacc) arb m op Em Hp) as Hmoves.
    by apply (moves_accounted a a1 arb (m_objects m)).
  - destruct op; try done. by apply (reserve_accounted a Ha arb m op).
Qed.

Lemma history_accounted ops a a' :
  sound a -> accounted a -> Forall (fun op => keeps_accounts op = true) ops -> History ops a a' ->
  accounted a'.
Proof.
  intros Ha Hacc Hops Hh. induction Hh as [|op ops a a' a'' Hs _ IH]; [done|].
  apply Forall_cons in Hops as [Hop Hops].
  apply IH; [by eapply step_sound|by eapply step_accounted|done].
Qed.

(** C1: reservation, activation, degradation, withdrawal, retirement,
    cancellation, evaluation, acknowledgement, heartbeats, site state changes and
    expiry, in any order, never overbook: from an accounted state
    [verify_invariants] keeps answering Ok, on every path the promised general
    capacity, the whole protected floor and the unavailable capacity fit into
    usable capacity plus the authorised extension, and the protected capacity
    still held fits the protected floor. *)
Theorem operations_never_overbook ops a a' :
  sound a -> accounted a -> Forall (fun op => keeps_accounts op = true) ops -> History ops a a' ->
  verify_invariants a' = Status.Ok /\
  forall r, r ∈ paths a' ->
    promised a' (path_id r) + protected_floor a' r + path_unavailable r <=
      path_authoritative_usable r + extension_for a' r (path_id r) 0 /\
    held_protected a' (path_id r) <= protected_floor a' r.
Proof.
  intros Ha Hacc Hops Hh. pose proof (history_sound ops a a' Ha Hh) as Ha'.
  pose proof (history_accounted ops a a' Ha Hacc Hops Hh) as Hacc'. split.
  - apply verify_invariants_ok; [by apply sound_keyed|by apply sound_inputs|by apply acc_consistent].
  - intros r Hr. destruct (acc_budget a' Hacc' r Hr) as [_ ? ? _ _]. done.
Qed.

(** ** Witnesses *)

(** The sample fabric with an eligible grant. *)
Definition eligible_fabric : Authority :=
  let g := Sample.grant 8 GrantClass.General 200 GrantState.Eligible in
  set_grants (<[raw (g_id g) := g]> (grants_ Sample.fabric))
    (set_request_index (<[raw (g_request g) := raw (g_id g)]> (request_index Sample.fabric))
      Sample.fabric).

Lemma eligible_sound : sound eligible_fabric.
Proof.
  split.
  - split; try (apply key_forall; vm_compute; reflexivity).
    intros k v Hk _. revert k v Hk.
    apply (map_forall _ (fun k v =>
      bool_decide (request_index eligible_fabric !! raw (g_request v) = Some k))).
    + intros k v. apply bool_decide_eq_true.
    + vm_compute. reflexivity.
  - unfold within_limits. split_and!; vm_compute; discriminate.
  - split; try (intros x Hx; vm_compute in Hx; repeat apply elem_of_cons in Hx as [->|Hx]);
      try (by apply elem_of_nil in Hx);
      unfold site_wf, path_wf, grant_wf, binding_wf, policy_wf, bounded_str_wf, str_wf; wf_by_compute.
Qed.

Lemma eligible_accounted : accounted eligible_fabric.
Proof.
  split.
  - apply verify_invariants_ok; [apply eligible_sound|apply sound_inputs, eligible_sound|].
    vm_compute. reflexivity.
  - intros r Hr. vm_compute in Hr. apply list_elem_of_singleton in Hr as ->.
    split; vm_compute; discriminate.
  - intros g Hg. vm_compute in Hg. repeat apply elem_of_cons in Hg as [->|Hg];
      try (by apply elem_of_nil in Hg); vm_compute; discriminate.
Qed.

Definition reserve_ops : list Op :=
  [ReserveGrant (sample_op 8 20); ActivateGrant (sample_op 8 21); WithdrawGrant (sample_op 8 22)].

Definition reserved_fabric : Authority := run (ReserveGrant (sample_op 8 20)) (mkArbSeq 10) eligible_fabric.
Definition active_fabric : Authority := run (ActivateGrant (sample_op 8 21)) (mkArbSeq 11) reserved_fabric.
Definition withdrawing_fabric : Authority :=
  run (WithdrawGrant (sample_op 8 22)) (mkArbSeq 12) active_fabric.

Lemma reserve_history : History reserve_ops eligible_fabric withdrawing_fabric.
Proof.
  apply (history_step _ _ _ reserved_fabric); [|apply (history_step _ _ _ active_fabric);
    [|apply (history_step _ _ _ withdrawing_fabric)]];
    try (apply run_step; [by vm_compute|split; by vm_compute|by vm_compute]).
  constructor.
Qed.

Lemma operations_never_overbook_witness :
  sound eligible_fabric /\ accounted eligible_fabric /\
  History reserve_ops eligible_fabric withdrawing_fabric /\
  verify_invariants withdrawing_fabric = Status.Ok /\
  promised active_fabric (Sample.id 3) = 300 /\ promised withdrawing_fabric (Sample.id 3) = 100.
Proof.
  assert (Forall (fun op => keeps_accounts op = true) reserve_ops) as Hops by (by repeat constructor).
  split_and!; [exact eligible_sound|exact eligible_accounted|exact reserve_history| | |].
  - exact (proj1 (operations_never_overbook _ _ _ eligible_sound eligible_accounted Hops reserve_history)).
  - vm_compute. reflexivity.
  - vm_compute. reflexivity.
Defined.
