(* ===== verification/Fencing.v ===== *)
(** * Withdrawal, fencing and expiry

    What an epoch change, a new site incarnation and the expiry tick do to every
    grant of the table, and that the capacity of withdrawn grants stays held. *)

From S2P Require Import Prelude Outcome Ids Lifecycle Capacity Policy Wire Model State Ledger.
From S2P Require Import Changes Invariants Rebalance PlanFabric PlanGrants Operations WellFormed.
From S2P Require Import Applicable Steps Accounting.

(** ** Exact effect of images *)

Lemma install_objects_app a l1 l2 a' :
  install_objects a (l1 ++ l2) = (a', Status.Ok) ->
  exists a1, install_objects a l1 = (a1, Status.Ok) /\ install_objects a1 l2 = (a', Status.Ok).
Proof.
  revert a. induction l1 as [|o l1 IH]; intros a; cbn [app]; [by exists a|].
  rewrite !install_objects_cons. destruct (install a (object_key o) o) as [a1|s] eqn:E; [apply IH|].
  apply install_status in E. intros [= _ ->]. naive_solver.
Qed.

(** The last image of a grant is the one that stays. *)
Lemma install_objects_hits a objs a' u r :
  install_objects a objs = (a', Status.Ok) -> OGrant u r ∈ objs ->
  exists u' r', OGrant u' r' ∈ objs /\ raw (g_id u') = raw (g_id u) /\
                grants_ a' !! raw (g_id u) = Some u'.
Proof.
  revert a. induction objs as [|o objs IH]; intros a; [by intros _ ?%elem_of_nil|].
  rewrite install_objects_cons. destruct (install a (object_key o) o) as [a1|s] eqn:E.
  2:{ apply install_status in E. intros [= _ ->]. naive_solver. }
  intros Hi [<-|Hin]%elem_of_cons.
  - apply install_fields in E as (Eg & _). cbn [object_key] in Eg.
    destruct (install_objects_effect a1 objs a' _ Hi) as (Heff & _).
    destruct (Heff (raw (g_id u))) as [Hk|(u' & r' & Hin & Hid & Hl)].
    + exists u, r. rewrite Hk, Eg, lookup_insert_eq. split_and!; [left|done|done].
    + exists u', r'. split_and!; [by right|done|done].
  - destruct (IH a1 Hi Hin) as (u' & r' & Hin' & Hid & Hl). exists u', r'.
    split_and!; [by right|done|done].
Qed.

(** A mutation that carries exactly the images [f] of the stored grants maps
    the grant table by [f]. *)
Lemma images_exact a (f : GrantRecord -> option GrantRecord) objs a' :
  well_keyed a -> (forall g u, f g = Some u -> g_id u = g_id g) ->
  (forall u, (exists r, OGrant u r ∈ objs) <-> exists g, g ∈ grants a /\ f g = Some u) ->
  install_objects a objs = (a', Status.Ok) ->
  forall k, grants_ a' !! k = (fun g => default g (f g)) <$> grants_ a !! k.
Proof.
  intros Hwk Hf Hobjs Hi k.
  assert (forall u r g, OGrant u r ∈ objs -> raw (g_id u) = k -> grants_ a !! k = Some g ->
    f g = Some u) as Huniq.
  { intros u r g Hin Hid Hg. destruct (proj1 (Hobjs u) (ex_intro _ r Hin)) as (g0 & Hg0 & Hfg).
    apply elem_of_grants in Hg0 as [k0 Hk0]. pose proof (wk_grants a Hwk _ _ Hk0) as Hkey.
    rewrite <-(Hf g0 u Hfg), Hid in Hkey. congruence. }
  destruct (install_objects_effect a objs a' _ Hi) as (Heff & _).
  destruct (grants_ a !! k) as [g|] eqn:Hg; cbn.
  - destruct (f g) as [u|] eqn:Hfg; cbn.
    + destruct (proj2 (Hobjs u)) as [r Hin]; [exists g; split; [|done]; apply elem_of_grants; by exists k|].
      assert (raw (g_id u) = k) as Hid by (rewrite (Hf g u Hfg); by apply (wk_grants a Hwk)).
      destruct (install_objects_hits a objs a' u r Hi Hin) as (u' & r' & Hin' & Hid' & Hl).
      rewrite Hid in Hid', Hl. pose proof (Huniq u' r' g Hin' Hid' eq_refl). congruence.
    + destruct (Heff k) as [->|(u & r & Hin & Hid & _)]; [done|].
      by rewrite (Huniq u r g Hin Hid eq_refl) in Hfg.
  - destruct (Heff k) as [->|(u & r & Hin & Hid & _)]; [done|].
    destruct (proj1 (Hobjs u) (ex_intro _ r Hin)) as (g0 & Hg0 & Hfg).
    apply elem_of_grants in Hg0 as [k0 Hk0]. pose proof (wk_grants a Hwk _ _ Hk0) as Hkey.
    rewrite <-(Hf g0 u Hfg), Hid in Hkey. congruence.
Qed.

(** The images among a list without other grants. *)
Lemma images_only (pre post : list Object) (f : GrantRecord -> option GrantRecord) l u :
  (forall u r, OGrant u r ∉ pre ++ post) ->
  (exists r, OGrant u r ∈ pre ++ (retained <$> omap f l) ++ post) <-> exists g, g ∈ l /\ f g = Some u.
Proof.
  intros Hno. split.
  - intros [r [Hin|[Hin|Hin]%elem_of_app]%elem_of_app].
    + destruct (Hno u r). apply elem_of_app. by left.
    + apply list_elem_of_fmap in Hin as (v & [= -> _] & Hin). by apply list_elem_of_omap.
    + destruct (Hno u r). apply elem_of_app. by right.
  - intros Hg%list_elem_of_omap. exists false. apply elem_of_app. right. apply elem_of_app. left.
    apply list_elem_of_fmap. by exists u.
Qed.

(** ** Tables mapped grant by grant *)

Definition maps_grants (h : GrantRecord -> GrantRecord) (a a' : Authority) : Prop :=
  forall k, grants_ a' !! k = h <$> grants_ a !! k.

Lemma same_identity_sym g g' : same_identity g g' -> same_identity g' g.
Proof. unfold same_identity. intros. destruct_and!. by split_and!. Qed.

Lemma maps_grants_by h a a' : maps_grants h a a' -> grants_by (fun g g' => g' = h g) a a'.
Proof.
  intros Hm k g' Hg'. rewrite Hm in Hg'. apply fmap_Some in Hg' as (g & Hg & ->). by exists g.
Qed.

Lemma maps_grants_back h a a' : maps_grants h a a' -> grants_by (fun g' g => g' = h g) a' a.
Proof. intros Hm k g Hg. exists (h g). rewrite Hm, Hg. done. Qed.

(** Mapping the grants keeps every sum whose condition it keeps. *)
Lemma maps_grants_sum h a a' p (q : GrantRecord -> bool) :
  maps_grants h a a' -> (forall g, same_identity g (h g)) -> (forall g, q (h g) = q g) ->
  path_sum a' p q = path_sum a p q.
Proof.
  intros Hm Hid Hq. apply N.le_antisymm; apply path_sum_pointwise.
  - eapply grants_by_impl; [|by apply maps_grants_by]. intros g g' ->. by rewrite Hq.
  - eapply grants_by_impl; [|by apply maps_grants_back]. intros g' g ->. rewrite Hq.
    split; [by apply same_identity_sym|done].
Qed.

(** ** Epoch changes *)

Definition epoch_reason (e : Epoch) : bytes :=
  str "authority epoch advanced to " ++ to_decimal (epoch_value e).

Definition epoch_withdrawn (e : Epoch) (g : GrantRecord) : GrantRecord :=
  default g (withdraw_for_epoch (epoch_reason e) g).

Lemma epoch_withdrawn_spec e g :
  same_identity g (epoch_withdrawn e g) /\ holds (epoch_withdrawn e g) = holds g /\
  (holds g = true -> g_state (epoch_withdrawn e g) = GrantState.Withdrawing) /\
  (holds g = false -> epoch_withdrawn e g = g).
Proof.
  unfold epoch_withdrawn, withdraw_for_epoch, holds, state_is. set (reason := bounded _). clearbody reason.
  destruct (g_state g) eqn:E; cbn; rewrite ?bool_decide_eq_true_2 by done; cbn; rewrite ?E; by split_and!.
Qed.

Lemma withdraw_for_epoch_id reason g u : withdraw_for_epoch reason g = Some u -> g_id u = g_id g.
Proof. unfold withdraw_for_epoch. destruct (_ || _); [done|]. by intros [= <-]. Qed.

Lemma bump_epoch_step e a a' :
  sound a -> Step (BumpEpoch e) a a' ->
  epoch_value (epoch a) < epoch_value e /\ epoch a' = e /\ maps_grants (epoch_withdrawn e) a a'.
Proof.
  intros Ha Hs. destruct (step_inv _ a a' Ha Hs) as (m & a1 & arb & Hp & _ & Hi & ->).
  cbn [plan] in Hp. unfold plan_bump_epoch in Hp. plan_inv Hp. to_prop. cbn [m_objects] in Hi.
  destruct (raise_arbitration_fields arb a1) as (E & _ & Ee & _). rewrite Ee.
  split; [done|]. split.
  - pose proof Hi as Hi'. rewrite install_objects_cons in Hi'. cbn [install object_key] in Hi'.
    unfold guard_fail in Hi'. destruct (epoch_value e =? 0); [by simplify_eq|].
    destruct (install_objects_effect _ _ _ _ Hi') as (_ & _ & [->|Hin] & _); [done|].
    by apply list_elem_of_fmap in Hin as (u & Hu & _).
  - intros k. rewrite E. unfold epoch_withdrawn.
    apply (images_exact a (withdraw_for_epoch (epoch_reason e)) _ a1 (sound_keyed a Ha)
      (withdraw_for_epoch_id _)) with (2 := Hi).
    intros u. rewrite <-(images_only [OEpoch e] [] _ (grants a) u), app_nil_r; [done|].
    intros u0 r [?|?%elem_of_nil]%elem_of_cons; done.
Qed.

(** ** Superseded incarnations *)

Definition fenced (r : SiteRegistration) (g : GrantRecord) : GrantRecord :=
  default g (fence_grant (sd_id (sr_descriptor r)) (sr_now_ms r) g).

Definition held_by_site (r : SiteRegistration) (g : GrantRecord) : Prop :=
  b_holder (g_binding g) = sd_id (sr_descriptor r).

Lemma fence_grant_id site now g u : fence_grant site now g = Some u -> g_id u = g_id g.
Proof. unfold fence_grant. destruct (_ || _); [done|]. destruct (state_is _ _); [done|]. by intros [= <-]. Qed.

(** What the registration makes of a grant of the old incarnation. *)
Definition superseded (now : N) (g : GrantRecord) : Prop :=
  g_state g = GrantState.Withdrawing /\ g_historical g = true /\
  g_verification g = VerificationState.Unverified /\ g_provenance g = Provenance.FencedIncarnation /\
  g_updated_at_ms g = now.

Lemma fenced_spec r g :
  same_identity g (fenced r g) /\ holds (fenced r g) = holds g /\
  (held_by_site r g -> holds g = true -> g_state (fenced r g) = GrantState.Withdrawing) /\
  (held_by_site r g -> holds g = true -> g_state g <> GrantState.Withdrawing ->
     superseded (sr_now_ms r) (fenced r g)) /\
  (~ held_by_site r g \/ holds g = false \/ g_state g = GrantState.Withdrawing -> fenced r g = g).
Proof.
  unfold fenced, fence_grant, held_by_site, holds, live, state_is.
  set (reason := bounded _). clearbody reason.
  destruct (id_eqb _ _) eqn:Eid; cbn.
  - apply id_eqb_spec in Eid.
    destruct (g_state g) eqn:E; cbn; rewrite ?bool_decide_eq_true_2 by done; cbn; rewrite ?E;
      split_and!; try done; by intros [?|[?|?]].
  - assert (b_holder (g_binding g) <> sd_id (sr_descriptor r)) by (rewrite <-id_eqb_spec; congruence).
    by split_and!.
Qed.

Lemma register_site_step r a a' s :
  sound a -> Step (RegisterSite r) a a' -> find_site a (sd_id (sr_descriptor r)) = Some s ->
  sr_incarnation r <> site_incarnation s ->
  tid_is_nil (sr_incarnation r) = false /\
  find_site a' (sd_id (sr_descriptor r)) = Some (superseding_site r s) /\
  maps_grants (fenced r) a a'.
Proof.
  intros Ha Hs Hcur Hinc. destruct (step_inv _ a a' Ha Hs) as (m & a1 & arb & Hp & _ & Hi & ->).
  cbn [plan] in Hp. unfold plan_register_site in Hp. rewrite Hcur in Hp. plan_inv Hp.
  destruct (id_eqb _ _) eqn:Eid; [by apply id_eqb_spec in Eid|]. plan_inv Hp. cbn [m_objects] in Hi.
  split; [done|]. split.
  - apply install_objects_app in Hi as (a2 & _ & Hi). rewrite install_objects_cons in Hi.
    destruct (install a2 _ _) as [a3|st] eqn:E.
    2:{ apply install_status in E. injection Hi as _ ->. naive_solver. }
    injection Hi as <-. apply install_touches in E as (_ & _ & _ & _ & E); [|done].
    unfold find_site. rewrite raise_arbitration_sites, E. cbn [object_key].
    pose proof (wk_sites a (sound_keyed a Ha) _ _ Hcur) as Hk. cbn [superseding_site site_id].
    by rewrite Hk, lookup_insert_eq.
  - intros k. destruct (raise_arbitration_fields arb a1) as (-> & _). unfold fenced.
    apply (images_exact a (fence_grant (sd_id (sr_descriptor r)) (sr_now_ms r)) _ a1 (sound_keyed a Ha)
      (fence_grant_id _ _)) with (2 := Hi).
    intros u. rewrite <-(images_only [] [OSite (superseding_site r s)] _ (grants a) u); [done|].
    intros u0 r0 Hin. by apply list_elem_of_singleton in Hin.
Qed.

(** ** Expiry *)

Definition lease_over (now : N) (g : GrantRecord) : Prop :=
  g_expires_at_ms g <> 0 /\ g_expires_at_ms g <= now.

Lemma expired_grant_spec now g :
  match expired_grant now g with
  | Some u => holds g = true /\ lease_over now g /\ same_identity g u /\ g_state u = GrantState.Expired
  | None => ~ (holds g = true /\ lease_over now g)
  end.
Proof.
  unfold expired_grant, lease_over, holds.
  destruct (N.eqb_spec (g_expires_at_ms g) 0); cbn; [tauto|].
  destruct (N.ltb_spec now (g_expires_at_ms g)); cbn; [lia|].
  destruct (holds_capacity (g_state g)); cbn; [|naive_solver]. by split_and!.
Qed.

Lemma tick_objects a now arb m :
  plan_tick a now arb = Ok m ->
  m_objects m = mjoin (tick_site a now <$> sites a) ++ (released <$> omap (expired_grant now) (grants a)).
Proof. unfold plan_tick. intros H. by plan_inv H. Qed.

(** Expired images come last, so that they stay. *)
Lemma tick_expires now a a1 arb m k g :
  well_keyed a -> plan_tick a now arb = Ok m -> install_objects a (m_objects m) = (a1, Status.Ok) ->
  grants_ a !! k = Some g -> holds g = true -> lease_over now g ->
  exists g', grants_ a1 !! k = Some g' /\ g_state g' = GrantState.Expired.
Proof.
  intros Hwk Hp Hi Hg Hh Hover. rewrite (tick_objects _ _ _ _ Hp) in Hi.
  apply install_objects_app in Hi as (a2 & _ & Hi).
  pose proof (expired_grant_spec now g) as Hx. destruct (expired_grant now g) as [u|] eqn:Eu; [|tauto].
  destruct Hx as (_ & _ & [Hidu _] & _).
  assert (OGrant u true ∈ released <$> omap (expired_grant now) (grants a)) as Hin.
  { apply list_elem_of_fmap. exists u. split; [done|]. apply list_elem_of_omap. exists g.
    split; [apply elem_of_grants; by exists k|done]. }
  destruct (install_objects_hits _ _ _ u true Hi Hin) as (u' & r' & Hin' & _ & Hl).
  rewrite Hidu, (wk_grants a Hwk _ _ Hg) in Hl. exists u'. split; [done|].
  apply list_elem_of_fmap in Hin' as (v & [= -> _] & Hv).
  apply list_elem_of_omap in Hv as (g0 & _ & Hg0).
  pose proof (expired_grant_spec now g0) as Hx. rewrite Hg0 in Hx. by destruct_and!.
Qed.

Lemma downgrades_not_expired a reason site path now u r :
  OGrant u r ∈ append_downgrades a reason site path now -> g_state u <> GrantState.Expired.
Proof.
  intros (v & [= -> _] & Hv)%list_elem_of_fmap. apply list_elem_of_omap in Hv as (g & _ & Hd).
  destruct (selected _ _ g); [|done]. unfold downgrade in Hd.
  destruct (g_state g); by simplify_eq.
Qed.

(** Only the images of grants whose lease is over are expired. *)
Lemma tick_expired_image now a arb m u r :
  plan_tick a now arb = Ok m -> OGrant u r ∈ m_objects m -> g_state u = GrantState.Expired ->
  exists g, g ∈ grants a /\ g_id u = g_id g /\ holds g = true /\ lease_over now g.
Proof.
  intros Hp Hin Hst. rewrite (tick_objects _ _ _ _ Hp) in Hin. apply elem_of_app in Hin as [Hin|Hin].
  - exfalso. apply list_elem_of_join in Hin as (l & Hin & Hl).
    apply list_elem_of_fmap in Hl as (s & -> & _). unfold tick_site in Hin.
    destruct (lapsed_site a now s); [|by apply elem_of_nil in Hin].
    apply elem_of_cons in Hin as [?|Hin]; [done|]. by apply downgrades_not_expired in Hin.
  - apply list_elem_of_fmap in Hin as (v & [= -> _] & Hv).
    apply list_elem_of_omap in Hv as (g & Hg & Hx). exists g.
    pose proof (expired_grant_spec now g) as Hs. rewrite Hx in Hs.
    destruct Hs as (Hh & Hover & [Hid _] & _). done.
Qed.

Lemma tick_step now a a' k g :
  sound a -> Step (Tick now) a a' -> grants_ a !! k = Some g ->
  exists g', grants_ a' !! k = Some g' /\ same_identity g g' /\
    (holds g = true -> lease_over now g -> g_state g' = GrantState.Expired) /\
    (g_state g' = GrantState.Expired -> g_state g <> GrantState.Expired ->
       holds g = true /\ lease_over now g).
Proof.
  intros Ha Hs Hg. pose proof (sound_keyed a Ha) as Hwk.
  destruct (step_inv _ a a' Ha Hs) as (m & a1 & arb & Hp & _ & Hi & ->).
  destruct (step_grant _ _ _ k g Ha Hs eq_refl Hg) as (g' & Hg' & Hid & _).
  exists g'. split_and!; [done|done|..];
    destruct (raise_arbitration_fields arb a1) as (E & _); rewrite E in Hg'; clear E Hs.
  - intros Hh Hover. destruct (tick_expires now a a1 arb m k g) as (g1 & Hg1 & Hst); try done. congruence.
  - intros Hst Hne. destruct (install_objects_effect _ _ _ _ Hi) as (Heff & _).
    destruct (Heff k) as [Hk|(u & r & Hin & Hku & Hl)]; [congruence|].
    rewrite Hg' in Hl. injection Hl as ->.
    destruct (tick_expired_image now a arb m u r Hp Hin Hst) as (g0 & Hg0 & Hid0 & Hh & Hover).
    apply elem_of_grants in Hg0 as [k0 Hk0]. pose proof (wk_grants a Hwk _ _ Hk0) as Hkey.
    rewrite <-Hid0, Hku in Hkey. by simplify_eq.
Qed.

(** ** Properties *)

(** C14: an epoch change moves every grant that holds capacity to Withdrawing and
    changes no other grant; every grant keeps holding what it held, so that the
    capacity held on each path is the same before and after. *)
Theorem epoch_bump_withdraws e a a' :
  sound a -> Step (BumpEpoch e) a a' ->
  epoch_value (epoch a) < epoch_value (epoch a') /\
  maps_grants (epoch_withdrawn e) a a' /\
  (forall g', g' ∈ grants a' -> holds g' = true -> g_state g' = GrantState.Withdrawing) /\
  (forall g, holds g = false -> epoch_withdrawn e g = g) /\
  (forall p, path_sum a' p holds = path_sum a p holds).
Proof.
  intros Ha Hs. destruct (bump_epoch_step e a a' Ha Hs) as (Hlt & -> & Hm).
  split_and!; [done|done|..].
  - intros g' [k Hk]%elem_of_grants Hh. destruct (maps_grants_by _ _ _ Hm k g' Hk) as (g & _ & ->).
    destruct (epoch_withdrawn_spec e g) as (_ & Hh' & Hst & _). apply Hst. congruence.
  - intros g. apply epoch_withdrawn_spec.
  - intros p. apply (maps_grants_sum (epoch_withdrawn e)); [done|..]; intros g; apply epoch_withdrawn_spec.
Qed.

(** C13: when a registered site comes back under a new incarnation, every
    grant of the old one that holds capacity and is not being withdrawn moves to
    Withdrawing and is marked as historical, unverified and of a fenced
    incarnation; every other grant stays as it is, and no grant is added.  No held
    capacity is freed on any path, and no operation that names the old incarnation
    is accepted for a grant of the site any more. *)
Theorem incarnation_superseded r a a' s :
  sound a -> Step (RegisterSite r) a a' -> find_site a (sd_id (sr_descriptor r)) = Some s ->
  sr_incarnation r <> site_incarnation s ->
  find_site a' (sd_id (sr_descriptor r)) = Some (superseding_site r s) /\
  (forall k, match grants_ a !! k, grants_ a' !! k with
     | Some g, Some g' =>
         same_identity g g' /\ holds g' = holds g /\
         (held_by_site r g -> holds g = true -> g_state g <> GrantState.Withdrawing ->
            superseded (sr_now_ms r) g') /\
         (~ held_by_site r g \/ holds g = false \/ g_state g = GrantState.Withdrawing -> g' = g)
     | None, None => True
     | _, _ => False
     end) /\
  (forall g', g' ∈ grants a' -> held_by_site r g' -> holds g' = true ->
     g_state g' = GrantState.Withdrawing) /\
  (forall p, path_sum a' p holds = path_sum a p holds) /\
  (forall g op, held_by_site r g -> tid_is_nil (op_actor_incarnation op) = false ->
     op_actor_incarnation op = site_incarnation s -> check_binding a' g op <> Status.Ok).
Proof.
  intros Ha Hs Hcur Hinc. destruct (register_site_step r a a' s Ha Hs Hcur Hinc) as (Hn & Hnew & Hm).
  split_and!; [done|..].
  - intros k. rewrite Hm. destruct (grants_ a !! k) as [g|]; [cbn|done].
    destruct (fenced_spec r g) as (? & ? & _ & ? & ?). by split_and!.
  - intros g' [k Hk]%elem_of_grants Hheld Hh. destruct (maps_grants_by _ _ _ Hm k g' Hk) as (g & _ & ->).
    destruct (fenced_spec r g) as (Hid & Hh' & Hst & _). apply Hst; [|congruence].
    unfold held_by_site, same_identity in *. destruct_and!. congruence.
  - intros p. apply (maps_grants_sum (fenced r)); [done|..]; intros g; apply fenced_spec.
  - intros g op Hheld Hact Heq (_ & _ & site & path & Hfs & _ & Hi & _)%check_binding_ok.
    rewrite Hheld, Hnew in Hfs. injection Hfs as <-. rewrite (Hi Hact) in Heq.
    by apply Hinc.
Qed.

(** C16: the expiry tick expires exactly the grants that hold capacity and whose
    lease has an end that has come; every other grant is kept or downgraded. *)
Theorem tick_expires_exactly now a a' k g :
  sound a -> Step (Tick now) a a' -> grants_ a !! k = Some g -> g_state g <> GrantState.Expired ->
  exists g', grants_ a' !! k = Some g' /\
    (g_state g' = GrantState.Expired <-> holds g = true /\ lease_over now g).
Proof.
  intros Ha Hs Hg Hne. destruct (tick_step now a a' k g Ha Hs Hg) as (g' & Hg' & _ & H1 & H2).
  exists g'. split; [done|]. split; [auto|]. intros [Hh Ho]. auto.
Qed.

(** ** Witnesses *)

Definition next_epoch : Authority := run (BumpEpoch (mkEpoch 2)) (mkArbSeq 10) Sample.fabric.

Lemma epoch_bump_withdraws_witness :
  sound Sample.fabric /\ Step (BumpEpoch (mkEpoch 2)) Sample.fabric next_epoch /\
  path_sum next_epoch (Sample.id 3) holds = 180 /\ path_sum Sample.fabric (Sample.id 3) holds = 180.
Proof.
  assert (Step (BumpEpoch (mkEpoch 2)) Sample.fabric next_epoch) as Hs
    by (apply run_step; by vm_compute).
  split_and!; [exact sample_sound|exact Hs| |vm_compute; reflexivity].
  destruct (epoch_bump_withdraws _ _ _ sample_sound Hs) as (_ & _ & _ & _ & Hsum).
  rewrite Hsum. vm_compute. reflexivity.
Defined.

Definition reincarnation : SiteRegistration :=
  mkSiteRegistration (mkSiteDescriptor (Sample.id 1) (str "site") 1000) (Sample.id 111) (mkEpoch 1) 50.

Definition reincarnated : Authority := run (RegisterSite reincarnation) (mkArbSeq 10) Sample.fabric.

Lemma incarnation_superseded_witness :
  sound Sample.fabric /\ Step (RegisterSite reincarnation) Sample.fabric reincarnated /\
  sr_incarnation reincarnation <> site_incarnation (Sample.site 1) /\
  forall g, held_by_site reincarnation g ->
    check_binding reincarnated g (sample_op 5 60) <> Status.Ok.
Proof.
  assert (Step (RegisterSite reincarnation) Sample.fabric reincarnated) as Hs.
  { apply run_step; [by vm_compute| |by vm_compute].
    unfold op_wf, name_wf, id_wf. split_and!; by vm_compute. }
  assert (find_site Sample.fabric (sd_id (sr_descriptor reincarnation)) = Some (Sample.site 1)) as Hf
    by (vm_compute; reflexivity).
  assert (sr_incarnation reincarnation <> site_incarnation (Sample.site 1)) as Hinc by done.
  split_and!; [exact sample_sound|exact Hs|exact Hinc|].
  destruct (incarnation_superseded _ _ _ _ sample_sound Hs Hf Hinc) as (_ & _ & _ & _ & Hc).
  intros g Hg. apply Hc; [exact Hg|vm_compute; reflexivity|vm_compute; reflexivity].
Defined.

Definition expired_fabric : Authority := run (Tick 1000) (mkArbSeq 10) Sample.fabric.

Lemma tick_expires_exactly_witness :
  sound Sample.fabric /\ Step (Tick 1000) Sample.fabric expired_fabric /\
  exists g', grants_ expired_fabric !! mkId128 0 7 = Some g' /\ g_state g' = GrantState.Expired.
Proof.
  assert (Step (Tick 1000) Sample.fabric expired_fabric) as Hs by (apply run_step; by vm_compute).
  split_and!; [exact sample_sound|exact Hs|].
  assert (grants_ Sample.fabric !! mkId128 0 7 =
    Some (Sample.grant 7 GrantClass.General 30 GrantState.Withdrawing)) as Hg by (vm_compute; reflexivity).
  destruct (tick_expires_exactly _ _ _ _ _ sample_sound Hs Hg ltac:(done)) as (g' & Hg' & Hiff).
  exists g'. split; [exact Hg'|]. apply Hiff. split; [reflexivity|]. split; [done|by vm_compute].
Defined.
