(* ===== verification/Fit.v ===== *)
(** * Rebalancing fits

    After a rebalance the authorised grants of a path fit: the general ones
    under the general ceiling, the protected ones under the protected floor,
    whatever the capacity or policy change that triggered it. *)

From S2P Require Import Prelude Outcome Ids Lifecycle Capacity Policy Wire Model Codecs State Ledger.
From S2P Require Import Changes Invariants Rebalance PlanFabric PlanGrants Operations WellFormed.
From S2P Require Import Applicable Steps Accounting Fencing.

(** ** One pass *)

(** The authorised amount of class [k] in a list. *)
Definition authorized_of (k : GrantClass) (g : GrantRecord) : N :=
  amount_if (bool_decide (g_class g = k) && authorized g) g.
Definition authorized_sum (k : GrantClass) (l : list GrantRecord) : N := sumN (authorized_of k) l.

Section Pass.
Context (reason : bytes) (now limit : N) (k : GrantClass).

Abbreviation pass := (withdraw_to_fit reason now limit k).

Definition holding_state (g : GrantRecord) : Prop := holds g = true.

Lemma authorized_holding g :
  holding_state g -> authorized g = negb (state_is GrantState.Withdrawing g).
Proof. unfold holding_state, holds, authorized, live, state_is. by destruct (g_state g). Qed.

(** The pass ends with the authorised amount within the limit. *)
Lemma pass_fits l :
  Forall holding_state l -> authorized_sum k (pass (authorized_sum k l) l).1 <= limit.
Proof.
  induction 1 as [|g l Hg _ IH]; [cbn; lia|].
  assert (authorized_sum k (g :: l) = authorized_of k g + authorized_sum k l) as Hsum by done.
  cbn [withdraw_to_fit]. destruct (N.leb_spec (authorized_sum k (g :: l)) limit); [done|].
  unfold authorized_of, amount_if in Hsum. rewrite authorized_holding in Hsum by done.
  destruct (bool_decide (g_class g = k)) eqn:Ek, (state_is GrantState.Withdrawing g) eqn:Es;
    cbn [negb orb andb] in *.
  2:{ assert ((if g_amount g <? authorized_sum k (g :: l) then authorized_sum k (g :: l) - g_amount g
    else 0) = authorized_sum k l) as ->.
    { destruct (N.ltb_spec (g_amount g) (authorized_sum k (g :: l))); lia. }
    destruct (pass _ l) as [kept out]. cbn in *. unfold authorized_of at 1, authorized at 1, live.
    cbn. by rewrite andb_false_r. }
  all: rewrite N.add_0_l in Hsum; rewrite Hsum; destruct (pass _ l) as [kept out]; cbn in *;
    unfold authorized_of at 1, amount_if; rewrite authorized_holding, Ek, Es by done; done.
Qed.

(** Every grant is kept or has its withdrawal among the images. *)
Lemma pass_cases n l g :
  g ∈ l -> g ∈ (pass n l).1 \/ withdraw_image reason now g ∈ (pass n l).2.
Proof.
  revert n. induction l as [|x l IH]; intros n Hg; [by apply elem_of_nil in Hg|].
  cbn [withdraw_to_fit]. destruct (n <=? limit); [by left|].
  apply elem_of_cons in Hg as Hg'.
  destruct (negb _ || state_is _ x).
  - specialize (IH n). destruct (pass n l) as [kept out]. cbn in *.
    destruct Hg' as [->|Hg']; [left; constructor|]. destruct (IH Hg'); [left; by constructor|by right].
  - set (rest := if _ <? _ then _ else _). specialize (IH rest).
    destruct (pass rest l) as [kept out]. cbn in *.
    destruct Hg' as [->|Hg']; [right; constructor|].
    destruct (IH Hg'); [left; by constructor|right; by constructor].
Qed.

Lemma pass_ids n l : g_id <$> (pass n l).1 = g_id <$> l.
Proof.
  revert n. induction l as [|x l IH]; intros n; [done|].
  cbn [withdraw_to_fit]. destruct (n <=? limit); [done|].
  destruct (negb _ || state_is _ x).
  - specialize (IH n). destruct (pass n l) as [kept out]. csimpl in *. by f_equal.
  - set (rest := if _ <? _ then _ else _). specialize (IH rest).
    destruct (pass rest l) as [kept out]. csimpl in *. by f_equal.
Qed.

Lemma pass_holding n l : Forall holding_state l -> Forall holding_state (pass n l).1.
Proof.
  intros Hl. revert n. induction Hl as [|x l Hx Hl IH]; intros n; [by constructor|].
  cbn [withdraw_to_fit]. destruct (n <=? limit); [by constructor|].
  destruct (negb _ || state_is _ x).
  - specialize (IH n). destruct (pass n l) as [kept out]. by constructor.
  - set (rest := if _ <? _ then _ else _). specialize (IH rest).
    destruct (pass rest l) as [kept out]. by constructor.
Qed.

(** The other class is left alone. *)
Lemma pass_other k' n l : k' <> k -> authorized_sum k' (pass n l).1 = authorized_sum k' l.
Proof.
  intros Hk. unfold authorized_sum. revert n. induction l as [|x l IH]; intros n; [done|].
  cbn [withdraw_to_fit]. destruct (n <=? limit); [done|].
  destruct (negb _ || state_is _ x) eqn:E.
  - specialize (IH n). destruct (pass n l) as [kept out]. cbn in *. by f_equal.
  - set (rest := if _ <? _ then _ else _). specialize (IH rest).
    destruct (pass rest l) as [kept out]. cbn in *. f_equal; [|done].
    apply orb_false_elim in E as [E _]. to_prop.
    unfold authorized_of. cbn. by rewrite bool_decide_eq_false_2 by congruence.
Qed.
End Pass.

(** ** Both passes *)

Lemma authorized_total_exact k l :
  Forall holding_state l -> Forall (fun g => u64_ok (g_amount g)) l ->
  authorized_total k l = N.min kAmountMax (authorized_sum k l).
Proof.
  unfold authorized_total, authorized_sum. induction l as [|g l IH] using rev_ind; intros Hh Hu; [done|].
  apply Forall_app in Hh as [Hh Hg], Hu as [Hu Hga]. apply Forall_cons in Hg as [Hg _], Hga as [Hga _].
  rewrite foldl_snoc, sumN_snoc, IH by done.
  assert (u64_ok (N.min kAmountMax (sumN (authorized_of k) l))) by (unfold u64_ok, kAmountMax; lia).
  assert (authorized_of k g =
    amount_if (bool_decide (g_class g = k) && negb (state_is GrantState.Withdrawing g)) g) as ->
    by (unfold authorized_of; by rewrite authorized_holding).
  unfold amount_if.
  destruct (state_is GrantState.Withdrawing g); [rewrite andb_false_r; lia|]. rewrite andb_true_r.
  destruct (bool_decide (g_class g = k)); [rewrite saturating_add_spec by done|]; lia.
Qed.

Lemma rebind_spec r p now reason rp rc g u :
  rebind r p now reason rp rc g = Some u -> same_identity g u /\ g_state u = g_state g.
Proof.
  intros Hu. destruct (rebind_lawful r p now reason rp rc g u Hu) as [Hid _]. split; [done|].
  unfold rebind in Hu. destruct (negb _); [done|]. cbn zeta in Hu.
  destruct (assign_if rp _ _ _ _) as [b1 t1]. destruct (assign_if rc _ _ b1 _) as [b2 t2].
  destruct (assign_if rc _ _ b2 _) as [b3 t3]. destruct (t1 || t2 || t3); by simplify_eq.
Qed.

(** The object is an image of the grant stored under [key]. *)
Definition image_at (key : Id128) (o : Object) : Prop :=
  match o with OGrant u _ => raw (g_id u) = key | _ => False end.

#[export] Instance image_at_dec key o : Decision (image_at key o).
Proof. destruct o; cbn; apply _. Defined.

Section Rebalanced.
Context (a : Authority) (r : PathRecord) (p : Policy) (now : N) (reason : bytes) (rp rc : bool).
Context (Hwf : amounts_wf a).

Abbreviation holding := (holding_on a (path_id r)).
Abbreviation objects := (rebalance_path a r p now reason rp rc).

Lemma elem_of_holding g :
  g ∈ holding <-> g ∈ grants a /\ on_path (path_id r) g = true /\ holds g = true.
Proof.
  unfold holding_on. rewrite merge_sort_Permutation, list_elem_of_filter, andb_true_iff. unfold holds. tauto.
Qed.

Lemma holding_states : Forall holding_state holding.
Proof. apply Forall_forall. by intros g (_ & _ & ?)%elem_of_holding. Qed.

Lemma holding_amounts : Forall (fun g => u64_ok (g_amount g)) holding.
Proof. apply Forall_forall. intros g (Hg & _)%elem_of_holding. by apply Hwf. Qed.

(** The authorised sums of the holding grants are sums of the path. *)
Lemma authorized_sum_holding k :
  authorized_sum k holding =
  path_sum a (path_id r) (fun g => bool_decide (g_class g = k) && authorized g).
Proof.
  unfold authorized_sum, holding_on, path_sum. rewrite merge_sort_Permutation.
  induction (grants a) as [|g l IH]; [done|]. rewrite filter_cons. cbn [sumN foldr].
  change (foldr (fun x n => amount_if (on_path (path_id r) x && (bool_decide (g_class x = k) && authorized x)) x + n) 0 l)
    with (sumN (fun g => amount_if (on_path (path_id r) g && (bool_decide (g_class g = k) && authorized g)) g) l).
  rewrite <-IH. case_decide as Hd.
  - apply andb_prop in Hd as [-> _]. done.
  - assert (on_path (path_id r) g && (bool_decide (g_class g = k) && authorized g) = false) as ->; [|done].
    destruct (on_path (path_id r) g); [|done]. cbn in Hd |- *.
    unfold authorized, live, state_is. destruct (g_state g); cbn in *; try done; by rewrite andb_false_r.
Qed.

Lemma authorized_total_reverse k :
  authorized_sum k holding <= kAmountMax ->
  authorized_total k holding = authorized_sum k (reverse holding).
Proof.
  intros Hmax. rewrite authorized_total_exact by (apply holding_states || apply holding_amounts).
  unfold authorized_sum in *. rewrite reverse_Permutation. lia.
Qed.

(** What a rebalance leaves of the holding grants, and how its objects relate
    to them. *)
Lemma rebalance_kept :
  (forall k, authorized_sum k holding <= kAmountMax) ->
  exists kept,
  g_id <$> kept = g_id <$> reverse holding /\ Forall holding_state kept /\
  authorized_sum GrantClass.Protected kept <= effective_floor p r /\
  authorized_sum GrantClass.General kept <= general_ceiling a r p now /\
  (forall g, g ∈ holding -> g ∈ kept \/ retained (withdraw_image reason now g) ∈ objects) /\
  (forall u x, OGrant u x ∈ objects ->
   (exists g, u = withdraw_image reason now g) \/
   exists g, g ∈ kept /\ same_identity g u /\ g_state u = g_state g).
Proof.
  intros Hmax. unfold rebalance_path. rewrite !authorized_total_reverse by done.
  assert (Forall holding_state (reverse holding)) as Hh by (apply Forall_reverse, holding_states).
  set (floor := effective_floor p r). set (ceiling := general_ceiling a r p now).
  set (n1 := authorized_sum GrantClass.Protected (reverse holding)).
  pose proof (pass_fits reason now floor GrantClass.Protected _ Hh) as Hfit1. fold n1 in Hfit1.
  pose proof (pass_other reason now floor GrantClass.Protected GrantClass.General n1 (reverse holding)
    ltac:(done)) as Hoth1.
  pose proof (pass_holding reason now floor GrantClass.Protected n1 _ Hh) as Hh1.
  pose proof (pass_ids reason now floor GrantClass.Protected n1 (reverse holding)) as Hid1.
  pose proof (pass_cases reason now floor GrantClass.Protected n1 (reverse holding)) as Hcase1.
  pose proof (withdraw_to_fit_out reason now floor GrantClass.Protected n1 (reverse holding)) as Hout1.
  destruct (withdraw_to_fit _ _ floor _ n1 _) as [kept1 out1]. cbn [fst snd] in *.
  rewrite <-Hoth1. set (n2 := authorized_sum GrantClass.General kept1).
  pose proof (pass_fits reason now ceiling GrantClass.General _ Hh1) as Hfit2. fold n2 in Hfit2.
  pose proof (pass_other reason now ceiling GrantClass.General GrantClass.Protected n2 kept1
    ltac:(done)) as Hoth2.
  pose proof (pass_holding reason now ceiling GrantClass.General n2 _ Hh1) as Hh2.
  pose proof (pass_ids reason now ceiling GrantClass.General n2 kept1) as Hid2.
  pose proof (pass_cases reason now ceiling GrantClass.General n2 kept1) as Hcase2.
  pose proof (withdraw_to_fit_out reason now ceiling GrantClass.General n2 kept1) as Hout2.
  destruct (withdraw_to_fit _ _ ceiling _ n2 _) as [kept out2]. cbn [fst snd] in *.
  exists kept. rewrite Hid2, Hid1, Hoth2. split_and!; [done|done|done|done| |].
  - intros g Hg%elem_of_reverse.
    assert (g ∈ kept \/ withdraw_image reason now g ∈ out1 ++ out2) as [Hk|Ho].
    { destruct (Hcase1 g Hg) as [Hk|Ho]; [|right; apply elem_of_app; by left].
      destruct (Hcase2 g Hk) as [Hk'|Ho]; [by left|right; apply elem_of_app; by right]. }
    + by left.
    + right. destruct (negb rp && negb rc); apply list_elem_of_fmap; eexists; split; try done.
      apply elem_of_app. by left.
  - intros u x Hin.
    assert (u ∈ out1 ++ out2 \/ exists g, g ∈ reverse kept /\ rebind r p now reason rp rc g = Some u)
      as [[(g & _ & _ & _ & ->)%Hout1|(g & _ & _ & _ & ->)%Hout2]%elem_of_app|(g & Hg & Hu)].
    { destruct (negb rp && negb rc); apply list_elem_of_fmap in Hin as (v & [= -> _] & Hin); [by left|].
      apply elem_of_app in Hin as [Hin|Hin%list_elem_of_omap]; [by left|by right]. }
    + left. by eexists.
    + left. by eexists.
    + right. exists g. rewrite elem_of_reverse in Hg. split; [done|by eapply rebind_spec].
Qed.

(** ** The table after a rebalance *)

Lemma grants_ids : well_keyed a -> NoDup ((fun g => raw (g_id g)) <$> grants a).
Proof. intros Hwk. apply keyed_values, (wk_grants a Hwk). Qed.

Lemma holding_ids : well_keyed a -> NoDup ((fun g => raw (g_id g)) <$> holding).
Proof.
  intros Hwk. unfold holding_on. rewrite merge_sort_Permutation.
  eapply sublist_NoDup; [by apply grants_ids|]. apply fmap_sublist, sublist_filter.
Qed.

Definition table_of (kept : list GrantRecord) : gmap Id128 GrantRecord :=
  list_to_map ((fun g => (raw (g_id g), g)) <$> kept).

Lemma kept_table_sum (kept : list GrantRecord) (f : GrantRecord -> N) :
  NoDup ((fun g => raw (g_id g)) <$> kept) ->
  map_sum f (table_of kept) = sumN f kept /\
  forall g, g ∈ kept -> table_of kept !! raw (g_id g) = Some g.
Proof.
  intros Hnd. unfold table_of.
  assert (NoDup ((fun g => (raw (g_id g), g)) <$> kept).*1) as Hnd' by (by rewrite <-list_fmap_compose).
  split.
  - rewrite map_sum_to_list, map_to_list_to_map by done. by rewrite sumN_fmap.
  - intros g Hg. apply elem_of_list_to_map_1; [done|]. apply list_elem_of_fmap. by exists g.
Qed.

Definition limit_of (k : GrantClass) : N :=
  match k with
  | GrantClass.Protected => effective_floor p r
  | GrantClass.General => general_ceiling a r p now
  end.

(** Installed over a state in which no grant has become authorised, the objects
    leave the authorised grants of each class within its limit. *)
Lemma rebalanced_table a1 a2 k :
  well_keyed a -> (forall k, authorized_sum k holding <= kAmountMax) ->
  grants_by (fun g g1 => same_identity g g1 /\ (authorized g1 = true -> authorized g = true)) a a1 ->
  install_objects a1 objects = (a2, Status.Ok) ->
  path_sum a2 (path_id r) (fun g => bool_decide (g_class g = k) && authorized g) <= limit_of k.
Proof.
  intros Hwk Hmax Hby Hi.
  destruct (rebalance_kept Hmax) as (kept & Hids & Hstates & Hprot & Hgen & Hcases & Hobjs).
  assert (NoDup ((fun g => raw (g_id g)) <$> kept)) as Hnd.
  { pose proof (f_equal (fmap raw) Hids) as Hraw. rewrite <-!list_fmap_compose in Hraw.
    unfold compose in Hraw. rewrite Hraw, reverse_Permutation. by apply holding_ids. }
  destruct (kept_table_sum kept (authorized_of k) Hnd) as [Hsum Hlook].
  trans (authorized_sum k kept); [|by destruct k]. unfold authorized_sum. rewrite <-Hsum.
  unfold path_sum, grants. apply map_sum_pointwise. intros key x Hx.
  destruct (on_path (path_id r) x && (bool_decide (g_class x = k) && authorized x)) eqn:Hc; [|by left].
  right. apply andb_prop in Hc as [Hon [Hk Ha]%andb_prop]. to_prop.
  assert (forall g, g ∈ kept -> same_identity g x -> authorized g = true ->
    exists g, table_of kept !! raw (g_id x) = Some g /\
          amount_if true x <= authorized_of k g) as Hkeep.
  { intros g Hg (Ei & _ & _ & Ek & Eam & _) Hag. exists g. rewrite Ei, (Hlook g Hg). split; [done|].
    unfold authorized_of, amount_if. rewrite Hag, bool_decide_eq_true_2 by congruence. cbn. lia. }
  destruct (decide (Exists (image_at key) objects)) as [Him|Hno].
  - apply Exists_exists in Him as ([] & Hin & Hkey); try done. cbn in Hkey. subst key.
    destruct (install_objects_hits a1 objects a2 _ _ Hi Hin) as (u & x' & Hin' & Hid & Hl).
    rewrite Hl in Hx. injection Hx as ->. rewrite <-Hid.
    destruct (Hobjs _ _ Hin') as [(g & ->)|(g & Hg & Hsame & Hst)]; [done|].
    apply (Hkeep g Hg Hsame). unfold authorized, live, state_is in *. by rewrite <-Hst.
  - destruct (install_objects_effect a1 objects a2 _ Hi) as (Heff & _).
    destruct (Heff key) as [Hk1|(u & x' & Hin & Hid & _)].
    2:{ destruct Hno. apply Exists_exists. by eexists. }
    rewrite Hx in Hk1. destruct (Hby key x (eq_sym Hk1)) as (g & Hg & Hsame & Hag).
    specialize (Hag Ha). pose proof (wk_grants a Hwk _ _ Hg) as Hkey.
    assert (raw (g_id x) = key) as Hkx by (destruct Hsame as [-> _]; done). rewrite <-Hkx.
    destruct (Hcases g) as [Hg'|Hin]; [|by apply (Hkeep g)|].
    + apply elem_of_holding. split_and!; [apply elem_of_grants; by exists key| |].
      * unfold on_path, same_identity in *. destruct_and!. congruence.
      * unfold authorized, live, state_is, holds in *. by destruct (g_state g).
    + destruct Hno. apply Exists_exists. by eexists.
Qed.
End Rebalanced.

(** ** Capacity and policy changes *)

(** The paths an operation rebalances, with the policy and time it uses. *)
Definition rebalanced_paths (a : Authority) (op : Op) : list (PathRecord * Policy * N) :=
  match op with
  | InstallPolicy p => (fun r => (r, p, 0)) <$> paths a
  | RegisterPath r =>
      let d := pr_descriptor r in
      let domain := if tid_is_nil (pd_shared_risk_domain d) then default_domain_id
                    else pd_shared_risk_domain d in
      match find_path a (pd_id d) with
      | Some current => [(reregistered_path r domain current, policy a, pr_now_ms r)]
      | None => []
      end
  | SetPathState path s _ now =>
      match find_path a path, s with
      | Some current, (PathState.Down | PathState.Fenced | PathState.Maintenance) =>
          [(moved_path s now current, policy a, now)]
      | _, _ => []
      end
  | AttestCapacity t =>
      match find_path a (att_path t) with
      | Some current => [(attested_path t current, policy a, att_observed_at_ms t)]
      | None => []
      end
  | _ => []
  end.

(** The authorised grants of a class fit the limit of the class. *)
Definition refitted (a a' : Authority) (r : PathRecord) (p : Policy) (now : N) : Prop :=
  forall k, path_sum a' (path_id r) (fun g => bool_decide (g_class g = k) && authorized g) <=
            limit_of a r p now k.

(** Grant images that make no grant authorised. *)
Definition tame (a : Authority) (o : Object) : Prop :=
  match o with
  | OGrant u _ => exists g, grants_ a !! raw (g_id u) = Some g /\ same_identity g u /\
                            (authorized u = true -> authorized g = true)
  | _ => True
  end.

Lemma tame_grants a objs a1 :
  Forall (tame a) objs -> install_objects a objs = (a1, Status.Ok) ->
  grants_by (fun g g1 => same_identity g g1 /\ (authorized g1 = true -> authorized g = true)) a a1.
Proof.
  intros Ht Hi k g1 Hg1. destruct (install_objects_effect a objs a1 _ Hi) as (Heff & _).
  destruct (Heff k) as [Hk|(u & x & Hin & <- & Hl)].
  - exists g1. by rewrite <-Hk.
  - rewrite Forall_forall in Ht. destruct (Ht _ Hin) as (g & Hg & Hid & Ha).
    exists g. rewrite Hl in Hg1. by injection Hg1 as <-.
Qed.

(** An image of a grant on another path. *)
Definition elsewhere (path : PathId) (o : Object) : Prop :=
  match o with OGrant u _ => on_path path u = false | _ => True end.

Lemma elsewhere_sum path objs a a' (q : GrantRecord -> bool) :
  Forall (elsewhere path) objs -> install_objects a objs = (a', Status.Ok) ->
  path_sum a' path q <= path_sum a path q.
Proof.
  intros Hw Hi. destruct (install_objects_effect a objs a' _ Hi) as (Heff & _).
  unfold path_sum, grants. apply map_sum_pointwise. intros k g' Hg'.
  destruct (Heff k) as [Hk|(u & x & Hin & <- & Hl)].
  - right. exists g'. by rewrite <-Hk.
  - left. rewrite Forall_forall in Hw. specialize (Hw _ Hin). cbn in Hw.
    rewrite Hl in Hg'. injection Hg' as <-. by rewrite Hw.
Qed.

Lemma authorized_within_budget a r k :
  budgeted a r -> authorized_sum k (holding_on a (path_id r)) <= kAmountMax.
Proof.
  intros [_ _ Hprot _ Htot]. rewrite authorized_sum_holding.
  assert (path_sum a (path_id r) (fun g => bool_decide (g_class g = k) && authorized g) <=
    match k with
    | GrantClass.Protected => held_protected a (path_id r)
    | GrantClass.General => held_general a (path_id r)
    end) as Hle.
  { destruct k; apply path_sum_le; intros g; unfold is_general, is_protected, authorized, live, state_is, holds;
      destruct (g_class g), (g_state g); done. }
  destruct k; lia.
Qed.

(** A rebalance between tame objects and objects elsewhere refits its path. *)
Lemma refit a before r p now reason rp rc after a' :
  sound a -> (forall k, authorized_sum k (holding_on a (path_id r)) <= kAmountMax) ->
  Forall (tame a) before -> Forall (elsewhere (path_id r)) after ->
  install_objects a (before ++ rebalance_path a r p now reason rp rc ++ after) = (a', Status.Ok) ->
  refitted a a' r p now.
Proof.
  intros Ha Hmax Hb Hw Hi k. apply install_objects_app in Hi as (a1 & Hi1 & Hi).
  apply install_objects_app in Hi as (a2 & Hi2 & Hi3).
  etrans; [by eapply elsewhere_sum|].
  eapply rebalanced_table; [apply sound_inputs; done|by apply sound_keyed|done| |exact Hi2].
  by eapply tame_grants.
Qed.

Lemma rebalance_tame a r p now reason rp rc :
  well_keyed a -> Forall (tame a) (rebalance_path a r p now reason rp rc).
Proof.
  intros Hwk. apply Forall_forall. intros o (g & u & Hg & -> & Hu)%rebalance_path_objects.
  apply holding_on_stored in Hg as (Hg & _ & _); [|done]. exists g.
  destruct Hu as [[_ ->]|Hu]; [done|]. destruct (rebind_spec _ _ _ _ _ _ _ _ Hu) as [Hid Hst].
  pose proof Hid as [-> _]. split_and!; [done|done|]. unfold authorized, live, state_is. by rewrite Hst.
Qed.

Lemma downgrades_tame a reason site path now :
  well_keyed a -> Forall (tame a) (append_downgrades a reason site path now).
Proof.
  intros Hwk. unfold append_downgrades. apply Forall_fmap, Forall_forall.
  intros u (g & Hg & Hu)%list_elem_of_omap. apply stored_grants in Hg; [|done]. exists g.
  destruct (selected site path g); [|done]. unfold downgrade in Hu.
  destruct (g_state g) eqn:E; simplify_eq; cbn; split_and!; try done;
    unfold authorized, live, state_is; rewrite E; done.
Qed.

Lemma rebalance_elsewhere a r p now reason rp rc path :
  well_keyed a -> path_id r <> path -> Forall (elsewhere path) (rebalance_path a r p now reason rp rc).
Proof.
  intros Hwk Hne. apply Forall_forall. intros o (g & u & Hg & -> & Hu)%rebalance_path_objects.
  apply holding_on_stored in Hg as (_ & _ & Hon); [|done]. unfold on_path in Hon. apply id_eqb_spec in Hon.
  cbn. unfold on_path. apply not_true_is_false. intros Heq%id_eqb_spec.
  assert (b_path (g_binding u) = b_path (g_binding g)) as Hb; [|congruence].
  destruct Hu as [[_ ->]|Hu]; [done|]. by destruct (rebind_spec _ _ _ _ _ _ _ _ Hu) as [(?&?&?&?&?&?&?&?&?&_) _].
Qed.

(** The paths of the table have their own identities. *)
Lemma paths_distinct a pre r post r' :
  well_keyed a -> paths a = pre ++ r :: post -> r' ∈ pre ++ post -> path_id r' <> path_id r.
Proof.
  intros Hwk Hpaths Hin Heq.
  assert (NoDup ((fun r => raw (path_id r)) <$> paths a)) as Hnd.
  { unfold paths, values.
    assert ((fun r => raw (path_id r)) <$> (entries (paths_ a)).*2 = (entries (paths_ a)).*1) as ->;
      [|apply NoDup_entries].
    rewrite <-list_fmap_compose. apply list_fmap_ext. intros i [k x] Hi. cbn.
    apply (wk_paths a Hwk), elem_of_entries. by eapply list_elem_of_lookup_2. }
  rewrite Hpaths, <-Permutation_middle in Hnd. csimpl in Hnd. apply NoDup_cons in Hnd as [Hno _].
  apply Hno, list_elem_of_fmap. exists r'. by rewrite Heq.
Qed.

Lemma install_policy_refits a p arb m a' r :
  sound a -> (forall r, r ∈ paths a -> budgeted a r) -> plan_install_policy a p arb = Ok m ->
  install_objects a (m_objects m) = (a', Status.Ok) -> r ∈ paths a -> refitted a a' r p 0.
Proof.
  intros Ha Hbud Hp Hi Hr. pose proof (sound_keyed a Ha) as Hwk.
  unfold plan_install_policy in Hp. plan_inv Hp. cbn [m_objects] in Hi.
  pose proof Hr as Hr'. apply list_elem_of_split in Hr' as (pre & post & Hpaths).
  rewrite Hpaths, fmap_app, fmap_cons, join_app in Hi. cbn [mjoin list_join] in Hi.
  pose proof (paths_distinct a pre r post) as Hd.
  rewrite app_comm_cons in Hi.
  eapply refit; [done| | | |exact Hi].
  - intros k. apply authorized_within_budget. by apply Hbud.
  - constructor; [done|]. apply Forall_join, Forall_fmap, Forall_forall. intros r' _.
    by apply rebalance_tame.
  - apply Forall_join, Forall_fmap, Forall_forall. intros r' Hr'. apply rebalance_elsewhere; [done|].
    apply Hd; [done|done|]. apply elem_of_app. by right.
Qed.

(** The rebalance of one path ends the mutation. *)
Lemma refit_last a before current r p now reason rp rc a' :
  sound a -> (forall r, r ∈ paths a -> budgeted a r) ->
  find_path a (path_id current) = Some current -> path_id r = path_id current ->
  Forall (tame a) before ->
  install_objects a (before ++ rebalance_path a r p now reason rp rc) = (a', Status.Ok) ->
  refitted a a' r p now.
Proof.
  intros Ha Hbud Hc Hid Hb Hi. eapply (refit a before r p now reason rp rc []); [done| |done|constructor|].
  - intros k. rewrite Hid. apply authorized_within_budget, Hbud, elem_of_values. by eexists.
  - by rewrite app_nil_r.
Qed.

Lemma find_path_own a id r : well_keyed a -> find_path a id = Some r -> find_path a (path_id r) = Some r.
Proof. intros Hwk Hr. unfold find_path in *. by rewrite (wk_paths a Hwk _ _ Hr). Qed.

Lemma plan_refits a op arb m a' r p now :
  sound a -> (forall r, r ∈ paths a -> budgeted a r) -> plan a op arb = Ok m ->
  install_objects a (m_objects m) = (a', Status.Ok) -> (r, p, now) ∈ rebalanced_paths a op ->
  refitted a a' r p now.
Proof.
  intros Ha Hbud Hp Hi Hin. pose proof (sound_keyed a Ha) as Hwk.
  destruct op; cbn [rebalanced_paths] in Hin; try (by apply elem_of_nil in Hin); cbn [plan] in Hp.
  - apply list_elem_of_fmap in Hin as (r0 & [= -> -> ->] & Hr0). by eapply install_policy_refits.
  - unfold plan_register_path in Hp. plan_inv Hp.
    destruct (find_path a _) as [current|] eqn:Ec; [|by apply elem_of_nil in Hin].
    apply list_elem_of_singleton in Hin as [= -> -> ->]. plan_inv Hp. cbn [m_objects] in Hi.
    rewrite (app_assoc _ [_]) in Hi.
    eapply (refit_last a _ current); [done|done|by eapply find_path_own|done| |exact Hi].
    apply Forall_app; split; [break_goal; by repeat constructor|by repeat constructor].
  - unfold plan_set_path_state in Hp. plan_inv Hp. apply found_ok in E. rewrite E in Hin.
    cbn [m_objects] in Hi. rewrite app_comm_cons in Hi.
    destruct s; try (by apply elem_of_nil in Hin); apply list_elem_of_singleton in Hin as [= -> -> ->];
      (eapply (refit_last a _ x); [done|done|by eapply find_path_own|done| |exact Hi]);
      (constructor; [done|by apply downgrades_tame]).
  - unfold plan_attest_capacity in Hp. plan_inv Hp. apply found_ok in E. rewrite E in Hin.
    apply list_elem_of_singleton in Hin as [= -> -> ->]. cbn [m_objects] in Hi.
    apply (refit_last a [OAttestation t; OPath (attested_path t x)] x (attested_path t x) (policy a)
      (att_observed_at_ms t) (str "authoritative capacity changed") false true);
      [done|done|by eapply find_path_own| |by repeat constructor|exact Hi].
    unfold attested_path. cbn zeta. by break_goal.
Qed.

(** ** Properties *)

(** C11: whenever a policy, a new path generation, a new attestation or a path
    going down changes what a path can carry, the operation withdraws grants
    until the authorised ones fit again: the general ones under the general
    ceiling of the new path record and policy, the protected ones under the
    protected floor. *)
Theorem capacity_changes_refit op a a' r p now :
  sound a -> (forall r, r ∈ paths a -> budgeted a r) -> Step op a a' ->
  (r, p, now) ∈ rebalanced_paths a op ->
  promised a' (path_id r) <= general_ceiling a r p now /\
  path_sum a' (path_id r) (fun g => is_protected g && authorized g) <= effective_floor p r.
Proof.
  intros Ha Hbud Hs Hin. destruct (step_inv op a a' Ha Hs) as (m & a1 & arb & Hp & _ & Hi & ->).
  pose proof (plan_refits a op arb m a1 r p now Ha Hbud Hp Hi Hin) as Hfit.
  pose proof (Hfit GrantClass.General) as Hg. pose proof (Hfit GrantClass.Protected) as Hpr.
  cbn [limit_of] in *. unfold promised, path_sum, grants in *.
  destruct (raise_arbitration_fields arb a1) as (-> & _). split; [|exact Hpr].
  etrans; [|exact Hg]. apply N.eq_le_incl, sumN_ext. intros g _. f_equal.
  unfold is_general, is_protected. by destruct (g_class g).
Qed.

(** ** Witnesses *)

(** An attestation that leaves the sample path a tenth of its capacity. *)
Definition shrinking : CapacityAttestation :=
  mkCapacityAttestation (Sample.id 20) (Sample.id 3) (mkGeneration 1) (mkGeneration 2) 100 100 100
    (Sample.id 21) (mkEpoch 1) (Sample.id 22) 60 (mkDigest256 (replicate 32 Byte.x01)) [].

Definition shrunk : Authority := run (AttestCapacity shrinking) (mkArbSeq 10) Sample.fabric.

Lemma sample_budgeted r : r ∈ paths Sample.fabric -> budgeted Sample.fabric r.
Proof.
  intros Hr. vm_compute in Hr. apply list_elem_of_singleton in Hr as ->.
  split; vm_compute; discriminate.
Qed.

Lemma capacity_changes_refit_witness :
  sound Sample.fabric /\ Step (AttestCapacity shrinking) Sample.fabric shrunk /\
  promised Sample.fabric (Sample.id 3) = 100 /\
  promised shrunk (Sample.id 3) <=
    general_ceiling Sample.fabric (attested_path shrinking Sample.path) (policy Sample.fabric) 60 /\
  general_ceiling Sample.fabric (attested_path shrinking Sample.path) (policy Sample.fabric) 60 < 100.
Proof.
  assert (Step (AttestCapacity shrinking) Sample.fabric shrunk) as Hs.
  { apply run_step; [by vm_compute| |by vm_compute].
    unfold op_wf, attestation_wf, digest_wf, bounded_str_wf, str_wf. wf_by_compute. }
  assert ((attested_path shrinking Sample.path, policy Sample.fabric, 60) ∈
    rebalanced_paths Sample.fabric (AttestCapacity shrinking)) as Hin by (vm_compute; left).
  split_and!; [exact sample_sound|exact Hs|vm_compute; reflexivity| |vm_compute; reflexivity].
  exact (proj1 (capacity_changes_refit _ _ _ _ _ _ sample_sound sample_budgeted Hs Hin)).
Defined.
