(* ===== verification/Crash.v ===== *)
(** * Mutations across a crash

    What a restart makes of a mutation whose commit was interrupted: the log
    behind the bytes a crash leaves rebuilds the authority before the mutation,
    the authority after it, or the one that keeps every grant's capacity while
    the outcome is ambiguous. *)

From S2P Require Import Prelude Outcome Ids Lifecycle Policy Wire Model Codecs State Ledger Changes.
From S2P Require Import Invariants Operations WellFormed Snapshot Store Journal Recovery Applicable.
From S2P Require Import Steps.

(** ** Applying what releases nothing *)

Lemma elem_of_retained o objs : o ∈ retained objs <-> o ∈ objs /\ object_releases o = false.
Proof. unfold retained. rewrite list_elem_of_filter. tauto. Qed.

Lemma retained_applicable a objs : applicable a objs -> applicable a (retained objs).
Proof.
  intros (news & olds & -> & Hnd & Hnews & Holds). exists (retained news), (retained olds).
  unfold retained. rewrite filter_app. split_and!; [done| | |].
  - eapply sublist_NoDup; [exact Hnd|]. apply fmap_sublist, sublist_filter.
  - rewrite Forall_forall in Hnews |- *. intros o [_ Ho]%list_elem_of_filter. by apply Hnews.
  - rewrite Forall_forall in Holds |- *. intros o [_ Ho]%list_elem_of_filter. by apply Holds.
Qed.

(** What a grant keeps while the outcome of a mutation is ambiguous. *)
Definition keeps_capacity (a b : Authority) : Prop :=
  forall k g, grants_ a !! k = Some g -> holds g = true ->
    exists g', grants_ b !! k = Some g' /\ holds g' = true /\ same_identity g g'.

#[export] Instance keeps_capacity_refl : Reflexive keeps_capacity.
Proof. intros a k g Hg Hh. by exists g. Qed.

Lemma keeps_capacity_equiv a b b' : b' ≡ b -> keeps_capacity a b -> keeps_capacity a b'.
Proof.
  intros Hequiv Hkeep k g Hg Hh. destruct (Hkeep k g Hg Hh) as (g1 & Hg1 & Hh1 & Hid).
  symmetry in Hequiv. destruct (equiv_grant b b' k g1 Hequiv Hg1) as (g2 & Hg2 & Hu).
  exists g2. split; [done|].
  assert (forall B (f : GrantRecord -> B), f (unmarked g2) = f (unmarked g1)) as Hf
    by (intros B f; by rewrite Hu).
  assert (g_state g2 = g_state g1) as Hst by exact (Hf _ g_state).
  split; [unfold holds in *; by rewrite Hst|].
  destruct Hid as (H1 & H2 & H3 & H4 & H5 & H6 & H7 & H8 & H9 & H10).
  split_and!; etrans; try eassumption;
    [exact (Hf _ g_id)|exact (Hf _ g_request)|exact (Hf _ g_arbitration)|exact (Hf _ g_class)
    |exact (Hf _ g_amount)|exact (Hf _ g_created_at_ms)|exact (Hf _ g_expires_at_ms)
    |exact (Hf _ (fun g => b_holder (g_binding g)))|exact (Hf _ (fun g => b_path (g_binding g)))
    |exact (Hf _ (fun g => b_lease (g_binding g)))].
Qed.

Section Planned.
Context (a : Authority) (op : Op) (arb : ArbSeq) (m : Mutation).
Context (Ha : sound a) (Harb : u64_ok (arb_value arb)) (Hop : op_wf op) (Hp : plan a op arb = Ok m).

(** The changes that release nothing are applied on their own. *)
Lemma effective_applies :
  exists b b1, apply a (effective true (m_changes m)) arb = (b, Status.Ok) /\
    install_objects a (retained (m_objects m)) = (b1, Status.Ok) /\ b = raise_arbitration arb b1.
Proof.
  pose proof (sound_keyed a Ha) as Hwk.
  pose proof (plan_decodable a (sound_wf a Ha) arb m Harb op Hop Hp) as Hobjs.
  destruct (install_applicable a _ Hwk (retained_applicable a _ (plan_applicable a Hwk arb m op Hp)))
    as [b1 Hb1].
  exists (raise_arbitration arb b1), b1. split_and!; [|done..].
  unfold m_changes. rewrite effective_changes, apply_objects, Hb1; [done|].
  exact (effective_objects_wf true _ Hobjs).
Qed.

(** They keep every grant that holds capacity, for every operation but an
    operator's reconciliation. *)
Lemma effective_keeps b :
  is_reconcile op = false -> apply a (effective true (m_changes m)) arb = (b, Status.Ok) -> keeps_capacity a b.
Proof.
  intros Hr Hb k g Hg Hh. destruct effective_applies as (b' & b1 & Hb' & Hi & Hraise).
  rewrite Hb in Hb'. apply pair_equal_spec in Hb' as [-> _]. subst b'.
  destruct (raise_arbitration_fields arb b1) as (-> & _).
  pose proof (plan_evolution a (sound_keyed a Ha) arb m op Hr Hp) as Hev. rewrite Forall_forall in Hev.
  apply install_objects_effect in Hi as (Heff & _).
  destruct (Heff k) as [Hk|(g' & r & Hin & <- & Hl)].
  { rewrite Hk. by exists g. }
  exists g'. split; [done|]. apply elem_of_retained in Hin as [Hin Hrel]. cbn in Hrel. subst r.
  specialize (Hev _ Hin). cbn in Hev. unfold evolves in Hev. rewrite Hg in Hev.
  destruct Hev as (Hid & _ & Hreleases). split; [|done].
  rewrite Hh in Hreleases. cbn [andb] in Hreleases. by destruct (holds g').
Qed.
End Planned.

(** ** The empty log *)

Lemma new_authority_equiv random random' c : new_authority random c ≡ new_authority random' c.
Proof. unfold new_authority. by repeat case_match. Qed.

(** The configuration a new authority ends up with. *)
Definition effective_config (random : Incarnation) (c : AuthorityConfig) : AuthorityConfig :=
  config (new_authority random c).

Lemma effective_config_wf random o :
  policy_wf (do_policy o) -> u64_ok (epoch_value (do_epoch o)) ->
  let c := effective_config random (replay_config o) in
  policy_wf (cfg_policy c) /\ u64_ok (epoch_value (cfg_epoch c)) /\ 1 <= max_domains c.
Proof.
  intros Hp He. assert (policy_wf (set_pol_generation (mkGeneration 1) (do_policy o))) as Hp1
    by (unfold policy_wf in *; cbn; destruct_and!; by split_and!).
  unfold effective_config, new_authority. cbn.
  destruct (gen_is_nil _); cbn; destruct (_ =? 0); cbn; destruct (tid_is_nil _); by cbn.
Qed.

Lemma empty_values {A} (x : A) : x ∉ values (∅ : gmap Id128 A).
Proof. by intros [k ?%lookup_empty_Some]%elem_of_values. Qed.

Lemma new_authority_sound random o :
  policy_wf (do_policy o) -> u64_ok (epoch_value (do_epoch o)) ->
  sound (new_authority random (replay_config o)).
Proof.
  intros Hp He. destruct (effective_config_wf random o Hp He) as (Hcp & Hce & Hcd).
  assert (domain_wf apply_limits default_domain) as Hd by (apply new_domain_wf; by vm_compute).
  assert (new_authority random (replay_config o) =
    mkAuthority (effective_config random (replay_config o)) (mkArbSeq 0) ∅ ∅
      {[ raw (dom_id default_domain) := default_domain ]} ∅ ∅ ∅ ∅ ∅) as -> by done.
  revert Hcp Hce Hcd Hd. generalize (effective_config random (replay_config o)) as c.
  generalize default_domain as d. intros d c Hcp Hce Hcd Hd. split.
  - split; intros k v; cbn; rewrite ?lookup_empty, ?lookup_singleton_Some; try done. by intros [<- <-].
  - unfold within_limits. cbn. rewrite map_size_singleton, !map_size_empty. split_and!; lia.
  - split; try done; intros x Hx; try by apply empty_values in Hx.
    apply elem_of_values in Hx as [k Hk]. cbn in Hk. by apply lookup_singleton_Some in Hk as [_ <-].
Qed.

Lemma rebuilds_empty o random :
  policy_wf (do_policy o) -> u64_ok (epoch_value (do_epoch o)) ->
  rebuilds o [] (new_authority random (replay_config o)).
Proof.
  intros Hp He. exists scan_start. split_and!; [done..|]. intros draw.
  exists (new_authority draw (replay_config o)).
  split_and!; [done|apply new_authority_equiv|by apply new_authority_sound].
Qed.

(** ** The entries of a mutation *)

(** The options whose records the decoder of payloads accepts, and whose log has
    room for a record. *)
Definition records_bounded (options : StoreOptions) : Prop :=
  options_wf options /\ 8 <= max_record_bytes options <= max_bytes payload_limits /\
  max_record_bytes options + 4096 <= max_log_bytes options.

Lemma change_keyed o : object_wf o -> id_wf (sc_key (change_for o)).
Proof.
  destruct o; cbn; unfold site_wf, path_wf, domain_wf, attestation_wf, grant_wf, verification_wf,
    oversubscription_wf; intros; destruct_and?; done.
Qed.

Lemma changes_length (changes : list StateChange) :
  (22 * length changes <= length (mjoin (encode <$> changes)))%nat /\
  (forall c, c ∈ changes -> (length (sc_image c) <= length (mjoin (encode <$> changes)))%nat).
Proof.
  induction changes as [|c l [IH1 IH2]]; [split; [done|by intros c ?%elem_of_nil]|].
  rewrite fmap_cons. change (mjoin (encode c :: (encode <$> l))) with (encode c ++ mjoin (encode <$> l)). cbn [length].
  assert (length (encode_state_change c) = 22 + length (sc_image c))%nat as Hc.
  { unfold encode_state_change, w_bytes, w_id128, w_boolean, w_u64, w_u32, w_u8.
    rewrite !length_app, !length_w_le. cbn [length]. lia. }
  rewrite length_app. change (encode c) with (encode_state_change c). split; [lia|].
  intros d [->|Hd]%elem_of_cons; [lia|]. specialize (IH2 d Hd). lia.
Qed.

(** A mutation that fits a record is an entry that can be read back. *)
Lemma intent_wf options number arb objs at_ms origin :
  records_bounded options -> u64_ok number -> u64_ok (arb_value arb) -> u64_ok at_ms ->
  id_wf (raw origin) -> Forall object_wf objs ->
  blen (encode_intent_payload number arb (change_for <$> objs)) <= max_record_bytes options ->
  entry_wf options (EIntent number arb (change_for <$> objs) at_ms origin).
Proof.
  intros (_ & (_ & Hmax) & _) Hn Harb Hat Ho Hobjs Hlen.
  assert (length (mjoin (encode <$> (change_for <$> objs))) <= N.to_nat (max_bytes payload_limits))%nat as Hbody.
  { unfold encode_intent_payload, w_list, blen in Hlen. rewrite !length_app in Hlen.
    lia. }
  pose proof (changes_length (change_for <$> objs)) as [Hcount Himage].
  change (max_bytes payload_limits) with 16777216 in *.
  split_and!; cbn [entry_intent entry_at entry_origin entry_payload]; try done.
  - unfold u32_ok. change (2 ^ 32) with 4294967296. lia.
  - change (N.shiftl 1 20) with 1048576. unfold blen. lia.
  - apply Forall_fmap, Forall_forall. intros x Hx. rewrite Forall_forall in Hobjs. split; [by apply change_keyed, Hobjs|].
    specialize (Himage (change_for x) ltac:(by apply list_elem_of_fmap_2)).
    unfold bytes_wf, u32_ok, blen. change (2 ^ 32) with 4294967296.
    change (max_bytes payload_limits) with 16777216. lia.
Qed.

Lemma commit_wf options number at_ms :
  records_bounded options -> u64_ok number -> u64_ok at_ms -> entry_wf options (ECommit number at_ms).
Proof. intros (_ & [H8 _] & _) Hn Ha. by split_and!. Qed.

(** ** A crash while a mutation is committed *)

Section Committing.
Context (o : DaemonOptions) (id : StoreId) (es : list Entry) (number at_ms done_ms : N) (origin : Incarnation).
Context (a : Authority) (op : Op) (arb : ArbSeq) (m : Mutation).
Context (Ha : sound a) (Harb : u64_ok (arb_value arb)) (Hop : op_wf op) (Hp : plan a op arb = Ok m).

Definition begun : Entry := EIntent number arb (m_changes m) at_ms origin.
Definition committed_log : list Entry := es ++ [begun; ECommit number done_ms].

(** What a log that rebuilds [b] needs to be reopened. *)
Definition reopens (random : StoreId) (file : bytes) (b : Authority) : Prop :=
  exists result store es' sc,
    open_store all_well random (do_store o) (Some file) = (Ok (result, store), Some (log_image id es')) /\
    servable (rep_fidelity (rr_report result)) = true /\ replays_to o (rr_actions result) b /\
    represents id es' sc store /\ st_options store = do_store o /\ rebuilds o es' b /\
    blen (log_image id es') <= max_log_bytes (do_store o).

Lemma log_prefix_le l1 l2 s :
  replays (l1 ++ l2) s -> (length (log_image id l1) <= length (log_image id (l1 ++ l2)))%nat.
Proof.
  unfold replays. rewrite advance_all_app. intros Hs.
  destruct (advance_all scan_start l1) as [s1|] eqn:E; [|done]. cbn [mbind option_bind] in Hs.
  pose proof (log_image_le id l1 l2 s1 E s Hs) as Hle. unfold blen in Hle. lia.
Qed.

Lemma log_image_last l e e' s :
  replays l s -> length (entry_payload e) = length (entry_payload e') ->
  blen (log_image id (l ++ [e])) = blen (log_image id (l ++ [e'])).
Proof.
  intros Hs He. rewrite !(log_image_app id l _ s Hs). unfold blen. rewrite !length_app. unfold entry_frame.
  rewrite !length_record_frame. lia.
Qed.

Lemma kept_prefix kept e lost cut sc :
  replays es sc -> (length (log_image id es) <= cut)%nat ->
  committed_log = kept ++ e :: lost -> (cut < length (log_image id (kept ++ [e])))%nat ->
  exists k, kept = es ++ k /\ [begun; ECommit number done_ms] = k ++ e :: lost.
Proof.
  intros Hs Hcut Hlog Hlt. pose proof Hlog as Heq. unfold committed_log in Heq.
  apply app_eq_inv in Heq as [(k & Hk & Hl)|(k & Hk & Hl)]; [|by exists k].
  destruct k as [|d k]; [rewrite app_nil_r in Hk; exists []; by rewrite app_nil_r|].
  injection Hl as <- ->. exfalso. rewrite Hk, (cons_middle e), app_assoc in Hs, Hcut.
  pose proof (log_prefix_le _ _ _ Hs). lia.
Qed.

(** A mutation whose commit is cut short anywhere behind the log [es]: the store
    reopens with the authority before it, with what the mutation does without
    its releases, or, when nothing is missing, with the authority after it. *)
Lemma crash_in_commit random cut :
  options_wf (do_store o) -> Forall (entry_wf (do_store o)) committed_log ->
  room_to_close (do_store o) id committed_log -> rebuilds o es a ->
  (length (log_image id es) <= cut)%nat ->
  exists b, reopens random (take cut (log_image id committed_log)) b /\
    (((cut < length (log_image id (es ++ [begun])))%nat /\ b = a) \/
     ((length (log_image id (es ++ [begun])) <= cut)%nat /\ (cut < length (log_image id committed_log))%nat /\
      apply a (effective true (m_changes m)) arb = (b, Status.Ok)) \/
     ((length (log_image id committed_log) <= cut)%nat /\ apply a (m_changes m) arb = (b, Status.Ok))).
Proof.
  intros Hopt Hwf Hroom (sc & Hs & Hclosed & Ha') Hcut. pose proof Hroom as (Hbytes & _).
  pose proof (plan_decodable a (sound_wf a Ha) arb m Harb op Hop Hp) as Hobjs.
  destruct (intent_closes es sc number arb (m_objects m) at_ms origin Hs Hclosed false done_ms)
    as (sci & scc & _ & _ & Hsc & Hcc & Hca).
  change (replays committed_log scc) in Hsc.
  assert (128 <= cut)%nat as H128.
  { unfold log_image in Hcut. rewrite length_app, length_file_header in Hcut.
    unfold kStoreFileHeaderBytes in Hcut. lia. }
  destruct (crash_opens (do_store o) random id committed_log scc cut Hopt Hwf Hsc Hroom H128) as
    (kept & lost & sc1 & result & store & sc2 & _ & _ & Hlog & Hk & Hle & Hlost & Hopen & Hrep & Hst & Hserv & Hact & _).
  pose proof (fun aborted t a1 => rebuilds_closed o es sc number arb (m_objects m) at_ms origin Hs Hclosed Hobjs
    a a1 Ha' aborted t) as Hreb.
  destruct lost as [|e lost].
  - rewrite app_nil_r in Hlog. subst kept.
    destruct (plan_apply_ok op a arb m Ha Harb Hop Hp) as (a1 & _ & Happly).
    exists (raise_arbitration arb a1). split; [|right; right; by split].
    unfold replays in Hk, Hsc. rewrite Hsc in Hk. injection Hk as <-.
    unfold closing in *. rewrite Hcc, app_nil_r in *.
    unfold m_changes in Happly. rewrite <-(effective_false (change_for <$> _)) in Happly.
    exists result, store, committed_log, sc2. split_and!; try done; [|exact (Hreb false done_ms _ Happly)|lia].
    rewrite Hact, Hca, fmap_app. by apply (replays_one_more o sc arb (m_objects m) Hobjs a _ Ha' _ false).
  - destruct (kept_prefix kept e lost cut sc Hs Hcut Hlog Hlost) as (k & -> & Hl).
    assert (cut < length (log_image id committed_log))%nat as Hshort.
    { rewrite Hlog, (cons_middle e), app_assoc in Hsc |- *. pose proof (log_prefix_le _ _ _ Hsc). lia. }
    destruct k as [|d k]; [|destruct k as [|d' k]; [|exfalso; by destruct k]]; cbn [app] in *.
    + rewrite app_nil_r in *. unfold replays in Hk, Hs. rewrite Hs in Hk. injection Hk as <-.
      unfold closing in *. rewrite Hclosed, app_nil_r in *. exists a.
      split; [|left; split; [|done]].
      2:{ assert (e = begun) as -> by by inversion Hl. exact Hlost. }
      exists result, store, es, sc2. split_and!; try done; [by rewrite Hact|by exists sc|].
      unfold committed_log in Hsc, Hbytes. pose proof (log_prefix_le _ _ _ Hsc) as Hprefix. unfold blen in *. lia.
    + assert (d = begun /\ e = ECommit number done_ms /\ lost = []) as (-> & -> & ->)
        by (split_and!; by inversion Hl).
      destruct (effective_applies a op arb m Ha Harb Hop Hp) as (b & _ & Hb & _).
      exists b. split; [|right; left; by split_and!].
      destruct (intent_opens es sc number arb (m_objects m) at_ms origin Hs Hclosed) as (sc3 & _ & Hs3 & Ho3 & _).
      pose proof Hk as Hk'. unfold begun, m_changes in Hk'. unfold replays, intent in Hk', Hs3. rewrite Hs3 in Hk'.
      injection Hk' as <-. unfold closing in *. rewrite Ho3, <-app_assoc in *. cbn [app] in *.
      exists result, store, (es ++ [begun; EAbort number 0]), sc2.
      split_and!; try done; [|exact (Hreb true 0 _ Hb)|].
      2:{ unfold committed_log in Hbytes. rewrite (cons_middle begun), app_assoc in Hbytes |- *.
          rewrite (log_image_last (es ++ [begun]) (EAbort number 0) (ECommit number done_ms) sc3 Hs3 eq_refl). lia. }
      rewrite Hact.
      exact (replays_open_intent o es sc number arb (m_objects m) at_ms origin Hs Hclosed Hobjs a b Ha' sc3 Hb Hs3).
Qed.
End Committing.

(** ** Property *)

(** C2: a mutation is atomic across a crash, and capacity is conserved.  A crash
    leaves any part of the records of a mutation (an operator's reconciliation
    apart) behind a log that rebuilds the authority and has room for them and for
    closing them.  Then the store opens, when the calls of the operating system do
    not fail, and the replay of its actions gives an
    authority in order, up to recovery marks: the one before the mutation when the
    intent is not durable, the one after it when the completion is, and between the
    two one in which every grant that held capacity before the mutation still holds
    it, unchanged in identity. *)
Theorem crash_keeps_capacity o id es number at_ms done_ms origin a op arb m random cut :
  sound a -> u64_ok (arb_value arb) -> op_wf op -> is_reconcile op = false -> plan a op arb = Ok m ->
  options_wf (do_store o) -> rebuilds o es a ->
  let intent := EIntent number arb (m_changes m) at_ms origin in
  let log := es ++ [intent; ECommit number done_ms] in
  Forall (entry_wf (do_store o)) log -> room_to_close (do_store o) id log ->
  (length (log_image id es) <= cut)%nat ->
  exists result store file,
    open_store all_well random (do_store o) (Some (take cut (log_image id log))) = (Ok (result, store), file) /\
    forall draw, exists b,
      replay_actions o draw (new_authority draw (replay_config o)) (rr_actions result) = Ok b /\ sound b /\
      (if (length (log_image id log) <=? cut)%nat
       then exists a', apply a (m_changes m) arb = (a', Status.Ok) /\ b ≡ a'
       else if (length (log_image id (es ++ [intent])) <=? cut)%nat then keeps_capacity a b
       else b ≡ a).
Proof.
  intros Ha Harb Hop Hrec Hp Hopt Hreb intent log Hwf Hroom Hcut.
  destruct (crash_in_commit o id es number at_ms done_ms origin a op arb m Ha Harb Hop Hp random cut
    Hopt Hwf Hroom Hreb Hcut) as (b & (result & store & es' & sc & Hopen & _ & Hreplay & _) & Hb).
  exists result, store, (Some (log_image id es')). split; [exact Hopen|]. intros draw.
  destruct (Hreplay draw) as (b' & Hb' & Hequiv & Hsound). exists b'. split_and!; [done..|].
  change (committed_log es number at_ms done_ms origin arb m) with log in Hb.
  change (begun number at_ms origin arb m) with intent in Hb.
  destruct Hb as [[Hlt ->]|[(Hle & Hlt & Hb)|[Hle Hb]]].
  - destruct Hreb as (sc0 & Hs0 & Hclosed & _).
    destruct (intent_closes es sc0 number arb (m_objects m) at_ms origin Hs0 Hclosed false done_ms)
      as (_ & scc & _ & _ & Hsc & _ & _).
    pose proof (log_prefix_le id (es ++ [intent]) [ECommit number done_ms] scc) as Hprefix.
    rewrite <-app_assoc in Hprefix. specialize (Hprefix Hsc). change ([intent] ++ _) with [intent; ECommit number done_ms] in Hprefix.
    fold log in Hprefix. by rewrite !(proj2 (Nat.leb_gt _ _)) by lia.
  - rewrite (proj2 (Nat.leb_gt _ _) Hlt), (proj2 (Nat.leb_le _ _) Hle). apply (keeps_capacity_equiv a b b' Hequiv).
    by eapply effective_keeps.
  - rewrite (proj2 (Nat.leb_le _ _) Hle). by exists b.
Qed.

(** ** Witness *)

(** A log that fills an empty authority with the sample fabric. *)
Definition sample_objects : list Object :=
  (OSite <$> sites Sample.fabric) ++ (OPath <$> paths Sample.fabric) ++
  ((fun g => OGrant g false) <$> grants Sample.fabric).

Definition sample_options : DaemonOptions :=
  mkDaemonOptions (policy Sample.fabric) (epoch Sample.fabric) (Sample.id 900) default_options 64 true true.

Definition sample_filling : list Entry :=
  [EIntent 1 (mkArbSeq 9) (change_for <$> sample_objects) 20 (Sample.id 900); ECommit 1 20].

Definition sample_rebuilt : Authority :=
  (apply (new_authority (Sample.id 900) (replay_config sample_options))
     (change_for <$> sample_objects) (mkArbSeq 9)).1.

Lemma sample_objects_wf : Forall object_wf sample_objects.
Proof.
  unfold sample_objects. rewrite !Forall_app, !Forall_fmap, !Forall_forall.
  split_and!; intros x Hx; cbn; [by apply (wf_sites _ sample_wf)|by apply (wf_paths _ sample_wf)
    |by apply (wf_grants _ sample_wf)].
Qed.

Lemma sample_policy_wf : policy_wf (do_policy sample_options).
Proof. exact (wf_policy _ sample_wf). Qed.

Lemma sample_filled :
  apply (new_authority (Sample.id 900) (replay_config sample_options)) (change_for <$> sample_objects)
    (mkArbSeq 9) = (sample_rebuilt, Status.Ok).
Proof.
  unfold sample_rebuilt. rewrite apply_objects by exact sample_objects_wf.
  assert (is_ok (install_objects (new_authority (Sample.id 900) (replay_config sample_options))
    sample_objects).2 = true) as Hok by by vm_compute.
  destruct (install_objects _ _) as [a []]; by cbn in Hok.
Qed.

Lemma sample_rebuilt_sound : sound sample_rebuilt.
Proof.
  eapply apply_sound; [|exact sample_objects_wf|exact sample_filled].
  apply new_authority_sound; [exact sample_policy_wf|by vm_compute].
Qed.

Lemma sample_rebuilds : rebuilds sample_options sample_filling sample_rebuilt.
Proof.
  destruct (rebuilds_empty sample_options (Sample.id 900) sample_policy_wf) as (sc & Hs & Hclosed & Ha); [by vm_compute|].
  apply (rebuilds_closed sample_options [] sc 1 (mkArbSeq 9) sample_objects 20 (Sample.id 900) Hs Hclosed
    sample_objects_wf _ sample_rebuilt Ha false 20).
  rewrite effective_false. exact sample_filled.
Qed.

Lemma sample_records_bounded : records_bounded default_options.
Proof. by vm_compute. Qed.

Lemma sample_filling_wf : Forall (entry_wf default_options) sample_filling.
Proof.
  apply Forall_cons; split; [|by repeat constructor].
  apply intent_wf; [exact sample_records_bounded|by vm_compute..|exact sample_objects_wf|by vm_compute].
Qed.

(** A crash right behind the intent that retires grant 7 leaves it its capacity. *)
Lemma crash_keeps_capacity_witness :
  let op := RetireGrant (sample_op 7 20) in
  sound sample_rebuilt /\ rebuilds sample_options sample_filling sample_rebuilt /\
  exists m result store file,
    plan sample_rebuilt op (mkArbSeq 10) = Ok m /\
    let log := sample_filling ++ [EIntent 2 (mkArbSeq 10) (m_changes m) 30 (Sample.id 900); ECommit 2 30] in
    let cut := (length (log_image (Sample.id 500) log) - 50)%nat in
    open_store all_well (Sample.id 1) default_options (Some (take cut (log_image (Sample.id 500) log))) =
      (Ok (result, store), file) /\
    forall draw, exists b,
      replay_actions sample_options draw (new_authority draw (replay_config sample_options))
        (rr_actions result) = Ok b /\ keeps_capacity sample_rebuilt b.
Proof.
  cbv zeta. split_and!; [exact sample_rebuilt_sound|exact sample_rebuilds|].
  destruct (plan sample_rebuilt (RetireGrant (sample_op 7 20)) (mkArbSeq 10)) as [m|s] eqn:Hp;
    [|vm_compute in Hp; discriminate].
  assert (op_wf (RetireGrant (sample_op 7 20))) as Hop by (split; by vm_compute).
  assert (u64_ok (arb_value (mkArbSeq 10))) as Harb by by vm_compute.
  pose proof (plan_decodable sample_rebuilt (sound_wf _ sample_rebuilt_sound) (mkArbSeq 10) m Harb _ Hop Hp) as Hobjs.
  assert (blen (encode_intent_payload 2 (mkArbSeq 10) (m_changes m)) <= max_record_bytes default_options) as Hlen
    by (vm_compute in Hp; injection Hp as <-; by vm_compute).
  set (log := sample_filling ++ [EIntent 2 (mkArbSeq 10) (m_changes m) 30 (Sample.id 900); ECommit 2 30]).
  assert (Forall (entry_wf default_options) log) as Hwf.
  { apply Forall_app; split; [exact sample_filling_wf|]. apply Forall_cons; split; [|by repeat constructor].
    apply intent_wf; [exact sample_records_bounded|by vm_compute..|exact Hobjs|exact Hlen]. }
  assert (room_to_close default_options (Sample.id 500) log) as Hroom
    by (vm_compute in Hp; injection Hp as <-; by vm_compute).
  assert (length (log_image (Sample.id 500) sample_filling) + 60 <= length (log_image (Sample.id 500) log))%nat
    as Hlonger by (vm_compute in Hp; injection Hp as <-; apply Nat.leb_le; by vm_compute).
  destruct (crash_keeps_capacity sample_options (Sample.id 500) sample_filling 2 30 30 (Sample.id 900)
    sample_rebuilt (RetireGrant (sample_op 7 20)) (mkArbSeq 10) m (Sample.id 1)
    (length (log_image (Sample.id 500) log) - 50)
    sample_rebuilt_sound Harb Hop eq_refl Hp default_options_wf sample_rebuilds Hwf Hroom ltac:(lia))
    as (result & store & file & Hopen & Hreplay).
  exists m, result, store, file. split_and!; [reflexivity|exact Hopen|].
  intros draw. destruct (Hreplay draw) as (b & Hb & _ & Hkeep). exists b. split; [exact Hb|].
  fold log in Hkeep. rewrite (proj2 (Nat.leb_gt _ _)) in Hkeep by lia.
  destruct (_ <=? _)%nat in Hkeep; [exact Hkeep|].
  exact (keeps_capacity_equiv sample_rebuilt sample_rebuilt b Hkeep (keeps_capacity_refl sample_rebuilt)).
Defined.
