(* ===== verification/Reload.v ===== *)
(** * Authorities that a snapshot carries (src/authority.cpp, from_snapshot)

    What an authority needs, beyond being in order, to be read back from its
    snapshot whole: every record has an identity, the request index says exactly
    what the grants say, the default domain is there and the configuration is
    that of a daemon.  Every operation keeps it, and the log of one snapshot then
    rebuilds the authority. *)

From S2P Require Import Prelude Outcome Ids Lifecycle Capacity Policy Wire Model Codecs State Ledger.
From S2P Require Import Changes Invariants PlanFabric Operations WellFormed Snapshot Store Journal.
From S2P Require Import Compaction Recovery Applicable Steps Accounting Crash.

Record reloads (a : Authority) : Prop := {
  rl_identified : identified a;
  rl_default : is_Some (domains_ a !! raw default_domain_id);
  rl_requests r k : request_index a !! r = Some k ->
    exists g, grants_ a !! k = Some g /\ raw (g_request g) = r /\ tid_is_nil (g_request g) = false;
  rl_config : config a =
    set_cfg_policy (policy a) (set_cfg_epoch (epoch a) (default_config (cfg_incarnation (config a))));
  rl_policy : validate (policy a) = Status.Ok;
  rl_epoch : epoch_value (epoch a) <> 0;
  rl_arbitration : u64_ok (arb_value (last_arbitration a));
}.

(** ** Every operation keeps it *)

Lemma insert_identified {A} (m : gmap Id128 A) key v :
  (forall k x, m !! k = Some x -> is_nil k = false) -> is_nil key = false ->
  forall k x, <[key := v]> m !! k = Some x -> is_nil k = false.
Proof. intros Hm Hkey k x [[<- _]|[_ Hk]]%lookup_insert_Some; [done|by eapply Hm]. Qed.

(** The identity of an installed record, one that the table has already or a new
    one. *)
Lemma installed_identity a o :
  identified a -> updates a o \/ creates a o ->
  match o with OPolicy _ | OEpoch _ | OMeta => True | _ => is_nil (object_key o) = false end.
Proof.
  intros [] [Hu|[Hn _]]; [|by destruct o].
  destruct o; cbn [updates object_key] in *; try done; try (destruct Hu as [x Hx]; by eauto).
  destruct Hu as (g & Hg & _). by eauto.
Qed.

Lemma index_request_cases a g key index :
  index_request a g key = Ok index ->
  index = request_index a /\ tid_is_nil (g_request g) = true \/
  index = <[raw (g_request g) := key]> (request_index a) /\ tid_is_nil (g_request g) = false.
Proof.
  unfold index_request. destruct (tid_is_nil (g_request g)); [intros [= <-]; by left|].
  destruct (request_index a !! raw (g_request g)); [intros [_ Hi]%guard_fail_ok|intros Hi];
    injection Hi as <-; by right.
Qed.

(** A grant that replaces one has its request; a new one replaces none. *)
Lemma installed_grant a v r key g :
  well_keyed a -> updates a (OGrant v r) \/ creates a (OGrant v r) ->
  grants_ a !! key = Some g -> key = raw (g_id v) -> g_request v = g_request g.
Proof.
  intros Hwk [(h & Hh & Hr)|(_ & _ & Hn & _)] Hg ->; cbn in *; congruence.
Qed.

Lemma install_reloads a o a1 :
  well_keyed a -> updates a o \/ creates a o -> install a (object_key o) o = Ok a1 -> reloads a -> reloads a1.
Proof.
  intros Hwk Ho Hi [Hid Hdef Hreq Hcfg Hpol Hep Harb].
  pose proof (installed_identity a o Hid Ho) as Hkey. destruct Hid.
  destruct o as [v|v|v|v|v r|v|v|v|v|]; cbn [install object_key] in *;
    try apply guard_fail_ok in Hi as [Hg Hi];
    try (apply expected_bind_ok in Hi as (index & Hindex & Hi)); apply Ok_inj in Hi as <-;
    (split; [split; cbn; try done; by apply insert_identified| | | | | |]); try done.
  - exact (insert_is_Some _ _ _ _ Hdef).
  - cbn. apply index_request_cases in Hindex as [[-> Hn]|[-> Hn]].
    + intros r' k Hk. destruct (Hreq r' k Hk) as (g & Hgr & Heq & Hnil).
      destruct (decide (raw (g_id v) = k)) as [<-|Hne]; [|exists g; by rewrite lookup_insert_ne].
      exists v. rewrite lookup_insert_eq. split; [done|].
      by rewrite (installed_grant a v r _ g Hwk Ho Hgr eq_refl).
    + intros r' k [[<- <-]|[Hner Hk]]%lookup_insert_Some; [exists v; by rewrite lookup_insert_eq|].
      destruct (Hreq r' k Hk) as (g & Hgr & Heq & Hnil).
      destruct (decide (raw (g_id v) = k)) as [<-|Hne]; [|exists g; by rewrite lookup_insert_ne].
      by rewrite (installed_grant a v r _ g Hwk Ho Hgr eq_refl) in Hner.
  - cbn in *. rewrite Hcfg. by destruct (config a).
  - cbn -[validate]. by destruct (validate v).
  - cbn in *. rewrite Hcfg. by destruct (config a).
  - cbn. to_prop. done.
Qed.

Lemma raise_arbitration_reloads arb a : u64_ok (arb_value arb) -> reloads a -> reloads (raise_arbitration arb a).
Proof.
  intros Harb Ha. unfold raise_arbitration. destruct (_ <? _); [|done]. destruct Ha as [[] ? ? ? ? ? ?]. by repeat split.
Qed.

Lemma step_reloads op a a' : sound a -> Step op a a' -> reloads a -> reloads a'.
Proof.
  intros [Hwk _ Hwf] Hs Hr. destruct Hs as [op arb m a a' Harb Hop Hp Ha].
  pose proof (plan_decodable a Hwf arb m Harb op Hop Hp) as Hobjs.
  unfold m_changes in Ha. rewrite apply_objects in Ha by done.
  apply finish_apply_ok in Ha as (a1 & Hi & ->). apply raise_arbitration_reloads; [done|].
  eapply (install_applicable_keeps reloads); [|exact Hwk|by eapply plan_applicable|exact Hi|exact Hr].
  intros x o x1. apply install_reloads.
Qed.

(** No change reaches the incarnation. *)
Lemma install_incarnation a key o a1 : install a key o = Ok a1 -> incarnation a1 = incarnation a.
Proof.
  intros Hi. destruct o; cbn [install] in Hi; try (apply guard_fail_ok in Hi as [_ Hi]);
    try (apply expected_bind_ok in Hi as (? & _ & Hi)); by apply Ok_inj in Hi as <-.
Qed.

Lemma apply_incarnation a changes arb : incarnation (apply a changes arb).1 = incarnation a.
Proof.
  unfold apply. destruct (mapM decode_change changes) as [objs|s]; [|done].
  assert (forall l x, incarnation (install_all x l).1 = incarnation x) as Hall.
  { induction l as [|[key o] l IH]; intros x; [done|]. cbn [install_all].
    destruct (install x key o) as [x1|s] eqn:Hi; [|done]. rewrite IH. by eapply install_incarnation. }
  pose proof (Hall (zip (sc_key <$> changes) objs) a) as H. unfold finish_apply.
  destruct (install_all a _) as [a1 []]; cbn [fst] in *; try done.
  unfold raise_arbitration. by destruct (_ <? _).
Qed.

(** Recovery marks do not matter. *)
Lemma equiv_reloads a a' : a ≡ a' -> reloads a -> reloads a'.
Proof.
  intros Ha [Hid Hdef Hreq Hcfg Hpol Hep Harb]. pose proof (equiv_tables _ _ Ha) as [].
  assert (forall k g', grants_ a' !! k = Some g' -> exists g, grants_ a !! k = Some g /\ unmarked g' = unmarked g) as Hg.
  { intros k g' Hg'. symmetry in Ha. destruct (equiv_grant a' a k g' Ha Hg') as (g & Hg & Hu). by exists g. }
  split.
  - destruct Hid. split; intros k x; rewrite ?st_sites, ?st_paths, ?st_domains, ?st_attestations,
      ?st_verifications, ?st_oversubscriptions; [by eauto|by eauto|by eauto|by eauto| |by eauto|by eauto].
    intros (g & Hgk & _)%Hg. by eauto.
  - by rewrite st_domains.
  - intros r k. rewrite st_requests. intros Hk. destruct (Hreq r k Hk) as (g & Hgk & Hr & Hn).
    destruct (equiv_grant a a' k g Ha Hgk) as (g' & Hg' & Hu). exists g'. split; [done|].
    apply unmarked_keeps in Hu as (_ & -> & _). done.
  - assert (set_cfg_incarnation tid_nil (config a') = set_cfg_incarnation tid_nil (config a)) as Hc
      by exact (f_equal config (eq_sym Ha)).
    assert (config a' = set_cfg_incarnation (cfg_incarnation (config a')) (config a)) as Hc'
      by (destruct (config a), (config a'); cbn in *; by simplify_eq).
    rewrite st_policy, st_epoch, Hc', Hcfg. by cbn.
  - by rewrite st_policy.
  - by rewrite st_epoch.
  - by rewrite st_arbitration.
Qed.

(** ** The snapshot of an authority brings it back *)

(** The recovered grants differ in recovery marks only. *)
Lemma recover_grant_unmarked g : unmarked (recover_grant g) = unmarked g.
Proof. unfold recover_grant. repeat break_goal; by destruct g. Qed.

Lemma recover_grant_wf g : grant_wf apply_limits g -> grant_wf apply_limits (recover_grant g).
Proof. intros Hg. unfold recover_grant. repeat break_goal; grant_wf_tac. Qed.

Section Reload.
Context (o : DaemonOptions) (a : Authority) (Hs : sound a) (Hr : reloads a).

Lemma default_domain_there : domains_ a ∪ {[raw default_domain_id := default_domain]} = domains_ a.
Proof.
  destruct (rl_default a Hr) as [d Hd]. apply map_eq. intros k.
  destruct (domains_ a !! k) as [x|] eqn:Hk; [by apply lookup_union_Some_l|].
  rewrite lookup_union_r by done. apply lookup_singleton_None. congruence.
Qed.

(** A new authority has the configuration of the daemon but for its policy, epoch
    and incarnation. *)
Lemma new_authority_config random :
  exists p e i, config (new_authority random (replay_config o)) =
    set_cfg_policy p (set_cfg_epoch e (default_config i)).
Proof.
  set (c := config _). exists (cfg_policy c), (cfg_epoch c), (cfg_incarnation c). subst c.
  cbn -[replay_config]. by repeat break_goal.
Qed.

(** What [from_snapshot] makes of the snapshot. *)
Lemma from_snapshot_reloads random :
  from_snapshot random (replay_config o) (snapshot a) =
  Ok (set_config (set_cfg_incarnation (cfg_incarnation (config (new_authority random (replay_config o)))) (config a))
        (set_grants (recover_grant <$> grants_ a) a)).
Proof.
  destruct Hr as [Hid Hdef Hreq Hcfg Hpol Hep _]. pose proof (sound_keyed a Hs) as Hwk.
  unfold from_snapshot. destruct (load_grants_table a Hwk (id_grants a Hid)) as (index & Hg & Hi & Hag).
  rewrite guard_fail_false by (cbn -[validate]; by rewrite Hpol).
  destruct (new_authority_config random) as (p & e & i & Hnew). cbv zeta.
  set (n := new_authority random (replay_config o)) in *.
  change (domains_ n) with ({[raw default_domain_id := default_domain]} : gmap Id128 SharedRiskDomain).
  change (sites_ n) with (∅ : gmap Id128 SiteRecord). change (paths_ n) with (∅ : gmap Id128 PathRecord).
  change (attestations_ n) with (∅ : gmap Id128 CapacityAttestation).
  change (grants_ n) with (∅ : gmap Id128 GrantRecord). change (request_index n) with (∅ : gmap Id128 Id128).
  change (verifications_ n) with (∅ : gmap Id128 VerificationRecord).
  change (oversubscriptions_ n) with (∅ : gmap Id128 OversubscriptionAuthority). clearbody n.
  cbn [snapshot snap_epoch snap_policy snap_sites snap_paths snap_domains snap_attestations snap_grants
    snap_verifications snap_oversubscriptions snap_last_arbitration]. rewrite (proj2 (N.eqb_neq _ _) Hep).
  unfold sites, paths, domains, attestations, verifications, oversubscriptions.
  rewrite !load_values by (first [apply Hwk | apply Hid]). rewrite default_domain_there, !(right_id_L ∅ (∪)).
  cbn [mbind expected_bind]. rewrite Hg. cbn [mbind expected_bind]. f_equal.
  assert (index = request_index a) as ->.
  { apply map_eq. intros r. destruct (request_index a !! r) as [k|] eqn:Hk.
    - destruct (Hreq r k Hk) as (g & Hgk & <- & Hn). by rewrite (Hi k g).
    - destruct (index !! r) as [k|] eqn:Hx; [|done]. apply Hag in Hx. congruence. }
  unfold set_config, set_grants. cbn. f_equal. rewrite Hnew, Hcfg. done.
Qed.

Lemma snapshot_reloads random :
  exists b, from_snapshot random (replay_config o) (snapshot a) = Ok b /\ b ≡ a /\ sound b.
Proof.
  eexists. split; [apply from_snapshot_reloads|]. split.
  - unfold equiv, authority_equiv, unmarked_authority, set_config, set_grants. cbn. f_equal.
    rewrite <-map_fmap_compose. apply map_fmap_ext. intros k g _. apply recover_grant_unmarked.
  - pose proof (set_grants_sound a (recover_grant <$> grants_ a) Hs) as Hb.
    destruct Hb as [Hwk Hlim Hwf].
    { intros k g' (g & <- & Hg)%lookup_fmap_Some. exists g.
      destruct (recover_grant_keeps g) as (Hid & Hreq & _). split_and!; [done..|].
      by apply recover_grant_wf, (sound_grant a k). }
    split; [destruct Hwk; by split|done|destruct Hwf; by split].
Qed.

Context (at_ms : N) (origin : Incarnation).

(** A log of this one snapshot rebuilds the authority. *)
Lemma snapshot_rebuilds : rebuilds o [ESnapshot (snapshot a) at_ms origin] a.
Proof.
  destruct (snapshot_scan (snapshot a) at_ms origin) as (sc & Hsc & Hclosed & Hact).
  exists sc. split_and!; [done..|]. intros random. destruct (snapshot_reloads random) as (b & Hb & He & Hsb).
  exists b. split_and!; [|done..]. rewrite Hact. cbn [fmap list_fmap replay_actions mark_ambiguous act_kind replay_action].
  unfold replay_action. cbn [act_kind]. by rewrite Hb.
Qed.

(** Its snapshot is a record that can be read back. *)
Lemma snapshot_entry_wf options :
  u64_ok at_ms -> id_wf (raw origin) -> id_wf (raw (incarnation a)) -> records_bounded options ->
  blen (encode_snapshot (snapshot a)) <= max_record_bytes options ->
  entry_wf options (ESnapshot (snapshot a) at_ms origin).
Proof.
  intros Hat Horigin Hinc (_ & (_ & Hmax) & _) Hlen. change (max_bytes payload_limits) with 16777216 in Hmax.
  split_and!; [done..| |].
  - cbn [entry_payload]. unfold u32_ok. change (2 ^ 32) with 4294967296. lia.
  - apply snapshot_of_wf; [apply Hs|done| |done|apply Hr].
    pose proof (sound_limits a Hs) as Hlim. unfold within_limits in Hlim. rewrite (rl_config a Hr) in Hlim.
    cbn in Hlim. destruct_and!. cbv beta zeta. unfold blen. rewrite !length_values.
    change (N.shiftl 1 20) with 1048576 in *. change (N.shiftl 1 16) with 65536 in *.
    rewrite !andb_true_iff, !N.leb_le. split_and!; lia.
Qed.
End Reload.

(** ** The incarnation of a replayed authority *)

Lemma mark_changes_incarnation ambiguous a changes b :
  mark_changes ambiguous a changes = Ok b -> incarnation b = incarnation a.
Proof.
  revert a. induction changes as [|c changes IH]; intros a; cbn [mark_changes]; [by intros [= <-]|].
  assert (incarnation (mark_change ambiguous a c).1 = incarnation a) as Hc.
  { unfold mark_change, mark_recovered. repeat break_goal; done. }
  destruct (mark_change ambiguous a c) as [a1 s]. intros [_ Hb]%guard_fail_ok. rewrite (IH _ Hb). exact Hc.
Qed.

(** It is the one a new authority gets. *)
Lemma replay_incarnation o random acts a b :
  incarnation a = incarnation (new_authority random (replay_config o)) ->
  replay_actions o random a acts = Ok b -> incarnation b = incarnation (new_authority random (replay_config o)).
Proof.
  set (n := new_authority random (replay_config o)). revert a. induction acts as [|act acts IH]; intros a Ha; cbn [replay_actions].
  { by intros [= <-]. }
  intros (a1 & Ha1 & Hb)%expected_bind_ok. refine (IH a1 _ Hb). revert Ha1. unfold replay_action.
  destruct (act_kind act) as [snap|changes arb].
  - unfold from_snapshot. fold n. intros [_ Hs]%guard_fail_ok. revert Hs. cbv zeta.
    repeat (intros (? & _ & Hs)%expected_bind_ok; revert Hs). destruct x3 as [grants index].
    repeat (intros (? & _ & Hs)%expected_bind_ok; revert Hs). by intros [= <-].
  - set (l := effective _ _). pose proof (apply_incarnation a l arb) as Happly.
    destruct (apply a l arb) as [a2 s]. intros [_ Hm]%guard_fail_ok.
    rewrite (mark_changes_incarnation _ _ _ _ Hm). by transitivity (incarnation a).
Qed.

Lemma new_authority_incarnation o random :
  id_wf (raw (do_incarnation o)) -> id_wf (raw random) -> id_wf (raw (incarnation (new_authority random (replay_config o)))).
Proof.
  intros Ho Hrandom. unfold incarnation. cbn -[replay_config]. repeat break_goal; done.
Qed.

(** A new authority is one, and nothing is wrong with it. *)
Lemma empty_maps {A} (P : Prop) (k : Id128) (v : A) : (∅ : gmap Id128 A) !! k = Some v -> P.
Proof. by intros ?%lookup_empty_Some. Qed.

Lemma new_authority_reloads o random :
  validate (do_policy o) = Status.Ok -> reloads (new_authority random (replay_config o)).
Proof.
  intros Hpol. assert (gen_is_nil (pol_generation (do_policy o)) = false) as Hgen
    by (unfold validate in Hpol; by destruct (gen_is_nil _)).
  destruct (new_authority_config o random) as (p & e & i & Hc).
  assert (policy (new_authority random (replay_config o)) = do_policy o /\
    epoch_value (epoch (new_authority random (replay_config o))) <> 0) as [Hp He].
  { unfold policy, epoch, new_authority. cbn. rewrite Hgen. cbn.
    destruct (N.eqb_spec (epoch_value (do_epoch o)) 0); cbn; destruct (tid_is_nil _); by cbn. }
  split.
  - split; intros k v; try exact (empty_maps _ k v).
    change (domains_ _) with ({[raw default_domain_id := default_domain]} : gmap Id128 SharedRiskDomain).
    intros [<- _]%lookup_singleton_Some. by vm_compute.
  - exists default_domain. apply (lookup_singleton_eq (M := gmap Id128)).
  - intros r k H. exact (empty_maps _ r k H).
  - unfold policy, epoch. by rewrite Hc.
  - by rewrite Hp.
  - exact He.
  - unfold u64_ok. by vm_compute.
Qed.

Lemma new_authority_historical random c : mark_all_historical (new_authority random c) = new_authority random c.
Proof.
  unfold new_authority. generalize default_domain as d. intros d. cbv zeta.
  match goal with |- context [mkAuthority ?c _ _ _ _ _ _ _ _ _] => generalize c end. intros c'.
  unfold mark_all_historical, set_grants. cbn. by rewrite fmap_empty.
Qed.

Lemma new_authority_verified o random :
  policy_wf (do_policy o) -> u64_ok (epoch_value (do_epoch o)) -> validate (do_policy o) = Status.Ok ->
  verify_invariants (new_authority random (replay_config o)) = Status.Ok.
Proof.
  intros Hp He Hpol. pose proof (new_authority_sound random o Hp He) as Hs.
  pose proof (rl_policy _ (new_authority_reloads o random Hpol)) as Hv.
  apply verify_invariants_ok; [apply Hs|by apply sound_inputs|].
  assert (forall r, r ∉ paths (new_authority random (replay_config o))) as Hpaths by (intros r; apply empty_values).
  assert (forall g, g ∉ grants (new_authority random (replay_config o))) as Hgrants by (intros g; apply empty_values).
  split; [intros r Hr; by destruct (Hpaths r)|intros g Hg; by destruct (Hgrants g)
    |intros g h Hg; by destruct (Hgrants g)|intros r Hr; by destruct (Hpaths r)|exact Hv|exact (sound_limits _ Hs)].
Qed.

(** ** The sample *)

Lemma sample_rebuilt_reloads : reloads sample_rebuilt.
Proof.
  split.
  - split; apply nil_forall; vm_compute; reflexivity.
  - eexists. vm_compute. reflexivity.
  - assert (map_Forall (fun r k => match grants_ sample_rebuilt !! k with
        | Some g => bool_decide (raw (g_request g) = r) && negb (tid_is_nil (g_request g)) | None => false end = true)
        (request_index sample_rebuilt)) as H by (apply (bool_decide_unpack _); vm_compute; exact I).
    intros r k Hk. specialize (H r k Hk). cbv beta in H.
    destruct (grants_ sample_rebuilt !! k) as [g|]; [exists g|done]. to_prop. by split_and!.
  - vm_compute. reflexivity.
  - vm_compute. reflexivity.
  - vm_compute. discriminate.
  - vm_compute. reflexivity.
Qed.
