(* ===== verification/Service.v ===== *)
(** * A daemon in service

    What a daemon promises while its store is healthy: its log rebuilds its
    authority, every request it answers is a step of the authority or leaves it
    alone, a commit that fails leaves a log that a restart can read, and a
    restart gives the authority back. *)

From Stdlib Require Import Strings.Byte.
From S2P Require Import Prelude Outcome Ids Lifecycle Policy Wire Model Codecs State Ledger Changes.
From S2P Require Import Invariants Operations WellFormed Snapshot Store Journal Compaction Recovery.
From S2P Require Import Frames Protocol Replies Daemon Failures Applicable Steps Crash Reload.

(** ** The invariant *)

(** The daemon [d] serves requests on the log [es] with the identity [id]. *)
Record serves (id : StoreId) (es : list Entry) (d : Daemon) : Prop := {
  sv_sound : sound (d_authority d);
  sv_reloads : reloads (d_authority d);
  sv_log : exists sc, represents id es sc (d_store d);
  sv_rebuilds : rebuilds (d_options d) es (d_authority d);
  sv_options : st_options (d_store d) = do_store (d_options d);
  sv_bounded : records_bounded (do_store (d_options d));
  sv_size : blen (log_image id es) <= max_log_bytes (do_store (d_options d));
  sv_origin : id_wf (raw (do_incarnation (d_options d)));
  sv_incarnation : id_wf (raw (incarnation (d_authority d)));
  sv_durable : d_durability_failed d = false;
}.

(** A compaction has replaced the file of the log [es] and could not open it
    again: the files are those that a crash could have left. *)
Record stalled (id : StoreId) (es : list Entry) (d : Daemon) : Prop := {
  sl_sound : sound (d_authority d);
  sl_reloads : reloads (d_authority d);
  sl_rebuilds : rebuilds (d_options d) es (d_authority d);
  sl_entries : Forall (entry_wf (do_store (d_options d))) es;
  sl_bounded : records_bounded (do_store (d_options d));
  sl_size : blen (log_image id es) <= max_log_bytes (do_store (d_options d));
  sl_origin : id_wf (raw (do_incarnation (d_options d)));
  sl_closed : st_file (d_store d) = None;
  sl_files : exists fresh at_ms,
    entry_wf (do_store (d_options d)) (ESnapshot (snapshot (d_authority d)) at_ms (do_incarnation (d_options d))) /\
    compacting fresh (snapshot (d_authority d)) at_ms (do_incarnation (d_options d)) (log_image id es) (d_files d);
}.

(** The log [es] is behind the daemon: as it is, or replaced at the time [now] by
    the snapshot of the authority under a fresh identity, or about to be. *)
Definition kept (id fresh : StoreId) (es : list Entry) (now : N) (d : Daemon) : Prop :=
  serves id es d \/
  do_auto_compact (d_options d) = true /\
  (serves fresh [ESnapshot (snapshot (d_authority d)) now (do_incarnation (d_options d))] d \/ stalled id es d).

(** ** One durable record *)

Lemma append_too_large s accepted e file :
  st_file s = Some file -> max_record_bytes (st_options s) < blen (entry_payload e) ->
  append s accepted e = (s, Status.LimitExceeded).
Proof.
  intros Hf Hlarge. rewrite append_write. unfold write_record. rewrite Hf. by rewrite (proj2 (N.ltb_lt _ _)).
Qed.

(** A record is durable behind the log, or the log is left with a part of it. *)
Lemma make_durable_cases id es sc sc' s e accepted flushed :
  represents id es sc s -> options_wf (st_options s) -> advance sc e = Some sc' ->
  (blen (entry_payload e) <= max_record_bytes (st_options s) -> entry_wf (st_options s) e) ->
  let '(s', durable) := make_durable (append s accepted e) flushed in
  st_options s' = st_options s /\
  (if durable
   then entry_wf (st_options s) e /\ represents id (es ++ [e]) sc' s' /\
        blen (log_image id (es ++ [e])) <= max_log_bytes (st_options s)
   else exists cut, (length (log_image id es) <= cut)%nat /\
        st_file s' = Some (take cut (log_image id (es ++ [e]))) /\
        (cut = length (log_image id es) \/ entry_wf (st_options s) e)).
Proof.
  intros Hrep Hopt Hadv Hwf. pose proof Hrep as [Hf _ Hs Hc Hq Hb _].
  assert (log_image id (es ++ [e]) = log_image id es ++ entry_frame (sc_chain sc) (sc_sequence sc) e) as Himage
    by by apply log_image_app.
  assert (exists cut, (length (log_image id es) <= cut)%nat /\
    st_file s = Some (take cut (log_image id (es ++ [e]))) /\
    (cut = length (log_image id es) \/ entry_wf (st_options s) e)) as Hsame.
  { exists (length (log_image id es)). split_and!; [done| |by left]. by rewrite Himage, take_app_length. }
  destruct (N.ltb_spec (max_record_bytes (st_options s)) (blen (entry_payload e))) as [Hlarge|Hfits].
  { rewrite (append_too_large s accepted e _ Hf Hlarge). by split. }
  specialize (Hwf Hfits).
  destruct (append_spec s accepted e _ Hf Hfits Hopt) as [[_ ->]|[(_ & Hlt & ->)|(Hroom & Hle & _)]];
    [by split|..]; rewrite Hc, Hq in *.
  - split; [done|]. exists (length (log_image id es) + accepted)%nat. split_and!; [lia| |by right].
    cbn [st_file set_file]. by rewrite Himage, take_app_add.
  - destruct (append_represents id es sc sc' s e accepted Hrep Hopt Hwf Hadv Hroom Hle) as (s' & -> & Hrep' & Ho).
    unfold make_durable, flush, is_open. rewrite (rep_file _ _ _ _ Hrep'). cbn [is_ok andb].
    destruct flushed; cbn [is_ok]; (split; [done|]).
    + split_and!; [exact Hwf|exact Hrep'|]. destruct Hroom as [Hroom _]. rewrite Hb in Hroom.
      rewrite Himage. unfold blen in *. rewrite length_app. unfold entry_frame. rewrite length_record_frame.
      revert Hroom. generalize (length (log_image id es)), (length (entry_payload e)). intros. lia.
    + exists (length (log_image id (es ++ [e]))). split_and!; [rewrite Himage, length_app; lia| |by right].
      by rewrite firstn_all.
Qed.

(** ** Committing *)

(** The log that the commit of a mutation leaves on disk when it fails: a part
    of its records behind the log [es]. *)
Record interrupted (id : StoreId) (es : list Entry) (a : Authority) (o : DaemonOptions) (m : Mutation)
    (arb : ArbSeq) (file : option bytes) : Prop := {
  in_sound : sound a;
  in_rebuilds : rebuilds o es a;
  in_entries : Forall (entry_wf (do_store o)) es;
  in_bounded : records_bounded (do_store o);
  in_size : blen (log_image id es) <= max_log_bytes (do_store o);
  in_file : exists number now cut,
    let log := es ++ [EIntent number arb (m_changes m) now (do_incarnation o); ECommit number now] in
    (length (log_image id es) <= cut)%nat /\ file = Some (take cut (log_image id log)) /\
    (cut = length (log_image id es) \/ Forall (entry_wf (do_store o)) log);
}.

(** The log of one snapshot is not larger than a record may be, but for its
    frame. *)
Lemma snapshot_image_size random snapshot at_ms origin :
  blen (log_image random [ESnapshot snapshot at_ms origin]) <= blen (encode_snapshot snapshot) + 4096.
Proof.
  rewrite length_log_image. unfold blen. cbn [frames]. rewrite app_nil_r. unfold entry_frame.
  rewrite length_record_frame. cbn [entry_payload]. unfold kStoreRecordHeaderBytes, kStoreChainBytes. lia.
Qed.

(** Compaction behind a commit. *)
Lemma maybe_compact_cases os random id es d now :
  serves id es d -> u64_ok now ->
  let d' := (maybe_compact os random d now).1 in
  d_options d' = d_options d /\ d_authority d' = d_authority d /\ kept id random es now d'.
Proof.
  intros Hd Hnow. unfold maybe_compact.
  destruct (negb _ || negb _) eqn:Hc; [split_and!; [done..|by left]|].
  apply orb_false_iff in Hc as [Hc _]. apply negb_false_iff in Hc.
  pose proof Hd as [Hsound Hrl [sc Hrep] Hreb Hopt Hbounded Hsize Horigin Hinc Hdur].
  set (snap := snapshot (d_authority d)). set (origin := do_incarnation (d_options d)).
  assert (f_primary (disk d) = Some (log_image id es)) as Hprimary
    by (unfold disk; by rewrite (rep_file _ _ _ _ Hrep)).
  assert (forall files, serves id es (set_d_files files (set_d_store (d_store d) d))) as Hsame
    by (intros files; by destruct Hd; split).
  destruct (N.ltb_spec (max_record_bytes (st_options (d_store d))) (blen (encode_snapshot snap))) as [Hlarge|Hfits].
  { unfold compact, compact_run. fold snap. rewrite (proj2 (N.ltb_lt _ _)) by done. cbn [fst last default].
    split_and!; [done..|by left]. }
  assert (entry_wf (do_store (d_options d)) (ESnapshot snap now origin)) as Hwf
    by (apply snapshot_entry_wf; try done; by rewrite <-Hopt).
  pose proof (compact_leaves random snap now origin os (d_store d) _ (disk d) Hprimary) as Hfiles.
  pose proof (compact_fails random snap now origin os (d_store d) (disk d)) as Hcases.
  pose proof (compact_represents random snap now origin os (d_store d) (disk d)) as Hnew. rewrite Hopt in Hnew.
  unfold compact in Hfiles, Hcases |- *.
  destruct (compact_run os random (d_store d) (disk d) snap now origin) as [[s states] status].
  cbn [fst snd] in *. split_and!; [done..|].
  destruct Hcases as [-> | [Hclosed | ->]]; [left; apply Hsame|right; split; [done|]..].
  - right. split; cbn [d_authority d_store d_options d_files set_d_files set_d_store]; try done.
    + rewrite <-Hopt. apply Hrep.
    + by exists random, now.
  - left. destruct (Hnew s states Hwf eq_refl) as (sc' & Hrep' & Hopts & _).
    split; cbn [d_authority d_store d_options set_d_files set_d_store]; try done.
    + by exists sc'.
    + by apply snapshot_rebuilds.
    + pose proof (snapshot_image_size random snap now origin) as Hle. rewrite Hopt in Hfits.
      destruct Hbounded as (_ & _ & Hroom). fold snap origin. lia.
Qed.

(** What no operation of the daemon changes. *)
Lemma commit_options os d m arb now : d_options (commit os d m arb now).1 = d_options d.
Proof.
  unfold commit, maybe_compact, make_durable. repeat case_match; simplify_eq/=; try done.
Qed.

Section Commit.
Context (id : StoreId) (es : list Entry) (d : Daemon) (Hd : serves id es d).
Context (op : Op) (m : Mutation) (arb : ArbSeq) (now : N).
Context (Harb : u64_ok (arb_value arb)) (Hnow : u64_ok now) (Hop : op_wf op).
Context (Hp : plan (d_authority d) op arb = Ok m).

Definition commit_number : N := wrap64 (d_intent_counter d + 1).
Definition commit_intent : Entry :=
  EIntent commit_number arb (m_changes m) now (do_incarnation (d_options d)).
Definition commit_entries : list Entry := es ++ [commit_intent; ECommit commit_number now].

Lemma planned_objects_wf : Forall object_wf (m_objects m).
Proof. apply (plan_decodable (d_authority d) (sound_wf _ (sv_sound _ _ _ Hd)) arb m Harb op Hop Hp). Qed.

Lemma commit_intent_wf :
  blen (entry_payload commit_intent) <= max_record_bytes (do_store (d_options d)) ->
  entry_wf (do_store (d_options d)) commit_intent.
Proof.
  apply intent_wf; [apply Hd|apply wrap64_u64|done..|apply Hd|exact planned_objects_wf].
Qed.

Lemma commit_entry_wf : entry_wf (do_store (d_options d)) (ECommit commit_number now).
Proof. apply commit_wf; [apply Hd|apply wrap64_u64|done]. Qed.

(** The scans along the two records of the mutation. *)
Lemma commit_scans sc :
  represents id es sc (d_store d) ->
  exists sc1 sc2, advance sc commit_intent = Some sc1 /\ advance sc1 (ECommit commit_number now) = Some sc2.
Proof.
  intros Hrep. destruct (sv_rebuilds _ _ _ Hd) as (sc' & Hs' & Hclosed & _).
  pose proof (rep_replays _ _ _ _ Hrep) as Hs. unfold replays in Hs, Hs'. rewrite Hs in Hs'. injection Hs' as <-.
  destruct (intent_closes es sc commit_number arb (m_objects m) now (do_incarnation (d_options d)) Hs Hclosed
    false now) as (sc1 & sc2 & Hadv1 & Hadv2 & _).
  by exists sc1, sc2.
Qed.

Lemma interrupted_commit sc sc1 cut file :
  represents id es sc (d_store d) -> advance sc commit_intent = Some sc1 ->
  (length (log_image id es) <= cut)%nat -> file = Some (take cut (log_image id commit_entries)) ->
  (cut = length (log_image id es) \/ entry_wf (do_store (d_options d)) commit_intent) ->
  interrupted id es (d_authority d) (d_options d) m arb file.
Proof.
  intros Hrep Hadv Hcut Hfile Hwf.
  assert (Forall (entry_wf (do_store (d_options d))) es) as Hes by (rewrite <-(sv_options _ _ _ Hd); apply Hrep).
  split; [apply Hd|apply Hd|exact Hes|apply Hd|apply Hd|].
  exists commit_number, now, cut. split_and!; [done..|]. destruct Hwf as [->|Hwf]; [by left|right].
  apply Forall_app; split; [exact Hes|].
  apply Forall_cons; split; [exact Hwf|]. apply Forall_singleton, commit_entry_wf.
Qed.

Lemma take_prefix {A} n (l k : list A) : take n l = take (Nat.min n (length l)) (l ++ k).
Proof.
  rewrite take_app_le by lia. destruct (Nat.min_spec n (length l)) as [[_ ->]|[Hle ->]]; [done|].
  by rewrite firstn_all, take_ge.
Qed.

(** The planned mutation applies, and what it leaves of the invariant. *)
Lemma planned_applied :
  exists a, apply (d_authority d) (m_changes m) arb = (a, Status.Ok) /\
    sound a /\ reloads a /\ incarnation a = incarnation (d_authority d).
Proof.
  destruct (plan_apply_ok op (d_authority d) arb m (sv_sound _ _ _ Hd) Harb Hop Hp) as (a0 & _ & Happly).
  eexists. split; [exact Happly|]. split_and!.
  - eapply apply_sound; [apply Hd|exact planned_objects_wf|exact Happly].
  - eapply step_reloads; [apply Hd| |apply Hd]. by econstructor.
  - pose proof (apply_incarnation (d_authority d) (m_changes m) arb) as H. by rewrite Happly in H.
Qed.

(** Behind both records the daemon serves with the new authority. *)
Lemma committed_serves sc store a :
  apply (d_authority d) (m_changes m) arb = (a, Status.Ok) -> sound a -> reloads a ->
  incarnation a = incarnation (d_authority d) ->
  represents id commit_entries sc store -> st_options store = do_store (d_options d) ->
  blen (log_image id commit_entries) <= max_log_bytes (do_store (d_options d)) ->
  forall d', d_authority d' = a -> d_store d' = store -> d_options d' = d_options d ->
    d_durability_failed d' = false -> serves id commit_entries d'.
Proof.
  intros Happly Hsound Hrl Hinc Hrep Hopt Hsize d' Ha Hs Ho Hf.
  split; rewrite ?Ha, ?Hs, ?Ho; try done; try apply Hd; [by exists sc| |by rewrite Hinc; apply Hd].
  destruct (sv_rebuilds _ _ _ Hd) as (sc' & Hs' & Hclosed & Hrebuilt).
  apply (rebuilds_closed (d_options d) es sc' commit_number arb (m_objects m) now (do_incarnation (d_options d))
    Hs' Hclosed planned_objects_wf (d_authority d) a Hrebuilt false now).
  rewrite effective_false. exact Happly.
Qed.

Lemma commit_serves os :
  let '(d', s) := commit os d m arb now in
  d_options d' = d_options d /\
  if is_ok s
  then apply (d_authority d) (m_changes m) arb = (d_authority d', Status.Ok) /\
       kept id (ca_store_id os) commit_entries now d'
  else d_durability_failed d' = true /\
       interrupted id es (d_authority d) (d_options d) m arb (st_file (d_store d')) /\
       (d_authority d' = d_authority d \/ apply (d_authority d) (m_changes m) arb = (d_authority d', Status.Ok)).
Proof.
  pose proof Hd as [_ _ [sc Hrep] _ Hopt Hbounded _ _ _ Hdur].
  destruct (commit_scans sc Hrep) as (sc1 & sc2 & Hadv1 & Hadv2).
  destruct planned_applied as (a1 & Happly & Hsound1 & Hrl1 & Hinc1).
  pose proof (proj1 Hbounded) as Hwf. rewrite <-Hopt in Hwf.
  assert (blen (entry_payload commit_intent) <= max_record_bytes (st_options (d_store d)) ->
    entry_wf (st_options (d_store d)) commit_intent) as Hiwf by (rewrite Hopt; exact commit_intent_wf).
  assert (log_image id commit_entries = log_image id (es ++ [commit_intent]) ++
    entry_frame (sc_chain sc1) (sc_sequence sc1) (ECommit commit_number now)) as Himage.
  { unfold commit_entries. rewrite (cons_middle commit_intent), app_assoc.
    apply log_image_app. eapply replays_app; [exact (rep_replays _ _ _ _ Hrep)|exact Hadv1]. }
  assert (length (log_image id es) <= length (log_image id (es ++ [commit_intent])))%nat as Hlonger.
  { rewrite (log_image_app id es commit_intent sc (rep_replays _ _ _ _ Hrep)), length_app. lia. }
  unfold commit.
  change (append_intent _ _ _ _ _ _ _) with (append (d_store d) (ca_intent os) commit_intent).
  pose proof (make_durable_cases id es sc sc1 (d_store d) commit_intent (ca_intent os) (ca_intent_flush os)
    Hrep Hwf Hadv1 Hiwf) as H1.
  destruct (make_durable (append (d_store d) (ca_intent os) commit_intent) (ca_intent_flush os)) as [s1 durable1].
  destruct H1 as [Ho1 H1]. rewrite Hopt in Ho1. destruct durable1; cbn [negb].
  2:{ destruct H1 as (cut & Hcut & Hfile & Hor). split; [done|]. cbn [is_ok]. split_and!; [done| |by left].
      rewrite (take_prefix cut _ (entry_frame (sc_chain sc1) (sc_sequence sc1) (ECommit commit_number now))),
        <-Himage in Hfile.
      eapply (interrupted_commit sc sc1 _ _ Hrep Hadv1); [|exact Hfile|]; [lia|].
      destruct Hor as [->|Hor]; [left; lia|right; by rewrite <-Hopt]. }
  destruct H1 as (Hiwf' & Hrep1 & Hsize1). cbn [d_authority set_d_store next_intent].
  rewrite Happly. cbn [is_ok negb].
  destruct (do_verify_after_mutation _ && negb (is_ok (verify_invariants a1))) eqn:Hverify.
  { apply andb_true_iff in Hverify as [_ Hverify]. split; [done|].
    destruct (is_ok (verify_invariants a1)); [done|]. split_and!; [done| |by right].
    eapply (interrupted_commit sc sc1 _ _ Hrep Hadv1); [exact Hlonger| |by right; rewrite <-Hopt].
    rewrite Himage, take_app_length. exact (rep_file _ _ _ _ Hrep1). }
  change (append_commit _ _ _ _) with (append s1 (ca_commit os) (ECommit commit_number now)).
  assert (options_wf (st_options s1)) as Hwf1 by (rewrite Ho1; apply Hbounded).
  pose proof (make_durable_cases id (es ++ [commit_intent]) sc1 sc2 s1 (ECommit commit_number now) (ca_commit os)
    (ca_commit_flush os) Hrep1 Hwf1 Hadv2 ltac:(rewrite Ho1; intros _; exact commit_entry_wf)) as H2.
  destruct (make_durable (append s1 (ca_commit os) _) (ca_commit_flush os)) as [s2 durable2].
  destruct H2 as [Ho2 H2]. rewrite <-app_assoc in H2.
  change (es ++ [commit_intent] ++ [ECommit commit_number now]) with commit_entries in H2.
  destruct durable2; cbn [negb].
  2:{ destruct H2 as (cut & Hcut & Hfile & _). split; [done|]. split_and!; [done| |by right].
      eapply (interrupted_commit sc sc1 cut _ Hrep Hadv1); [lia|exact Hfile|by right; rewrite <-Hopt]. }
  destruct H2 as (_ & Hrep2 & Hsize2). cbn [fst is_ok].
  set (d2 := set_d_store s2 _). rewrite Ho1 in Ho2, Hsize2.
  pose proof (committed_serves sc2 s2 a1 Happly Hsound1 Hrl1 Hinc1 Hrep2 Ho2 Hsize2 d2 eq_refl eq_refl eq_refl Hdur) as Hd2.
  destruct (maybe_compact_cases (ca_compact os) (ca_store_id os) id commit_entries d2 now Hd2 Hnow) as (Ho & Ha & Hk).
  split; [exact Ho|]. split; [|exact Hk]. by rewrite Ha.
Qed.
End Commit.

(** ** Handling requests *)

Lemma serves_ext id es d d' :
  serves id es d -> d_authority d' = d_authority d -> d_store d' = d_store d -> d_options d' = d_options d ->
  d_durability_failed d' = d_durability_failed d -> serves id es d'.
Proof. intros [? ? ? ? ? ? ? ? ? ?] Ha Hs Ho Hf. split; by rewrite ?Ha, ?Hs, ?Ho, ?Hf. Qed.

Lemma serves_count id es c d : serves id es d -> serves id es (count c d).
Proof. intros Hd. by eapply serves_ext. Qed.

Lemma stalled_ext id es d d' :
  stalled id es d -> d_authority d' = d_authority d -> d_store d' = d_store d -> d_options d' = d_options d ->
  d_files d' = d_files d -> stalled id es d'.
Proof. intros [? ? ? ? ? ? ? ? ?] Ha Hs Ho Hf. split; by rewrite ?Ha, ?Hs, ?Ho, ?Hf. Qed.

Lemma stalled_count id es c d : stalled id es d -> stalled id es (count c d).
Proof. intros Hd. by eapply stalled_ext. Qed.

Lemma kept_count id fresh es now c d : kept id fresh es now d -> kept id fresh es now (count c d).
Proof.
  intros [Hd|[Hc [Hd|Hd]]]; [left; by apply serves_count|right; split; [done|left; by apply serves_count]..
    |right; split; [done|right; by apply stalled_count]].
Qed.

(** The texts of the body survive the cut to 512 bytes. *)
Definition body_survives (request : Request) : Prop :=
  forall op, decode_op (rq_type request) (rq_payload request) = Ok op -> texts_survive op = true.

(** A mutation [m], planned from [a], whose commit has failed. *)
Record broken_at (id : StoreId) (es : list Entry) (a : Authority) (op : Op) (m : Mutation) (arb : ArbSeq)
    (d : Daemon) : Prop := {
  br_failed : d_durability_failed d = true;
  br_op : op_wf op;
  br_arb : u64_ok (arb_value arb);
  br_plan : plan a op arb = Ok m;
  br_file : interrupted id es a (d_options d) m arb (st_file (d_store d));
  br_authority : d_authority d = a \/ apply a (m_changes m) arb = (d_authority d, Status.Ok);
}.

Lemma plan_for_op a request arb m :
  plan_for a request arb = Ok m ->
  exists op, decode_op (rq_type request) (rq_payload request) = Ok op /\ plan a op arb = Ok m.
Proof. unfold plan_for. by intros H%expected_bind_ok. Qed.

Lemma proper_plan_for a request arb : proper (plan_for a request arb).
Proof. apply proper_bind; [apply proper_decode_op|intros; apply proper_plan]. Qed.

(** The mutation of [request] is applied and durable, and [payload] reports it. *)
Definition mutated (id : StoreId) (es : list Entry) (os : CommitAnswers) (now : N) (d : Daemon) (request : Request)
    (d' : Daemon) (payload : bytes) : Prop :=
  exists op m arb number,
    decode_op (rq_type request) (rq_payload request) = Ok op /\ op_wf op /\ u64_ok (arb_value arb) /\
    plan (d_authority d) op arb = Ok m /\
    apply (d_authority d) (m_changes m) arb = (d_authority d', Status.Ok) /\
    kept id (ca_store_id os)
      (es ++ [EIntent number arb (m_changes m) now (do_incarnation (d_options d)); ECommit number now]) now d' /\
    payload = encode_mutation_report (report_for (d_options d) request arb (m_changes m)).

Lemma handle_mutation_cases id es d os now request :
  serves id es d -> u64_ok now -> body_survives request ->
  let '(d', answer) := handle_mutation os d now request in
  d_options d' = d_options d /\
  (if is_ok (an_status answer)
   then mutated id es os now d request d' (an_payload answer)
   else serves id es d' /\ d_authority d' = d_authority d \/
     exists op m arb, decode_op (rq_type request) (rq_payload request) = Ok op /\
       broken_at id es (d_authority d) op m arb d').
Proof.
  intros Hd Hnow Hbody. unfold handle_mutation.
  destruct (negb (servable _)); [split; [done|left; split; [by apply serves_count|done]]|].
  destruct (d_durability_failed d) eqn:Hfailed; [by rewrite (sv_durable _ _ _ Hd) in Hfailed|].
  set (d1 := next_arbitration d). assert (serves id es d1) as Hd1 by by eapply serves_ext.
  unfold mutated. assert (d_authority d1 = d_authority d /\ d_options d1 = d_options d) as [<- Ho] by done.
  rewrite <-Ho in *. assert (u64_ok (d_arbitration d1)) as Harb by apply wrap64_u64. clearbody d1. clear Hd Ho.
  set (arb := mkArbSeq (d_arbitration d1)).
  destruct (plan_for (d_authority d1) request arb) as [m|s] eqn:Hplan.
  2:{ assert (is_ok s = false) as Hs.
      { pose proof (proper_plan_for (d_authority d1) request arb) as Hne. rewrite Hplan in Hne. unfold proper in Hne.
        by destruct s. }
      destruct (_ && _); cbn [an_status answer_to is_ok]; rewrite ?Hs; split; try done; left;
        split; try done. by apply serves_count. }
  apply plan_for_op in Hplan as (op & Hdec & Hp).
  destruct (bool_decide (m_changes m = [])); [split; [done|left; split; [by apply serves_count|done]]|].
  pose proof (decode_op_wf _ _ _ Hdec (Hbody op Hdec)) as Hop.
  pose proof (commit_serves id es d1 Hd1 op m arb now Harb Hnow Hop Hp os) as Hcommit.
  destruct (commit os d1 m arb now) as [d2 s]. destruct Hcommit as [Ho Hcommit].
  destruct (is_ok s) eqn:Hs; cbn [negb].
  - destruct Hcommit as [Happly Hd2]. split; [exact Ho|]. cbn [an_status an_payload answer_to is_ok].
    exists op, m, arb, (commit_number d1).
    split_and!; [exact Hdec|exact Hop|exact Harb|exact Hp|exact Happly|by apply kept_count|by rewrite Ho].
  - split; [exact Ho|]. cbn [an_status answer_to]. rewrite Hs. right. exists op, m, arb. split; [exact Hdec|].
    destruct Hcommit as (Hf & Hint & Hor). split; [exact Hf|exact Hop|exact Harb|exact Hp| |exact Hor].
    cbn. rewrite Ho. exact Hint.
Qed.

Lemma mutated_step id es os now d request d' payload :
  mutated id es os now d request d' payload -> exists op, Step op (d_authority d) (d_authority d').
Proof. intros (op & m & arb & number & _ & Hop & Harb & Hp & Happly & _). exists op. by econstructor. Qed.

(** A stalled daemon accepts nothing: no record can be written. *)
Lemma handle_mutation_stalled id es d os now request :
  stalled id es d ->
  let '(d', answer) := handle_mutation os d now request in
  stalled id es d' /\ d_authority d' = d_authority d /\ d_options d' = d_options d /\
  is_ok (an_status answer) = false.
Proof.
  intros Hd. unfold handle_mutation.
  destruct (negb (servable _)); [split_and!; by first [apply stalled_count|idtac]|].
  destruct (d_durability_failed d); [split_and!; by first [apply stalled_count|idtac]|].
  set (d1 := next_arbitration d). assert (stalled id es d1) as Hd1 by by eapply stalled_ext.
  assert (d_authority d1 = d_authority d /\ d_options d1 = d_options d) as [<- <-] by done. clearbody d1. clear Hd.
  set (arb := mkArbSeq (d_arbitration d1)).
  destruct (plan_for (d_authority d1) request arb) as [m|s] eqn:Hplan.
  2:{ assert (is_ok s = false) as Hs.
      { pose proof (proper_plan_for (d_authority d1) request arb) as Hne. rewrite Hplan in Hne. unfold proper in Hne.
        by destruct s. }
      destruct (_ && _); split_and!; by first [apply stalled_count|idtac]. }
  destruct (bool_decide (m_changes m = [])); [split_and!; by first [apply stalled_count|idtac]|].
  assert (commit os d1 m arb now = (fail_durability (next_intent d1), Status.Unavailable)) as ->.
  { unfold commit, append_intent, write_record.
    cbn [d_store next_intent]. by rewrite (sl_closed _ _ _ Hd1). }
  cbn [is_ok negb an_status answer_to]. split_and!; try done. by eapply stalled_ext.
Qed.

(** A client's request, with the time and the answers of the operating system
    while it is handled. *)
Record Call := mkCall { cl_request : Request; cl_now : N; cl_answers : CommitAnswers }.

Definition call_ok (c : Call) : Prop := u64_ok (cl_now c) /\ body_survives (cl_request c).

Fixpoint handle_all (dg : Diagnostics) (d : Daemon) (calls : list Call) : Daemon :=
  match calls with
  | [] => d
  | c :: calls => handle_all dg (handle (cl_answers c) dg (cl_now c) d (cl_request c)).1 calls
  end.

(** Along a run from the authority [a0]: the daemon serves what a history of
    operations has made of it, a compaction has stalled it behind such a history,
    or a commit has failed. *)
Definition serving_from (a0 : Authority) (d : Daemon) : Prop :=
  exists ops id es, History ops a0 (d_authority d) /\ serves id es d.

Definition stalled_from (a0 : Authority) (d : Daemon) : Prop :=
  do_auto_compact (d_options d) = true /\
  exists ops id es, History ops a0 (d_authority d) /\ stalled id es d.

Definition broken_from (a0 : Authority) (d : Daemon) : Prop :=
  exists ops id es a op m arb, History ops a0 a /\ broken_at id es a op m arb d.

Lemma history_snoc ops op a b c : History ops a b -> Step op b c -> History (ops ++ [op]) a c.
Proof.
  intros Hh Hs. induction Hh as [a|op' ops a a' a'' Hstep _ IH]; cbn.
  - eapply history_step; [exact Hs|constructor].
  - eapply history_step; [exact Hstep|by apply IH].
Qed.

(** Nothing is changed after a commit has failed. *)
Lemma handle_failed os dg now d request :
  d_durability_failed d = true -> (handle os dg now d request).1 = d.
Proof.
  intros Hf. unfold handle. rewrite Hf. cbn [andb].
  destruct (negb _); [done|]. destruct (negb _); [done|]. by destruct (is_mutation _).
Qed.

Lemma handle_all_failed dg d calls : d_durability_failed d = true -> handle_all dg d calls = d.
Proof.
  intros Hf. induction calls as [|c calls IH]; [done|]. cbn. by rewrite handle_failed.
Qed.

(** A request of a daemon is a mutation or leaves it as it is. *)
Lemma handle_mutates os dg now d request :
  d_durability_failed d = false ->
  (handle os dg now d request).1 = d \/ handle os dg now d request = handle_mutation os d now request.
Proof.
  intros Hf. unfold handle. destruct (negb _); [by left|]. destruct (negb _); [by left|].
  rewrite Hf. cbn [andb]. destruct (is_mutation _); [by right|by left].
Qed.

Lemma handle_keeps id es d os dg now request :
  serves id es d -> u64_ok now -> body_survives request ->
  let d' := (handle os dg now d request).1 in
  (exists op id' es', Step op (d_authority d) (d_authority d') /\
     (serves id' es' d' \/ do_auto_compact (d_options d') = true /\ stalled id' es' d')) \/
  (serves id es d' /\ d_authority d' = d_authority d) \/
  (exists op m arb, broken_at id es (d_authority d) op m arb d').
Proof.
  intros Hd Hnow Hbody. cbv zeta.
  destruct (handle_mutates os dg now d request (sv_durable _ _ _ Hd)) as [-> | ->]; [by right; left|].
  pose proof (handle_mutation_cases id es d os now request Hd Hnow Hbody) as H.
  destruct (handle_mutation os d now request) as [d' an]. destruct H as [_ H].
  destruct (is_ok (an_status an)).
  - left. destruct (mutated_step _ _ _ _ _ _ _ _ H) as [op Hstep]. destruct H as (? & m & arb & number & H).
    destruct H as (_ & _ & _ & _ & _ & Hk & _). destruct Hk as [Hk|[Hc [Hk|Hk]]]; eexists op, _, _; eauto.
  - destruct H as [H|(op & m & arb & _ & H)]; right; [by left|right; by exists op, m, arb].
Qed.

Lemma handle_stalled id es d os dg now request :
  stalled id es d -> let d' := (handle os dg now d request).1 in
  stalled id es d' /\ d_authority d' = d_authority d /\ d_options d' = d_options d.
Proof.
  intros Hd. cbv zeta. destruct (d_durability_failed d) eqn:Hf; [by rewrite handle_failed|].
  destruct (handle_mutates os dg now d request Hf) as [-> | ->]; [done|].
  pose proof (handle_mutation_stalled id es d os now request Hd) as H.
  destruct (handle_mutation os d now request) as [d' an]. naive_solver.
Qed.

Lemma handle_all_stalled a0 dg d calls : stalled_from a0 d -> stalled_from a0 (handle_all dg d calls).
Proof.
  revert d. induction calls as [|c calls IH]; intros d Hd; [done|]. cbn [handle_all]. apply IH.
  destruct Hd as (Hc & ops & id & es & Hh & Hd).
  destruct (handle_stalled id es d (cl_answers c) dg (cl_now c) (cl_request c) Hd) as (Hd' & Ha & Ho).
  split; [by rewrite Ho|]. exists ops, id, es. by rewrite Ha.
Qed.

Lemma handle_all_keeps dg a0 d calls :
  serving_from a0 d -> Forall call_ok calls ->
  let d' := handle_all dg d calls in serving_from a0 d' \/ stalled_from a0 d' \/ broken_from a0 d'.
Proof.
  intros Hd Hcalls. revert d Hd. induction Hcalls as [|c calls [Hnow Hbody] _ IH]; intros d Hd; [by left|].
  destruct Hd as (ops & id & es & Hh & Hd). cbn [handle_all].
  destruct (handle_keeps id es d (cl_answers c) dg (cl_now c) (cl_request c) Hd Hnow Hbody) as
    [(op & id' & es' & Hstep & [Hd'|[Hc Hd']])|[[Hd' Ha]|(op & m & arb & Hbroken)]].
  - apply IH. exists (ops ++ [op]), id', es'. split; [by eapply history_snoc|exact Hd'].
  - right. left. apply handle_all_stalled. split; [exact Hc|]. exists (ops ++ [op]), id', es'.
    split; [by eapply history_snoc|exact Hd'].
  - apply IH. exists ops, id, es. by rewrite Ha.
  - right. right. rewrite handle_all_failed by apply (br_failed _ _ _ _ _ _ _ Hbroken).
    by exists ops, id, es, (d_authority d), op, m, arb.
Qed.

(** ** Progress *)

Lemma make_durable_succeeds id es sc sc' s e accepted :
  represents id es sc s -> options_wf (st_options s) -> advance sc e = Some sc' -> entry_wf (st_options s) e ->
  has_room s e -> (kStoreRecordHeaderBytes + length (entry_payload e) + kStoreChainBytes <= accepted)%nat ->
  exists s', make_durable (append s accepted e) true = (s', true) /\ represents id (es ++ [e]) sc' s' /\
             st_options s' = st_options s.
Proof.
  intros Hrep Hopt Hadv Hwf Hroom Hacc.
  destruct (append_represents id es sc sc' s e accepted Hrep Hopt Hwf Hadv Hroom) as (s' & Happend & Hrep' & Ho).
  { unfold entry_frame. by rewrite length_record_frame. }
  exists s'. split_and!; [|exact Hrep'|exact Ho]. unfold make_durable, flush, is_open.
  by rewrite Happend, (rep_file _ _ _ _ Hrep').
Qed.

(** The log has room for the two records of a mutation with this payload, and
    the operating system takes them. *)
Record takes_commit (os : CommitAnswers) (s : Store) (payload : bytes) : Prop := {
  tc_fits : blen payload <= max_record_bytes (st_options s);
  tc_log : st_log_bytes s + blen payload + 184 <= max_log_bytes (st_options s);
  tc_records : st_record_count s + 2 <= max_records (st_options s);
  tc_intent : (length payload + 88 <= ca_intent os)%nat /\ ca_intent_flush os = true;
  tc_commit : (96 <= ca_commit os)%nat /\ ca_commit_flush os = true;
}.

Section Progress.
Context (id : StoreId) (es : list Entry) (d : Daemon) (Hd : serves id es d).
Context (op : Op) (m : Mutation) (arb : ArbSeq) (now : N).
Context (Harb : u64_ok (arb_value arb)) (Hnow : u64_ok now) (Hop : op_wf op).
Context (Hp : plan (d_authority d) op arb = Ok m).

Lemma commit_succeeds os :
  (forall a, apply (d_authority d) (m_changes m) arb = (a, Status.Ok) ->
     do_verify_after_mutation (d_options d) = true -> verify_invariants a = Status.Ok) ->
  takes_commit os (d_store d) (encode_intent_payload (commit_number d) arb (m_changes m)) ->
  (commit os d m arb now).2 = Status.Ok.
Proof.
  intros Hverify [Hfits Hlog Hrecords [Hi1 Hi2] [Hc1 Hc2]].
  pose proof Hd as [Hsound _ [sc Hrep] _ Hopt Hbounded _ _ _ _].
  destruct (commit_scans id es d Hd m arb now sc Hrep) as (sc1 & sc2 & Hadv1 & Hadv2).
  destruct (plan_apply_ok op (d_authority d) arb m Hsound Harb Hop Hp) as (a0 & _ & Happly).
  assert (options_wf (st_options (d_store d))) as Hwf by (rewrite Hopt; apply Hbounded).
  assert (entry_wf (st_options (d_store d)) (commit_intent d m arb now)) as Hiwf
    by (rewrite Hopt; apply (commit_intent_wf id es d Hd op m arb now Harb Hnow Hop Hp); by rewrite <-Hopt).
  destruct (make_durable_succeeds id es sc sc1 (d_store d) (commit_intent d m arb now) (ca_intent os) Hrep Hwf Hadv1 Hiwf)
    as (s1 & Hs1 & Hrep1 & Ho1).
  { split; cbn [entry_payload commit_intent]; unfold kStoreRecordHeaderBytes, kStoreChainBytes; lia. }
  { cbn [entry_payload commit_intent]. unfold kStoreRecordHeaderBytes, kStoreChainBytes. lia. }
  destruct (make_durable_succeeds id (es ++ [commit_intent d m arb now]) sc1 sc2 s1
    (ECommit (commit_number d) now) (ca_commit os) Hrep1) as (s2 & Hs2 & _ & _); [by rewrite Ho1|exact Hadv2| | | |].
  { rewrite Ho1, Hopt. by apply (commit_entry_wf id es d Hd). }
  { split; rewrite Ho1.
    - rewrite (rep_log_bytes _ _ _ _ Hrep1), (log_image_app id es _ sc) by apply Hrep.
      rewrite (rep_log_bytes _ _ _ _ Hrep) in Hlog. unfold blen in *. rewrite length_app.
      unfold entry_frame. rewrite length_record_frame. change (length (entry_payload (ECommit _ _))) with 8%nat.
      cbn [entry_payload commit_intent]. unfold kStoreRecordHeaderBytes, kStoreChainBytes. lia.
    - rewrite (rep_records _ _ _ _ Hrep1), (advance_records _ _ _ Hadv1), <-(rep_records _ _ _ _ Hrep). lia. }
  { change (length (entry_payload (ECommit _ _))) with 8%nat. unfold kStoreRecordHeaderBytes, kStoreChainBytes. lia. }
  unfold commit. change (append_intent _ _ _ _ _ _ _) with (append (d_store d) (ca_intent os) (commit_intent d m arb now)).
  rewrite Hi2, Hs1. cbn [negb d_authority set_d_store next_intent]. rewrite Happly. cbn [is_ok negb].
  destruct (do_verify_after_mutation _ && _) eqn:Hv.
  { apply andb_true_iff in Hv as [Hv1 Hv2]. rewrite (Hverify _ Happly Hv1) in Hv2. done. }
  change (append_commit _ _ _ _) with (append s1 (ca_commit os) (ECommit (commit_number d) now)).
  by rewrite Hc2, Hs2.
Qed.
End Progress.

(** ** Properties *)

(** C3: a run of the daemon refines the history of its authority.  Whatever
    well-formed texts its clients send and whatever the operating system answers,
    compaction included, a daemon in service either still serves, with the
    authority that a sequence of operations has made and a log that rebuilds it;
    or a compaction that it did behind such a sequence could not open its log
    again, and the files are those of a crash in that compaction; or the commit
    of one operation behind such a sequence has failed, the authority is the one
    before or after it, and the file holds the log and a part of its records. *)
Theorem daemon_refines_authority id es dg d calls :
  serves id es d -> Forall call_ok calls ->
  let d' := handle_all dg d calls in
  serving_from (d_authority d) d' \/ stalled_from (d_authority d) d' \/ broken_from (d_authority d) d'.
Proof. intros Hd. apply handle_all_keeps. exists [], id, es. split; [constructor|exact Hd]. Qed.

(** C5: a mutation is answered Ok exactly when it is applied and durable: then it
    is planned from the request and applied to the authority, the answer carries
    the report of its changes, and the log ends with its intent and its
    completion, or a compaction has replaced it, or was to replace it, by the
    snapshot of the new authority.  Any other answer leaves the authority and the
    log alone, or comes with a failed commit, after which nothing is accepted. *)
Theorem acknowledged_is_durable id es d os now request :
  serves id es d -> u64_ok now -> body_survives request ->
  let '(d', answer) := handle_mutation os d now request in
  (if is_ok (an_status answer)
   then mutated id es os now d request d' (an_payload answer)
   else serves id es d' /\ d_authority d' = d_authority d \/
     d_durability_failed d' = true /\
     forall dg calls, handle_all dg d' calls = d').
Proof.
  intros Hd Hnow Hbody. pose proof (handle_mutation_cases id es d os now request Hd Hnow Hbody) as H.
  destruct (handle_mutation os d now request) as [d' an]. destruct H as [_ H].
  destruct (is_ok (an_status an)); [exact H|].
  destruct H as [H|(op & m & arb & _ & Hb)]; [by left|right].
  pose proof (br_failed _ _ _ _ _ _ _ Hb) as Hf. split; [exact Hf|]. intros dg calls. by apply handle_all_failed.
Qed.

(** C28: a daemon in service makes progress: a mutation that its authority plans
    is committed and answered Ok when the log has room for its two records, the
    operating system takes them, and the check of the invariants behind it, where
    the options ask for one, accepts the new state.  No text of the request may be
    cut inside a character at 512 bytes, and no source of an attestation be longer. *)
Theorem mutation_committed id es d os dg now request op m :
  serves id es d -> u64_ok now ->
  servable (rep_fidelity (d_recovery d)) = true ->
  rq_protocol_version request = kWireProtocolVersion -> message_type_is_request (rq_type request) = true ->
  is_mutation (rq_type request) = true ->
  decode_op (rq_type request) (rq_payload request) = Ok op -> texts_survive op = true ->
  let arb := mkArbSeq (wrap64 (d_arbitration d + 1)) in
  plan (d_authority d) op arb = Ok m -> m_changes m <> [] ->
  (forall a, apply (d_authority d) (m_changes m) arb = (a, Status.Ok) ->
     do_verify_after_mutation (d_options d) = true -> verify_invariants a = Status.Ok) ->
  takes_commit os (d_store d) (encode_intent_payload (wrap64 (d_intent_counter d + 1)) arb (m_changes m)) ->
  an_status (handle os dg now d request).2 = Status.Ok.
Proof.
  intros Hd Hnow Hserv Hversion Hreq Hmut Hdec Htexts arb Hp Hne Hverify Htakes.
  unfold handle. rewrite Hversion, N.eqb_refl, Hreq, Hmut, (sv_durable _ _ _ Hd). cbn [negb andb].
  unfold handle_mutation. rewrite Hserv, (sv_durable _ _ _ Hd). cbn [negb].
  assert (serves id es (next_arbitration d)) as Hd1 by by eapply serves_ext.
  assert (plan_for (d_authority (next_arbitration d)) request arb = Ok m) as Hplan
    by (unfold plan_for; by rewrite Hdec).
  change (mkArbSeq (d_arbitration (next_arbitration d))) with arb. rewrite Hplan.
  rewrite bool_decide_eq_false_2 by done.
  pose proof (commit_succeeds id es (next_arbitration d) Hd1 op m arb now (wrap64_u64 _) Hnow
    (decode_op_wf _ _ _ Hdec Htexts) Hp os Hverify Htakes) as Hcommit.
  destruct (commit os (next_arbitration d) m arb now) as [d2 s]. cbn [snd] in Hcommit. by subst s.
Qed.

(** ** Witnesses *)

(** A daemon over the log of the sample fabric. *)
Definition sample_daemon : Daemon :=
  let sc := scan_of sample_filling in
  let log := log_image (Sample.id 500) sample_filling in
  mkDaemon sample_options sample_rebuilt
    (mkStore (Some log) default_options (sc_sequence sc) (blen log) (sc_records sc) (sc_chain sc) true)
    (mkFiles (Some log) None None) false 1 9 0 0 0 0
    (mkRecoveryReport RecoveryFidelity.Exact (Sample.id 500) kStoreFormatVersion 2 0 0 0 0 0 0
       (mkDigest256 (sc_chain sc)) false false) 0.

Lemma sample_filling_replays : replays sample_filling (scan_of sample_filling).
Proof.
  destruct sample_rebuilds as (sc & Hs & _). unfold scan_of. unfold replays in *. by rewrite Hs.
Qed.

Lemma sample_serves : serves (Sample.id 500) sample_filling sample_daemon.
Proof.
  split; cbn [d_authority d_store d_options sample_daemon d_durability_failed];
    [exact sample_rebuilt_sound|exact sample_rebuilt_reloads| |exact sample_rebuilds|done|exact sample_records_bounded
    | |by vm_compute|by vm_compute|done].
  - exists (scan_of sample_filling). apply represents_opened; [exact sample_filling_wf|exact sample_filling_replays].
  - vm_compute. discriminate.
Qed.

(** A client that retires grant 7, and an operating system that takes all. *)
Definition sample_retire : Request :=
  mkRequest kWireProtocolVersion MessageType.GrantRetire 1 (Sample.id 8)
    (encode_grant_operation (sample_op 7 20)).

Definition sample_answers : CommitAnswers :=
  mkCommitAnswers 4096 true 4096 true (mkCompactAnswers true true 0 true true true true true true true true) (Sample.id 501).

Lemma sample_retire_decodes :
  decode_op (rq_type sample_retire) (rq_payload sample_retire) = Ok (RetireGrant (sample_op 7 20)).
Proof. by vm_compute. Qed.

Lemma sample_retire_survives : body_survives sample_retire.
Proof. intros op. rewrite sample_retire_decodes. intros [= <-]. by vm_compute. Qed.

Definition sample_diagnostics : Diagnostics := mkDiagnostics (mkVersion 0 1 0) [].

Lemma daemon_refines_authority_witness :
  serves (Sample.id 500) sample_filling sample_daemon /\
  let d' := handle_all sample_diagnostics sample_daemon
              [mkCall sample_retire 30 sample_answers; mkCall sample_retire 31 sample_answers] in
  serving_from sample_rebuilt d' \/ stalled_from sample_rebuilt d' \/ broken_from sample_rebuilt d'.
Proof.
  split; [exact sample_serves|].
  apply (daemon_refines_authority (Sample.id 500) sample_filling sample_diagnostics sample_daemon); [exact sample_serves|].
  repeat constructor; cbn [cl_now cl_request]; try exact sample_retire_survives; by vm_compute.
Defined.

Lemma mutation_committed_witness :
  serves (Sample.id 500) sample_filling sample_daemon /\
  an_status (handle sample_answers sample_diagnostics 30 sample_daemon sample_retire).2 = Status.Ok.
Proof.
  split; [exact sample_serves|].
  destruct (plan (d_authority sample_daemon) (RetireGrant (sample_op 7 20)) (mkArbSeq 10)) as [m|s] eqn:Hp;
    [|vm_compute in Hp; discriminate].
  apply (mutation_committed (Sample.id 500) sample_filling sample_daemon sample_answers sample_diagnostics 30
    sample_retire (RetireGrant (sample_op 7 20)) m sample_serves ltac:(by vm_compute) eq_refl eq_refl
    eq_refl eq_refl sample_retire_decodes ltac:(by vm_compute) Hp).
  - vm_compute in Hp. injection Hp as <-. by vm_compute.
  - intros a Ha _. vm_compute in Hp. injection Hp as <-. vm_compute in Ha. injection Ha as <-. by vm_compute.
  - vm_compute in Hp. injection Hp as <-. split; [by vm_compute|by vm_compute|by vm_compute| |]; split; try done;
      apply Nat.leb_le; by vm_compute.
Defined.

(** The same request of an operating system that takes no byte is not committed. *)
Lemma acknowledged_is_durable_witness :
  serves (Sample.id 500) sample_filling sample_daemon /\
  let os := mkCommitAnswers 0 true 4096 true (ca_compact sample_answers) (Sample.id 501) in
  let '(d', answer) := handle_mutation os sample_daemon 30 sample_retire in
  an_status answer = Status.Unavailable /\
  (serves (Sample.id 500) sample_filling d' /\ d_authority d' = sample_rebuilt \/
   d_durability_failed d' = true /\ forall dg calls, handle_all dg d' calls = d').
Proof.
  split; [exact sample_serves|]. cbv zeta.
  pose proof (acknowledged_is_durable (Sample.id 500) sample_filling sample_daemon
    (mkCommitAnswers 0 true 4096 true (ca_compact sample_answers) (Sample.id 501)) 30 sample_retire
    sample_serves ltac:(by vm_compute) sample_retire_survives) as H.
  assert (an_status (handle_mutation (mkCommitAnswers 0 true 4096 true (ca_compact sample_answers) (Sample.id 501))
    sample_daemon 30 sample_retire).2 = Status.Unavailable) as Hst by (vm_compute; reflexivity).
  destruct (handle_mutation _ _ _ _) as [d' an]. cbn [snd] in Hst. rewrite Hst in H. cbn [is_ok] in H.
  split; [exact Hst|exact H].
Defined.
