(* ===== verification/Incarnations.v ===== *)
(** * Recovery under another incarnation

    Every start of a process draws an incarnation, and its command line may change
    what is not stored.  What a log rebuilds does not depend on either: only on
    the policy, the epoch and the bounds of the store that the options give. *)

From Stdlib Require Import Strings.Byte.
From S2P Require Import Prelude Outcome Ids Lifecycle Policy Wire Model Codecs State Ledger Changes.
From S2P Require Import Invariants Operations WellFormed Snapshot Store Journal Compaction Recovery.
From S2P Require Import Frames Protocol Replies Daemon Failures Applicable Steps Accounting.
From S2P Require Import Crash Reload Service.

(** The authority under the incarnation [i]. *)
Definition under (i : Incarnation) (a : Authority) : Authority :=
  set_config (set_cfg_incarnation i (config a)) a.

Definition under_result (i : Incarnation) (r : Expected Authority) : Expected Authority :=
  match r with Ok a => Ok (under i a) | Fail s => Fail s end.

(** The options agree on what a recovery reads. *)
Record same_recovery (o o' : DaemonOptions) : Prop := {
  sr_policy : do_policy o' = do_policy o;
  sr_epoch : do_epoch o' = do_epoch o;
  sr_store : do_store o' = do_store o;
}.

#[export] Instance same_recovery_refl : Reflexive same_recovery.
Proof. by intros o. Qed.
#[export] Instance same_recovery_trans : Transitive same_recovery.
Proof. intros o1 o2 o3 [H1 H2 H3] [H4 H5 H6]. split; congruence. Qed.

Lemma under_equiv i a : under i a ≡ a.
Proof. done. Qed.

Lemma under_sound i a : sound a -> sound (under i a).
Proof. intros [Hwk Hlim Hwf]. split; [destruct Hwk; by split|done|destruct Hwf; by split]. Qed.

Lemma under_under i j a : under i (under j a) = under i a.
Proof. done. Qed.

(** ** The replay commutes with the incarnation *)

Lemma install_under i a key o : install (under i a) key o = under_result i (install a key o).
Proof.
  destruct o; unfold install, guard_fail; cbn [under_result]; try by (cbn; repeat break_goal).
  change (index_request (under i a)) with (index_request a).
  change (grants_ (under i a)) with (grants_ a). change (max_grants (config (under i a))) with (max_grants (config a)).
  destruct (table_full _ _ _); [done|]. by destruct (index_request a v key).
Qed.

Lemma install_all_under i a l : install_all (under i a) l = prod_map (under i) id (install_all a l).
Proof.
  revert a. induction l as [|[key o] l IH]; intros a; [done|]. cbn [install_all]. rewrite install_under.
  destruct (install a key o) as [a1|s]; [apply IH|done].
Qed.

Lemma apply_under i a changes arb : apply (under i a) changes arb = prod_map (under i) id (apply a changes arb).
Proof.
  unfold apply. destruct (mapM decode_change changes) as [objs|s]; [|done].
  rewrite install_all_under. destruct (install_all a _) as [b s]. cbn [prod_map fst snd id].
  destruct s; try done. cbn [finish_apply]. unfold raise_arbitration. cbn. by destruct (_ <? _).
Qed.

Lemma mark_change_under i amb a c : mark_change amb (under i a) c = prod_map (under i) id (mark_change amb a c).
Proof.
  unfold mark_change. destruct (negb _); [done|]. change (find_grant (under i a)) with (find_grant a).
  destruct (find_grant _ _); [|done]. unfold mark_recovered. change (grants_ (under i a)) with (grants_ a).
  by destruct amb, (grants_ a !! _).
Qed.

Lemma mark_changes_under i amb a changes :
  mark_changes amb (under i a) changes = under_result i (mark_changes amb a changes).
Proof.
  revert a. induction changes as [|c changes IH]; intros a; [done|]. cbn [mark_changes].
  rewrite mark_change_under. destruct (mark_change amb a c) as [a1 s]. cbn [prod_map fst snd id].
  destruct (negb _); [done|apply IH].
Qed.

(** A new authority of a configuration with the incarnation [j]. *)
Lemma new_authority_under random j c :
  exists i, new_authority random (set_cfg_incarnation j c) = under i (new_authority random c) /\
    forall s, from_snapshot random (set_cfg_incarnation j c) s = under_result i (from_snapshot random c s).
Proof.
  exists (cfg_incarnation (config (new_authority random (set_cfg_incarnation j c)))).
  assert (new_authority random (set_cfg_incarnation j c) =
    under (cfg_incarnation (config (new_authority random (set_cfg_incarnation j c)))) (new_authority random c)) as Hnew.
  { unfold new_authority. destruct c as [p e i n1 n2 n3 n4 n5 n6 n7]. cbn.
    destruct (gen_is_nil _); cbn; destruct (_ =? 0); cbn; destruct (tid_is_nil j), (tid_is_nil i); done. }
  split; [exact Hnew|]. intros s. unfold from_snapshot. destruct (negb _); [done|]. cbn [guard_fail].
  rewrite Hnew. set (n := new_authority random c). set (i := cfg_incarnation _). cbv zeta. clearbody n i.
  clear Hnew.
  change (domains_ (under i n)) with (domains_ n). change (sites_ (under i n)) with (sites_ n).
  change (paths_ (under i n)) with (paths_ n). change (attestations_ (under i n)) with (attestations_ n).
  change (grants_ (under i n)) with (grants_ n). change (request_index (under i n)) with (request_index n).
  change (verifications_ (under i n)) with (verifications_ n).
  change (oversubscriptions_ (under i n)) with (oversubscriptions_ n).
  destruct (load _ (snap_domains s) _); cbn [mbind expected_bind]; [|reflexivity].
  destruct (load _ (snap_sites s) _); cbn [mbind expected_bind]; [|reflexivity].
  destruct (load _ (snap_paths s) _); cbn [mbind expected_bind]; [|reflexivity].
  destruct (load _ (snap_attestations s) _); cbn [mbind expected_bind]; [|reflexivity].
  destruct (load_grants _ _ _) as [[? ?]|?]; cbn [mbind expected_bind]; [|reflexivity].
  destruct (load _ (snap_verifications s) _); cbn [mbind expected_bind]; [|reflexivity].
  destruct (load _ (snap_oversubscriptions s) _); cbn [mbind expected_bind]; reflexivity.
Qed.

(** A replay reads nothing else of the options than the configuration. *)
Lemma replays_to_config o o' acts a :
  replay_config o = replay_config o' -> replays_to o acts a -> replays_to o' acts a.
Proof.
  intros Hc H random. destruct (H random) as (b & Hb & Hequiv). exists b. split; [|exact Hequiv].
  rewrite <-Hb, Hc. clear H Hb. generalize (new_authority random (replay_config o')) as n.
  induction acts as [|act acts IH]; intros n; [done|]. cbn [replay_actions].
  unfold replay_action. rewrite Hc. by destruct (match act_kind act with ActionSnapshot _ => _ | _ => _ end); cbn; [apply IH|].
Qed.

Section Options.
Context (o o' : DaemonOptions) (Hoo : same_recovery o o').

Lemma replay_config_options : replay_config o' = set_cfg_incarnation (do_incarnation o') (replay_config o).
Proof. destruct Hoo as [Hp He _]. unfold replay_config. by rewrite Hp, He. Qed.

Lemma replay_actions_under random acts :
  exists i, new_authority random (replay_config o') = under i (new_authority random (replay_config o)) /\
    forall a, replay_actions o' random (under i a) acts = under_result i (replay_actions o random a acts).
Proof.
  destruct (new_authority_under random (do_incarnation o') (replay_config o)) as (i & Hnew & Hload).
  rewrite <-replay_config_options in Hnew, Hload. exists i. split; [exact Hnew|].
  induction acts as [|act acts IH]; intros a; [done|]. cbn [replay_actions].
  assert (replay_action o' random (under i a) act = under_result i (replay_action o random a act)) as ->.
  { unfold replay_action. destruct (act_kind act) as [snap|changes arb]; [apply Hload|].
    rewrite apply_under. destruct (apply a _ arb) as [a1 s]. cbn [prod_map fst snd id].
    destruct (negb _); [done|]. cbn [guard_fail]. apply mark_changes_under. }
  destruct (replay_action o random a act) as [a1|s]; cbn [under_result mbind expected_bind]; [apply IH|done].
Qed.

Lemma replays_to_options acts a : replays_to o acts a -> replays_to o' acts a.
Proof.
  intros H random. destruct (H random) as (b & Hb & Hequiv & Hs).
  destruct (replay_actions_under random acts) as (i & -> & ->). rewrite Hb. exists (under i b).
  split_and!; [done|by transitivity b|by apply under_sound].
Qed.

Lemma rebuilds_options es a : rebuilds o es a -> rebuilds o' es a.
Proof. intros (sc & Hs & Hc & Hto). exists sc. split_and!; [done..|by apply replays_to_options]. Qed.

Lemma reopens_options id random file a : reopens o id random file a -> reopens o' id random file a.
Proof.
  intros (result & store & es & sc & H1 & H2 & H3 & H4 & H5 & H6 & H7). exists result, store, es, sc.
  rewrite (sr_store _ _ Hoo). split_and!; try done; [by apply replays_to_options|by apply rebuilds_options].
Qed.
End Options.
