(* ===== verification/Net.v ===== *)
(** * Endpoints and the byte stream (include/isf/net.hpp, src/net.cpp)

    The text form of an endpoint, the classification of transport errors, and
    the two loops that move bytes over a socket.  What the operating system
    answers to [send] and [recv] is an argument; the calls that create,
    configure, bind and connect sockets only pass on what it answers and are
    not modelled. *)

From Stdlib Require Import Strings.Byte.
From S2P Require Import Prelude Outcome Ids Wire.

(** ** Decimal text *)

Definition is_digit (c : Byte.byte) : bool := (48 <=? Byte.to_N c) && (Byte.to_N c <=? 57).

(** The value of a text of digits behind the value [acc]. *)
Definition decimal_value (acc : N) (l : bytes) : N :=
  foldl (fun acc c => acc * 10 + (Byte.to_N c - 48)) acc l.

(** ** Endpoints *)

Record Endpoint := mkEndpoint { host : bytes; port : N }.
#[export] Instance Endpoint_eq_dec : EqDecision Endpoint.
Proof. solve_decision. Defined.

Definition default_host : bytes := str "127.0.0.1".
Definition default_endpoint : Endpoint := mkEndpoint default_host 0.

(** [find] and [rfind] of a character. *)
Fixpoint find_char (c : Byte.byte) (l : bytes) : option nat :=
  match l with
  | [] => None
  | x :: l => if bool_decide (x = c) then Some O else S <$> find_char c l
  end.

Fixpoint rfind_char (c : Byte.byte) (l : bytes) : option nat :=
  match l with
  | [] => None
  | x :: l =>
      match rfind_char c l with
      | Some i => Some (S i)
      | None => if bool_decide (x = c) then Some O else None
      end
  end.

Definition endpoint_to_string (e : Endpoint) : bytes :=
  match find_char x3a (host e) with
  | Some _ => str "[" ++ host e ++ str "]:" ++ to_decimal (port e)
  | None => host e ++ str ":" ++ to_decimal (port e)
  end.

(** The digit loop; the port is kept in 32 bits. *)
Fixpoint parse_port (body : bytes) (port : N) : Expected N :=
  match body with
  | [] => Ok port
  | c :: body =>
      fail_if negb (is_digit c) with Status.Invalid ;;
      let port := wrap32 (port * 10 + (Byte.to_N c - 48)) in
      fail_if 65535 <? port with Status.Invalid ;;
      parse_port body port
  end.

(** The host and the text of the port. *)
Definition split_endpoint (text : bytes) : Expected (bytes * bytes) :=
  match text with
  | [] => Fail Status.Invalid
  | x5b :: _ =>
      match find_char x5d text with
      | None => Fail Status.Invalid
      | Some close =>
          match drop (close + 1) text with
          | x3a :: body => Ok (take (close - 1) (drop 1 text), body)
          | _ => Fail Status.Invalid
          end
      end
  | _ =>
      match rfind_char x3a text with
      | None => Ok (default_host, text)
      | Some colon => Ok (take colon text, drop (colon + 1) text)
      end
  end.

Definition parse_endpoint (text : bytes) : Expected Endpoint :=
  '(host, body) ← split_endpoint text;
  fail_if bool_decide (body = []) with Status.Invalid ;;
  port ← parse_port body 0;
  Ok (mkEndpoint (if bool_decide (host = []) then default_host else host) port).

(** ** Socket operations *)

Module IoStatus.
Inductive t := Ok | PeerClosed | TimedOut | Interrupted | Refused | Error.
#[export] Instance t_eq_dec : EqDecision t.
Proof. solve_decision. Defined.
End IoStatus.
Export (hints) IoStatus.
Abbreviation IoStatus := IoStatus.t.

Definition io_status_name (s : IoStatus) : bytes :=
  match s with
  | IoStatus.Ok => str "OK"
  | IoStatus.PeerClosed => str "PEER_CLOSED"
  | IoStatus.TimedOut => str "TIMED_OUT"
  | IoStatus.Interrupted => str "INTERRUPTED"
  | IoStatus.Refused => str "REFUSED"
  | IoStatus.Error => str "ERROR"
  end.

(** The POSIX error codes by name; [OtherCode] is any that is not listed. *)
Inductive ErrorCode :=
| ETIMEDOUT | EINTR | ECONNREFUSED | ECONNRESET | ENOTCONN | EPIPE | EAGAIN | OtherCode.

(** The POSIX half of the conditional compilation. *)
Definition classify_error (code : ErrorCode) : IoStatus :=
  match code with
  | ETIMEDOUT => IoStatus.TimedOut
  | EINTR => IoStatus.Interrupted
  | ECONNREFUSED => IoStatus.Refused
  | ECONNRESET | ENOTCONN | EPIPE => IoStatus.PeerClosed
  | _ => IoStatus.Error
  end.

(** What the system call [send] answers: the bytes it took, or an error. *)
Inductive SendAnswer := Taken (n : N) | SendFailed (code : ErrorCode).

(** A megabyte at most is offered to one call, and a call takes what it is
    offered at most.  [calls] numbers the system calls. *)
Fixpoint send_loop (fuel : nat) (os : nat -> SendAnswer) (calls : nat) (size written : N) : IoStatus * N :=
  if size <=? written then (IoStatus.Ok, written)
  else
    match fuel with
    | O => (IoStatus.Error, written)
    | S fuel =>
        let chunk := size - written in
        let request := if N.shiftl 1 20 <? chunk then N.shiftl 1 20 else chunk in
        match os calls with
        | SendFailed code => (classify_error code, written)
        | Taken n =>
            if n =? 0 then (IoStatus.PeerClosed, written)
            else send_loop fuel os (S calls) size (written + N.min n request)
        end
    end.

(** [send_all] and [bytes_written]; every call that does not end the loop takes
    a byte at least, so that the number of bytes is enough fuel ([send_fuel]). *)
Definition send_all (os : nat -> SendAnswer) (valid : bool) (data : bytes) : IoStatus * N :=
  if valid then send_loop (length data) os 0 (blen data) 0 else (IoStatus.Error, 0).

(** What the system call [recv] answers: the bytes that have arrived, none at
    the end of the stream. *)
Inductive ReceiveAnswer := Arrived (data : bytes) | ReceiveFailed (code : ErrorCode).

(** The answer to a call that offers room for [capacity] bytes. *)
Definition recv_some (os : ReceiveAnswer) (valid : bool) (capacity : N) : IoStatus * bytes :=
  if negb valid then (IoStatus.Error, [])
  else
    let request := if N.shiftl 1 20 <? capacity then N.shiftl 1 20 else capacity in
    match os with
    | ReceiveFailed code => (classify_error code, [])
    | Arrived data =>
        let got := take (N.to_nat request) data in
        if bool_decide (got = []) then (IoStatus.PeerClosed, []) else (IoStatus.Ok, got)
    end.

(** ** Lemmas *)

Lemma decimal_value_le acc l : acc <= decimal_value acc l.
Proof.
  revert acc. induction l as [|c l IH]; intros acc; unfold decimal_value in *; cbn [foldl]; [lia|].
  specialize (IH (acc * 10 + (Byte.to_N c - 48))). lia.
Qed.

(** The port is the decimal value, when that fits. *)
Lemma parse_port_spec l acc :
  acc <= 65535 ->
  parse_port l acc =
  if forallb is_digit l && (decimal_value acc l <=? 65535) then Ok (decimal_value acc l)
  else Fail Status.Invalid.
Proof.
  revert acc. induction l as [|c l IH]; intros acc Hacc; cbn [parse_port forallb].
  { change (decimal_value acc []) with acc. by rewrite (proj2 (N.leb_le _ _)). }
  destruct (is_digit c) eqn:Hc; [|done]. cbn [negb andb guard_fail].
  unfold is_digit in Hc. to_prop.
  assert (wrap32 (acc * 10 + (Byte.to_N c - 48)) = acc * 10 + (Byte.to_N c - 48)) as ->
    by (unfold wrap32; apply N.mod_small; change (2 ^ 32) with 4294967296; lia).
  change (decimal_value acc (c :: l)) with (decimal_value (acc * 10 + (Byte.to_N c - 48)) l).
  pose proof (decimal_value_le (acc * 10 + (Byte.to_N c - 48)) l) as Hle.
  destruct (N.ltb_spec 65535 (acc * 10 + (Byte.to_N c - 48))) as [Hlt|Hle'].
  - rewrite (proj2 (N.leb_gt _ _)) by lia. by rewrite andb_false_r.
  - by apply IH.
Qed.

Lemma list_byte_of_string_cons c s :
  String.list_byte_of_string (String c s) = Stdlib.Strings.Ascii.byte_of_ascii c :: String.list_byte_of_string s.
Proof. done. Qed.

Lemma pretty_N_char_digit x :
  x < 10 -> Byte.to_N (Stdlib.Strings.Ascii.byte_of_ascii (pretty.pretty_N_char x)) = x + 48.
Proof.
  intros Hx. assert (x = 0 \/ x = 1 \/ x = 2 \/ x = 3 \/ x = 4 \/ x = 5 \/ x = 6 \/ x = 7 \/ x = 8 \/ x = 9) as H by lia.
  by destruct H as [-> | [-> | [-> | [-> | [-> | [-> | [-> | [-> | [-> | ->]]]]]]]]].
Qed.

Lemma pretty_N_go_digits x s :
  exists ds, String.list_byte_of_string (pretty.pretty_N_go x s) = ds ++ String.list_byte_of_string s /\
    forallb is_digit ds = true /\ decimal_value 0 ds = x /\ (0 < x -> ds <> []).
Proof.
  revert s. induction x as [x IH] using (well_founded_induction N.lt_wf_0). intros s.
  destruct (decide (x = 0)) as [->|Hx].
  { exists []. rewrite pretty.pretty_N_go_0. by split_and!. }
  rewrite pretty.pretty_N_go_step by lia.
  destruct (IH (x `div` 10) ltac:(apply N.div_lt; lia) (String (pretty.pretty_N_char (x `mod` 10)) s)) as
    (ds & Hs & Hd & Hv & _).
  pose proof (N.mod_lt x 10 ltac:(lia)) as Hlt. pose proof (N.div_mod x 10 ltac:(lia)) as Hdiv.
  pose proof (pretty_N_char_digit _ Hlt) as Hc.
  exists (ds ++ [Stdlib.Strings.Ascii.byte_of_ascii (pretty.pretty_N_char (x `mod` 10))]). split_and!.
  - by rewrite Hs, list_byte_of_string_cons, <-app_assoc.
  - rewrite forallb_app, Hd. cbn [forallb andb]. unfold is_digit. rewrite Hc.
    rewrite andb_true_r. apply andb_true_intro. revert Hlt. generalize (x `mod` 10). intros r Hlt.
    split; apply N.leb_le; lia.
  - unfold decimal_value in *. rewrite foldl_app, Hv. cbn [foldl]. rewrite Hc. rewrite N.add_sub, N.mul_comm. by symmetry.
  - intros _ [_ [=]]%app_eq_nil.
Qed.

(** [std::to_string] writes the digits of its argument. *)
Lemma to_decimal_digits n :
  forallb is_digit (to_decimal n) = true /\ decimal_value 0 (to_decimal n) = n /\ to_decimal n <> [].
Proof.
  unfold to_decimal, pretty.pretty, pretty.pretty_N. destruct (decide (n = 0)) as [->|Hn]; [done|].
  destruct (pretty_N_go_digits n EmptyString) as (ds & -> & Hd & Hv & Hne).
  rewrite app_nil_r. split_and!; [done..|apply Hne; lia].
Qed.

Lemma digits_no_char c l : forallb is_digit l = true -> is_digit c = false -> c ∉ l.
Proof.
  intros Hl Hc Hin. rewrite forallb_forall in Hl.
  rewrite Hl in Hc by by apply list_elem_of_In. done.
Qed.

Lemma find_char_app c l1 l2 : c ∉ l1 -> find_char c (l1 ++ c :: l2) = Some (length l1).
Proof.
  induction l1 as [|x l1 IH]; intros Hin; cbn [app find_char length].
  - by rewrite bool_decide_eq_true_2.
  - apply not_elem_of_cons in Hin as [Hx Hin]. rewrite bool_decide_eq_false_2 by done. by rewrite IH.
Qed.

Lemma find_char_None c l : find_char c l = None <-> c ∉ l.
Proof.
  induction l as [|x l IH]; cbn [find_char]; [split; [intros _; apply not_elem_of_nil|done]|].
  rewrite not_elem_of_cons. destruct (bool_decide_reflect (x = c)) as [->|Hx]; [naive_solver|].
  destruct (find_char c l); cbn; naive_solver.
Qed.

Lemma rfind_char_None c l : c ∉ l -> rfind_char c l = None.
Proof.
  induction l as [|x l IH]; intros Hin; [done|]. apply not_elem_of_cons in Hin as [Hx Hin]. cbn [rfind_char].
  rewrite IH by done. by rewrite bool_decide_eq_false_2.
Qed.

Lemma rfind_char_app c l1 l2 : c ∉ l2 -> rfind_char c (l1 ++ c :: l2) = Some (length l1).
Proof.
  intros Hin. induction l1 as [|x l1 IH]; cbn [app rfind_char length].
  - rewrite rfind_char_None by done. by rewrite bool_decide_eq_true_2.
  - by rewrite IH.
Qed.

(** The printed endpoint is split where it was put together. *)
Lemma split_endpoint_to_string e :
  host e <> [] -> x5d ∉ host e -> (head (host e) = Some x5b -> x3a ∈ host e) ->
  split_endpoint (endpoint_to_string e) = Ok (host e, to_decimal (port e)).
Proof.
  intros Hne Hclose Hopen. destruct (to_decimal_digits (port e)) as (Hd & _ & _).
  pose proof (digits_no_char x3a _ Hd eq_refl) as Hcolon.
  unfold endpoint_to_string. destruct (find_char x3a (host e)) as [i|] eqn:Hf.
  - change (str "[" ++ host e ++ str "]:" ++ to_decimal (port e))
      with ((x5b :: host e) ++ x5d :: x3a :: to_decimal (port e)).
    assert (x5d ∉ x5b :: host e) as Hin by (rewrite not_elem_of_cons; by split).
    unfold split_endpoint. cbn [app]. change (x5b :: host e ++ x5d :: x3a :: to_decimal (port e))
      with ((x5b :: host e) ++ x5d :: x3a :: to_decimal (port e)).
    rewrite find_char_app by done. rewrite <-drop_drop, drop_app_length. cbn [drop app length].
    by rewrite Nat.sub_succ, Nat.sub_0_r, drop_0, take_app_length.
  - apply find_char_None in Hf. destruct (host e) as [|c h] eqn:Hh; [done|].
    assert (c <> x5b) as Hc by (intros ->; by apply Hf, Hopen).
    unfold split_endpoint. cbn [app].
    transitivity (match rfind_char x3a ((c :: h) ++ x3a :: to_decimal (port e)) with
      | None => Ok (default_host, (c :: h) ++ x3a :: to_decimal (port e))
      | Some colon => Ok (take colon ((c :: h) ++ x3a :: to_decimal (port e)),
                          drop (colon + 1) ((c :: h) ++ x3a :: to_decimal (port e)))
      end); [by destruct c|].
    rewrite rfind_char_app by done. rewrite take_app_length. do 2 f_equal.
    by rewrite <-drop_drop, drop_app_length.
Qed.

(** ** The send loop *)

Lemma send_loop_spec fuel os calls size written :
  written <= size -> size - written <= N.of_nat fuel ->
  let '(status, total) := send_loop fuel os calls size written in
  written <= total <= size /\ (status = IoStatus.Ok <-> total = size) /\
  forall more, (fuel <= more)%nat -> send_loop more os calls size written = (status, total).
Proof.
  revert calls written. induction fuel as [|fuel IH]; intros calls written Hw Hf; cbn [send_loop].
  { rewrite (proj2 (N.leb_le _ _)) by lia. split_and!; [lia..|split; [lia|done]|].
    intros [|more] _; cbn [send_loop]; by rewrite (proj2 (N.leb_le _ _)) by lia. }
  destruct (N.leb_spec size written) as [Hle|Hlt].
  { split_and!; [lia..|split; [lia|done]|].
    intros [|more] ?; [lia|]; cbn [send_loop]; by rewrite (proj2 (N.leb_le _ _)) by lia. }
  set (request := if _ <? _ then _ else _).
  assert (1 <= request /\ request <= size - written) as [Hr1 Hr2].
  { unfold request. change (N.shiftl 1 20) with 1048576. destruct (N.ltb_spec 1048576 (size - written)); lia. }
  destruct (os calls) as [n|code] eqn:Hos.
  - destruct (N.eqb_spec n 0) as [->|Hn].
    + split_and!; [lia..|split; [done|lia]|]. intros [|more] ?; [lia|]. cbn [send_loop].
      rewrite (proj2 (N.leb_gt _ _)) by lia. by rewrite Hos.
    + specialize (IH (S calls) (written + N.min n request) ltac:(lia) ltac:(lia)).
      destruct (send_loop fuel os (S calls) size _) as [status total] eqn:E. destruct IH as (H1 & H2 & H3).
      split_and!; [lia..|exact H2|]. intros [|more] Hm; [lia|]. cbn [send_loop].
      rewrite (proj2 (N.leb_gt _ _)) by lia. rewrite Hos, (proj2 (N.eqb_neq _ _)) by done.
      apply H3. lia.
  - split_and!; [lia..|split; [by destruct code|lia]|]. intros [|more] ?; [lia|]. cbn [send_loop].
    rewrite (proj2 (N.leb_gt _ _)) by lia. by rewrite Hos.
Qed.

Lemma send_fuel fuel os data :
  (length data <= fuel)%nat -> send_loop fuel os 0 (blen data) 0 = send_all os true data.
Proof.
  intros Hf. unfold send_all. pose proof (send_loop_spec (length data) os 0 (blen data) 0 ltac:(lia)
    ltac:(unfold blen; lia)) as H.
  destruct (send_loop (length data) os 0 (blen data) 0) as [status total]. by apply H.
Qed.

Lemma send_all_spec os data :
  let '(status, written) := send_all os true data in
  written <= blen data /\ (status = IoStatus.Ok <-> written = blen data).
Proof.
  unfold send_all. pose proof (send_loop_spec (length data) os 0 (blen data) 0 ltac:(lia)
    ltac:(unfold blen; lia)) as H.
  destruct (send_loop (length data) os 0 (blen data) 0) as [status total]. split; [lia|apply H].
Qed.

(** Calls that all take something send everything. *)
Lemma send_loop_taken fuel os calls size written :
  (forall k, exists n, os k = Taken n /\ n <> 0) -> size - written <= N.of_nat fuel ->
  (send_loop fuel os calls size written).1 = IoStatus.Ok.
Proof.
  intros Hos. revert calls written. induction fuel as [|fuel IH]; intros calls written Hf; cbn [send_loop];
    (destruct (N.leb_spec size written); [done|]); [lia|].
  destruct (Hos calls) as (n & -> & Hn). rewrite (proj2 (N.eqb_neq _ _)) by done. apply IH.
  change (N.shiftl 1 20) with 1048576. destruct (N.ltb_spec 1048576 (size - written)); lia.
Qed.

Lemma recv_some_ok os capacity data :
  recv_some os true capacity = (IoStatus.Ok, data) -> data <> [] /\ blen data <= capacity.
Proof.
  unfold recv_some. cbn [negb]. destruct os as [got|code]; [|by destruct code].
  destruct (bool_decide_reflect (take (N.to_nat (if N.shiftl 1 20 <? capacity then N.shiftl 1 20 else capacity)) got = []))
    as [|Hne]; [done|].
  intros [= <-]. split; [exact Hne|]. unfold blen. rewrite length_take.
  destruct (N.ltb_spec (N.shiftl 1 20) capacity); lia.
Qed.

(** ** Properties *)

(** An endpoint is parsed back from its text when its host is not empty,
    holds no closing bracket, and begins with an opening bracket only if it holds
    a colon; and whatever text is accepted gives a host and a port of 16 bits,
    the decimal value of digits behind the host. *)
Theorem endpoint_roundtrip e :
  (host e <> [] -> x5d ∉ host e -> (head (host e) = Some x5b -> x3a ∈ host e) -> port e <= 65535 ->
   parse_endpoint (endpoint_to_string e) = Ok e) /\
  forall text, parse_endpoint text = Ok e ->
    host e <> [] /\ port e <= 65535 /\
    exists front body, text = front ++ body /\ body <> [] /\ forallb is_digit body = true /\
      port e = decimal_value 0 body.
Proof.
  split.
  - intros Hne Hclose Hopen Hport. unfold parse_endpoint.
    rewrite (split_endpoint_to_string e Hne Hclose Hopen). cbn [mbind expected_bind].
    destruct (to_decimal_digits (port e)) as (Hd & Hv & Hdne).
    rewrite bool_decide_eq_false_2 by done. cbn [guard_fail].
    rewrite parse_port_spec by lia. rewrite Hd, Hv, (proj2 (N.leb_le _ _)) by done. cbn [andb mbind expected_bind].
    rewrite bool_decide_eq_false_2 by done. by destruct e.
  - intros text Hp. unfold parse_endpoint in Hp. apply expected_bind_ok in Hp as ([h body] & Hs & Hp).
    unfold guard_fail in Hp. destruct (bool_decide_reflect (body = [])) as [|Hb]; [done|].
    apply expected_bind_ok in Hp as (p & Hp & [= <-]). cbn [host port].
    rewrite parse_port_spec in Hp by lia. destruct (_ && _) eqn:Hd; [|done]. injection Hp as <-. to_prop.
    split_and!; [|lia|].
    { destruct (bool_decide_reflect (h = [])); [done|assumption]. }
    unfold split_endpoint in Hs. exists (take (length text - length body) text), body.
    assert (exists front, text = front ++ body) as [front ->].
    { assert (forall n, exists front, text = front ++ drop n text) as Hdrop
        by (intros n; exists (take n text); by rewrite take_drop).
      break_in Hs; try (by exists []); try apply Hdrop;
      match goal with H : drop ?n _ = ?c :: _ |- _ => destruct (Hdrop n) as [front Hfront]; exists (front ++ [c]);
        rewrite <-app_assoc; cbn [app]; rewrite <-H; exact Hfront end. }
    split_and!; try done. rewrite length_app, Nat.add_sub. by rewrite take_app_length.
Qed.

Lemma endpoint_roundtrip_witness :
  host (mkEndpoint (str "::1") 8080) <> [] /\
  parse_endpoint (endpoint_to_string (mkEndpoint (str "::1") 8080)) = Ok (mkEndpoint (str "::1") 8080).
Proof.
  split; [done|]. apply (proj1 (endpoint_roundtrip (mkEndpoint (str "::1") 8080))); try done.
  by apply (bool_decide_unpack _).
Defined.

(** The send loop hands a prefix of the buffer to the operating system,
    ends after as many calls as there are bytes, and answers OK exactly when the
    whole buffer was taken; a timeout set on a socket, which POSIX reports as
    EAGAIN, is not told from other errors. *)
Theorem send_all_complete os data :
  (let '(status, written) := send_all os true data in
   written <= blen data /\ (status = IoStatus.Ok <-> written = blen data) /\
   forall extra, send_loop (length data + extra) os 0 (blen data) 0 = (status, written)) /\
  classify_error EAGAIN = IoStatus.Error.
Proof.
  split; [|done]. pose proof (send_all_spec os data) as H. pose proof (fun n => send_fuel n os data) as Hf.
  destruct (send_all os true data) as [status written]. destruct H as [H1 H2]. split_and!; [done..|].
  intros extra. apply Hf. lia.
Qed.
