(* ===== verification/Sockets.v ===== *)
(** * Sockets and their handles (include/isf/net.hpp, src/net.cpp)

    The objects that own a descriptor, [Socket] and [Listener], with their moves,
    and the functions that open one: [bind_listener], [accept], [connect_socket].
    The descriptors a process has open are a map, with the blocking mode of each;
    what a system call answers is an argument.  The POSIX half of the conditional
    compilation is modelled. *)

From stdpp Require Import gmap.
From Stdlib Require Import ZArith.
From S2P Require Import Prelude Outcome Ids Wire Net.

Definition SocketHandle : Type := Z.
Definition kInvalidSocket : SocketHandle := (-1)%Z.

(** The open descriptors; the value tells whether one is in non-blocking mode. *)
Abbreviation Handles := (gmap SocketHandle bool).

Record Socket := mkSocket { handle_ : SocketHandle }.
Record Listener := mkListener { listener_handle : SocketHandle; listener_port : N }.

Definition no_socket : Socket := mkSocket kInvalidSocket.
Definition no_listener : Listener := mkListener kInvalidSocket 0.

Definition socket_valid (s : Socket) : bool := negb (bool_decide (handle_ s = kInvalidSocket)).
Definition listener_valid (l : Listener) : bool := negb (bool_decide (listener_handle l = kInvalidSocket)).

(** ** Ownership *)

(** [close(handle_)] unless the handle is invalid. *)
Definition close_handle (h : SocketHandle) (hs : Handles) : Handles :=
  if bool_decide (h = kInvalidSocket) then hs else delete h hs.

Definition close_socket (s : Socket) (hs : Handles) : Socket * Handles :=
  (no_socket, close_handle (handle_ s) hs).

(** Closing a listener keeps its port. *)
Definition close_listener (l : Listener) (hs : Handles) : Listener * Handles :=
  (mkListener kInvalidSocket (listener_port l), close_handle (listener_handle l) hs).

(** [this = std::move(other)]: the assigned object, the other one, the handles. *)
Definition move_socket (this other : Socket) (hs : Handles) : Socket * Socket * Handles :=
  (other, no_socket, (close_socket this hs).2).
Definition move_listener (this other : Listener) (hs : Handles) : Listener * Listener * Handles :=
  (other, no_listener, (close_listener this hs).2).

(** ** Waiting *)

(** What [select] answers on one handle: ready, expired, failed. *)
Inductive SelectAnswer := SelectReady | SelectExpired | SelectFailed.

Definition set_timeouts (os : bool * bool) (s : Socket) : Status :=
  if negb (socket_valid s) then Status.Invalid
  else if negb os.1 then Status.Unavailable
  else if negb os.2 then Status.Unavailable
  else Status.Ok.

(** [set_nodelay] and [set_keepalive]. *)
Definition set_option (os : bool) (s : Socket) : Status :=
  if negb (socket_valid s) then Status.Invalid
  else if negb os then Status.Unavailable
  else Status.Ok.

(** [readable] and the status. *)
Definition wait_readable (os : SelectAnswer) (s : Socket) : bool * Status :=
  if negb (socket_valid s) then (false, Status.Unavailable)
  else
    match os with
    | SelectExpired => (false, Status.Ok)
    | SelectFailed => (false, Status.Unavailable)
    | SelectReady => (true, Status.Ok)
    end.

(** [getpeername] and [inet_ntop]. *)
Definition peer (os : option (option bytes * N)) (s : Socket) : Endpoint :=
  if negb (socket_valid s) then default_endpoint
  else
    match os with
    | Some (Some text, port) => mkEndpoint text port
    | _ => default_endpoint
    end.

(** ** Addresses *)

(** The resolver of the system: [inet_pton] and the first answer of
    [getaddrinfo]. *)
Record Resolver := mkResolver {
  rs_pton : bytes -> option N;
  rs_lookup : bytes -> option N;
}.

Definition resolve_ipv4 (rs : Resolver) (e : Endpoint) : Expected (N * N) :=
  let target := if bool_decide (host e = []) then default_host else host e in
  match rs_pton rs target with
  | Some address => Ok (address, port e)
  | None =>
      match rs_lookup rs target with
      | Some address => Ok (address, port e)
      | None => Fail Status.Invalid
      end
  end.

(** [g_transport_ok] behind [init_transport]. *)
Definition ensure_transport_initialized (transport_ok : bool) : Status :=
  if transport_ok then Status.Ok else Status.Unavailable.

(** ** Opening *)

(** What [bind] gets: the descriptor of [socket], whether [bind] and [listen]
    succeed, and the port that [getsockname] tells. *)
Record BindAnswers := mkBindAnswers {
  ba_transport : bool;
  ba_resolver : Resolver;
  ba_socket : option SocketHandle;
  ba_bound : bool;
  ba_listening : bool;
  ba_name : option N;
}.

Definition bind_listener (os : BindAnswers) (e : Endpoint) (hs : Handles) : Handles * Expected Listener :=
  let ready := ensure_transport_initialized (ba_transport os) in
  if negb (is_ok ready) then (hs, Fail ready)
  else
    match resolve_ipv4 (ba_resolver os) e with
    | Fail status => (hs, Fail status)
    | Ok _ =>
        match ba_socket os with
        | None => (hs, Fail Status.Unavailable)
        | Some h =>
            let hs := <[h := false]> hs in
            if negb (ba_bound os) then (delete h hs, Fail Status.Unavailable)
            else if negb (ba_listening os) then (delete h hs, Fail Status.Unavailable)
            else (hs, Ok (mkListener h (default (port e) (ba_name os))))
        end
    end.

(** The descriptor of [accept], the text of the peer's address and its port. *)
Definition accept (os : option (SocketHandle * (option bytes * N))) (l : Listener) (peer : Endpoint)
    (hs : Handles) : Handles * Endpoint * Expected Socket :=
  if negb (listener_valid l) then (hs, peer, Fail Status.Unavailable)
  else
    match os with
    | None => (hs, peer, Fail Status.Unavailable)
    | Some (h, (text, p)) =>
        (<[h := false]> hs, mkEndpoint (default (host peer) text) p, Ok (mkSocket h))
    end.

(** [accept_for], with [timed_out]; no other thread has closed the listener
    meanwhile. *)
Definition accept_for (ready : SelectAnswer) (os : option (SocketHandle * (option bytes * N)))
    (l : Listener) (peer : Endpoint) (hs : Handles) : Handles * Endpoint * bool * Expected Socket :=
  if negb (listener_valid l) then (hs, peer, false, Fail Status.Unavailable)
  else
    match ready with
    | SelectExpired => (hs, peer, true, Fail Status.Unavailable)
    | SelectFailed => (hs, peer, false, Fail Status.Unavailable)
    | SelectReady =>
        let '(hs, peer, accepted) := accept os l peer hs in (hs, peer, false, accepted)
    end.

(** How the call [connect] ends: at once, refused, or in progress, with what
    [select] and then [SO_ERROR] answer. *)
Inductive ConnectAnswer :=
| ConnectedAtOnce
| ConnectRefused
| InProgress (ready : SelectAnswer) (socket_error : option Z).

Record DialAnswers := mkDialAnswers {
  da_transport : bool;
  da_resolver : Resolver;
  da_socket : option SocketHandle;
  da_connect : ConnectAnswer;
}.

(** The descriptor is put into non-blocking mode for the connect and back
    afterwards; [out] takes it over.  The two [fcntl] calls, whose results the code
    does not look at, act on the descriptor just created and are taken to succeed. *)
Definition connect_socket (os : DialAnswers) (e : Endpoint) (out : Socket) (hs : Handles) :
    Handles * Socket * Status :=
  let ready := ensure_transport_initialized (da_transport os) in
  if negb (is_ok ready) then (hs, out, ready)
  else
    match resolve_ipv4 (da_resolver os) e with
    | Fail status => (hs, out, status)
    | Ok _ =>
        match da_socket os with
        | None => (hs, out, Status.Unavailable)
        | Some h =>
            let hs := <[h := false]> hs in
            let hs := <[h := true]> hs in
            let failed :=
              match da_connect os with
              | ConnectedAtOnce => None
              | ConnectRefused => Some Status.Unavailable
              | InProgress SelectExpired _ => Some Status.Unavailable
              | InProgress SelectFailed _ => Some Status.Busy
              | InProgress SelectReady (Some 0%Z) => None
              | InProgress SelectReady _ => Some Status.Unavailable
              end in
            match failed with
            | Some status => (delete h hs, out, status)
            | None =>
                let '(out, _, hs) := move_socket out (mkSocket h) (<[h := false]> hs) in
                (hs, out, Status.Ok)
            end
        end
    end.

(** ** The objects of a process *)

Inductive Object := TheSocket (s : Socket) | TheListener (l : Listener).

Definition handle_of (o : Object) : SocketHandle :=
  match o with TheSocket s => handle_ s | TheListener l => listener_handle l end.

Record Process := mkProcess { pr_objects : gmap nat Object; pr_open : Handles }.

Definition set_object (a : nat) (o : Object) (hs : Handles) (p : Process) : Process :=
  mkProcess (<[a := o]> (pr_objects p)) hs.

Inductive SocketEvent :=
| NewSocket (a : nat)
| NewListener (a : nat)
| Bind (a : nat) (os : BindAnswers) (e : Endpoint)
| AcceptInto (a : nat) (l : nat) (os : option (SocketHandle * (option bytes * N)))
| Dial (a : nat) (os : DialAnswers) (e : Endpoint)
| Move (a b : nat)
| Close (a : nat)
| Destroy (a : nat).

(** One statement on the objects; what [bind] and [accept] return is moved into
    the object [a]. *)
Definition socket_step (p : Process) (e : SocketEvent) : Process :=
  let objects := pr_objects p in
  let hs := pr_open p in
  match e with
  | NewSocket a => if objects !! a then p else set_object a (TheSocket no_socket) hs p
  | NewListener a => if objects !! a then p else set_object a (TheListener no_listener) hs p
  | Bind a os e =>
      match objects !! a with
      | Some (TheListener l) =>
          match bind_listener os e hs with
          | (hs, Ok bound) => let '(l, _, hs) := move_listener l bound hs in set_object a (TheListener l) hs p
          | (hs, Fail _) => mkProcess objects hs
          end
      | _ => p
      end
  | AcceptInto a l os =>
      match objects !! l, objects !! a with
      | Some (TheListener l), Some (TheSocket s) =>
          match accept os l default_endpoint hs with
          | (hs, _, Ok accepted) => let '(s, _, hs) := move_socket s accepted hs in set_object a (TheSocket s) hs p
          | (hs, _, Fail _) => mkProcess objects hs
          end
      | _, _ => p
      end
  | Dial a os e =>
      match objects !! a with
      | Some (TheSocket s) =>
          let '(hs, s, _) := connect_socket os e s hs in set_object a (TheSocket s) hs p
      | _ => p
      end
  | Move a b =>
      if bool_decide (a = b) then p
      else
        match objects !! a, objects !! b with
        | Some (TheSocket s), Some (TheSocket t) =>
            let '(s, t, hs) := move_socket s t hs in
            set_object b (TheSocket t) hs (set_object a (TheSocket s) hs p)
        | Some (TheListener s), Some (TheListener t) =>
            let '(s, t, hs) := move_listener s t hs in
            set_object b (TheListener t) hs (set_object a (TheListener s) hs p)
        | _, _ => p
        end
  | Close a =>
      match objects !! a with
      | Some (TheSocket s) => let '(s, hs) := close_socket s hs in set_object a (TheSocket s) hs p
      | Some (TheListener l) => let '(l, hs) := close_listener l hs in set_object a (TheListener l) hs p
      | None => p
      end
  | Destroy a =>
      match objects !! a with
      | Some o => mkProcess (delete a objects) (close_handle (handle_of o) hs)
      | None => p
      end
  end.

(** The descriptor a system call answers is not negative and not open. *)
Definition fresh (h : option SocketHandle) (hs : Handles) : Prop :=
  forall h', h = Some h' -> (0 <= h')%Z /\ hs !! h' = None.

Definition answers_fresh (p : Process) (e : SocketEvent) : Prop :=
  match e with
  | Bind _ os _ => fresh (ba_socket os) (pr_open p)
  | AcceptInto _ _ os => fresh (fst <$> os) (pr_open p)
  | Dial _ os _ => fresh (da_socket os) (pr_open p)
  | _ => True
  end.

(** Every state of a run is followed by a step with fresh answers. *)
Fixpoint run_fresh (p : Process) (events : list SocketEvent) : Prop :=
  match events with
  | [] => True
  | e :: events => answers_fresh p e /\ run_fresh (socket_step p e) events
  end.

Definition socket_run (p : Process) (events : list SocketEvent) : Process := foldl socket_step p events.

Definition no_objects : Process := mkProcess ∅ ∅.

(** ** Lemmas *)

(** The open descriptors are those of the objects with a valid handle, one each,
    and none is left in non-blocking mode. *)
Record owned (p : Process) : Prop := {
  ow_open : forall a o, pr_objects p !! a = Some o -> handle_of o <> kInvalidSocket ->
    pr_open p !! handle_of o = Some false;
  ow_owner : forall h mode, pr_open p !! h = Some mode ->
    h <> kInvalidSocket /\ exists a o, pr_objects p !! a = Some o /\ handle_of o = h;
  ow_unique : forall a b oa ob, pr_objects p !! a = Some oa -> pr_objects p !! b = Some ob ->
    handle_of oa <> kInvalidSocket -> handle_of oa = handle_of ob -> a = b;
}.

Lemma close_handle_lookup h hs k :
  close_handle h hs !! k = if bool_decide (h = k /\ h <> kInvalidSocket) then None else hs !! k.
Proof.
  unfold close_handle. destruct (decide (h = kInvalidSocket)) as [->|Hn].
  - rewrite bool_decide_eq_true_2 by done. by rewrite bool_decide_eq_false_2 by (by intros [_ ?]).
  - rewrite (bool_decide_eq_false_2 (h = kInvalidSocket)) by done. destruct (decide (h = k)) as [->|Hk].
    + rewrite lookup_delete_eq. by rewrite bool_decide_eq_true_2.
    + rewrite lookup_delete_ne by done. by rewrite bool_decide_eq_false_2 by (by intros [? _]).
Qed.

Lemma close_handle_fresh h k hs :
  hs !! k = None -> h <> k -> close_handle h (<[k := false]> hs) = <[k := false]> (close_handle h hs).
Proof.
  intros Hk Hne. apply map_eq. intros i. rewrite close_handle_lookup.
  destruct (decide (k = i)) as [->|Hi].
  - rewrite !lookup_insert_eq. by rewrite bool_decide_eq_false_2 by naive_solver.
  - by rewrite !lookup_insert_ne, close_handle_lookup by done.
Qed.

Section Owned.
Context (p : Process) (Hp : owned p).

(** An object that has its handle closed and gets another one: none, or a fresh
    one. *)
Lemma owned_replace a o o' :
  pr_objects p !! a = Some o -> handle_of o' = kInvalidSocket ->
  owned (set_object a o' (close_handle (handle_of o) (pr_open p)) p).
Proof.
  intros Ha Ho'. split; cbn [pr_objects pr_open set_object].
  - intros b ob Hb Hv. apply lookup_insert_Some in Hb as [[-> ->]|[Hne Hb]]; [done|].
    rewrite close_handle_lookup, bool_decide_eq_false_2; [by apply (ow_open _ Hp b)|].
    intros [Heq ?]. by apply Hne, (ow_unique _ Hp a b o ob).
  - intros h mode Hh. rewrite close_handle_lookup in Hh. case_bool_decide as Hc; [done|].
    destruct (ow_owner _ Hp _ _ Hh) as (Hv & b & ob & Hb & Heq). split; [done|].
    exists b, ob. split; [|done]. rewrite lookup_insert_ne; [done|]. intros ->. simplify_eq. naive_solver.
  - intros b c ob oc Hb Hc Hv Heq.
    apply lookup_insert_Some in Hb as [[-> ->]|[Hnb Hb]]; [done|].
    apply lookup_insert_Some in Hc as [[-> ->]|[Hnc Hc]]; [by rewrite Heq in Hv|].
    by apply (ow_unique _ Hp b c ob oc).
Qed.

Lemma owned_take_over a o o' :
  pr_objects p !! a = Some o -> (0 <= handle_of o')%Z -> pr_open p !! handle_of o' = None ->
  owned (set_object a o' (close_handle (handle_of o) (<[handle_of o' := false]> (pr_open p))) p).
Proof.
  intros Ha Hpos Hfresh.
  assert (handle_of o' <> kInvalidSocket) as Hv' by (unfold kInvalidSocket; lia).
  assert (forall b ob, pr_objects p !! b = Some ob -> handle_of ob <> handle_of o') as Hnew.
  { intros b ob Hb Heq. pose proof (ow_open _ Hp b ob Hb) as H. rewrite Heq, Hfresh in H. by specialize (H Hv'). }
  rewrite close_handle_fresh by (done || by eapply Hnew). split; cbn [pr_objects pr_open set_object].
  - intros b ob Hb Hv. apply lookup_insert_Some in Hb as [[-> ->]|[Hne Hb]]; [by rewrite lookup_insert_eq|].
    rewrite lookup_insert_ne by (intros E; by apply (Hnew b ob)).
    rewrite close_handle_lookup, bool_decide_eq_false_2; [by apply (ow_open _ Hp b)|].
    intros [Heq ?]. by apply Hne, (ow_unique _ Hp a b o ob).
  - intros h mode Hh. apply lookup_insert_Some in Hh as [[<- <-]|[Hne Hh]].
    { split; [done|]. exists a, o'. by rewrite lookup_insert_eq. }
    rewrite close_handle_lookup in Hh. case_bool_decide as Hc; [done|].
    destruct (ow_owner _ Hp _ _ Hh) as (Hv & b & ob & Hb & Heq). split; [done|].
    exists b, ob. split; [|done]. rewrite lookup_insert_ne; [done|]. intros ->. simplify_eq. naive_solver.
  - intros b c ob oc Hb Hc Hv Heq.
    apply lookup_insert_Some in Hb as [[-> ->]|[Hnb Hb]]; apply lookup_insert_Some in Hc as [[-> ->]|[Hnc Hc]];
      [done|by destruct (Hnew c oc Hc)|by destruct (Hnew b ob Hb)|by apply (ow_unique _ Hp b c ob oc)].
Qed.

(** The handle of [b] goes to [a]. *)
Lemma owned_move a b oa ob oa' ob' :
  a <> b -> pr_objects p !! a = Some oa -> pr_objects p !! b = Some ob ->
  handle_of oa' = handle_of ob -> handle_of ob' = kInvalidSocket ->
  let hs := close_handle (handle_of oa) (pr_open p) in owned (set_object b ob' hs (set_object a oa' hs p)).
Proof.
  intros Hab Ha Hb Hoa' Hob' hs.
  (* close [a], swap the two handles *)
  pose proof (fun o' => owned_replace a oa o' Ha) as Hclosed.
  specialize (Hclosed (TheSocket no_socket) eq_refl). destruct Hclosed as [H1 H2 H3].
  cbn [pr_objects pr_open set_object] in H1, H2, H3. fold hs in H1, H2.
  split; cbn [pr_objects pr_open set_object].
  - intros c oc Hc Hv. apply lookup_insert_Some in Hc as [[-> ->]|[Hne Hc]]; [done|].
    apply lookup_insert_Some in Hc as [[-> ->]|[Hnc Hc]].
    + rewrite Hoa' in *. apply (H1 b); [by rewrite lookup_insert_ne|done].
    + apply (H1 c); [by rewrite lookup_insert_ne|done].
  - intros h mode Hh. destruct (H2 _ _ Hh) as (Hv & c & oc & Hc & Heq). split; [done|].
    apply lookup_insert_Some in Hc as [[-> <-]|[Hne Hc]]; [by subst h|].
    destruct (decide (c = b)) as [->|Hcb].
    + exists a, oa'. rewrite lookup_insert_ne, lookup_insert_eq by done. naive_solver.
    + exists c, oc. by rewrite !lookup_insert_ne by done.
  - intros c d oc od Hc Hd Hv Heq.
    apply lookup_insert_Some in Hc as [[-> ->]|[Hnc Hc]]; [done|].
    apply lookup_insert_Some in Hd as [[-> ->]|[Hnd Hd]]; [by rewrite Heq in Hv|].
    apply lookup_insert_Some in Hc as [[-> ->]|[Hnc' Hc]]; apply lookup_insert_Some in Hd as [[-> ->]|[Hnd' Hd]].
    + done.
    + exfalso. apply Hnd. apply (ow_unique _ Hp b d ob od); congruence.
    + exfalso. apply Hnc. apply (ow_unique _ Hp b c ob oc); congruence.
    + by apply (ow_unique _ Hp c d oc od).
Qed.

Lemma owned_new a o : pr_objects p !! a = None -> handle_of o = kInvalidSocket -> owned (set_object a o (pr_open p) p).
Proof.
  intros Ha Ho. split; cbn [pr_objects pr_open set_object].
  - intros b ob Hb Hv. apply lookup_insert_Some in Hb as [[-> ->]|[Hne Hb]]; [done|]. by apply (ow_open _ Hp b).
  - intros h mode Hh. destruct (ow_owner _ Hp _ _ Hh) as (Hv & b & ob & Hb & Heq). split; [done|].
    exists b, ob. rewrite lookup_insert_ne; [done|]. congruence.
  - intros b c ob oc Hb Hc Hv Heq.
    apply lookup_insert_Some in Hb as [[-> ->]|[Hnb Hb]]; [done|].
    apply lookup_insert_Some in Hc as [[-> ->]|[Hnc Hc]]; [by rewrite Heq in Hv|].
    by apply (ow_unique _ Hp b c ob oc).
Qed.

Lemma owned_destroy a o :
  pr_objects p !! a = Some o -> owned (mkProcess (delete a (pr_objects p)) (close_handle (handle_of o) (pr_open p))).
Proof.
  intros Ha. destruct (owned_replace a o (TheSocket no_socket) Ha eq_refl) as [H1 H2 H3].
  cbn [pr_objects pr_open set_object] in H1, H2, H3. split; cbn [pr_objects pr_open].
  - intros b ob Hb Hv. apply lookup_delete_Some in Hb as [Hne Hb]. apply (H1 b); [by rewrite lookup_insert_ne|done].
  - intros h mode Hh. destruct (H2 _ _ Hh) as (Hv & b & ob & Hb & Heq). split; [done|].
    apply lookup_insert_Some in Hb as [[-> <-]|[Hne Hb]]; [by subst h|]. exists b, ob. by rewrite lookup_delete_ne.
  - intros b c ob oc Hb Hc. apply lookup_delete_Some in Hb as [Hnb Hb]. apply lookup_delete_Some in Hc as [Hnc Hc].
    by apply (ow_unique _ Hp b c ob oc).
Qed.
End Owned.

(** A descriptor that is opened and closed again leaves nothing. *)
Lemma delete_fresh (h : SocketHandle) (mode : bool) (hs : Handles) : hs !! h = None -> delete h (<[h := mode]> hs) = hs.
Proof. apply delete_insert_id. Qed.

Lemma bind_listener_cases os e hs :
  fresh (ba_socket os) hs ->
  match bind_listener os e hs with
  | (hs', Fail _) => hs' = hs
  | (hs', Ok l) => ba_socket os = Some (listener_handle l) /\ hs' = <[listener_handle l := false]> hs
  end.
Proof.
  intros Hf. unfold bind_listener. destruct (negb _); [done|]. destruct (resolve_ipv4 _ _); [|done].
  destruct (ba_socket os) as [h|] eqn:Hs; [|done]. destruct (Hf h eq_refl) as [_ Hn].
  destruct (negb (ba_bound os)); [by apply delete_fresh|]. destruct (negb (ba_listening os)); [by apply delete_fresh|].
  done.
Qed.

Lemma connect_socket_cases os e out hs :
  fresh (da_socket os) hs ->
  let '(hs', out', status) := connect_socket os e out hs in
  (status <> Status.Ok /\ hs' = hs /\ out' = out) \/
  (status = Status.Ok /\ da_socket os = Some (handle_ out') /\
   hs' = close_handle (handle_ out) (<[handle_ out' := false]> hs)).
Proof.
  intros Hf. unfold connect_socket. destruct (da_transport os); cbn [ensure_transport_initialized];
    [change (is_ok Status.Ok) with true|by left]. cbn [negb].
  destruct (resolve_ipv4 _ _) as [address|status] eqn:Hr.
  2: { left. split_and!; [|done..]. unfold resolve_ipv4 in Hr. destruct (rs_pton _ _); [done|]. destruct (rs_lookup _ _); [done|].
       by injection Hr as <-. }
  destruct (da_socket os) as [h|] eqn:Hs; [|by left]. destruct (Hf h eq_refl) as [_ Hn].
  rewrite !insert_insert_eq.
  destruct (da_connect os) as [| |[] [[| |]|]]; cbv beta iota zeta; rewrite ?delete_fresh by done;
    ((by left) || (right; cbn; by rewrite ?insert_insert_eq)).
Qed.

Lemma socket_step_owned p e : owned p -> answers_fresh p e -> owned (socket_step p e).
Proof.
  intros Hp Hf. destruct p as [objects hs]. destruct e as [a|a|a os e|a l os|a os e|a b|a|a]; cbn [socket_step pr_objects pr_open].
  - destruct (objects !! a) eqn:Ha; [done|]. by apply (owned_new (mkProcess objects hs)).
  - destruct (objects !! a) eqn:Ha; [done|]. by apply (owned_new (mkProcess objects hs)).
  - destruct (objects !! a) as [[s|l]|] eqn:Ha; [done| |done].
    pose proof (bind_listener_cases os e hs Hf) as Hb. destruct (bind_listener os e hs) as [hs' [l'|status]].
    + destruct Hb as [Hs ->]. destruct (Hf _ Hs) as [Hpos Hn].
      by apply (owned_take_over (mkProcess objects hs) Hp a (TheListener l) (TheListener l')).
    + by subst hs'.
  - destruct (objects !! l) as [[s|l']|] eqn:Hl; [done| |done].
    destruct (objects !! a) as [[s|]|] eqn:Ha; [|done..].
    unfold accept. destruct (negb (listener_valid l')); [done|]. destruct os as [[h [text q]]|]; [|done].
    destruct (Hf h eq_refl) as [Hpos Hn].
    by apply (owned_take_over (mkProcess objects hs) Hp a (TheSocket s) (TheSocket (mkSocket h))).
  - destruct (objects !! a) as [[s|]|] eqn:Ha; [|done..].
    pose proof (connect_socket_cases os e s hs Hf) as Hc. destruct (connect_socket os e s hs) as [[hs' s'] status].
    destruct Hc as [(_ & -> & ->)|(_ & Hs & ->)].
    + unfold set_object. cbn [pr_objects]. by rewrite insert_id.
    + destruct (Hf _ Hs) as [Hpos Hn]. by apply (owned_take_over (mkProcess objects hs) Hp a (TheSocket s) (TheSocket s')).
  - case_bool_decide as Hab; [done|].
    destruct (objects !! a) as [[s|s]|] eqn:Ha; [| |done]; (destruct (objects !! b) as [[t|t]|] eqn:Hb; [try done|try done|done]).
    + by apply (owned_move (mkProcess objects hs) Hp a b (TheSocket s) (TheSocket t)).
    + by apply (owned_move (mkProcess objects hs) Hp a b (TheListener s) (TheListener t)).
  - destruct (objects !! a) as [[s|l]|] eqn:Ha; [| |done].
    + by apply (owned_replace (mkProcess objects hs) Hp a (TheSocket s)).
    + by apply (owned_replace (mkProcess objects hs) Hp a (TheListener l) (TheListener (mkListener kInvalidSocket _))).
  - destruct (objects !! a) as [o|] eqn:Ha; [|done]. by apply (owned_destroy (mkProcess objects hs)).
Qed.

(** ** Properties *)

(** C34: over any sequence of binds, accepts, connects, moves, closes and
    destructions, failed ones included, the open descriptors are exactly those of
    the objects with a valid handle, each has one owner and is in blocking mode;
    no descriptor is left when the objects are gone. *)
Theorem handles_never_leak events :
  run_fresh no_objects events ->
  let p := socket_run no_objects events in
  owned p /\ (pr_objects p = ∅ -> pr_open p = ∅).
Proof.
  intros Hf p. assert (owned p) as Hp.
  { assert (owned no_objects) as H0 by done. unfold p, socket_run. clear p. revert Hf H0.
    generalize no_objects. induction events as [|e events IH]; intros p Hf Hp; [done|].
    destruct Hf as [He Hf]. cbn [foldl]. apply IH; [done|]. by apply socket_step_owned. }
  split; [exact Hp|]. intros Hempty. apply map_empty. intros h. destruct (pr_open p !! h) as [mode|] eqn:Hh; [|done].
  destruct (ow_owner _ Hp _ _ Hh) as (_ & a & o & Ha & _). by rewrite Hempty, lookup_empty in Ha.
Qed.

(** ** Witnesses *)

(** A listener that takes a connection, a client whose first connect fails. *)
Definition sample_resolver : Resolver := mkResolver (fun _ => Some 2130706433) (fun _ => None).

Definition sample_sockets : list SocketEvent :=
  [NewListener 0%nat; Bind 0%nat (mkBindAnswers true sample_resolver (Some 3%Z) true true (Some 7000)) default_endpoint;
   NewSocket 1%nat; Dial 1%nat (mkDialAnswers true sample_resolver (Some 4%Z) (InProgress SelectExpired None)) default_endpoint;
   Dial 1%nat (mkDialAnswers true sample_resolver (Some 4%Z) (InProgress SelectReady (Some 0%Z))) default_endpoint;
   NewSocket 2%nat; AcceptInto 2%nat 0%nat (Some (5%Z, (None, 40000)));
   NewSocket 3%nat; Move 3%nat 2%nat; Close 0%nat].

Lemma handles_never_leak_witness :
  let p := socket_run no_objects sample_sockets in
  owned p /\ pr_open p = {[4%Z := false; 5%Z := false]}.
Proof.
  split; [|by vm_compute]. refine (proj1 (handles_never_leak sample_sockets _)).
  unfold sample_sockets. cbn [run_fresh answers_fresh].
  split_and!; try done; intros h Hh; vm_compute in Hh; injection Hh as <-; (split; [lia|vm_compute; reflexivity]).
Defined.
