(* ===== verification/Server.v ===== *)
(** * The server (include/isf/server.hpp, src/server.cpp)

    The front end of a daemon: the accept loop and the loop that serves one
    connection.  One pass of a loop is one function, [accept_turn] and
    [serve_turn]; a run of the server is a sequence of events, in which the turns
    of the accept thread and of the workers are interleaved in any way
    ([server_step]).  The answers of sockets, clocks and the random session
    identity are arguments of a turn.  What a connection has received and sent
    and the requests that were handled are kept as history. *)

From Stdlib Require Import Strings.Byte.
From S2P Require Import Prelude Outcome Ids Lifecycle Policy Wire State Snapshot Store Compaction.
From S2P Require Import Recovery Frames Protocol Replies Daemon Service Net.

Definition kReceiveChunk : N := N.shiftl 64 10.

Record ServerOptions := mkServerOptions {
  so_bind_endpoint : Endpoint;
  so_max_connections : N;
  so_max_frame_bytes : N;
  so_io_timeout_ms : N;
  so_send_timeout_ms : N;
  so_tcp_nodelay : bool;
  so_log_connections : bool;
}.

Definition default_server_options : ServerOptions :=
  mkServerOptions default_endpoint 64 kDefaultMaxFrameBytes 30000 15000 true false.

(** ** Counters *)

Record ServerStats := mkServerStats {
  connections_accepted : N;
  connections_rejected : N;
  connections_active : N;
  connections_closed : N;
  frames_decoded : N;
  frames_rejected : N;
  requests_handled : N;
  responses_sent : N;
  duplicate_requests : N;
  stale_requests : N;
  protocol_mismatches : N;
  idle_timeouts : N;
  bytes_received : N;
  bytes_sent : N;
  shutdown_requests : N;
}.

Definition no_stats : ServerStats := mkServerStats 0 0 0 0 0 0 0 0 0 0 0 0 0 0 0.

Inductive Stat :=
| ConnectionsAccepted | ConnectionsRejected | ConnectionsActive | ConnectionsClosed
| FramesDecoded | FramesRejected | RequestsHandled | ResponsesSent | DuplicateRequests
| StaleRequests | ProtocolMismatches | IdleTimeouts | BytesReceived | BytesSent | ShutdownRequests.
#[export] Instance Stat_eq_dec : EqDecision Stat.
Proof. solve_decision. Defined.

(** [fetch_add(n)] on a 64-bit atomic; [fetch_sub(1)] adds [2 ^ 64 - 1]. *)
Definition fetch_add (k : Stat) (n : N) (s : ServerStats) : ServerStats :=
  let add (k' : Stat) (v : N) := if bool_decide (k = k') then wrap64 (v + n) else v in
  mkServerStats
    (add ConnectionsAccepted (connections_accepted s)) (add ConnectionsRejected (connections_rejected s))
    (add ConnectionsActive (connections_active s)) (add ConnectionsClosed (connections_closed s))
    (add FramesDecoded (frames_decoded s)) (add FramesRejected (frames_rejected s))
    (add RequestsHandled (requests_handled s)) (add ResponsesSent (responses_sent s))
    (add DuplicateRequests (duplicate_requests s)) (add StaleRequests (stale_requests s))
    (add ProtocolMismatches (protocol_mismatches s)) (add IdleTimeouts (idle_timeouts s))
    (add BytesReceived (bytes_received s)) (add BytesSent (bytes_sent s))
    (add ShutdownRequests (shutdown_requests s)).

(** ** State *)

(** What the threads of the server share: the daemon, the counters, the shutdown
    handler with the number of times it has run, and, as history, the calls of
    the daemon. *)
Record Shared := mkShared {
  sh_daemon : Daemon;
  sh_stats : ServerStats;
  sh_handler : bool;
  sh_handler_runs : N;
  sh_calls : list Call;
}.

(** The locals of [serve], and the history of the connection. *)
Record Session := mkSession {
  ss_decoder : FrameDecoder;
  ss_last_sequence : N;
  ss_last_activity_ms : N;
  ss_handshake_complete : bool;
  ss_closing : bool;
  ss_done : bool;
  ss_received : bytes;
  ss_sent : bytes;
  ss_requests : list Request;
}.

Record Connection := mkConnection { cn_index : N; cn_peer : Endpoint; cn_session : Session }.

Definition new_session (o : ServerOptions) (now : N) : Session :=
  mkSession (new_decoder (so_max_frame_bytes o)) 0 now false false false [] [] [].

Definition set_decoder (d : FrameDecoder) (s : Session) : Session :=
  mkSession d (ss_last_sequence s) (ss_last_activity_ms s) (ss_handshake_complete s) (ss_closing s)
    (ss_done s) (ss_received s) (ss_sent s) (ss_requests s).
Definition set_last_sequence (n : N) (s : Session) : Session :=
  mkSession (ss_decoder s) n (ss_last_activity_ms s) (ss_handshake_complete s) (ss_closing s)
    (ss_done s) (ss_received s) (ss_sent s) (ss_requests s).
Definition set_last_activity (n : N) (s : Session) : Session :=
  mkSession (ss_decoder s) (ss_last_sequence s) n (ss_handshake_complete s) (ss_closing s)
    (ss_done s) (ss_received s) (ss_sent s) (ss_requests s).
Definition complete_handshake (s : Session) : Session :=
  mkSession (ss_decoder s) (ss_last_sequence s) (ss_last_activity_ms s) true (ss_closing s)
    (ss_done s) (ss_received s) (ss_sent s) (ss_requests s).
Definition set_closing (s : Session) : Session :=
  mkSession (ss_decoder s) (ss_last_sequence s) (ss_last_activity_ms s) (ss_handshake_complete s) true
    (ss_done s) (ss_received s) (ss_sent s) (ss_requests s).
Definition log_received (data : bytes) (s : Session) : Session :=
  mkSession (ss_decoder s) (ss_last_sequence s) (ss_last_activity_ms s) (ss_handshake_complete s) (ss_closing s)
    (ss_done s) (ss_received s ++ data) (ss_sent s) (ss_requests s).
Definition log_sent (data : bytes) (s : Session) : Session :=
  mkSession (ss_decoder s) (ss_last_sequence s) (ss_last_activity_ms s) (ss_handshake_complete s) (ss_closing s)
    (ss_done s) (ss_received s) (ss_sent s ++ data) (ss_requests s).
Definition log_request (r : Request) (s : Session) : Session :=
  mkSession (ss_decoder s) (ss_last_sequence s) (ss_last_activity_ms s) (ss_handshake_complete s) (ss_closing s)
    (ss_done s) (ss_received s) (ss_sent s) (ss_requests s ++ [r]).

Definition set_stats (f : ServerStats -> ServerStats) (sh : Shared) : Shared :=
  mkShared (sh_daemon sh) (f (sh_stats sh)) (sh_handler sh) (sh_handler_runs sh) (sh_calls sh).
Definition tally (k : Stat) (sh : Shared) : Shared := set_stats (fetch_add k 1) sh.

(** A worker's view: what is shared and its own session. *)
Definition Worker : Type := Shared * Session.

(** The loop is left: the socket is shut down and closed, and the guard sets
    [done]. *)
Definition finish (w : Worker) : Worker :=
  let '(sh, s) := w in
  (sh, mkSession (ss_decoder s) (ss_last_sequence s) (ss_last_activity_ms s) (ss_handshake_complete s)
         (ss_closing s) true (ss_received s) (ss_sent s) (ss_requests s)).

(** ** Turns *)

(** How the wait for input ends: [wait_readable] fails; nothing arrives, with the
    stop flag and the clock as they are read then; or [recv] answers. *)
Inductive PollAnswer :=
| PollFailed
| NotReadable (stopping : bool) (now : N)
| Readable (os : ReceiveAnswer) (now : N).

(** The answers one pass of the loop gets.  [tn_text] is the diagnostic text of
    the failure or of the daemon. *)
Record Turn := mkTurn {
  tn_poll : PollAnswer;
  tn_send : nat -> SendAnswer;
  tn_session : SessionId;
  tn_now : N;
  tn_commit : CommitAnswers;
  tn_text : bytes;
}.

Section Serve.
Context (dg : Diagnostics) (o : ServerOptions).

Definition error_reply (sequence : N) (id : RequestId) (status : Status) (detail : bytes) : Response :=
  mkResponse kWireProtocolVersion MessageType.ErrorReply sequence id status detail [].

(** [encode_frame], [send_all] and the count of the bytes sent. *)
Definition send_frame (os : nat -> SendAnswer) (body : bytes) (w : Worker) : Worker * bool :=
  let '(sh, s) := w in
  let frame := encode_frame body in
  let '(status, written) := send_all os true frame in
  let s := log_sent (take (N.to_nat written) frame) s in
  if bool_decide (status = IoStatus.Ok) then ((set_stats (fetch_add BytesSent written) sh, s), true)
  else ((sh, s), false).

Definition send_response (os : nat -> SendAnswer) (response : Response) (w : Worker) : Worker * Status :=
  let body := encode_response response in
  if so_max_frame_bytes o <? blen body then
    let fallback := error_reply (rp_session_seq response) (rp_id response) Status.LimitExceeded
                      (str "reply exceeds the negotiated frame bound") in
    let '(w, sent) := send_frame os (encode_response fallback) w in
    (w, if sent then Status.LimitExceeded else Status.Unavailable)
  else
    let '(w, sent) := send_frame os body w in
    if sent then ((tally ResponsesSent w.1, w.2), Status.Ok) else (w, Status.Unavailable).

(** [reject], and the [break] behind each of its calls. *)
Definition reject (os : nat -> SendAnswer) (status : Status) (detail : bytes) (w : Worker) : Worker :=
  let '(w, _) := send_response os (error_reply 0 (from_raw nil_id) status detail) w in
  finish (w.1, set_closing w.2).

(** [receive_ready_bytes]. *)
Definition receive_ready_bytes (os : ReceiveAnswer) (now : N) (w : Worker) : Worker * IoStatus :=
  let '(sh, s) := w in
  let '(status, data) := recv_some os true kReceiveChunk in
  if negb (bool_decide (status = IoStatus.Ok)) then (w, status)
  else
    let sh := set_stats (fetch_add BytesReceived (blen data)) sh in
    let '(d, pushed) := push (ss_decoder s) data in
    let s := log_received data (set_decoder d s) in
    if negb (is_ok pushed) then ((tally FramesRejected sh, s), IoStatus.Error)
    else ((sh, set_last_activity now s), IoStatus.Ok).

(** No frame is complete: wait for input. *)
Definition poll (t : Turn) (w : Worker) : Worker :=
  match tn_poll t with
  | PollFailed => finish w
  | NotReadable stopping now =>
      if stopping then finish w
      else if so_io_timeout_ms o <=? wrap64 (now + 2 ^ 64 - ss_last_activity_ms w.2)
      then finish (tally IdleTimeouts w.1, w.2)
      else w
  | Readable os now =>
      let '(w, status) := receive_ready_bytes os now w in
      if bool_decide (status = IoStatus.Ok) then w else finish w
  end.

Definition hello_reply (d : Daemon) (now : N) (session : SessionId) (negotiated : N) : HelloReply :=
  let report := status_report dg now d in
  let recovery := d_recovery d in
  mkHelloReply kWireProtocolVersion session (sp_incarnation report) (sp_epoch report) negotiated
    (rep_fidelity recovery) (servable (rep_fidelity recovery)) true (rep_format_version recovery).

(** The first frame of a connection. *)
Definition handshake (t : Turn) (frame : bytes) (w : Worker) : Worker :=
  let mismatch (w : Worker) : Worker := (tally ProtocolMismatches w.1, w.2) in
  match decode_hello_request frame with
  | Fail _ =>
      reject (tn_send t) Status.Invalid (str "first frame must be a well formed hello: " ++ tn_text t) (mismatch w)
  | Ok hello =>
      if negb (hq_protocol_version hello =? kWireProtocolVersion) then
        let reply := error_reply 0 (from_raw nil_id) Status.VersionMismatch
                       (str "wire protocol version mismatch") in
        finish (send_response (tn_send t) reply (mismatch w)).1
      else if (hq_max_frame_bytes hello <? 4096) || (kAbsoluteMaxFrameBytes <? hq_max_frame_bytes hello)
      then reject (tn_send t) Status.Invalid
             (str "negotiated frame bound is outside the permitted range") (mismatch w)
      else
        let negotiated := wrap32 (N.min (so_max_frame_bytes o) (hq_max_frame_bytes hello)) in
        let reply := hello_reply (sh_daemon w.1) (tn_now t) (tn_session t) negotiated in
        let response := mkResponse kWireProtocolVersion MessageType.HelloAck 0 (from_raw nil_id) Status.Ok []
                          (encode_hello_reply reply) in
        let '(w, sent) := send_response (tn_send t) response w in
        if is_ok sent then (w.1, complete_handshake w.2) else finish w
  end.

(** The response of the daemon: its answer with the diagnostic text. *)
Definition response_of (detail : bytes) (an : Answer) : Response :=
  mkResponse kWireProtocolVersion (an_type an) (an_session_seq an) (an_id an) (an_status an) detail
    (an_payload an).

Definition dispatch (t : Turn) (request : Request) (sh : Shared) : Shared * Response :=
  let '(d, answer) := handle (tn_commit t) dg (tn_now t) (sh_daemon sh) request in
  (mkShared d (sh_stats sh) (sh_handler sh) (sh_handler_runs sh)
     (sh_calls sh ++ [mkCall request (tn_now t) (tn_commit t)]),
   response_of (tn_text t) answer).

(** [if (handler) handler();] *)
Definition run_handler (sh : Shared) : Shared :=
  mkShared (sh_daemon sh) (sh_stats sh) (sh_handler sh)
    (if sh_handler sh then sh_handler_runs sh + 1 else sh_handler_runs sh) (sh_calls sh).

(** A frame of a connection whose handshake is complete. *)
Definition serve_request (t : Turn) (frame : bytes) (w : Worker) : Worker :=
  let '(sh, s) := w in
  match decode_request frame default_limits with
  | Fail status =>
      reject (tn_send t) status (str "request envelope rejected: " ++ tn_text t) (tally FramesRejected sh, s)
  | Ok request =>
      let sequence := rq_session_seq request in
      let last := ss_last_sequence s in
      if sequence <=? last then
        let reply := error_reply sequence (rq_id request) Status.Duplicate
                       (str "request sequence was already seen on this session") in
        (send_response (tn_send t) reply (tally DuplicateRequests sh, s)).1
      else
        let sh := if negb (last =? 0) && (wrap64 (last + 1) <? sequence)
                  then tally StaleRequests sh else sh in
        let s := log_request request (set_last_sequence sequence s) in
        let shutdown_requested := bool_decide (rq_type request = MessageType.ShutdownRequest) in
        let '(sh, response) := dispatch t request sh in
        let '(w, sent) := send_response (tn_send t) response (tally RequestsHandled sh, s) in
        if negb (is_ok sent) then finish w
        else if shutdown_requested && is_ok (rp_status response)
        then finish (run_handler (tally ShutdownRequests w.1), w.2)
        else w
  end.

(** One pass of the loop of [serve]; [stopping] is the flag it tests. *)
Definition serve_turn (stopping : bool) (t : Turn) (w : Worker) : Worker :=
  let '(sh, s) := w in
  if ss_done s then w
  else if ss_closing s || stopping then finish w
  else
    match next (ss_decoder s) with
    | (d, Fail status) =>
        let w := (sh, set_decoder d s) in
        if bool_decide (status = Status.NotFound) then poll t w
        else reject (tn_send t) status (str "frame rejected: " ++ tn_text t) (tally FramesRejected w.1, w.2)
    | (d, Ok frame) =>
        let w := (tally FramesDecoded sh, set_decoder d s) in
        if ss_handshake_complete s then serve_request t frame w else handshake t frame w
    end.

Definition serve_turns (turns : list (bool * Turn)) (w : Worker) : Worker :=
  foldl (fun w '(stopping, t) => serve_turn stopping t w) w turns.
End Serve.

(** ** The server *)

Record FabricServer := mkFabricServer {
  fs_options : ServerOptions;
  fs_shared : Shared;
  fs_listener : option N;
  fs_port : N;
  fs_accepting : bool;
  fs_consecutive_errors : N;
  fs_connections : list Connection;
  fs_next_index : N;
  fs_stopping : bool;
  fs_running : bool;
}.

Definition new_server (o : ServerOptions) (d : Daemon) : FabricServer :=
  mkFabricServer o (mkShared d no_stats false 0 []) None 0 false 0 [] 0 false false.

Definition set_shared (sh : Shared) (s : FabricServer) : FabricServer :=
  mkFabricServer (fs_options s) sh (fs_listener s) (fs_port s) (fs_accepting s) (fs_consecutive_errors s)
    (fs_connections s) (fs_next_index s) (fs_stopping s) (fs_running s).
Definition set_connections (cs : list Connection) (s : FabricServer) : FabricServer :=
  mkFabricServer (fs_options s) (fs_shared s) (fs_listener s) (fs_port s) (fs_accepting s)
    (fs_consecutive_errors s) cs (fs_next_index s) (fs_stopping s) (fs_running s).
Definition set_accepting (accepting : bool) (errors : N) (s : FabricServer) : FabricServer :=
  mkFabricServer (fs_options s) (fs_shared s) (fs_listener s) (fs_port s) accepting errors
    (fs_connections s) (fs_next_index s) (fs_stopping s) (fs_running s).
Definition set_stopping (s : FabricServer) : FabricServer :=
  mkFabricServer (fs_options s) (fs_shared s) (fs_listener s) (fs_port s) (fs_accepting s)
    (fs_consecutive_errors s) (fs_connections s) (fs_next_index s) true (fs_running s).

(** An empty host is the loopback address. *)
Definition bound_endpoint (e : Endpoint) : Endpoint :=
  if bool_decide (host e = []) then mkEndpoint default_host (port e) else e.

(** [start]; [bound] is the port that [Listener::bind] got for the endpoint, and
    the accept thread begins its loop. *)
Definition start_server (bound : Endpoint -> N -> Expected N) (s : FabricServer) : FabricServer * Status :=
  let o := fs_options s in
  if fs_running s then (s, Status.Busy)
  else if so_max_connections o =? 0 then (s, Status.Invalid)
  else if (so_max_frame_bytes o =? 0) || (kAbsoluteMaxFrameBytes <? so_max_frame_bytes o)
  then (s, Status.Invalid)
  else
    match bound (bound_endpoint (so_bind_endpoint o)) (so_max_connections o) with
    | Fail status => (s, status)
    | Ok port =>
        (mkFabricServer o (fs_shared s) (Some port) port true 0 (fs_connections s) (fs_next_index s)
           false true, Status.Ok)
    end.

Definition local_endpoint (s : FabricServer) : Endpoint :=
  mkEndpoint (host (bound_endpoint (so_bind_endpoint (fs_options s)))) (fs_port s).

Definition set_shutdown_handler (s : FabricServer) : FabricServer :=
  let sh := fs_shared s in
  set_shared (mkShared (sh_daemon sh) (sh_stats sh) true (sh_handler_runs sh) (sh_calls sh)) s.

(** [stop] up to the join of the accept thread: the flag is set. *)
Definition stop_requested (s : FabricServer) : FabricServer :=
  if fs_stopping s then s else set_stopping s.

(** The rest of [stop], behind the joins: the accept loop and every worker have
    ended. *)
Definition stop_completed (s : FabricServer) : FabricServer :=
  if fs_stopping s && negb (fs_accepting s) && forallb (fun c => ss_done (cn_session c)) (fs_connections s)
  then mkFabricServer (fs_options s) (fs_shared s) None (fs_port s) (fs_accepting s) (fs_consecutive_errors s)
         [] (fs_next_index s) (fs_stopping s) false
  else s.

(** [reap_finished]: the connections whose workers have ended are counted and
    erased. *)
Fixpoint reap_finished (cs : list Connection) (sh : Shared) : list Connection * Shared :=
  match cs with
  | [] => ([], sh)
  | c :: cs =>
      if ss_done (cn_session c) then
        reap_finished cs (set_stats (fetch_add ConnectionsActive (2 ^ 64 - 1)) (tally ConnectionsClosed sh))
      else let '(cs, sh) := reap_finished cs sh in (c :: cs, sh)
  end.

(** How [accept_for] ends; a failure comes with the stop flag as it is read
    then, a connection with the clock at the start of its worker. *)
Inductive AcceptAnswer :=
| AcceptTimedOut
| AcceptFailed (stopping : bool)
| Accepted (peer : Endpoint) (now : N).

(** What a peer is sent that is turned away. *)
Definition refusal : Response :=
  mkResponse kWireProtocolVersion MessageType.ErrorReply 0 (from_raw nil_id) Status.LimitExceeded
    (str "connection bound reached") [].

(** One pass of the accept loop. *)
Definition accept_turn (answer : AcceptAnswer) (s : FabricServer) : FabricServer :=
  if negb (fs_accepting s) then s
  else if fs_stopping s then set_accepting false (fs_consecutive_errors s) s
  else
    match answer with
    | AcceptTimedOut => s
    | AcceptFailed stopping =>
        if stopping then set_accepting false (fs_consecutive_errors s) s
        else
          let errors := wrap64 (fs_consecutive_errors s + 1) in
          set_accepting (negb (64 <? errors)) errors s
    | Accepted peer now =>
        let s := set_accepting true 0 s in
        let '(cs, sh) := reap_finished (fs_connections s) (fs_shared s) in
        let s := set_connections cs (set_shared sh s) in
        if so_max_connections (fs_options s) <=? connections_active (sh_stats sh)
        then set_shared (tally ConnectionsRejected sh) s
        else
          let c := mkConnection (fs_next_index s) peer (new_session (fs_options s) now) in
          mkFabricServer (fs_options s) (tally ConnectionsActive (tally ConnectionsAccepted sh))
            (fs_listener s) (fs_port s) (fs_accepting s) (fs_consecutive_errors s)
            (fs_connections s ++ [c]) (wrap64 (fs_next_index s + 1)) (fs_stopping s) (fs_running s)
    end.

(** A pass of the worker at position [i] of the registry. *)
Definition worker_turn (dg : Diagnostics) (i : nat) (t : Turn) (s : FabricServer) : FabricServer :=
  match fs_connections s !! i with
  | None => s
  | Some c =>
      let '(sh, session) := serve_turn dg (fs_options s) (fs_stopping s) t (fs_shared s, cn_session c) in
      set_connections (<[i := mkConnection (cn_index c) (cn_peer c) session]> (fs_connections s))
        (set_shared sh s)
  end.

Inductive ServerEvent :=
| EvStart (bound : Endpoint -> N -> Expected N)
| EvHandlerSet
| EvAccept (answer : AcceptAnswer)
| EvWorker (i : nat) (t : Turn)
| EvStopRequested
| EvStopCompleted.

Definition server_step (dg : Diagnostics) (s : FabricServer) (e : ServerEvent) : FabricServer :=
  match e with
  | EvStart bound => (start_server bound s).1
  | EvHandlerSet => set_shutdown_handler s
  | EvAccept answer => accept_turn answer s
  | EvWorker i t => worker_turn dg i t s
  | EvStopRequested => stop_requested s
  | EvStopCompleted => stop_completed s
  end.

Definition server_run (dg : Diagnostics) (s : FabricServer) (events : list ServerEvent) : FabricServer :=
  foldl (server_step dg) s events.
