(* ===== verification/Sessions.v ===== *)
(** * Sessions of the server

    What a connection amounts to, whatever its peer and its sockets do: it
    follows the reference automaton of its byte stream ([phase_run]), and the
    server as a whole drives its daemon through one sequence of calls. *)

From Stdlib Require Import Strings.Byte.
From S2P Require Import Prelude Outcome Ids Lifecycle Policy Wire Model Codecs State Ledger Changes.
From S2P Require Import Invariants Operations WellFormed Snapshot Store Journal Compaction Recovery.
From S2P Require Import Frames Protocol Replies Daemon Failures Applicable Steps Crash Service Net Server.

(** ** The reference automaton of a session

    What the frames of a stream amount to, one after the other: the handshake,
    then the requests whose sequence is above every one before. *)

Inductive Phase := Fresh | Open (last : N) | Closed.

Definition hello_accepted (frame : bytes) : bool :=
  match decode_hello_request frame with
  | Fail _ => false
  | Ok hello =>
      (hq_protocol_version hello =? kWireProtocolVersion) &&
      negb ((hq_max_frame_bytes hello <? 4096) || (kAbsoluteMaxFrameBytes <? hq_max_frame_bytes hello))
  end.

Definition phase_step (p : Phase) (frame : bytes) : Phase * list Request :=
  match p with
  | Fresh => (if hello_accepted frame then Open 0 else Closed, [])
  | Open last =>
      match decode_request frame default_limits with
      | Fail _ => (Closed, [])
      | Ok r => if rq_session_seq r <=? last then (Open last, []) else (Open (rq_session_seq r), [r])
      end
  | Closed => (Closed, [])
  end.

Fixpoint phase_run (p : Phase) (frames : list bytes) : Phase * list Request :=
  match frames with
  | [] => (p, [])
  | frame :: frames =>
      let '(p, first) := phase_step p frame in
      let '(p, more) := phase_run p frames in (p, first ++ more)
  end.

Definition phase_of (s : Session) : Phase :=
  if ss_handshake_complete s then Open (ss_last_sequence s) else Fresh.

Lemma phase_run_snoc p frames frame :
  phase_run p (frames ++ [frame]) =
  let '(q, requests) := phase_run p frames in
  let '(q, last) := phase_step q frame in (q, requests ++ last).
Proof.
  revert p. induction frames as [|f frames IH]; intros p; cbn [app phase_run].
  { destruct (phase_step p frame) as [q rs]. cbn. by rewrite app_nil_r. }
  destruct (phase_step p f) as [q rs]. rewrite IH. destruct (phase_run q frames) as [q' rs'].
  destruct (phase_step q' frame) as [q2 rs2]. by rewrite app_assoc.
Qed.

(** Sequences only go up. *)
Definition sequences (rs : list Request) : list N := rq_session_seq <$> rs.

Lemma phase_run_closed frames : phase_run Closed frames = (Closed, []).
Proof. induction frames as [|f frames IH]; [done|]. cbn [phase_run phase_step]. by rewrite IH. Qed.

Lemma phase_run_open last frames :
  Forall (N.lt last) (sequences (phase_run (Open last) frames).2) /\
  StronglySorted N.lt (sequences (phase_run (Open last) frames).2).
Proof.
  revert last. induction frames as [|f frames IH]; intros last; cbn [phase_run phase_step].
  { split; constructor. }
  destruct (decode_request f default_limits) as [r|]; [|by rewrite phase_run_closed; split; constructor].
  destruct (N.leb_spec (rq_session_seq r) last) as [|Hlt].
  { specialize (IH last). by destruct (phase_run (Open last) frames). }
  specialize (IH (rq_session_seq r)). destruct (phase_run (Open (rq_session_seq r)) frames) as [q rs].
  cbn [snd app sequences fmap list_fmap] in *. destruct IH as [Hall Hsort]. split.
  - constructor; [done|]. eapply Forall_impl; [exact Hall|]. cbn. lia.
  - by constructor.
Qed.

Lemma phase_run_fresh_increasing frames :
  Forall (N.lt 0) (sequences (phase_run Fresh frames).2) /\
  StronglySorted N.lt (sequences (phase_run Fresh frames).2).
Proof.
  destruct frames as [|f frames]; cbn [phase_run phase_step]; [split; constructor|].
  destruct (hello_accepted f).
  - pose proof (phase_run_open 0 frames) as H. by destruct (phase_run (Open 0) frames).
  - rewrite phase_run_closed. split; constructor.
Qed.

(** ** What a turn keeps *)

(** What sending replies and leaving the loop do not touch. *)
Definition core (s : Session) : FrameDecoder * N * bool * bytes * list Request :=
  (ss_decoder s, ss_last_sequence s, ss_handshake_complete s, ss_received s, ss_requests s).
Definition talks (sh : Shared) : Daemon * list Call := (sh_daemon sh, sh_calls sh).

Record keeps (w w' : Worker) : Prop := {
  kp_core : core w'.2 = core w.2;
  kp_talks : talks w'.1 = talks w.1;
}.

#[export] Instance keeps_preorder : PreOrder keeps.
Proof.
  split; [done|]. intros w1 w2 w3 [H1 H2] [H3 H4]. split; [by rewrite H3|by rewrite H4].
Qed.

Lemma keeps_tally k w : keeps w (tally k w.1, w.2).
Proof. done. Qed.

Lemma keeps_finish w : keeps w (finish w) /\ ss_done (finish w).2 = true.
Proof. by destruct w. Qed.

(** Nor does sending change whether the loop goes on. *)
Definition flags (s : Session) : bool * bool := (ss_done s, ss_closing s).

Lemma send_frame_keeps os body w :
  keeps w (send_frame os body w).1 /\ flags (send_frame os body w).1.2 = flags w.2.
Proof. destruct w as [sh s]. unfold send_frame. destruct (send_all _ _ _) as [st n]. by destruct (bool_decide _). Qed.

Lemma send_response_keeps o os response w :
  keeps w (send_response o os response w).1 /\ flags (send_response o os response w).1.2 = flags w.2.
Proof.
  unfold send_response. destruct (_ <? _).
  - set (body := encode_response _). pose proof (send_frame_keeps os body w) as H.
    by destruct (send_frame os body w) as [w' sent].
  - set (body := encode_response _). pose proof (send_frame_keeps os body w) as H.
    destruct (send_frame os body w) as [w' sent]. destruct H as [[H1 H2] H3]. by destruct sent.
Qed.

Lemma reject_keeps o os status detail w :
  keeps w (reject o os status detail w) /\ ss_done (reject o os status detail w).2 = true.
Proof.
  unfold reject. set (r := error_reply _ _ _ _). pose proof (send_response_keeps o os r w) as H.
  destruct (send_response o os r w) as [[sh s] st]. destruct H as [[H1 H2] _]. by split; [split|].
Qed.

(** ** A session follows its stream *)

(** The session [s] has worked off the frames [handled] of the stream it has
    received. *)
Record tracks (max : N) (s : Session) (handled : list bytes) : Prop := {
  tk_stream : exists later status rest,
    parse_stream max (ss_received s) = (handled ++ later, status, rest) /\
    (ss_done s = false ->
     ready max (ss_decoder s) /\ parse_stream max (unread (ss_decoder s)) = (later, status, rest));
  tk_requests : ss_requests s = (phase_run Fresh handled).2;
  tk_phase : ss_done s = false -> (phase_run Fresh handled).1 = phase_of s;
  tk_fresh : ss_handshake_complete s = false -> ss_last_sequence s = 0;
}.

Lemma new_session_tracks o now : tracks (so_max_frame_bytes o) (new_session o now) [].
Proof. split; [|done..]. exists [], Status.NotFound, []. by split_and!. Qed.

(** A session that ends follows as far as it got. *)
Lemma tracks_done max s s' handled :
  tracks max s handled -> core s' = core s -> ss_done s' = true -> tracks max s' handled.
Proof.
  intros [(later & status & rest & Hp & _) Hr _ Hf] [= _ Hl Hh Hrec Hreq] Hdone.
  split; rewrite ?Hrec, ?Hreq, ?Hdone, ?Hh, ?Hl; [|exact Hr|done|exact Hf]. by exists later, status, rest.
Qed.

Lemma tracks_ext max s s' handled :
  tracks max s handled -> core s' = core s -> ss_done s' = ss_done s -> tracks max s' handled.
Proof.
  intros [H1 H2 H3 H4] [= Hd Hl Hh Hrec Hreq] Hdone.
  split; unfold phase_of in *; by rewrite ?Hd, ?Hl, ?Hh, ?Hrec, ?Hreq, ?Hdone.
Qed.

Lemma tracks_received max s s' handled data :
  tracks max s handled -> ss_received s' = ss_received s ++ data -> ss_requests s' = ss_requests s ->
  ss_handshake_complete s' = ss_handshake_complete s -> ss_last_sequence s' = ss_last_sequence s ->
  ss_done s = false ->
  (ss_done s' = false -> push (ss_decoder s) data = (ss_decoder s', Status.Ok)) ->
  tracks max s' handled.
Proof.
  intros [(later & status & rest & Hp & Hd) Hr Hph Hf] Hrec Hreq Hh Hl Hopen Hpush.
  destruct (Hd Hopen) as [Hready Hu]. destruct (parse_stream_more _ _ data _ _ _ Hp) as (more & st & r & Hmore).
  split.
  - rewrite Hrec, Hmore, <-app_assoc. exists (later ++ more), st, r. split; [done|]. intros Hdone.
    destruct (push_ok max _ data _ Hready (Hpush Hdone)) as [Hready' ->]. split; [exact Hready'|].
    rewrite parse_stream_app in Hmore |- *. rewrite Hp in Hmore. rewrite Hu.
    destruct (bool_decide (status = Status.NotFound)).
    + destruct (parse_stream max (rest ++ data)) as [[ps st'] r']. injection Hmore as Hmore <- <-.
      by rewrite (app_inv_head _ _ _ Hmore).
    + injection Hmore as Hmore <- <-. rewrite <-(app_nil_r (handled ++ later)) in Hmore at 1.
      by rewrite <-(app_inv_head _ _ _ Hmore), app_nil_r.
  - by rewrite Hreq.
  - intros _. unfold phase_of in *. rewrite Hh, Hl. by apply Hph.
  - by rewrite Hh, Hl.
Qed.

(** One frame is taken off the stream and worked off. *)
Lemma tracks_frame max s s' handled d frame :
  tracks max s handled -> ss_done s = false -> next (ss_decoder s) = (d, Ok frame) ->
  let '(q, more) := phase_step (phase_of s) frame in
  ss_received s' = ss_received s -> ss_requests s' = ss_requests s ++ more ->
  (ss_done s' = false -> ss_decoder s' = d /\ phase_of s' = q) ->
  (ss_handshake_complete s' = false -> ss_last_sequence s' = 0) ->
  tracks max s' (handled ++ [frame]).
Proof.
  intros [(later & status & rest & Hp & Hd) Hr Hph Hf] Hopen Hnext.
  destruct (Hd Hopen) as [Hready Hu]. pose proof (next_parses max _ _ _ _ Hready Hu) as Hn.
  rewrite Hnext in Hn. destruct Hn as (later' & -> & Hready' & Hu'). specialize (Hph Hopen).
  destruct (phase_step (phase_of s) frame) as [q more] eqn:Hstep. intros Hrec Hreq Hopen' Hf'.
  assert (phase_run Fresh (handled ++ [frame]) = (q, ss_requests s ++ more)) as Hrun.
  { rewrite phase_run_snoc. destruct (phase_run Fresh handled) as [p rs]. cbn [fst snd] in *.
    by rewrite Hph, Hstep, Hr. }
  split; rewrite ?Hrec, ?Hreq, ?Hrun.
  - exists later', status, rest. rewrite <-app_assoc. split; [done|]. intros Hdone.
    by destruct (Hopen' Hdone) as [-> _].
  - done.
  - intros Hdone. by destruct (Hopen' Hdone) as [_ ->].
  - exact Hf'.
Qed.

(** How a turn moves a session and the daemon: nothing is handled, or one
    request is. *)
Definition moves (dg : Diagnostics) (t : Turn) (w w' : Worker) : Prop :=
  talks w'.1 = talks w.1 /\ ss_requests w'.2 = ss_requests w.2 \/
  exists r, ss_requests w'.2 = ss_requests w.2 ++ [r] /\
    talks w'.1 = ((handle (tn_commit t) dg (tn_now t) (sh_daemon w.1) r).1,
                  sh_calls w.1 ++ [mkCall r (tn_now t) (tn_commit t)]).

Definition turn_ok (dg : Diagnostics) (max : N) (handled : list bytes) (t : Turn) (w w' : Worker) : Prop :=
  moves dg t w w' /\ exists more, tracks max w'.2 (handled ++ more).

Section Turns.
Context (dg : Diagnostics) (o : ServerOptions) (t : Turn).
Abbreviation max := (so_max_frame_bytes o).

Lemma turn_ok_done handled w w' :
  tracks max w.2 handled -> keeps w w' -> ss_done w'.2 = true -> turn_ok dg max handled t w w'.
Proof.
  intros Htr [Hcore Htalks] Hdone. split; [left; split; [exact Htalks|by injection Hcore]|].
  exists []. rewrite app_nil_r. by eapply tracks_done.
Qed.

Lemma receive_turn handled w os now :
  tracks max w.2 handled -> ss_done w.2 = false ->
  turn_ok dg max handled t w
    (let '(w, status) := receive_ready_bytes os now w in
     if bool_decide (status = IoStatus.Ok) then w else finish w).
Proof.
  intros Htr Hopen. destruct w as [sh s]. cbn [snd] in *. unfold receive_ready_bytes.
  destruct (recv_some os true kReceiveChunk) as [status data].
  destruct (bool_decide (status = IoStatus.Ok)) eqn:Hs; cbn [negb].
  2:{ rewrite Hs. apply turn_ok_done; [done| |by apply keeps_finish]. by apply keeps_finish. }
  destruct (push (ss_decoder s) data) as [d pushed] eqn:Hpush.
  destruct (is_ok pushed) eqn:Hok; cbn [negb].
  - rewrite bool_decide_eq_true_2 by done. split; [by left|]. exists []. rewrite app_nil_r.
    apply (tracks_received max s _ handled data Htr); try done. intros _. cbn. rewrite Hpush.
    unfold is_ok in Hok. to_prop. by subst.
  - rewrite bool_decide_eq_false_2 by done. split; [by left|]. exists []. rewrite app_nil_r.
    by apply (tracks_received max s _ handled data Htr).
Qed.

Lemma poll_turn handled w :
  tracks max w.2 handled -> ss_done w.2 = false -> turn_ok dg max handled t w (poll o t w).
Proof.
  intros Htr Hopen. unfold poll. destruct (tn_poll t) as [|stopping now|os now].
  - apply turn_ok_done; [done|apply keeps_finish..].
  - destruct stopping; [apply turn_ok_done; [done|apply keeps_finish..]|].
    destruct (_ <=? _).
    + apply turn_ok_done; [done| |apply keeps_finish]. etrans; [apply keeps_tally|apply keeps_finish].
    + split; [by left|]. exists []. by rewrite app_nil_r.
  - by apply receive_turn.
Qed.

Lemma handshake_turn handled sh s d frame :
  tracks max s handled -> ss_done s = false -> ss_handshake_complete s = false ->
  next (ss_decoder s) = (d, Ok frame) ->
  turn_ok dg max handled t (sh, s) (handshake dg o t frame (tally FramesDecoded sh, set_decoder d s)).
Proof.
  intros Htr Hopen Hh Hnext. set (w := (tally FramesDecoded sh, set_decoder d s)).
  assert (ss_last_sequence s = 0) as Hl by by apply Htr.
  assert (phase_of s = Fresh) as Hphase by (unfold phase_of; by rewrite Hh).
  assert (forall w', keeps w w' -> ss_done w'.2 = true -> turn_ok dg max handled t (sh, s) w') as Hend.
  { intros w' [Hcore Htalks] Hdone. split; [left; split; [exact Htalks|by injection Hcore]|].
    injection Hcore as Hd' Hl' Hh' Hrec Hreq. exists [frame].
    pose proof (tracks_frame max s w'.2 handled d frame Htr Hopen Hnext) as H. rewrite Hphase in H.
    cbn [phase_step] in H. apply H; [exact Hrec|by rewrite app_nil_r| |by rewrite Hl'].
    by rewrite Hdone. }
  assert (forall status detail, turn_ok dg max handled t (sh, s)
    (reject o (tn_send t) status detail (tally ProtocolMismatches w.1, w.2))) as Hreject.
  { intros status detail. apply Hend; [|by apply reject_keeps].
    etrans; [apply keeps_tally|apply reject_keeps]. }
  unfold handshake. destruct (decode_hello_request frame) as [hello|] eqn:Hdec; [|apply Hreject].
  destruct (negb (hq_protocol_version hello =? kWireProtocolVersion)) eqn:Hver.
  { set (r := error_reply _ _ _ _).
    apply Hend; [|apply keeps_finish]. etrans; [|apply keeps_finish].
    etrans; [apply keeps_tally|apply send_response_keeps]. }
  destruct (_ || _) eqn:Hbound; [apply Hreject|].
  set (r := mkResponse _ _ _ _ _ _ _). pose proof (send_response_keeps o (tn_send t) r w) as Hsend.
  destruct (send_response o (tn_send t) r w) as [w' sent]. destruct Hsend as [[Hcore Htalks] Hflags].
  cbn [fst] in Hcore, Htalks, Hflags. destruct (is_ok sent).
  - injection Hcore as Hd' Hl' Hh' Hrec Hreq. split; [left; by split|]. exists [frame].
    pose proof (tracks_frame max s (complete_handshake w'.2) handled d frame Htr Hopen Hnext) as H.
    rewrite Hphase in H. cbn [phase_step] in H. unfold hello_accepted in H. rewrite Hdec, Hbound in H.
    apply negb_false_iff in Hver. rewrite Hver in H. cbn [andb negb] in H.
    apply H; [exact Hrec|by rewrite app_nil_r| |done].
    intros _. split; [exact Hd'|]. unfold phase_of. cbn. by rewrite Hl', Hl.
  - apply Hend; [|apply keeps_finish]. etrans; [|apply keeps_finish]. by split.
Qed.

Lemma serve_request_turn handled sh s d frame :
  tracks max s handled -> ss_done s = false -> ss_handshake_complete s = true ->
  next (ss_decoder s) = (d, Ok frame) ->
  turn_ok dg max handled t (sh, s) (serve_request dg o t frame (tally FramesDecoded sh, set_decoder d s)).
Proof.
  intros Htr Hopen Hh Hnext. set (w := (tally FramesDecoded sh, set_decoder d s)).
  assert (phase_of s = Open (ss_last_sequence s)) as Hphase by (unfold phase_of; by rewrite Hh).
  pose proof (fun s' => tracks_frame max s s' handled d frame Htr Hopen Hnext) as Hframe.
  rewrite Hphase in Hframe. cbn [phase_step] in Hframe.
  unfold serve_request. unfold w at 1. cbv beta iota.
  destruct (decode_request frame default_limits) as [r|status].
  2:{ set (w' := reject _ _ _ _ _).
      assert (keeps w w' /\ ss_done w'.2 = true) as [[Hcore Htalks] Hdone].
      { split; [|by apply reject_keeps]. etrans; [|apply reject_keeps]. done. }
      clearbody w'.
      injection Hcore as Hd' Hl' Hh' Hrec Hreq. split; [left; by split|]. exists [frame].
      apply Hframe; [exact Hrec|by rewrite app_nil_r|by rewrite Hdone|]. by rewrite Hh', Hh. }
  destruct (rq_session_seq r <=? ss_last_sequence (set_decoder d s)) eqn:Hseq;
    cbn [ss_last_sequence set_decoder] in Hseq; rewrite Hseq in Hframe.
  { set (reply := error_reply _ _ _ _). set (w1 := (tally DuplicateRequests (tally FramesDecoded sh), set_decoder d s)).
    pose proof (send_response_keeps o (tn_send t) reply w1) as [[Hcore Htalks] Hflags].
    injection Hcore as Hd' Hl' Hh' Hrec Hreq. injection Hflags as Hdone _. split; [left; by split|]. exists [frame].
    apply Hframe; [exact Hrec|by rewrite app_nil_r| |by rewrite Hh', Hh].
    intros _. split; [exact Hd'|]. unfold phase_of. by rewrite Hh', Hl', Hh. }
  cbv zeta. match goal with |- context [dispatch dg t r ?x] => set (sh1 := x) end.
  assert (talks sh1 = talks sh) as Hsh1 by (unfold sh1; by destruct (_ && _)).
  clearbody sh1.
  unfold dispatch. replace (sh_daemon sh1) with (sh_daemon sh) by by injection Hsh1.
  destruct (handle (tn_commit t) dg (tn_now t) (sh_daemon sh) r) as [d' an] eqn:Hhandle.
  set (w1 := (tally RequestsHandled _, log_request r _)).
  set (response := response_of _ _). pose proof (send_response_keeps o (tn_send t) response w1) as Hsend.
  destruct (send_response o (tn_send t) response w1) as [w' sent]. destruct Hsend as [[Hcore Htalks] _].
  cbn [fst] in Hcore, Htalks.
  assert (forall w2, keeps w' w2 -> (ss_done w2.2 = false -> w2 = w') -> turn_ok dg max handled t (sh, s) w2) as Hend.
  { intros w2 [Hcore2 Htalks2] Hdone. rewrite Hcore in Hcore2. rewrite Htalks in Htalks2.
    injection Hcore2 as Hd' Hl' Hh' Hrec Hreq. split.
    - right. exists r. split; [exact Hreq|]. rewrite Htalks2. unfold w1. cbn [fst snd]. rewrite Hhandle.
      injection Hsh1 as _ ->. done.
    - exists [frame]. apply Hframe; [exact Hrec|exact Hreq| |by rewrite Hh', Hh].
      intros _. split; [exact Hd'|]. unfold phase_of. by rewrite Hh', Hl', Hh. }
  assert (forall w2, keeps w' w2 -> turn_ok dg max handled t (sh, s) (finish w2)) as Hfinish.
  { intros w2 Hk. apply Hend; [etrans; [exact Hk|apply keeps_finish]|].
    intros Hdone. by rewrite (proj2 (keeps_finish w2)) in Hdone. }
  destruct (negb (is_ok sent)); [by apply Hfinish|]. destruct (_ && _); [by apply Hfinish|by apply Hend].
Qed.

Lemma serve_turn_ok stopping handled w :
  tracks max w.2 handled -> turn_ok dg max handled t w (serve_turn dg o stopping t w).
Proof.
  intros Htr. destruct w as [sh s]. cbn [snd] in Htr. unfold serve_turn.
  destruct (ss_done s) eqn:Hopen; [split; [by left|exists []; by rewrite app_nil_r]|].
  destruct (_ || _); [apply turn_ok_done; [done|apply keeps_finish..]|].
  destruct (next (ss_decoder s)) as [d [frame|status]] eqn:Hnext.
  - destruct (ss_handshake_complete s) eqn:Hh; [by apply serve_request_turn|by apply handshake_turn].
  - destruct (tk_stream _ _ _ Htr) as (later & st & rest & Hp & Hd). destruct (Hd Hopen) as [Hready Hu].
    pose proof (next_parses max _ _ _ _ Hready Hu) as Hn. rewrite Hnext in Hn. destruct Hn as (_ & _ & Hsame & _).
    destruct (bool_decide_reflect (status = Status.NotFound)) as [->|Hne].
    + rewrite (Hsame eq_refl). assert ((sh, set_decoder (ss_decoder s) s) = (sh, s)) as -> by by destruct s.
      by apply poll_turn.
    + set (w' := reject _ _ _ _ _). assert (ss_done w'.2 = true) as Hdone by apply reject_keeps.
      assert (keeps (sh, set_decoder d s) w') as [Hcore Htalks].
      { etrans; [|apply reject_keeps]. done. }
      injection Hcore as Hd' Hl' Hh' Hrec Hreq. split; [by left|]. exists [].
      rewrite app_nil_r. destruct Htr as [(later' & st' & rest' & Hp' & _) Hr _ Hf].
      split; rewrite ?Hrec, ?Hreq, ?Hdone, ?Hh', ?Hl'; [|exact Hr|done|exact Hf]. by exists later', st', rest'.
Qed.
End Turns.

(** ** The server over its daemon *)

Lemma handle_all_snoc dg d calls c :
  handle_all dg d (calls ++ [c]) =
  (handle (cl_answers c) dg (cl_now c) (handle_all dg d calls) (cl_request c)).1.
Proof. revert d. induction calls as [|c' calls IH]; intros d; [done|]. cbn [app handle_all]. by rewrite IH. Qed.

(** A connection follows its stream, and its requests are among the calls of the
    daemon, in their order. *)
Definition connection_ok (max : N) (calls : list Call) (c : Connection) : Prop :=
  (exists handled, tracks max (cn_session c) handled) /\
  ss_requests (cn_session c) `sublist_of` (cl_request <$> calls).

(** What holds of the server at any time, [d0] being the daemon it began with. *)
Record server_ok (dg : Diagnostics) (d0 : Daemon) (s : FabricServer) : Prop := {
  so_daemon : sh_daemon (fs_shared s) = handle_all dg d0 (sh_calls (fs_shared s));
  so_connections :
    Forall (connection_ok (so_max_frame_bytes (fs_options s)) (sh_calls (fs_shared s))) (fs_connections s);
  so_count : N.of_nat (length (fs_connections s)) <= connections_active (sh_stats (fs_shared s));
  so_bound : connections_active (sh_stats (fs_shared s)) <= so_max_connections (fs_options s);
}.

Lemma connection_ok_mono max calls more c :
  connection_ok max calls c -> connection_ok max (calls ++ more) c.
Proof. intros [H1 H2]. split; [exact H1|]. rewrite fmap_app. by apply sublist_inserts_r. Qed.

Lemma fetch_sub_one v : 1 <= v < 2 ^ 64 -> wrap64 (v + (2 ^ 64 - 1)) = v - 1.
Proof.
  intros Hv. unfold wrap64. replace (v + (2 ^ 64 - 1)) with (v - 1 + 1 * 2 ^ 64) by lia.
  rewrite N.Div0.mod_add. apply N.mod_small. lia.
Qed.

Lemma reap_finished_spec P cs sh :
  Forall P cs -> N.of_nat (length cs) <= connections_active (sh_stats sh) < 2 ^ 64 ->
  let '(cs', sh') := reap_finished cs sh in
  Forall P cs' /\ talks sh' = talks sh /\
  N.of_nat (length cs') <= connections_active (sh_stats sh') /\
  connections_active (sh_stats sh') + N.of_nat (length cs) =
    connections_active (sh_stats sh) + N.of_nat (length cs') /\ (length cs' <= length cs)%nat.
Proof.
  intros HP. revert sh. induction HP as [|c cs Hc _ IH]; intros sh Hle; cbn [reap_finished].
  { split_and!; [constructor|done|exact (proj1 Hle)|done..]. }
  cbn [length] in Hle. destruct (ss_done (cn_session c)).
  - set (sh1 := set_stats _ _). specialize (IH sh1).
    assert (connections_active (sh_stats sh1) = connections_active (sh_stats sh) - 1) as Hsub.
    { apply fetch_sub_one. lia. }
    assert (talks sh1 = talks sh) as Ht by done. clearbody sh1. rewrite Hsub in IH.
    specialize (IH ltac:(lia)). destruct (reap_finished cs sh1) as [cs' sh'].
    destruct IH as (H1 & H2 & H3 & H4 & H5). cbn [length]. split_and!; [done|by rewrite H2|lia..].
  - specialize (IH sh ltac:(lia)). destruct (reap_finished cs sh) as [cs' sh'].
    destruct IH as (H1 & H2 & H3 & H4 & H5). cbn [length]. split_and!; [by constructor|done|lia..].
Qed.

Lemma active_tally k sh :
  k <> ConnectionsActive -> connections_active (sh_stats (tally k sh)) = connections_active (sh_stats sh).
Proof. intros Hk. cbn. by rewrite bool_decide_eq_false_2. Qed.

Lemma active_finish w : connections_active (sh_stats (finish w).1) = connections_active (sh_stats w.1).
Proof. by destruct w. Qed.

Lemma active_send o os response w :
  connections_active (sh_stats (send_response o os response w).1.1) = connections_active (sh_stats w.1).
Proof.
  destruct w as [sh s]. unfold send_response, send_frame.
  destruct (_ <? _); destruct (send_all _ _ _) as [st n]; by destruct (bool_decide _).
Qed.

Lemma active_reject o os status detail w :
  connections_active (sh_stats (reject o os status detail w).1) = connections_active (sh_stats w.1).
Proof.
  unfold reject. set (r := error_reply _ _ _ _). pose proof (active_send o os r w) as H.
  by destruct (send_response o os r w) as [[sh s] st].
Qed.

(** A turn of a worker does not count connections. *)
Lemma serve_turn_active dg o stopping t w :
  connections_active (sh_stats (serve_turn dg o stopping t w).1) = connections_active (sh_stats w.1).
Proof.
  destruct w as [sh s]. unfold serve_turn. destruct (ss_done s); [done|]. destruct (_ || _); [done|].
  destruct (next (ss_decoder s)) as [d [frame|status]].
  - destruct (ss_handshake_complete s).
    + unfold serve_request. cbv beta iota. destruct (decode_request frame default_limits) as [r|]; [|by rewrite active_reject].
      destruct (_ <=? _); [by rewrite active_send|]. cbv zeta. unfold dispatch.
      destruct (handle _ _ _ _ _) as [d' an]. set (w1 := (tally RequestsHandled _, _)).
      set (response := response_of _ _). pose proof (active_send o (tn_send t) response w1) as Hs.
      destruct (send_response o (tn_send t) response w1) as [[sh' s'] sent]. cbn [fst] in Hs.
      transitivity (connections_active (sh_stats sh')).
      { clear. by repeat case_match. }
      rewrite Hs. unfold w1. cbn [fst]. rewrite active_tally by done. cbn [sh_stats].
      by case_match; rewrite !active_tally.
    + unfold handshake. destruct (decode_hello_request frame) as [hello|]; [|by rewrite active_reject].
      destruct (negb _); [by rewrite active_finish, active_send|]. destruct (_ || _); [by rewrite active_reject|].
      set (r := mkResponse _ _ _ _ _ _ _). set (w1 := (tally FramesDecoded sh, set_decoder d s)).
      pose proof (active_send o (tn_send t) r w1) as Hs.
      destruct (send_response o (tn_send t) r w1) as [[sh' s'] sent]. by destruct (is_ok sent).
  - destruct (bool_decide _); [|by rewrite active_reject]. unfold poll.
    destruct (tn_poll t) as [|stop' now|os now]; [done| |].
    + destruct stop'; [done|]. by destruct (_ <=? _).
    + unfold receive_ready_bytes. destruct (recv_some _ _ _) as [st data]. 
      destruct (bool_decide (st = IoStatus.Ok)) eqn:E; cbn [negb]; [|by rewrite E, active_finish].
      destruct (push _ _) as [d' pushed]. by destruct (is_ok pushed).
Qed.

Lemma server_step_options dg s e : fs_options (server_step dg s e) = fs_options s.
Proof.
  destruct e as [bound| |answer|i t| |]; cbn [server_step].
  - unfold start_server. by repeat case_match.
  - done.
  - unfold accept_turn. destruct (negb _); [done|]. destruct (fs_stopping s); [done|].
    destruct answer as [|stopping|peer now]; [done|by destruct stopping|].
    cbn. destruct (reap_finished _ _) as [cs sh]. by case_match.
  - unfold worker_turn. destruct (_ !! _); [|done]. by destruct (serve_turn _ _ _ _ _).
  - unfold stop_requested. by destruct (fs_stopping s).
  - unfold stop_completed. by destruct (_ && _).
Qed.

Section Run.
Context (dg : Diagnostics) (d0 : Daemon).

Lemma accept_turn_ok answer s :
  u64_ok (so_max_connections (fs_options s)) -> server_ok dg d0 s -> server_ok dg d0 (accept_turn answer s).
Proof.
  intros Hmax [Hd Hc Hn Hb]. unfold accept_turn, u64_ok in *. destruct (negb _); [by split|].
  destruct (fs_stopping s); [by split|]. destruct answer as [|stopping|peer now]; [by split|by destruct stopping|].
  cbv zeta. cbn [fs_connections fs_shared fs_options set_accepting set_connections set_shared fs_next_index
    fs_listener fs_port fs_accepting fs_consecutive_errors fs_stopping fs_running].
  pose proof (reap_finished_spec _ (fs_connections s) (fs_shared s) Hc ltac:(lia)) as Hreap.
  destruct (reap_finished (fs_connections s) (fs_shared s)) as [cs sh].
  destruct Hreap as (Hc' & Htalks & Hn' & Hsum & Hlen). injection Htalks as Hday Hcalls.
  destruct (N.leb_spec (so_max_connections (fs_options s)) (connections_active (sh_stats sh))) as [Hle|Hlt].
  - split; cbn [fs_connections fs_shared fs_options set_accepting set_connections set_shared];
      rewrite ?active_tally by done; [by cbn; rewrite Hday, Hcalls|cbn; by rewrite Hcalls|exact Hn'|lia].
  - assert (connections_active (sh_stats (tally ConnectionsActive (tally ConnectionsAccepted sh))) =
      connections_active (sh_stats sh) + 1) as Hactive.
    { cbn. unfold wrap64. apply N.mod_small. lia. }
    split; cbn [fs_connections fs_shared fs_options]; rewrite ?Hactive.
    + cbn. by rewrite Hday, Hcalls.
    + apply Forall_app. split; [cbn; by rewrite Hcalls|]. apply Forall_singleton. split.
      * exists []. apply new_session_tracks.
      * apply sublist_nil_l.
    + rewrite length_app. cbn [length]. lia.
    + lia.
Qed.

Lemma worker_turn_ok i t s : server_ok dg d0 s -> server_ok dg d0 (worker_turn dg i t s).
Proof.
  intros [Hd Hc Hn Hb]. unfold worker_turn. destruct (fs_connections s !! i) as [c|] eqn:Hi; [|by split].
  pose proof (Forall_lookup_1 _ _ _ _ Hc Hi) as [[handled Htr] Hsub].
  pose proof (serve_turn_ok dg (fs_options s) t (fs_stopping s) handled (fs_shared s, cn_session c) Htr) as [Hmoves [more Htr']].
  pose proof (serve_turn_active dg (fs_options s) (fs_stopping s) t (fs_shared s, cn_session c)) as Hactive.
  destruct (serve_turn _ _ _ _ _) as [sh session]. cbn [fst snd] in *.
  assert (exists new, sh_calls sh = sh_calls (fs_shared s) ++ new /\
    ss_requests session = ss_requests (cn_session c) ++ (cl_request <$> new) /\
    sh_daemon sh = handle_all dg d0 (sh_calls sh)) as (new & Hcalls & Hreq & Hday).
  { destruct Hmoves as [[Htalks Hreq]|(r & Hreq & Htalks)]; injection Htalks as Hday Hcalls.
    - exists []. rewrite !app_nil_r, Hcalls, Hday. by split_and!.
    - eexists. rewrite Hcalls, Hday, handle_all_snoc, <-Hd. by split_and!. }
  split; cbn [fs_connections fs_shared fs_options set_connections set_shared];
    [exact Hday| |by rewrite length_insert, Hactive|by rewrite Hactive].
  apply Forall_insert; [|].
  - rewrite Hcalls. eapply Forall_impl; [exact Hc|]. intros c'. apply connection_ok_mono.
  - split; [by exists (handled ++ more)|]. cbn [cn_session]. rewrite Hreq, Hcalls, fmap_app.
    by apply sublist_app.
Qed.

Lemma server_step_ok e s :
  u64_ok (so_max_connections (fs_options s)) -> server_ok dg d0 s -> server_ok dg d0 (server_step dg s e).
Proof.
  intros Hmax Hs. destruct e as [bound| |answer|i t| |]; cbn [server_step].
  - destruct Hs as [? ? ? ?]. unfold start_server. by repeat case_match.
  - by destruct Hs as [? ? ? ?].
  - by apply accept_turn_ok.
  - by apply worker_turn_ok.
  - destruct Hs as [? ? ? ?]. unfold stop_requested. by destruct (fs_stopping s).
  - unfold stop_completed. destruct (_ && _); [|done]. destruct Hs as [? ? ? ?].
    split; cbn; [done|constructor|lia|done].
Qed.

Lemma server_run_ok events s :
  u64_ok (so_max_connections (fs_options s)) -> server_ok dg d0 s -> server_ok dg d0 (server_run dg s events).
Proof.
  intros Hmax. revert s Hmax. induction events as [|e events IH]; intros s Hmax Hs; [done|].
  apply IH; [by rewrite server_step_options|by apply server_step_ok].
Qed.

Lemma new_server_ok o : server_ok dg d0 (new_server o d0).
Proof. split; [done|constructor|done|]. cbn. lia. Qed.

Lemma new_server_run_ok o events :
  u64_ok (so_max_connections o) -> server_ok dg d0 (server_run dg (new_server o d0) events).
Proof. intros Ho. apply server_run_ok; [done|apply new_server_ok]. Qed.
End Run.

Lemma server_run_options dg s events : fs_options (server_run dg s events) = fs_options s.
Proof.
  revert s. induction events as [|e events IH]; intros s; [done|]. cbn. unfold server_run in IH.
  by rewrite IH, server_step_options.
Qed.

(** ** Properties *)

(** C31: whatever the answers of sockets, clocks and the daemon, and whenever the
    stop flag is set, the requests that a connection hands to the daemon are
    those that its stream amounts to as far as it was worked off, however it was
    cut into chunks: none before a well-formed handshake, each later one once and
    in the order of rising sequences; an open connection that waits for input has
    worked off the whole stream. *)
Theorem session_follows_stream dg o sh now turns :
  let '(_, s) := serve_turns dg o turns (sh, new_session o now) in
  exists handled later status rest,
    parse_stream (so_max_frame_bytes o) (ss_received s) = (handled ++ later, status, rest) /\
    ss_requests s = (phase_run Fresh handled).2 /\
    StronglySorted N.lt (sequences (ss_requests s)) /\
    (ss_requests s <> [] -> exists hello more, handled = hello :: more /\ hello_accepted hello = true) /\
    (ss_done s = false -> (next (ss_decoder s)).2 = Fail Status.NotFound -> later = [] /\ status = Status.NotFound).
Proof.
  assert (exists handled, tracks (so_max_frame_bytes o) (serve_turns dg o turns (sh, new_session o now)).2 handled)
    as [handled Htr].
  { pose proof (new_session_tracks o now) as H0. revert H0. generalize (@nil bytes) as handled.
    generalize (new_session o now) as s. revert sh. unfold serve_turns.
    induction turns as [|[stopping t] turns IH]; intros sh s handled Htr; [by exists handled|]. cbn [foldl].
    pose proof (serve_turn_ok dg o t stopping handled (sh, s) Htr) as [_ [more Htr']].
    destruct (serve_turn dg o stopping t (sh, s)) as [sh' s']. by eapply IH. }
  destruct (serve_turns dg o turns (sh, new_session o now)) as [sh' s]. cbn [snd] in Htr.
  destruct Htr as [(later & status & rest & Hp & Hd) Hr Hph Hf].
  exists handled, later, status, rest. split_and!; [done..| | |].
  - rewrite Hr. apply phase_run_fresh_increasing.
  - rewrite Hr. destruct handled as [|hello more]; [done|]. intros Hne. exists hello, more. split; [done|].
    cbn [phase_run phase_step] in Hne. destruct (hello_accepted hello); [done|].
    by rewrite phase_run_closed in Hne.
  - intros Hopen Hnext. destruct (Hd Hopen) as [Hready Hu]. pose proof (next_parses _ _ _ _ _ Hready Hu) as Hn.
    destruct (next (ss_decoder s)) as [d [frame|e]]; [done|]. cbn [snd] in Hnext. injection Hnext as ->.
    destruct Hn as (-> & -> & _). done.
Qed.

(** C7: a run of the server, its accept loop, its workers and stops interleaved
    in any way, refines a history of the authority: the daemon has handled one
    sequence of calls, the requests of every connection are among them in the
    order of its stream, and so a daemon in service still serves, with the
    authority that a sequence of operations has made and a log that rebuilds it,
    or, behind such a sequence, a compaction has lost its file or the commit of one
    operation has failed. *)
Theorem server_refines_authority dg o d id es events :
  u64_ok (so_max_connections o) -> serves id es d ->
  let s := server_run dg (new_server o d) events in
  let calls := sh_calls (fs_shared s) in
  Forall call_ok calls ->
  sh_daemon (fs_shared s) = handle_all dg d calls /\
  Forall (fun c => ss_requests (cn_session c) `sublist_of` (cl_request <$> calls) /\
                   exists handled later status rest,
                     parse_stream (so_max_frame_bytes o) (ss_received (cn_session c)) =
                       (handled ++ later, status, rest) /\
                     ss_requests (cn_session c) = (phase_run Fresh handled).2) (fs_connections s) /\
  (serving_from (d_authority d) (sh_daemon (fs_shared s)) \/
   stalled_from (d_authority d) (sh_daemon (fs_shared s)) \/
   broken_from (d_authority d) (sh_daemon (fs_shared s))).
Proof.
  intros Ho Hd s calls Hcalls.
  destruct (new_server_run_ok dg d o events Ho) as [Hday Hconns _ _]. fold s in Hday, Hconns.
  split_and!; [exact Hday| |].
  - eapply Forall_impl; [exact Hconns|]. intros c [[handled [(later & status & rest & Hp & _) Hr _ _]] Hsub].
    split; [exact Hsub|]. exists handled, later, status, rest. split; [|exact Hr].
    unfold s in Hp. by rewrite server_run_options in Hp.
  - rewrite Hday. apply handle_all_keeps; [|exact Hcalls]. exists [], id, es. split; [constructor|exact Hd].
Qed.

(** At any time the registry holds no more connections than the counter of
    active ones says, and these are no more than the options allow. *)
Theorem connections_bounded dg o d events :
  u64_ok (so_max_connections o) ->
  let s := server_run dg (new_server o d) events in
  N.of_nat (length (fs_connections s)) <= connections_active (sh_stats (fs_shared s)) <= so_max_connections o.
Proof.
  intros Ho s. destruct (new_server_run_ok dg d o events Ho) as [_ _ Hn Hb].
  rewrite server_run_options in Hb. by split.
Qed.

(** A stop does not uncount the connections it ends.  A server that may have
    one connection accepts a peer, is stopped and started again: it runs with an
    empty registry and turns every peer away. *)
Theorem stop_leaks_connections dg d port peer now t peers :
  let o := mkServerOptions default_endpoint 1 kDefaultMaxFrameBytes 30000 15000 true false in
  let bound := fun _ _ => Ok port in
  let s := server_run dg (new_server o d)
    ([EvStart bound; EvAccept (Accepted peer now); EvStopRequested; EvAccept AcceptTimedOut; EvWorker 0 t;
      EvStopCompleted; EvStart bound] ++ (EvAccept <$> (uncurry Accepted <$> peers))) in
  fs_running s = true /\ fs_accepting s = true /\ fs_connections s = [] /\
  connections_active (sh_stats (fs_shared s)) = 1.
Proof.
  intros o bound s. unfold s, server_run. rewrite foldl_app.
  set (s1 := foldl _ _ [_; _; _; _; _; _; _]).
  assert (fs_running s1 = true /\ fs_accepting s1 = true /\ fs_stopping s1 = false /\ fs_connections s1 = [] /\
    fs_options s1 = o /\ connections_active (sh_stats (fs_shared s1)) = 1) as H by done.
  clearbody s1. clear s. revert s1 H. induction peers as [|[p n] peers IH]; intros s1 (H1 & H2 & H3 & H4 & H5 & H6).
  { by split_and!. }
  cbn [fmap list_fmap foldl server_step uncurry]. apply IH. unfold accept_turn. rewrite H2, H3. cbn [negb].
  cbv zeta. cbn [fs_connections fs_shared fs_options set_accepting set_connections set_shared].
  rewrite H4. cbn [reap_finished]. cbn [fs_options set_shared set_connections set_accepting]. rewrite H5, H6.
  change (so_max_connections o <=? 1) with true. cbv iota.
  by split_and!.
Qed.

(** ** Witnesses *)

Definition sample_hello : HelloRequest :=
  mkHelloRequest kWireProtocolVersion (mkId128 900 900) (str "isf-client") 1048576.

(** A client's handshake and its first request, sent at once. *)
Definition sample_stream : bytes :=
  encode_frame (encode_hello_request sample_hello) ++ encode_frame (encode_request sample_retire).

Definition sample_turn (data : bytes) : Turn :=
  mkTurn (Readable (Arrived data) 5) (fun _ => Taken 65536) (Sample.id 901) 30 sample_answers [].

Definition sample_events : list ServerEvent :=
  [EvStart (fun _ _ => Ok 7000); EvAccept (Accepted default_endpoint 1);
   EvWorker 0 (sample_turn (take 20 sample_stream)); EvWorker 0 (sample_turn (drop 20 sample_stream));
   EvWorker 0 (sample_turn []); EvWorker 0 (sample_turn [])].

Lemma sample_calls :
  sh_calls (fs_shared (server_run sample_diagnostics (new_server default_server_options sample_daemon) sample_events)) =
  [mkCall sample_retire 30 sample_answers].
Proof. by vm_compute. Qed.

Lemma server_refines_authority_witness :
  serves (Sample.id 500) sample_filling sample_daemon /\
  let s := server_run sample_diagnostics (new_server default_server_options sample_daemon) sample_events in
  serving_from sample_rebuilt (sh_daemon (fs_shared s)) \/ stalled_from sample_rebuilt (sh_daemon (fs_shared s)) \/
  broken_from sample_rebuilt (sh_daemon (fs_shared s)).
Proof.
  split; [exact sample_serves|].
  refine (proj2 (proj2 (server_refines_authority sample_diagnostics default_server_options sample_daemon (Sample.id 500)
    sample_filling sample_events ltac:(by vm_compute) sample_serves _))).
  rewrite sample_calls. apply Forall_singleton. split; [by vm_compute|exact sample_retire_survives].
Defined.

Lemma connections_bounded_witness :
  u64_ok (so_max_connections default_server_options) /\
  N.of_nat (length (fs_connections
    (server_run sample_diagnostics (new_server default_server_options sample_daemon) sample_events))) <= 64.
Proof.
  assert (u64_ok (so_max_connections default_server_options)) as H by by vm_compute. split; [exact H|].
  destruct (connections_bounded sample_diagnostics default_server_options sample_daemon sample_events H) as [H1 H2].
  etrans; [exact H1|exact H2].
Defined.
