(* ===== verification/Client.v ===== *)
(** * The client (include/isf/client.hpp, src/client.cpp)

    The synchronous protocol client: the handshake, one request and its reply,
    and the typed operations.  What the sockets and the random source answer is
    an argument.  An operation gives the client behind it, the bytes it has sent
    and its result; the result is [None] while the bytes that have arrived make
    no frame yet. *)

From Stdlib Require Import Strings.Byte.
From S2P Require Import Prelude Outcome Ids Lifecycle Policy Wire Model Codecs State Ledger Changes.
From S2P Require Import PlanFabric Operations Snapshot Store Frames Protocol Replies Net Server.

Record ClientOptions := mkClientOptions {
  co_endpoint : Endpoint;
  co_connect_timeout_ms : N;
  co_io_timeout_ms : N;
  co_max_frame_bytes : N;
  co_client_kind : bytes;
}.

Definition default_client_options : ClientOptions :=
  mkClientOptions default_endpoint 5000 30000 kDefaultMaxFrameBytes (str "isf-client").

Record FabricClient := mkFabricClient {
  fc_connected : bool;
  fc_decoder : FrameDecoder;
  fc_options : ClientOptions;
  fc_hello : HelloReply;
  fc_sequence : N;
}.

Definition set_fc_decoder (d : FrameDecoder) (c : FabricClient) : FabricClient :=
  mkFabricClient (fc_connected c) d (fc_options c) (fc_hello c) (fc_sequence c).
Definition next_sequence (c : FabricClient) : FabricClient :=
  mkFabricClient (fc_connected c) (fc_decoder c) (fc_options c) (fc_hello c) (wrap64 (fc_sequence c + 1)).

Definition close_client (c : FabricClient) : FabricClient :=
  mkFabricClient false (fc_decoder c) (fc_options c) (fc_hello c) (fc_sequence c).

(** ** Receiving *)

Definition pump (os : ReceiveAnswer) (c : FabricClient) : FabricClient * IoStatus :=
  let '(status, data) := recv_some os (fc_connected c) kReceiveChunk in
  if negb (bool_decide (status = IoStatus.Ok)) then (c, status)
  else
    let '(d, pushed) := push (fc_decoder c) data in
    (set_fc_decoder d c, if is_ok pushed then IoStatus.Ok else IoStatus.Error).

(** The loop that waits for a frame; a receive that fails ends it with
    [Unavailable], a timeout like any other failure. *)
Fixpoint await_frame (answers : list ReceiveAnswer) (c : FabricClient) :
    FabricClient * option (Expected bytes) :=
  match next (fc_decoder c) with
  | (d, Ok payload) => (set_fc_decoder d c, Some (Ok payload))
  | (d, Fail status) =>
      let c := set_fc_decoder d c in
      if negb (bool_decide (status = Status.NotFound)) then (c, Some (Fail status))
      else
        match answers with
        | [] => (c, None)
        | os :: answers =>
            let '(c, pumped) := pump os c in
            if negb (bool_decide (pumped = IoStatus.Ok)) then (c, Some (Fail Status.Unavailable))
            else await_frame answers c
        end
  end.

(** ** The handshake *)

(** What connecting gets: the state of the transport, the outcome of the
    connection and of the timeouts, the nonce, and the answers of the socket. *)
Record ConnectAnswers := mkConnectAnswers {
  cna_transport : Status;
  cna_connected : Status;
  cna_timeouts : Status;
  cna_nonce : Id128;
  cna_send : nat -> SendAnswer;
  cna_receive : list ReceiveAnswer;
}.

Definition hello_request (nonce : Id128) (o : ClientOptions) : HelloRequest :=
  mkHelloRequest kWireProtocolVersion nonce (co_client_kind o) (wrap32 (co_max_frame_bytes o)).

(** What the reply to the handshake says. *)
Definition read_hello (payload : bytes) : Expected HelloReply :=
  response ← decode_response payload default_limits;
  if bool_decide (rp_type response = MessageType.ErrorReply) then Fail (rp_status response)
  else
  fail_if negb (bool_decide (rp_type response = MessageType.HelloAck)) with Status.Invalid ;;
  reply ← decode_hello_reply (rp_payload response);
  fail_if negb (hr_protocol_version reply =? kWireProtocolVersion) with Status.VersionMismatch ;;
  Ok reply.

Definition no_hello : HelloReply :=
  mkHelloReply kWireProtocolVersion (from_raw nil_id) (from_raw nil_id) (mkEpoch 0) kDefaultMaxFrameBytes
    RecoveryFidelity.Missing false false kStoreFormatVersion.

Definition connect (os : ConnectAnswers) (o : ClientOptions) : bytes * option (Expected FabricClient) :=
  if negb (is_ok (cna_transport os)) then ([], Some (Fail (cna_transport os)))
  else if port (co_endpoint o) =? 0 then ([], Some (Fail Status.Invalid))
  else if negb (is_ok (cna_connected os)) then ([], Some (Fail (cna_connected os)))
  else if negb (is_ok (cna_timeouts os)) then ([], Some (Fail Status.Unavailable))
  else
    let client := mkFabricClient true (new_decoder (co_max_frame_bytes o)) o no_hello 0 in
    let frame := encode_frame (encode_hello_request (hello_request (cna_nonce os) o)) in
    let '(status, written) := send_all (cna_send os) true frame in
    if negb (bool_decide (status = IoStatus.Ok))
    then (take (N.to_nat written) frame, Some (Fail Status.Unavailable))
    else
      let '(client, payload) := await_frame (cna_receive os) client in
      (frame,
       (fun payload =>
          payload ← payload;
          reply ← read_hello payload;
          Ok (mkFabricClient true (new_decoder (hr_max_frame_bytes reply)) o reply 0)) <$> payload).

(** ** One request *)

(** The identity drawn for a request, and the answers of the socket. *)
Record Exchange := mkExchange {
  ex_id : RequestId;
  ex_send : nat -> SendAnswer;
  ex_receive : list ReceiveAnswer;
}.

Abbreviation ClientResult A := (FabricClient * bytes * option (Expected A))%type.

Definition request_for (ex : Exchange) (c : FabricClient) (type : MessageType) (body : bytes) : Request :=
  mkRequest kWireProtocolVersion type (wrap64 (fc_sequence c + 1)) (ex_id ex) body.

(** The checks of a reply frame against the request. *)
Definition accept_reply (request : Request) (payload : bytes) : Expected Response :=
  response ← decode_response payload default_limits;
  fail_if negb (id_eqb (rp_id response) (rq_id request)) with Status.Conflicting ;;
  fail_if negb (rp_session_seq response =? rq_session_seq request) with Status.Conflicting ;;
  Ok response.

Definition round_trip (ex : Exchange) (c : FabricClient) (type : MessageType) (body : bytes) :
    ClientResult Response :=
  if negb (fc_connected c) then (c, [], Some (Fail Status.Unavailable))
  else
    let request := request_for ex c type body in
    let c := next_sequence c in
    let encoded := encode_request request in
    if hr_max_frame_bytes (fc_hello c) <? blen encoded then (c, [], Some (Fail Status.LimitExceeded))
    else
      let frame := encode_frame encoded in
      let '(status, written) := send_all (ex_send ex) true frame in
      if negb (bool_decide (status = IoStatus.Ok))
      then (c, take (N.to_nat written) frame, Some (Fail Status.Unavailable))
      else
        let '(c, payload) := await_frame (ex_receive ex) c in
        (c, frame, (fun payload => payload ← payload; accept_reply request payload) <$> payload).

Definition call := round_trip.

(** ** Reading replies *)

(** The payload of a reply of status OK. *)
Definition reply_payload (response : Expected Response) : Expected bytes :=
  response ← response;
  fail_if negb (is_ok (rp_status response)) with rp_status response ;;
  Ok (rp_payload response).

(** A request whose reply body is read with [read]. *)
Definition call_reading {A} (read : bytes -> Expected A) (ex : Exchange) (c : FabricClient)
    (type : MessageType) (body : bytes) : ClientResult A :=
  let '(c, sent, response) := round_trip ex c type body in
  (c, sent, (fun response => payload ← reply_payload response; read payload) <$> response).

Definition read_report (payload : bytes) : Expected MutationReport :=
  decode_mutation_report payload default_limits.

Definition simple_mutation : Exchange -> FabricClient -> MessageType -> bytes -> ClientResult MutationReport :=
  call_reading read_report.

(** ** Mutations *)

Section Mutations.
Context (ex : Exchange) (c : FabricClient).
Abbreviation mutate := (simple_mutation ex c).

Definition register_site (descriptor : SiteDescriptor) (incarnation : Incarnation) (epoch : Epoch) (now : N) :=
  mutate MessageType.SiteRegister
    (encode_site_registration (mkSiteRegistration descriptor incarnation epoch now)).
Definition heartbeat (hb : SiteHeartbeat) := mutate MessageType.SiteHeartbeat (encode_heartbeat hb).
Definition client_set_site_state (site : SiteId) (state : SiteState) (reason : bytes) (now : N) :=
  mutate MessageType.SiteSetState (encode_state_request site_states site state reason now).
Definition register_path (registration : PathRegistration) :=
  mutate MessageType.PathRegister (encode_path_registration registration).
Definition client_set_path_state (path : PathId) (state : PathState) (reason : bytes) (now : N) :=
  mutate MessageType.PathSetState (encode_state_request path_states path state reason now).
Definition attest_capacity (attestation : CapacityAttestation) :=
  mutate MessageType.CapacityAttest (encode_attestation attestation).
Definition issue_oversubscription (authority : OversubscriptionAuthority) :=
  mutate MessageType.Oversubscribe (encode_oversubscription authority).
Definition install_policy (policy : Policy) (principal : PrincipalId) :=
  mutate MessageType.PolicyInstall (encode_policy_install_request policy principal).
Definition bump_epoch (epoch : Epoch) (principal : PrincipalId) :=
  mutate MessageType.EpochBump (encode_epoch_bump_request epoch principal).
Definition propose_grant (proposal : GrantProposal) :=
  mutate MessageType.GrantPropose (encode_grant_proposal proposal).
Definition evaluate_grant (op : GrantOperation) := mutate MessageType.GrantEvaluate (encode_grant_operation op).
Definition reserve_grant (op : GrantOperation) := mutate MessageType.GrantReserve (encode_grant_operation op).
Definition activate_grant (op : GrantOperation) := mutate MessageType.GrantActivate (encode_grant_operation op).
Definition degrade_grant (op : GrantOperation) := mutate MessageType.GrantDegrade (encode_grant_operation op).
Definition withdraw_grant (op : GrantOperation) := mutate MessageType.GrantWithdraw (encode_grant_operation op).
Definition retire_grant (op : GrantOperation) := mutate MessageType.GrantRetire (encode_grant_operation op).
Definition cancel_grant (op : GrantOperation) := mutate MessageType.GrantCancel (encode_grant_operation op).
Definition acknowledge_grant (ack : GrantAcknowledgement) :=
  mutate MessageType.GrantAcknowledge (encode_acknowledgement ack).
Definition verify_grant (verification : GrantVerification) :=
  mutate MessageType.GrantVerify (encode_verification_message verification).
Definition reconcile_grant (op : GrantOperation) (target : GrantState) (principal : PrincipalId) :=
  mutate MessageType.GrantReconcile (encode_reconcile_request op target principal).
Definition client_tick (now : N) := mutate MessageType.TickRequest (encode_u64_body now).
End Mutations.

(** ** Reads *)

Section Reads.
Context (ex : Exchange) (c : FabricClient).

Definition client_status := call_reading decode_status_report ex c MessageType.StatusRequest [].
Definition list_sites := call_reading decode_site_list ex c MessageType.ListSites [].
Definition list_paths := call_reading decode_path_list ex c MessageType.ListPaths [].
Definition client_list_grants (filter : ListFilter) :=
  call_reading decode_grant_list ex c MessageType.ListGrants (encode_list_filter filter).
Definition client_ledger (path : PathId) :=
  call_reading (fun payload => report ← decode_ledger_report payload; Ok (lr_ledger report)) ex c
    MessageType.LedgerRequest (encode_id_body (raw path)).
Definition client_digest := call_reading decode_digest_report ex c MessageType.DigestRequest [].

(** The reader of a snapshot has limits of its own and is not asked whether it
    consumed the payload. *)
Definition client_snapshot_limits : WireLimits :=
  mkWireLimits kAbsoluteMaxFrameBytes 4096 (N.shiftl 1 20) 8.
Definition client_snapshot :=
  call_reading (fun payload => '(snapshot, _) ← decode_snapshot client_snapshot_limits payload; Ok snapshot)
    ex c MessageType.SnapshotRequest [].

(** Only the status of the reply counts. *)
Definition request_shutdown : FabricClient * bytes * option Status :=
  let '(c, sent, response) := round_trip ex c MessageType.ShutdownRequest [] in
  (c, sent, (fun response => match response with Ok r => rp_status r | Fail s => s end) <$> response).
End Reads.

(** ** Records in a mutation reply *)

Definition find_change (report : MutationReport) (kind : ObjectKind) : Expected StateChange :=
  match find_entry (fun change => bool_decide (sc_kind change = kind)) (mr_changes report) with
  | Some change => Ok change
  | None => Fail Status.NotFound
  end.

Definition extract_limits : WireLimits := mkWireLimits (N.shiftl 16 20) 4096 (N.shiftl 1 20) 8.

Definition extract_record {A} (r : reader A) (kind : ObjectKind) (report : MutationReport) : Expected A :=
  change ← find_change report kind;
  '(record, _) ← r extract_limits (sc_image change);
  Ok record.

Definition extract_grant : MutationReport -> Expected GrantRecord := extract_record decode_grant ObjectKind.Grant.
Definition extract_site : MutationReport -> Expected SiteRecord := extract_record decode_site ObjectKind.Site.
Definition extract_path : MutationReport -> Expected PathRecord := extract_record decode_path ObjectKind.Path.

(** ** The operations as one *)

(** The client's call for an operation; [principal] signs the policy and epoch
    requests. *)
Definition perform (principal : PrincipalId) (op : Op) (ex : Exchange) (c : FabricClient) :
    ClientResult MutationReport :=
  match op with
  | InstallPolicy p => install_policy ex c p principal
  | BumpEpoch e => bump_epoch ex c e principal
  | RegisterSite r => register_site ex c (sr_descriptor r) (sr_incarnation r) (sr_epoch r) (sr_now_ms r)
  | Heartbeat h => heartbeat ex c h
  | SetSiteState id s reason now => client_set_site_state ex c id s reason now
  | RegisterPath r => register_path ex c r
  | SetPathState id s reason now => client_set_path_state ex c id s reason now
  | AttestCapacity t => attest_capacity ex c t
  | IssueOversubscription o => issue_oversubscription ex c o
  | ProposeGrant p => propose_grant ex c p
  | EvaluateGrant op => evaluate_grant ex c op
  | ReserveGrant op => reserve_grant ex c op
  | ActivateGrant op => activate_grant ex c op
  | DegradeGrant op => degrade_grant ex c op
  | WithdrawGrant op => withdraw_grant ex c op
  | RetireGrant op => retire_grant ex c op
  | CancelGrant op => cancel_grant ex c op
  | AcknowledgeGrant ack => acknowledge_grant ex c ack
  | VerifyGrant v => verify_grant ex c v
  | ReconcileGrant op target who => reconcile_grant ex c op target who
  | Tick now => client_tick ex c now
  end.
