(* ===== verification/Dialogue.v ===== *)
(** * A client and its server

    The composition of the two ends of a connection: what the client sends for an
    operation is what the daemon plans, and what it returns is the daemon's
    answer to that request; and what happens when a reply comes late or exceeds
    the negotiated frame bound. *)

From Stdlib Require Import Strings.Byte.
From S2P Require Import Prelude Outcome Ids Lifecycle Policy Wire Model Codecs State Ledger Changes.
From S2P Require Import PlanFabric Operations WellFormed Snapshot Store Journal Recovery Frames Protocol Replies Daemon.
From S2P Require Import Applicable Steps Crash Service Net Server Sessions Client.

(** ** Bytes on their way *)

(** The chunks in which [data] arrives: none empty, none larger than a receive
    buffer or a frame. *)
Record delivers (max : N) (data : bytes) (chunks : list bytes) : Prop := {
  dl_data : mjoin chunks = data;
  dl_chunks : Forall (fun chunk => chunk <> [] /\ blen chunk <= kReceiveChunk /\ blen chunk <= frame_bound max) chunks;
}.

Lemma recv_arrived data :
  data <> [] -> blen data <= kReceiveChunk -> recv_some (Arrived data) true kReceiveChunk = (IoStatus.Ok, data).
Proof.
  intros Hne Hle. unfold recv_some. cbn [negb]. change (N.shiftl 1 20 <? kReceiveChunk) with false. cbv iota.
  rewrite take_ge by (unfold blen in Hle; lia). by rewrite bool_decide_eq_false_2.
Qed.

(** A frame that a decoder waits for is not complete before its last chunk. *)
Lemma frame_head_chunk max data chunk chunks payload :
  frame_head max (data ++ mjoin (chunk :: chunks)) = Frame payload [] ->
  Forall (fun c => c <> []) chunks ->
  (chunks = [] /\ frame_head max (data ++ chunk) = Frame payload []) \/ frame_head max (data ++ chunk) = Waiting.
Proof.
  intros Hf Hne. change (mjoin (chunk :: chunks)) with (chunk ++ mjoin chunks) in Hf. rewrite app_assoc in Hf.
  pose proof (frame_head_app max (data ++ chunk) (mjoin chunks)) as Happ. rewrite Hf in Happ.
  destruct (frame_head max (data ++ chunk)) as [|e s|p rest]; [by right|done|left].
  injection Happ as -> Hrest. symmetry in Hrest. apply app_eq_nil in Hrest as [-> Hj]. split; [|done].
  destruct chunks as [|c chunks]; [done|]. apply Forall_cons in Hne as [Hc _].
  change (mjoin (c :: chunks)) with (c ++ mjoin chunks) in Hj. by apply app_eq_nil in Hj as [? _].
Qed.

(** What [await_frame] does not touch. *)
Definition fixed (c : FabricClient) : bool * ClientOptions * HelloReply * N :=
  (fc_connected c, fc_options c, fc_hello c, fc_sequence c).

(** The client's loop takes the chunks of one frame and hands out its payload. *)
Lemma await_frame_takes max c chunks payload :
  max <= kAbsoluteMaxFrameBytes -> fc_connected c = true -> ready max (fc_decoder c) ->
  frame_head max (unread (fc_decoder c)) = Waiting ->
  Forall (fun chunk => chunk <> [] /\ blen chunk <= kReceiveChunk /\ blen chunk <= frame_bound max) chunks ->
  frame_head max (unread (fc_decoder c) ++ mjoin chunks) = Frame payload [] ->
  exists c', await_frame (Arrived <$> chunks) c = (c', Some (Ok payload)) /\ fixed c' = fixed c /\
    ready max (fc_decoder c') /\ unread (fc_decoder c') = [].
Proof.
  intros Hmax Hconn Hd Hw Hcs. revert c Hconn Hd Hw. induction Hcs as [|chunk chunks (Hne & Hk & Hb) Hcs IH];
    intros c Hconn Hd Hw Hf.
  { change (mjoin (@nil bytes)) with (@nil byte) in Hf. by rewrite app_nil_r, Hw in Hf. }
  cbn [fmap list_fmap await_frame]. pose proof (next_spec max _ Hd) as Hn. rewrite Hw in Hn. rewrite Hn.
  rewrite bool_decide_eq_true_2 by done. cbn [negb].
  assert (set_fc_decoder (fc_decoder c) c = c) as -> by by destruct c.
  unfold pump. rewrite Hconn, (recv_arrived chunk Hne Hk). rewrite bool_decide_eq_true_2 by done. cbn [negb].
  destruct (push_spec max _ chunk Hmax Hd Hw Hb) as (d1 & -> & Hd1 & Hu1). cbn [is_ok].
  rewrite bool_decide_eq_true_2 by done. cbn [negb bool_decide].
  destruct (frame_head_chunk _ _ _ _ _ Hf ltac:(eapply Forall_impl; [exact Hcs|naive_solver])) as [[-> Hlast]|Hwait].
  - rewrite <-Hu1 in Hlast. pose proof (next_spec max d1 Hd1) as Hn1. rewrite Hlast in Hn1.
    destruct Hn1 as (d2 & Hnext & Hd2 & Hu2). cbn [fmap list_fmap await_frame fc_decoder set_fc_decoder].
    rewrite Hnext. by eexists.
  - rewrite <-Hu1 in Hwait. destruct (IH (set_fc_decoder d1 c) Hconn Hd1 Hwait) as (c' & Ha & Hfix & Hd' & Hu').
    { cbn [fc_decoder set_fc_decoder]. rewrite Hu1, <-app_assoc. exact Hf. }
    exists c'. split_and!; [exact Ha|by rewrite Hfix|done..].
Qed.

Lemma serve_turns_cons dg o stopping t turns w :
  serve_turns dg o ((stopping, t) :: turns) w = serve_turns dg o turns (serve_turn dg o stopping t w).
Proof. done. Qed.

(** Turns of a worker in which the chunks arrive. *)
Definition receiving (chunks : list bytes) (turns : list Turn) : Prop :=
  Forall2 (fun chunk t => exists now, tn_poll t = Readable (Arrived chunk) now) chunks turns.

Record receives (max : N) (w w' : Worker) (frame : bytes) : Prop := {
  rc_open : ss_done w'.2 = false /\ ss_closing w'.2 = false;
  rc_ready : ready max (ss_decoder w'.2);
  rc_unread : unread (ss_decoder w'.2) = unread (ss_decoder w.2) ++ frame;
  rc_state : ss_last_sequence w'.2 = ss_last_sequence w.2 /\
             ss_handshake_complete w'.2 = ss_handshake_complete w.2 /\ ss_sent w'.2 = ss_sent w.2;
  rc_shared : sh_daemon w'.1 = sh_daemon w.1;
}.

(** The worker takes the chunks of a frame and waits for no more. *)
Lemma serve_turns_receive dg o chunks turns w payload :
  let max := so_max_frame_bytes o in
  max <= kAbsoluteMaxFrameBytes -> ss_done w.2 = false -> ss_closing w.2 = false ->
  ready max (ss_decoder w.2) -> frame_head max (unread (ss_decoder w.2)) = Waiting ->
  Forall (fun chunk => chunk <> [] /\ blen chunk <= kReceiveChunk /\ blen chunk <= frame_bound max) chunks ->
  receiving chunks turns ->
  frame_head max (unread (ss_decoder w.2) ++ mjoin chunks) = Frame payload [] ->
  receives max w (serve_turns dg o (pair false <$> turns) w) (mjoin chunks).
Proof.
  intros max Hmax Hopen Hclosing Hd Hw Hcs Hturns. revert w Hopen Hclosing Hd Hw.
  induction Hturns as [|chunk t chunks turns [now Hpoll] Hturns IH]; intros w Hopen Hclosing Hd Hw Hf.
  { split; try done. change (mjoin (@nil bytes)) with (@nil byte). by rewrite app_nil_r. }
  apply Forall_cons in Hcs as [(Hne & Hk & Hb) Hcs]. destruct w as [sh s]. cbn [fst snd] in *.
  change (pair false <$> t :: turns) with ((false, t) :: (pair false <$> turns)). rewrite serve_turns_cons.
  unfold serve_turn. rewrite Hopen, Hclosing. cbn [orb].
  pose proof (next_spec max _ Hd) as Hn. rewrite Hw in Hn. rewrite Hn. rewrite bool_decide_eq_true_2 by done.
  assert (set_decoder (ss_decoder s) s = s) as -> by by destruct s.
  unfold poll. rewrite Hpoll. unfold receive_ready_bytes. rewrite (recv_arrived chunk Hne Hk).
  rewrite bool_decide_eq_true_2 by done. cbn [negb].
  destruct (push_spec max _ chunk Hmax Hd Hw Hb) as (d1 & -> & Hd1 & Hu1).
  change (is_ok Status.Ok) with true. cbn [negb]. rewrite bool_decide_eq_true_2 by done.
  set (w1 := (set_stats _ sh, set_last_activity now _)).
  assert (ss_decoder w1.2 = d1) as Hdec by done.
  destruct (frame_head_chunk _ _ _ _ _ Hf ltac:(eapply Forall_impl; [exact Hcs|naive_solver])) as [[-> Hlast]|Hwait].
  - apply Forall2_nil_inv_l in Hturns as ->. split; try done.
    change (unread d1 = unread (ss_decoder s) ++ (chunk ++ [])). by rewrite app_nil_r.
  - destruct (IH Hcs w1 Hopen Hclosing) as [Ho Hr Hu Hst Hsh]; [by rewrite Hdec|by rewrite Hdec, Hu1| |].
    { rewrite Hdec, Hu1, <-app_assoc. exact Hf. }
    split; [exact Ho|exact Hr| |exact Hst|exact Hsh]. rewrite Hu, Hdec, Hu1, <-app_assoc. done.
Qed.

(** ** Envelopes *)

(** The daemon echoes the identity and the sequence of a request in a reply. *)
Lemma handle_echoes os dg now d request :
  let an := (handle os dg now d request).2 in
  an_id an = rq_id request /\ an_session_seq an = rq_session_seq request /\
  message_type_is_reply (an_type an) = true /\ forall v, an_type an <> MessageType.Unnamed v.
Proof.
  assert (forall s payload, let an := answer_to request s payload in
    an_id an = rq_id request /\ an_session_seq an = rq_session_seq request /\
    message_type_is_reply (an_type an) = true /\ forall v, an_type an <> MessageType.Unnamed v) as Hto.
  { intros s payload. cbn. split_and!; [done..| |]; by destruct (rq_type request). }
  unfold handle. destruct (negb _); [done|]. destruct (negb _); [done|]. destruct (_ && _); [apply Hto|].
  destruct (is_mutation _).
  - unfold handle_mutation. destruct (negb _); [apply Hto|]. destruct (d_durability_failed d); [apply Hto|].
    destruct (plan_for _ _ _) as [m|s]; [|destruct (_ && _); apply Hto].
    destruct (bool_decide _); [apply Hto|]. destruct (commit _ _ _ _ _) as [d' s].
    destruct (negb _); apply Hto.
  - unfold handle_read. cbn [snd]. cbv zeta. destruct (_ && _); [apply Hto|].
    destruct (rq_type request); try apply Hto.
    + destruct (decode_list_filter _); apply Hto.
    + destruct (decode_id_body _); [|apply Hto]. destruct (ledger _ _); apply Hto.
Qed.

(** The client's calls send what [encode_op] says. *)
Lemma perform_encodes principal op ex c :
  perform principal op ex c = simple_mutation ex c (encode_op principal op).1 (encode_op principal op).2.
Proof. destruct op as [| |[]| | | | | | | | | | | | | | | | | |]; done. Qed.

Lemma encode_op_type principal op :
  message_type_is_request (encode_op principal op).1 = true /\
  (encode_op principal op).1 <> MessageType.ShutdownRequest /\
  forall v, (encode_op principal op).1 <> MessageType.Unnamed v.
Proof. by destruct op. Qed.

Lemma accept_reply_own request response :
  response_fits default_limits response ->
  rp_id response = rq_id request -> rp_session_seq response = rq_session_seq request ->
  accept_reply request (encode_response response) = Ok response.
Proof.
  intros Hfits Hid Hseq. unfold accept_reply. rewrite decode_encode_response by done. cbn [mbind expected_bind].
  rewrite Hid, Hseq, N.eqb_refl. unfold id_eqb. rewrite bool_decide_eq_true_2 by done. done.
Qed.

(** ** One request and its reply *)

(** The two ends of a connection between two requests: the handshake is done,
    no byte is on its way, and the sequences agree. *)
Record synchronised (o : ServerOptions) (s : Session) (c : FabricClient) : Prop := {
  sy_open : ss_done s = false /\ ss_closing s = false /\ ss_handshake_complete s = true;
  sy_server : ready (so_max_frame_bytes o) (ss_decoder s) /\ unread (ss_decoder s) = [];
  sy_client : fc_connected c = true /\ ready (hr_max_frame_bytes (fc_hello c)) (fc_decoder c) /\
              unread (fc_decoder c) = [];
  sy_sequence : ss_last_sequence s = fc_sequence c;
  sy_bounds : hr_max_frame_bytes (fc_hello c) <= so_max_frame_bytes o /\
              so_max_frame_bytes o <= kAbsoluteMaxFrameBytes;
}.

(** The connection carries a request to the server, in the turns [turns] of its
    worker, and the response of the turn [t] back: both fit the negotiated bound
    and arrive in chunks. *)
Record carried (o : ServerOptions) (c : FabricClient) (ex : Exchange) (turns : list Turn) (t : Turn)
    (request : Request) (response : Response) : Prop := {
  ca_request : blen (encode_request request) <= hr_max_frame_bytes (fc_hello c);
  ca_request_sent : (send_all (ex_send ex) true (encode_frame (encode_request request))).1 = IoStatus.Ok;
  ca_request_arrives : exists chunks,
    delivers (so_max_frame_bytes o) (encode_frame (encode_request request)) chunks /\ receiving chunks turns;
  ca_response : blen (encode_response response) <= hr_max_frame_bytes (fc_hello c);
  ca_response_sent : (send_all (tn_send t) true (encode_frame (encode_response response))).1 = IoStatus.Ok;
  ca_response_arrives : exists chunks,
    delivers (hr_max_frame_bytes (fc_hello c)) (encode_frame (encode_response response)) chunks /\
    ex_receive ex = Arrived <$> chunks;
}.

Lemma waits_for_nothing max d : unread d = [] -> frame_head max (unread d) = Waiting.
Proof. by intros ->. Qed.

(** A frame sent whole. *)
Lemma send_whole os data : (send_all os true data).1 = IoStatus.Ok -> send_all os true data = (IoStatus.Ok, blen data).
Proof.
  intros H. pose proof (send_all_spec os data) as Hs. destruct (send_all os true data) as [st n]. cbn in H. subst st.
  destruct Hs as [_ Hs]. by rewrite (proj1 Hs eq_refl).
Qed.

Lemma take_blen {A} (l : list A) : take (N.to_nat (blen l)) l = l.
Proof. unfold blen. rewrite Nat2N.id. apply take_ge. done. Qed.

Lemma send_response_whole o os response sh s :
  (send_all os true (encode_frame (encode_response response))).1 = IoStatus.Ok ->
  blen (encode_response response) <= so_max_frame_bytes o ->
  exists sh', send_response o os response (sh, s) =
    ((sh', log_sent (encode_frame (encode_response response)) s), Status.Ok) /\ talks sh' = talks sh.
Proof.
  intros Hsend%send_whole Hle. unfold send_response. rewrite (proj2 (N.ltb_ge _ _)) by done.
  unfold send_frame. rewrite Hsend, bool_decide_eq_true_2, take_blen by done. by eexists.
Qed.

(** The server handles the request that has arrived. *)
Lemma serve_request_answers dg o t request sh s :
  request_fits default_limits request -> ss_last_sequence s < rq_session_seq request ->
  rq_type request <> MessageType.ShutdownRequest ->
  let '(d, an) := handle (tn_commit t) dg (tn_now t) (sh_daemon sh) request in
  let response := response_of (tn_text t) an in
  (send_all (tn_send t) true (encode_frame (encode_response response))).1 = IoStatus.Ok ->
  blen (encode_response response) <= so_max_frame_bytes o ->
  exists sh', serve_request dg o t (encode_request request) (sh, s) =
    (sh', log_sent (encode_frame (encode_response response))
            (log_request request (set_last_sequence (rq_session_seq request) s))) /\ sh_daemon sh' = d.
Proof.
  intros Hfits Hseq Htype. destruct (handle _ _ _ _ _) as [d an] eqn:Hhandle. intros response Hsend Hle.
  unfold serve_request. cbv beta iota. rewrite decode_encode_request by done. rewrite (proj2 (N.leb_gt _ _)) by done.
  cbv zeta. match goal with |- context [dispatch dg t request ?x] => set (sh1 := x) end.
  assert (talks sh1 = talks sh) as Hsh1 by (unfold sh1; by destruct (_ && _)).
  clearbody sh1. unfold dispatch. replace (sh_daemon sh1) with (sh_daemon sh) by by injection Hsh1.
  rewrite Hhandle. fold response. set (sh2 := tally RequestsHandled _).
  destruct (send_response_whole o (tn_send t) response sh2
    (log_request request (set_last_sequence (rq_session_seq request) s)) Hsend Hle) as (sh' & -> & Htalks).
  rewrite (bool_decide_eq_false_2 _ Htype). exists sh'. split; [done|]. by injection Htalks.
Qed.

(** The two ends behind an exchange. *)
Lemma exchange_completes dg o sh s c ex turns t type body :
  synchronised o s c -> fc_sequence c + 1 < 2 ^ 64 ->
  let request := request_for ex c type body in
  request_fits default_limits request -> type <> MessageType.ShutdownRequest ->
  let '(d, an) := handle (tn_commit t) dg (tn_now t) (sh_daemon sh) request in
  let response := response_of (tn_text t) an in
  response_fits default_limits response -> carried o c ex turns t request response ->
  exists c', round_trip ex c type body = (c', encode_frame (encode_request request), Some (Ok response)) /\
  let w' := serve_turns dg o (pair false <$> turns ++ [t]) (sh, s) in
  sh_daemon w'.1 = d /\ ss_sent w'.2 = ss_sent s ++ encode_frame (encode_response response) /\
  synchronised o w'.2 c'.
Proof.
  intros [(Hopen & Hclosing & Hh) [Hsd Hsu] (Hconn & Hcd & Hcu) Hsync [Hb1 Hb2]] Hwrap request Hrfits Htype.
  destruct (handle _ _ _ _ _) as [d an] eqn:Hhandle. intros response Hpfits Hcarried.
  destruct Hcarried as [Hrq Hrqs (chunks & [Hj Hcs] & Hturns) Hrp Hrps (replies & [Hj' Hcs'] & Hrecv)].
  set (max := so_max_frame_bytes o) in *. set (bound := hr_max_frame_bytes (fc_hello c)) in *.
  assert (wrap64 (fc_sequence c + 1) = fc_sequence c + 1) as Hw64 by by apply N.mod_small.
  assert (forall max' payload, blen payload <= max' -> max' <= kAbsoluteMaxFrameBytes ->
    frame_head max' (encode_frame payload) = Frame payload []) as Hhead.
  { intros max' payload H1 H2. rewrite <-(app_nil_r (encode_frame payload)). by apply frame_head_encoded. }
  (* the client *)
  destruct (await_frame_takes bound (next_sequence c) replies (encode_response response)) as (c' & Hawait & Hfix & Hcd' & Hcu');
    [lia|exact Hconn|exact Hcd|by apply waits_for_nothing|exact Hcs'| |].
  { cbn [fc_decoder next_sequence]. rewrite Hcu, Hj'. apply Hhead; [done|lia]. }
  injection Hfix as Hf1 _ Hf3 Hf4. exists c'. split.
  { unfold round_trip. rewrite Hconn. cbn [negb]. fold request. cbn [fc_hello next_sequence]. fold bound.
    rewrite (proj2 (N.ltb_ge _ _)) by done. rewrite (send_whole _ _ Hrqs), bool_decide_eq_true_2 by done. cbn [negb].
    rewrite Hrecv, Hawait. cbn [fmap option_fmap option_map mbind expected_bind].
    pose proof (handle_echoes (tn_commit t) dg (tn_now t) (sh_daemon sh) request) as Hecho. rewrite Hhandle in Hecho.
    destruct Hecho as (Hid & Hseq & _). by rewrite accept_reply_own. }
  (* the server *)
  destruct (serve_turns_receive dg o chunks turns (sh, s) (encode_request request)) as
    [[Ho1 Hc1] Hr1 Hu1 (Hl1 & Hh1 & Hs1) Hd1]; [exact Hb2|exact Hopen|exact Hclosing|exact Hsd|
      by apply waits_for_nothing|exact Hcs|exact Hturns| |].
  { cbn [snd]. rewrite Hsu, Hj. apply Hhead; [lia|done]. }
  rewrite fmap_app. cbv zeta. unfold serve_turns at 1 2 3. rewrite foldl_app. fold (serve_turns dg o (pair false <$> turns) (sh, s)).
  destruct (serve_turns dg o (pair false <$> turns) (sh, s)) as [sh1 s1]. cbn [fst snd fmap list_fmap foldl] in *.
  unfold serve_turn. rewrite Ho1, Hc1. cbn [orb]. pose proof (next_spec max _ Hr1) as Hn.
  rewrite Hu1, Hsu, Hj in Hn. cbn [app] in Hn. rewrite Hhead in Hn by (done || lia).
  destruct Hn as (d1 & -> & Hr2 & Hu2). rewrite Hh1, Hh.
  pose proof (serve_request_answers dg o t request (tally FramesDecoded sh1) (set_decoder d1 s1) Hrfits) as Hsrv.
  cbn [ss_last_sequence set_decoder rq_session_seq request_for rq_type request sh_daemon tally set_stats] in Hsrv.
  rewrite Hl1, Hsync, Hd1 in Hsrv. fold request in Hsrv. rewrite Hhandle in Hsrv.
  destruct Hsrv as (sh2 & -> & Hd2); [|exact Htype|exact Hrps|etrans; [exact Hrp|exact Hb1]|].
  { change (rq_session_seq request) with (wrap64 (fc_sequence c + 1)). rewrite Hw64. lia. }
  cbn [fst snd].
  split; [exact Hd2|]. cbn [ss_sent log_sent log_request set_last_sequence set_decoder]. split; [by rewrite Hs1|].
  split; cbn [ss_done ss_closing ss_handshake_complete ss_decoder ss_last_sequence log_sent log_request set_last_sequence set_decoder].
  - by rewrite Hh1.
  - done.
  - rewrite Hf1, Hf3. done.
  - by rewrite Hf4.
  - rewrite Hf3. done.
Qed.

(** ** Reports of mutations *)

Lemma read_all_yields {A} (r : reader A) limits payload v P :
  max_string limits = 4096 -> yields r P -> read_all r limits payload = Ok v -> P v.
Proof.
  intros Hl Hr H. unfold read_all in H. destruct (r limits payload) as [[v' rest]|s] eqn:E; [|done].
  apply guard_fail_ok in H as [_ [= ->]]. by eapply Hr.
Qed.

Lemma primary_key_wf request : id_wf (primary_for request).1.2.
Proof.
  assert (id_wf nil_id) as Hnil by done.
  assert (forall A (r : reader A) (kind : ObjectKind) (key : A -> Id128), yields r (fun v => id_wf (key v)) ->
    id_wf (match read_all r message_limits (rq_payload request) with
           | Ok v => (kind, key v, false) | Fail _ => (ObjectKind.AuthorityMeta, nil_id, true) end).1.2) as Hread.
  { intros A r kind key Hr. destruct (read_all _ _ _) as [v|] eqn:E; [|done].
    exact (read_all_yields r message_limits _ v _ eq_refl Hr E). }
  unfold primary_for. cbv zeta. destruct (rq_type request); try done; try apply Hread.
  - unfold r_site_registration. yields_fields. by apply yields_ret.
  - unfold r_heartbeat. yields_fields. by apply yields_ret.
  - unfold r_state_request. yields_fields. by apply yields_ret.
  - unfold r_path_registration. yields_fields. by apply yields_ret.
  - unfold r_state_request. yields_fields. by apply yields_ret.
  - destruct (decode_attestation default_limits (rq_payload request)) as [[v rest]|] eqn:E; [|done]. cbn.
    assert (yields decode_attestation (fun v => id_wf (raw (att_path v)))) as Hy
      by (unfold decode_attestation; yields_fields; by apply yields_ret).
    exact (Hy default_limits _ v rest eq_refl E).
Qed.

(** The report of a mutation is read by the client when it fits the envelope. *)
Lemma report_readable o request arb objs :
  Forall object_wf objs -> u64_ok (arb_value arb) -> do_max_changes_in_reply o <= 4096 ->
  let report := report_for o request arb (change_for <$> objs) in
  bytes_wf default_limits (encode_mutation_report report) -> read_report (encode_mutation_report report) = Ok report.
Proof.
  intros Hobjs Harb Hmax report [Hlen _]. apply decode_encode_mutation_report.
  pose proof (primary_key_wf request) as Hkey. unfold report, report_for in *.
  destruct (primary_for request) as [[kind key] any]. cbn [fst snd] in Hkey.
  set (limit := if _ =? 0 then 1 else _) in *.
  assert (limit <= 4096) as Hlimit by (unfold limit; destruct (_ =? 0); lia).
  set (changes := take _ _) in *.
  assert (blen changes <= 4096) as Hcount.
  { unfold changes, blen. rewrite length_take. lia. }
  split_and!; cbn [mr_arbitration mr_primary_key mr_total_changes mr_changes]; [exact Harb|exact Hkey| |lia|].
  { unfold u32_ok. apply N.mod_lt. done. }
  split_and!; [exact Hcount|unfold u32_ok; change (2 ^ 32) with 4294967296; lia|].
  apply Forall_forall. intros c Hc. split.
  - assert (c ∈ change_for <$> objs) as Hin
      by (apply elem_of_take in Hc as (i & Hi & _); by eapply list_elem_of_lookup_2).
    apply list_elem_of_fmap in Hin as (obj & -> & Hobj). apply change_keyed. by eapply Forall_forall in Hobjs.
  - pose proof (proj2 (changes_length changes) c Hc) as Hi. unfold encode_mutation_report, w_list in Hlen.
    cbn [mr_changes] in Hlen. unfold blen in Hlen. rewrite !length_app in Hlen. unfold bytes_wf, u32_ok, blen.
    change (max_bytes default_limits) with 1048576 in *. change (2 ^ 32) with 4294967296. lia.
Qed.

(** ** Properties *)

Lemma operation_request_fits principal op ex c :
  op_fits op -> id_wf (raw (ex_id ex)) ->
  request_fits default_limits (request_for ex c (encode_op principal op).1 (encode_op principal op).2).
Proof.
  intros Hop Hid. pose proof (op_body_length principal op Hop) as Hb.
  destruct (encode_op_type principal op) as (Ht & _ & Hn). split; try done; [apply wrap64_u64|].
  unfold bytes_wf, u32_ok. cbn [rq_payload request_for]. change (max_bytes default_limits) with 1048576.
  change (2 ^ 32) with 4294967296. lia.
Qed.

Lemma answer_fits os dg now d request detail :
  let response := response_of detail (handle os dg now d request).2 in
  u64_ok (rq_session_seq request) -> id_wf (raw (rq_id request)) -> str_wf default_limits detail ->
  blen (encode_response response) <= max_bytes default_limits -> response_fits default_limits response.
Proof.
  intros response Hseq Hid Hdetail Hlen. destruct (handle_echoes os dg now d request) as (Hi & Hs & Ht).
  split; cbn [rp_protocol_version rp_type rp_session_seq rp_id rp_detail rp_payload response response_of]; try done.
  - by rewrite Hs.
  - by rewrite Hi.
  - unfold encode_response, w_bytes in Hlen. cbn [rp_payload response response_of] in Hlen.
    unfold blen in Hlen. rewrite !length_app in Hlen. unfold bytes_wf, u32_ok, blen.
    change (max_bytes default_limits) with 1048576 in *. change (2 ^ 32) with 4294967296. lia.
Qed.

Lemma encode_op_mutation principal op : is_mutation (encode_op principal op).1 = true.
Proof. by destruct op. Qed.

(** C6: an operation from end to end.  On a connection between two requests, the
    client's call for an operation sends one frame; when this frame arrives, in
    whatever chunks, and the reply comes back in time and within the negotiated
    frame bound ([carried]), the daemon plans that operation, and the client returns
    the report of its changes exactly when the operation is applied and its intent
    and completion end the log, or a compaction has it in a snapshot.  It then
    returns a failure only when the authority and the log are as before or the
    daemon has stopped accepting mutations; and the connection is ready for the
    next request.  The operation has fields in their ranges ([op_fits]) and texts
    that the cut to 512 bytes keeps well-formed; what
    becomes of a reply that is late or too large is the subject of the theorems
    below. *)
Theorem operation_end_to_end dg o sh s c principal op ex turns t id es :
  synchronised o s c -> fc_sequence c + 1 < 2 ^ 64 ->
  hr_max_frame_bytes (fc_hello c) <= max_bytes default_limits ->
  op_fits op -> texts_survive op = true -> id_wf (raw principal) -> id_wf (raw (ex_id ex)) ->
  str_wf default_limits (tn_text t) -> u64_ok (tn_now t) ->
  serves id es (sh_daemon sh) ->
  do_max_changes_in_reply (d_options (sh_daemon sh)) <= 4096 ->
  let request := request_for ex c (encode_op principal op).1 (encode_op principal op).2 in
  let a := d_authority (sh_daemon sh) in
  let '(d, answer) := handle (tn_commit t) dg (tn_now t) (sh_daemon sh) request in
  carried o c ex turns t request (response_of (tn_text t) answer) ->
  exists c' result,
    perform principal op ex c = (c', encode_frame (encode_request request), Some result) /\
    (let w' := serve_turns dg o (pair false <$> turns ++ [t]) (sh, s) in
     sh_daemon w'.1 = d /\ synchronised o w'.2 c') /\
    match result with
    | Ok report => exists m arb number,
        plan a op arb = Ok m /\ apply a (m_changes m) arb = (d_authority d, Status.Ok) /\
        report = report_for (d_options (sh_daemon sh)) request arb (m_changes m) /\
        kept id (ca_store_id (tn_commit t))
          (es ++ [EIntent number arb (m_changes m) (tn_now t) (do_incarnation (d_options (sh_daemon sh)));
                  ECommit number (tn_now t)]) (tn_now t) d
    | Fail status => status <> Status.Ok /\
        (serves id es d /\ d_authority d = a \/ d_durability_failed d = true)
    end.
Proof.
  intros Hsync Hwrap Hbound Hop Htexts Hprincipal Hid Htext Hnow Hd Hmax request a.
  destruct (handle (tn_commit t) dg (tn_now t) (sh_daemon sh) request) as [d an] eqn:Hhandle. intros Hcarried.
  destruct (encode_op_type principal op) as (Hreq & Hshut & _).
  pose proof (operation_request_fits principal op ex c Hop Hid) as Hfits. fold request in Hfits.
  pose proof (answer_fits (tn_commit t) dg (tn_now t) (sh_daemon sh) request (tn_text t)) as Hafits.
  rewrite Hhandle in Hafits. cbn [snd] in Hafits.
  specialize (Hafits (wrap64_u64 _) Hid Htext ltac:(etrans; [apply Hcarried|exact Hbound])).
  pose proof (exchange_completes dg o sh s c ex turns t _ _ Hsync Hwrap Hfits Hshut) as Hx. fold request in Hx.
  rewrite Hhandle in Hx. destruct (Hx Hafits Hcarried) as (c' & Htrip & Hd' & _ & Hsync').
  assert (decode_op (rq_type request) (rq_payload request) = Ok op) as Hdec.
  { pose proof (decode_encode_op principal op Hop Hprincipal) as H. unfold request.
    destruct (encode_op principal op). exact H. }
  exists c', (if is_ok (an_status an) then read_report (an_payload an) else Fail (an_status an)).
  split; [|split; [by split|]].
  { rewrite perform_encodes. unfold simple_mutation, call_reading. rewrite Htrip.
    cbn [fmap option_fmap option_map reply_payload mbind expected_bind response_of rp_status rp_payload guard_fail].
    by destruct (is_ok (an_status an)). }
  assert (body_survives request) as Hbody by (intros op'; rewrite Hdec; by intros [= <-]).
  unfold handle in Hhandle. cbn [rq_protocol_version request request_for] in Hhandle.
  rewrite N.eqb_refl in Hhandle. cbn [negb] in Hhandle. cbn [rq_type request request_for] in Hhandle.
  rewrite Hreq, (sv_durable _ _ _ Hd), encode_op_mutation in Hhandle. cbn [negb andb] in Hhandle.
  pose proof (handle_mutation_cases id es _ (tn_commit t) (tn_now t) request Hd Hnow Hbody) as H.
  rewrite Hhandle in H. destruct H as [_ H].
  destruct (is_ok (an_status an)) eqn:Hok.
  - destruct H as (op' & m & arb & number & Hdec' & _ & Harb & Hplan & Happly & Hd2 & Hpayload).
    rewrite Hdec in Hdec'. injection Hdec' as <-.
    assert (Forall object_wf (m_objects m)) as Hobjs by
      apply (plan_decodable a (sound_wf _ (sv_sound _ _ _ Hd)) arb m Harb op (decode_op_wf _ _ _ Hdec Htexts) Hplan).
    rewrite Hpayload. unfold m_changes at 1. rewrite report_readable; [|exact Hobjs|exact Harb|exact Hmax|].
    + by exists m, arb, number.
    + fold (m_changes m). rewrite <-Hpayload. exact (rpf_payload _ _ Hafits).
  - split; [by intros E; rewrite E in Hok|].
    destruct H as [H|(op' & m & arb & _ & Hb)]; [by left|right]. apply Hb.
Qed.

(** What the server answers a handshake with. *)
Definition hello_response (dg : Diagnostics) (o : ServerOptions) (t : Turn) (d : Daemon) (hello : HelloRequest) : Response :=
  mkResponse kWireProtocolVersion MessageType.HelloAck 0 (from_raw nil_id) Status.Ok []
    (encode_hello_reply (hello_reply dg d (tn_now t) (tn_session t)
       (wrap32 (N.min (so_max_frame_bytes o) (hq_max_frame_bytes hello))))).

Lemma frame_head_whole max payload :
  blen payload <= max -> max <= 67108864 -> frame_head max (encode_frame payload) = Frame payload [].
Proof. intros H1 H2. rewrite <-(app_nil_r (encode_frame payload)). by apply frame_head_encoded. Qed.

(** Both sides of a handshake: the client's options [co] and the answers [os] it
    gets, the server's options [o] and the turn [t] that answers. *)
Section Handshake.
Context (dg : Diagnostics) (o : ServerOptions) (t : Turn) (d : Daemon) (co : ClientOptions) (os : ConnectAnswers).
Let hello := hello_request (cna_nonce os) co.
Let response := hello_response dg o t d hello.
Let negotiated := N.min (so_max_frame_bytes o) (co_max_frame_bytes co).
Let reply := hello_reply dg d (tn_now t) (tn_session t) negotiated.
Context (Hnonce : id_wf (cna_nonce os)) (Hkind : wire_text (co_client_kind co)).
Context (Hc : 4096 <= co_max_frame_bytes co <= kAbsoluteMaxFrameBytes).
Context (Hs : 4200 <= so_max_frame_bytes o <= kAbsoluteMaxFrameBytes).
Context (Hreply : hello_reply_fits (hello_reply dg d (tn_now t) (tn_session t) 0)).

Local Lemma hello_max : hq_max_frame_bytes hello = co_max_frame_bytes co.
Proof.
  change kAbsoluteMaxFrameBytes with 67108864 in Hc. cbn. unfold wrap32. apply N.mod_small.
  change (2 ^ 32) with 4294967296. lia.
Qed.

Local Lemma hello_fits : hello_request_fits hello.
Proof.
  split_and!; cbn -[wrap32]; [done|exact Hnonce|exact Hkind|]. unfold u32_ok, wrap32. by apply N.mod_lt.
Qed.

Local Lemma hello_short : blen (encode_hello_request hello) <= so_max_frame_bytes o.
Proof.
  unfold encode_hello_request, blen. cbn [hq_client_kind hello hello_request].
  pose proof (wire_text_length _ Hkind). rewrite !length_app.
  unfold w_u16, w_u32, w_id128, w_u64. rewrite ?length_app, !length_w_le, length_w_str. lia.
Qed.

Local Lemma hello_response_eq :
  response = mkResponse kWireProtocolVersion MessageType.HelloAck 0 (from_raw nil_id) Status.Ok [] (encode_hello_reply reply).
Proof.
  change kAbsoluteMaxFrameBytes with 67108864 in Hc.
  unfold response, hello_response. rewrite hello_max. unfold wrap32.
  rewrite N.mod_small by (change (2 ^ 32) with 4294967296; lia). done.
Qed.

Local Lemma hello_reply_ok : hello_reply_fits reply.
Proof.
  change kAbsoluteMaxFrameBytes with 67108864 in Hc.
  destruct Hreply as (Hversion & Hsession & Hincarnation & Hepoch & _ & Hformat).
  split_and!; [exact Hversion|exact Hsession|exact Hincarnation|exact Hepoch| |exact Hformat].
  change (negotiated < 2 ^ 32). change (2 ^ 32) with 4294967296. unfold negotiated. lia.
Qed.

Local Lemma hello_response_length : length (encode_response response) = 90%nat.
Proof.
  rewrite hello_response_eq. unfold encode_response, encode_hello_reply, w_bytes, w_message_type, w_enum, w_boolean, w_epoch.
  cbn [rp_detail rp_payload]. unfold w_u16, w_u32, w_id128, w_u64, w_u8.
  rewrite !length_app. rewrite ?length_w_str, ?length_app, ?length_w_le. cbn [length]. done.
Qed.

(** The client's half: the reply arrives in any chunks. *)
Local Lemma client_handshake replies :
  cna_transport os = Status.Ok -> port (co_endpoint co) <> 0 -> cna_connected os = Status.Ok ->
  cna_timeouts os = Status.Ok ->
  (send_all (cna_send os) true (encode_frame (encode_hello_request hello))).1 = IoStatus.Ok ->
  delivers (co_max_frame_bytes co) (encode_frame (encode_response response)) replies ->
  cna_receive os = Arrived <$> replies ->
  connect os co = (encode_frame (encode_hello_request hello),
                   Some (Ok (mkFabricClient true (new_decoder negotiated) co reply 0))).
Proof.
  intros Htr Hport Hco Hto Hsend [Hj Hcs] Hrecv.
  pose proof Hc as [Hc1 Hc2]. change kAbsoluteMaxFrameBytes with 67108864 in Hc2.
  destruct (await_frame_takes (co_max_frame_bytes co)
    (mkFabricClient true (new_decoder (co_max_frame_bytes co)) co no_hello 0) replies (encode_response response))
    as (c' & Hawait & _); [exact Hc2|done|done|done|exact Hcs| |].
  { cbn [fc_decoder]. rewrite Hj. apply frame_head_whole; [|done]. unfold blen. rewrite hello_response_length. lia. }
  unfold connect. rewrite Htr, Hco, Hto. change (is_ok Status.Ok) with true. cbn [negb].
  rewrite (proj2 (N.eqb_neq _ _)) by done. fold hello.
  rewrite (send_whole _ _ Hsend), bool_decide_eq_true_2 by done. cbn [negb]. rewrite Hrecv, Hawait.
  cbn [fmap option_fmap option_map mbind expected_bind]. do 3 f_equal.
  unfold read_hello. rewrite hello_response_eq, decode_encode_response by by split.
  cbn [mbind expected_bind rp_type rp_payload]. rewrite bool_decide_eq_false_2, bool_decide_eq_true_2 by done.
  cbn [negb guard_fail]. by rewrite decode_encode_hello_reply by exact hello_reply_ok.
Qed.

(** The server's half: the turn that finds the hello in its decoder. *)
Local Lemma server_handshake sh s :
  sh_daemon sh = d -> (send_all (tn_send t) true (encode_frame (encode_response response))).1 = IoStatus.Ok ->
  exists sh', handshake dg o t (encode_hello_request hello) (sh, s) =
    (sh', complete_handshake (log_sent (encode_frame (encode_response response)) s)) /\ talks sh' = talks sh.
Proof.
  intros Hd Hsent. pose proof Hc as [Hc1 Hc2]. pose proof Hs as [Hs1 _].
  unfold handshake. rewrite decode_encode_hello_request by exact hello_fits. rewrite hello_max. cbn [fst]. rewrite Hd.
  change (negb (hq_protocol_version hello =? kWireProtocolVersion)) with false. cbv iota.
  rewrite (proj2 (N.ltb_ge (co_max_frame_bytes co) 4096)) by done.
  rewrite (proj2 (N.ltb_ge kAbsoluteMaxFrameBytes _)) by done. cbn [orb].
  assert (mkResponse kWireProtocolVersion MessageType.HelloAck 0 (from_raw nil_id) Status.Ok []
    (encode_hello_reply (hello_reply dg d (tn_now t) (tn_session t)
      (wrap32 (N.min (so_max_frame_bytes o) (co_max_frame_bytes co))))) = response) as ->
    by (unfold response, hello_response; by rewrite hello_max).
  destruct (send_response_whole o (tn_send t) response sh s Hsent) as (sh' & -> & Htalks).
  { unfold blen. rewrite hello_response_length. lia. }
  by exists sh'.
Qed.
End Handshake.


(** C32: a handshake brings the two ends together: a client that asks for a frame
    bound between 4096 bytes and 64 megabytes connects, with the smaller of its
    bound and the server's negotiated, and both ends are ready for the first
    request. *)
Theorem handshake_synchronises dg o sh now co os turns t :
  let hello := hello_request (cna_nonce os) co in
  let response := hello_response dg o t (sh_daemon sh) hello in
  cna_transport os = Status.Ok -> port (co_endpoint co) <> 0 -> cna_connected os = Status.Ok ->
  cna_timeouts os = Status.Ok -> id_wf (cna_nonce os) -> wire_text (co_client_kind co) ->
  4096 <= co_max_frame_bytes co <= kAbsoluteMaxFrameBytes ->
  4200 <= so_max_frame_bytes o <= kAbsoluteMaxFrameBytes ->
  hello_reply_fits (hello_reply dg (sh_daemon sh) (tn_now t) (tn_session t) 0) ->
  (send_all (cna_send os) true (encode_frame (encode_hello_request hello))).1 = IoStatus.Ok ->
  (send_all (tn_send t) true (encode_frame (encode_response response))).1 = IoStatus.Ok ->
  (exists chunks, delivers (so_max_frame_bytes o) (encode_frame (encode_hello_request hello)) chunks /\
     receiving chunks turns) ->
  (exists chunks, delivers (co_max_frame_bytes co) (encode_frame (encode_response response)) chunks /\
     cna_receive os = Arrived <$> chunks) ->
  exists c, connect os co = (encode_frame (encode_hello_request hello), Some (Ok c)) /\
    hr_max_frame_bytes (fc_hello c) = N.min (so_max_frame_bytes o) (co_max_frame_bytes co) /\
    fc_sequence c = 0 /\
    let w' := serve_turns dg o (pair false <$> turns ++ [t]) (sh, new_session o now) in
    sh_daemon w'.1 = sh_daemon sh /\ synchronised o w'.2 c.
Proof.
  intros hello response Htr Hport Hco Hto Hnonce Hkind Hc Hs Hreply Hsend Hsent
    (chunks & [Hj Hcs] & Hturns) (replies & Hdel & Hrecv).
  pose proof Hc as [Hc1 Hc2]. pose proof Hs as [Hs1 Hs2].
  change kAbsoluteMaxFrameBytes with 67108864 in Hc2, Hs2.
  pose proof (hello_short o co os Hkind Hc Hs) as Hlen. fold hello in Hlen.
  pose proof (frame_head_whole _ _ Hlen Hs2) as Hhead.
  eexists. split.
  { by eapply client_handshake. }
  split; [done|]. split; [done|].
  destruct (serve_turns_receive dg o chunks turns (sh, new_session o now) (encode_hello_request hello)) as
    [[Ho1 Hcl1] Hr1 Hu1 (Hl1 & Hh1 & Hss1) Hd1]; [exact Hs2|done|done|done|done|exact Hcs|exact Hturns| |].
  { cbn [snd]. rewrite Hj. exact Hhead. }
  rewrite fmap_app. cbv zeta. unfold serve_turns at 1 2. rewrite foldl_app.
  fold (serve_turns dg o (pair false <$> turns) (sh, new_session o now)).
  destruct (serve_turns dg o (pair false <$> turns) (sh, new_session o now)) as [sh1 s1].
  cbn [fst snd fmap list_fmap foldl] in *. unfold serve_turn. rewrite Ho1, Hcl1. cbn [orb].
  pose proof (next_spec _ _ Hr1) as Hn. rewrite Hu1, Hj in Hn.
  change (unread (ss_decoder (new_session o now)) ++ encode_frame (encode_hello_request hello))
    with (encode_frame (encode_hello_request hello)) in Hn.
  rewrite Hhead in Hn. destruct Hn as (d1 & -> & Hr2 & Hu2). rewrite Hh1. cbn [ss_handshake_complete new_session].
  destruct (server_handshake dg o t (sh_daemon sh) co os Hnonce Hkind Hc Hs (tally FramesDecoded sh1) (set_decoder d1 s1)
    Hd1 Hsent) as (sh2 & Hshakes & Htalks).
  fold hello in Hshakes. rewrite Hshakes. cbn [fst snd]. split; [injection Htalks as -> _; exact Hd1|].
  split; cbn [ss_done ss_closing ss_handshake_complete ss_decoder ss_last_sequence log_sent complete_handshake set_decoder
    fc_connected fc_hello fc_decoder fc_sequence hr_max_frame_bytes hello_reply]; try done.
  split; [lia|done].
Qed.

(** ** Replies that the client does not take *)

(** The client's loop ends at a stream that the decoder refuses. *)
Lemma await_frame_refuses max c chunks e status :
  max <= kAbsoluteMaxFrameBytes -> fc_connected c = true -> ready max (fc_decoder c) ->
  Forall (fun chunk => chunk <> [] /\ blen chunk <= kReceiveChunk /\ blen chunk <= frame_bound max) chunks ->
  frame_head max (unread (fc_decoder c) ++ mjoin chunks) = Bad e status ->
  (forall payload rest, frame_head max (unread (fc_decoder c)) <> Frame payload rest) ->
  exists c', await_frame (Arrived <$> chunks) c = (c', Some (Fail status)) /\ failed_ (fc_decoder c') = true.
Proof.
  intros Hmax Hconn Hd Hcs. revert c Hconn Hd. induction Hcs as [|chunk chunks (Hne & Hk & Hb) Hcs IH];
    intros c Hconn Hd Hbad Hnone; pose proof (next_spec max _ Hd) as Hn.
  { change (mjoin (@nil bytes)) with (@nil byte) in Hbad. rewrite app_nil_r in Hbad. rewrite Hbad in Hn.
    cbn [fmap list_fmap await_frame]. rewrite Hn. rewrite bool_decide_eq_false_2 by by eapply frame_head_bad.
    by eexists. }
  cbn [fmap list_fmap await_frame]. destruct (frame_head max (unread (fc_decoder c))) as [|e' s'|p rest] eqn:Hhead.
  - rewrite Hn. rewrite bool_decide_eq_true_2 by done. cbn [negb].
    assert (set_fc_decoder (fc_decoder c) c = c) as -> by by destruct c.
    unfold pump. rewrite Hconn, (recv_arrived chunk Hne Hk). rewrite bool_decide_eq_true_2 by done. cbn [negb].
    destruct (push_spec max _ chunk Hmax Hd Hhead Hb) as (d1 & -> & Hd1 & Hu1).
    change (is_ok Status.Ok) with true. cbv iota. rewrite bool_decide_eq_true_2 by done. cbn [negb].
    change (mjoin (chunk :: chunks)) with (chunk ++ mjoin chunks) in Hbad. rewrite app_assoc, <-Hu1 in Hbad.
    apply IH; [exact Hconn|exact Hd1|exact Hbad|]. intros p rest Hf. cbn [fc_decoder set_fc_decoder] in Hf.
    pose proof (frame_head_app max (unread d1) (mjoin chunks)) as Happ. by rewrite Hf, Hbad in Happ.
  - rewrite Hn. pose proof (frame_head_app max (unread (fc_decoder c)) (mjoin (chunk :: chunks))) as Happ.
    rewrite Hhead, Hbad in Happ. injection Happ as _ ->.
    rewrite bool_decide_eq_false_2 by by eapply frame_head_bad. by eexists.
  - by destruct (Hnone p rest).
Qed.

Lemma await_frame_failed answers c :
  failed_ (fc_decoder c) = true -> (await_frame answers c).2 = Some (Fail Status.Corrupt).
Proof. intros Hf. destruct answers; cbn [await_frame]; unfold next; by rewrite Hf. Qed.

(** A run of calls on one client. *)
Fixpoint call_all (c : FabricClient) (calls : list (Exchange * MessageType * bytes)) :
    FabricClient * list (option (Expected Response)) :=
  match calls with
  | [] => (c, [])
  | (ex, type, body) :: calls =>
      let '(c, _, result) := round_trip ex c type body in
      let '(c, results) := call_all c calls in (c, result :: results)
  end.

(** Each call gets, in place of its reply, the reply to the call before it, the
    first one a reply to the sequence [last]. *)
Fixpoint one_behind (bound last : N) (calls : list (Exchange * MessageType * bytes)) : Prop :=
  match calls with
  | [] => True
  | (ex, _, _) :: calls =>
      (exists late chunks, rp_session_seq late = last /\ response_fits default_limits late /\
         blen (encode_response late) <= bound /\
         delivers bound (encode_frame (encode_response late)) chunks /\ ex_receive ex = Arrived <$> chunks) /\
      one_behind bound (last + 1) calls
  end.

(** The operating system takes every request, and all fit the negotiated bound. *)
Definition sends_all (c : FabricClient) (calls : list (Exchange * MessageType * bytes)) : Prop :=
  forall ex type body n, (ex, type, body) ∈ calls ->
    let encoded := encode_request (mkRequest kWireProtocolVersion type n (ex_id ex) body) in
    blen encoded <= hr_max_frame_bytes (fc_hello c) /\
    (send_all (ex_send ex) true (encode_frame encoded)).1 = IoStatus.Ok.

Lemma lagging_calls_conflict c calls :
  fc_connected c = true -> hr_max_frame_bytes (fc_hello c) <= kAbsoluteMaxFrameBytes ->
  ready (hr_max_frame_bytes (fc_hello c)) (fc_decoder c) -> unread (fc_decoder c) = [] ->
  fc_sequence c + N.of_nat (length calls) < 2 ^ 64 -> sends_all c calls ->
  one_behind (hr_max_frame_bytes (fc_hello c)) (fc_sequence c) calls ->
  Forall (fun result => result = Some (Fail Status.Conflicting)) (call_all c calls).2.
Proof.
  revert c. induction calls as [|[[ex type] body] calls IH]; intros c Hconn Hmax Hd Hu Hlen Hsends Hbehind; [constructor|].
  destruct Hbehind as [(late & chunks & Hseq & Hfits & Hle & [Hj Hcs] & Hrecv) Hbehind]. cbn [length] in Hlen.
  destruct (Hsends ex type body (wrap64 (fc_sequence c + 1)) ltac:(by left)) as [Hbound Hsend].
  assert (wrap64 (fc_sequence c + 1) = fc_sequence c + 1) as Hw by (apply N.mod_small; lia).
  destruct (await_frame_takes (hr_max_frame_bytes (fc_hello c)) (next_sequence c) chunks (encode_response late))
    as (c' & Hawait & Hfix & Hd' & Hu'); [exact Hmax|exact Hconn|exact Hd|by apply waits_for_nothing|exact Hcs| |].
  { cbn [fc_decoder next_sequence]. rewrite Hu, Hj, <-(app_nil_r (encode_frame _)). by apply frame_head_encoded. }
  injection Hfix as Hf1 _ Hf3 Hf4.
  assert (round_trip ex c type body =
    (c', encode_frame (encode_request (request_for ex c type body)), Some (Fail Status.Conflicting))) as Htrip.
  { unfold round_trip. rewrite Hconn. cbn [negb]. cbn [fc_hello next_sequence]. unfold request_for in *.
    rewrite (proj2 (N.ltb_ge _ _)) by done. rewrite (send_whole _ _ Hsend), bool_decide_eq_true_2 by done.
    cbn [negb]. rewrite Hrecv, Hawait. cbn [fmap option_fmap option_map mbind expected_bind]. do 2 f_equal.
    unfold accept_reply. rewrite decode_encode_response by done. cbn [mbind expected_bind guard_fail].
    destruct (negb (id_eqb _ _)); [done|]. cbn [rq_session_seq guard_fail]. rewrite Hseq, Hw.
    by rewrite (proj2 (N.eqb_neq _ _)) by lia. }
  cbn [call_all]. rewrite Htrip. specialize (IH c').
  rewrite Hf3, Hf4 in IH. rewrite Hw in IH.
  destruct (call_all c' calls) as [c2 results]. cbn [snd] in *. constructor; [done|].
  apply IH; [by rewrite Hf1|exact Hmax|exact Hd'|exact Hu'|lia| |exact Hbehind].
  intros ex' type' body' n Hin. rewrite Hf3. apply (Hsends ex' type' body' n). by right.
Qed.

Lemma round_trip_own ex c type body c' sent response :
  round_trip ex c type body = (c', sent, Some (Ok response)) ->
  rp_id response = ex_id ex /\ rp_session_seq response = wrap64 (fc_sequence c + 1).
Proof.
  unfold round_trip. destruct (negb (fc_connected c)); [done|]. destruct (_ <? _); [done|].
  destruct (send_all _ _ _) as [st n]. destruct (negb _); [done|].
  destruct (await_frame _ _) as [c2 [payload|]]; [|done]. cbn [fmap option_fmap option_map]. intros [= _ _ H].
  apply expected_bind_ok in H as (frame & _ & H). unfold accept_reply in H.
  apply expected_bind_ok in H as (r & _ & H). apply guard_fail_ok in H as [Hid H].
  apply guard_fail_ok in H as [Hseq [= ->]]. apply negb_false_iff in Hid, Hseq.
  unfold id_eqb in Hid. apply bool_decide_eq_true in Hid. by apply N.eqb_eq in Hseq.
Qed.

(** C33: whatever arrives, the client returns a response only to the request it
    has just sent; but a request that times out puts the connection out of step
    for good: when its reply and the ones behind it arrive one call late each,
    every later call answers Conflicting, although the server has handled it. *)
Theorem replies_are_matched c :
  (forall ex type body c' sent response,
     round_trip ex c type body = (c', sent, Some (Ok response)) ->
     rp_id response = ex_id ex /\ rp_session_seq response = wrap64 (fc_sequence c + 1)) /\
  forall ex type body calls,
    fc_connected c = true -> hr_max_frame_bytes (fc_hello c) <= kAbsoluteMaxFrameBytes ->
    ready (hr_max_frame_bytes (fc_hello c)) (fc_decoder c) -> unread (fc_decoder c) = [] ->
    fc_sequence c + 1 + N.of_nat (length calls) < 2 ^ 64 ->
    sends_all c ((ex, type, body) :: calls) -> ex_receive ex = [ReceiveFailed EAGAIN] ->
    one_behind (hr_max_frame_bytes (fc_hello c)) (fc_sequence c + 1) calls ->
    exists results, (call_all c ((ex, type, body) :: calls)).2 = Some (Fail Status.Unavailable) :: results /\
      length results = length calls /\ Forall (fun result => result = Some (Fail Status.Conflicting)) results.
Proof.
  split; [intros ex type body c' sent response; apply round_trip_own|].
  intros ex type body calls Hconn Hmax Hd Hu Hlen Hsends Hrecv Hbehind.
  destruct (Hsends ex type body (wrap64 (fc_sequence c + 1)) ltac:(by left)) as [Hbound Hsend].
  assert (wrap64 (fc_sequence c + 1) = fc_sequence c + 1) as Hw by (apply N.mod_small; lia).
  pose proof (next_spec _ _ Hd) as Hn. rewrite (waits_for_nothing _ _ Hu) in Hn.
  assert (round_trip ex c type body = (next_sequence c, encode_frame (encode_request (request_for ex c type body)),
    Some (Fail Status.Unavailable))) as Htrip.
  { unfold round_trip. rewrite Hconn. cbn [negb]. cbn [fc_hello next_sequence]. unfold request_for in *.
    rewrite (proj2 (N.ltb_ge _ _)) by done. rewrite (send_whole _ _ Hsend), bool_decide_eq_true_2 by done.
    cbn [negb]. rewrite Hrecv. cbn [await_frame fc_decoder]. change (fc_decoder (next_sequence c)) with (fc_decoder c).
    rewrite Hn. rewrite bool_decide_eq_true_2 by done. cbn [negb]. unfold pump, recv_some.
    cbn [fc_connected set_fc_decoder next_sequence]. rewrite Hconn. cbn. by destruct c. }
  cbn [call_all]. rewrite Htrip.
  pose proof (lagging_calls_conflict (next_sequence c) calls) as Hall.
  assert (length (call_all (next_sequence c) calls).2 = length calls) as Hlength.
  { generalize (next_sequence c). clear. induction calls as [|[[ex type] body] calls IH]; intros c; [done|].
    cbn [call_all]. destruct (round_trip ex c type body) as [[c1 sent] result]. specialize (IH c1).
    destruct (call_all c1 calls) as [c2 results]. cbn [snd length] in *. by rewrite IH. }
  destruct (call_all (next_sequence c) calls) as [c2 results]. cbn [snd] in *. exists results.
  split; [done|]. split; [done|]. apply Hall; cbn [fc_connected fc_hello fc_decoder fc_sequence next_sequence];
    rewrite ?Hw; [done..|lia| |done].
  intros ex' type' body' n Hin. apply (Hsends ex' type' body' n). by right.
Qed.

(** The server holds its replies to its own frame bound and not to the one it
    negotiated: a reply between the two is sent whole and counted as sent, and
    the client refuses it and every reply behind it. *)
Theorem negotiated_bound_ignored o sh s c os response chunks :
  synchronised o s c ->
  hr_max_frame_bytes (fc_hello c) < blen (encode_response response) <= so_max_frame_bytes o ->
  (send_all os true (encode_frame (encode_response response))).1 = IoStatus.Ok ->
  delivers (hr_max_frame_bytes (fc_hello c)) (encode_frame (encode_response response)) chunks ->
  (exists sh', send_response o os response (sh, s) =
     ((sh', log_sent (encode_frame (encode_response response)) s), Status.Ok)) /\
  exists c', await_frame (Arrived <$> chunks) c = (c', Some (Fail Status.LimitExceeded)) /\
    forall answers, (await_frame answers c').2 = Some (Fail Status.Corrupt).
Proof.
  intros [_ _ (Hconn & Hd & Hu) _ [Hb1 Hb2]] [Hlt Hle] Hsend [Hj Hcs].
  change kAbsoluteMaxFrameBytes with 67108864 in Hb2. split.
  - destruct (send_response_whole o os response sh s Hsend Hle) as (sh' & H & _). by exists sh'.
  - destruct (await_frame_refuses (hr_max_frame_bytes (fc_hello c)) c chunks FrameError.LengthTooLarge
      Status.LimitExceeded) as (c' & Hawait & Hf); [change kAbsoluteMaxFrameBytes with 67108864; lia|done|done|done| | |].
    + rewrite Hu, Hj. apply frame_head_oversized. change (2 ^ 32) with 4294967296. lia.
    + by rewrite Hu.
    + exists c'. split; [done|]. intros answers. by apply await_frame_failed.
Qed.

(** ** Witnesses *)

Definition takes_all : nat -> SendAnswer := fun _ => Taken 1048576.

Definition sample_hello_reply : HelloReply :=
  mkHelloReply kWireProtocolVersion (Sample.id 901) (Sample.id 902) (mkEpoch 1) kDefaultMaxFrameBytes
    RecoveryFidelity.Exact true true kStoreFormatVersion.

(** Both ends behind a handshake. *)
Definition sample_client : FabricClient :=
  mkFabricClient true (new_decoder kDefaultMaxFrameBytes) default_client_options sample_hello_reply 0.
Definition sample_session : Session :=
  mkSession (new_decoder kDefaultMaxFrameBytes) 0 0 true false false [] [] [].

Lemma sample_synchronised : synchronised default_server_options sample_session sample_client.
Proof. by split. Qed.

Lemma delivers_once max data :
  data <> [] -> blen data <= kReceiveChunk -> blen data <= frame_bound max -> delivers max data [data].
Proof.
  intros Hne H1 H2. split; [|by apply Forall_singleton]. change (mjoin [data]) with (data ++ []). apply app_nil_r.
Qed.

Definition sample_shared : Shared := mkShared sample_daemon no_stats false 0 [].

Definition sample_request : Request :=
  mkRequest kWireProtocolVersion MessageType.GrantRetire 1 (Sample.id 903)
    (encode_grant_operation (sample_op 7 20)).

(** The frame of the daemon's answer to it. *)
Definition sample_reply : bytes :=
  encode_frame (encode_response (response_of []
    (handle sample_answers sample_diagnostics 30 sample_daemon sample_request).2)).

Definition sample_exchange : Exchange := mkExchange (Sample.id 903) takes_all [Arrived sample_reply].

Definition arrival (data : bytes) : Turn :=
  mkTurn (Readable (Arrived data) 5) takes_all (Sample.id 901) 30 sample_answers [].

Lemma sample_arrives data :
  data <> [] -> blen data <= 4096 ->
  (exists chunks, delivers kDefaultMaxFrameBytes data chunks /\ receiving chunks [arrival data]) /\
  (exists chunks, delivers kDefaultMaxFrameBytes data chunks /\ [Arrived data] = Arrived <$> chunks).
Proof.
  intros Hne Hle. assert (delivers kDefaultMaxFrameBytes data [data]).
  { apply delivers_once; [done|change kReceiveChunk with 65536; lia|].
    unfold frame_bound. change kDefaultMaxFrameBytes with 1048576. lia. }
  split; exists [data]; (split; [done|]); [|done]. constructor; [by exists 5|constructor].
Qed.

Lemma operation_end_to_end_witness :
  serves (Sample.id 500) sample_filling sample_daemon /\
  exists c' report m arb,
    perform (Sample.id 9) (RetireGrant (sample_op 7 20)) sample_exchange sample_client =
      (c', encode_frame (encode_request sample_request), Some (Ok report)) /\
    plan sample_rebuilt (RetireGrant (sample_op 7 20)) arb = Ok m /\
    report = report_for (d_options sample_daemon) sample_request arb (m_changes m).
Proof.
  split; [exact sample_serves|].
  pose proof (operation_end_to_end sample_diagnostics default_server_options sample_shared sample_session sample_client
    (Sample.id 9) (RetireGrant (sample_op 7 20)) sample_exchange
    [arrival (encode_frame (encode_request sample_request))] (arrival []) (Sample.id 500) sample_filling
    sample_synchronised ltac:(by vm_compute) ltac:(by vm_compute) ltac:(by vm_compute) ltac:(by vm_compute)
    ltac:(by vm_compute) ltac:(by vm_compute) ltac:(by vm_compute) ltac:(by vm_compute) sample_serves
    ltac:(by vm_compute)) as H.
  cbv zeta in H.
  assert (request_for sample_exchange sample_client (encode_op (Sample.id 9) (RetireGrant (sample_op 7 20))).1
    (encode_op (Sample.id 9) (RetireGrant (sample_op 7 20))).2 = sample_request) as Hreq by reflexivity.
  rewrite Hreq in H. clear Hreq. cbn [tn_commit tn_now tn_text arrival sh_daemon sample_shared] in H.
  assert (exists r, (perform (Sample.id 9) (RetireGrant (sample_op 7 20)) sample_exchange sample_client).2 = Some (Ok r))
    as [r Hr] by (eexists; vm_compute; reflexivity).
  assert (sample_reply <> [] /\ blen sample_reply <= 4096) as [Hne Hlen] by (vm_compute; split; [discriminate|discriminate]).
  assert (encode_frame (encode_request sample_request) <> [] /\ blen (encode_frame (encode_request sample_request)) <= 4096)
    as [Hne' Hlen'] by (vm_compute; split; [discriminate|discriminate]).
  assert (blen (encode_response (response_of []
    (handle sample_answers sample_diagnostics 30 sample_daemon sample_request).2)) <= 4096) as Hlen2
    by (vm_compute; discriminate).
  assert ((send_all takes_all true sample_reply).1 = IoStatus.Ok) as Hsend by (vm_compute; reflexivity).
  destruct (handle sample_answers sample_diagnostics 30 sample_daemon sample_request) as [d an] eqn:Hh.
  assert (sample_reply = encode_frame (encode_response (response_of [] an))) as Hsr by (unfold sample_reply; by rewrite Hh).
  destruct H as (c' & result & Hp & _ & Hres).
  - split.
    + by vm_compute.
    + by vm_compute.
    + exact (proj1 (sample_arrives _ Hne' Hlen')).
    + change (hr_max_frame_bytes (fc_hello sample_client)) with 1048576. cbn [snd] in Hlen2. lia.
    + change (tn_send (arrival [])) with takes_all. by rewrite <-Hsr.
    + rewrite <-Hsr. exact (proj2 (sample_arrives _ Hne Hlen)).
  - rewrite Hp in Hr. cbn [snd] in Hr. injection Hr as ->. destruct Hres as (m & arb & number & Hplan & _ & Hrep & _).
    exists c', r, m, arb. split; [exact Hp|]. split; [exact Hplan|exact Hrep].
Defined.

(** The two ends of a handshake. *)
Definition sample_connect (turn : Turn) : ConnectAnswers :=
  mkConnectAnswers Status.Ok Status.Ok Status.Ok (mkId128 0 904) takes_all
    [Arrived (encode_frame (encode_response (hello_response sample_diagnostics default_server_options turn sample_daemon
       (hello_request (mkId128 0 904) default_client_options))))].

Lemma handshake_synchronises_witness :
  exists c, (connect (sample_connect (arrival []))
      (mkClientOptions (mkEndpoint default_host 7000) 5000 30000 kDefaultMaxFrameBytes (str "isf-client"))).2 = Some (Ok c) /\
    hr_max_frame_bytes (fc_hello c) = kDefaultMaxFrameBytes.
Proof.
  set (o := mkClientOptions (mkEndpoint default_host 7000) 5000 30000 kDefaultMaxFrameBytes (str "isf-client")).
  set (hello := encode_frame (encode_hello_request (hello_request (mkId128 0 904) o))).
  set (reply := encode_frame (encode_response (hello_response sample_diagnostics default_server_options (arrival []) sample_daemon
       (hello_request (mkId128 0 904) default_client_options)))).
  assert (hello <> [] /\ blen hello <= 4096) as [Hne Hlen] by (vm_compute; split; [discriminate|discriminate]).
  assert (reply <> [] /\ blen reply <= 4096) as [Hne' Hlen'] by (vm_compute; split; [discriminate|discriminate]).
  destruct (handshake_synchronises sample_diagnostics default_server_options sample_shared 0 o
    (sample_connect (arrival [])) [arrival hello] (arrival [])) as (c & Hc & Hmax & _);
    [reflexivity|discriminate|reflexivity|reflexivity|by vm_compute|by vm_compute|by vm_compute|by vm_compute|
     by vm_compute|by vm_compute|by vm_compute| | |].
  - by apply (sample_arrives hello).
  - by apply (sample_arrives reply).
  - exists c. split; [exact (f_equal snd Hc)|exact Hmax].
Defined.

(** A reply between the negotiated bound and the server's, in two pieces. *)
Definition large_reply : Response :=
  mkResponse kWireProtocolVersion MessageType.SnapshotReply 1 (Sample.id 903) Status.Ok [] (repeat x00 5000).

Definition sample_narrow_client : FabricClient :=
  mkFabricClient true (new_decoder 4096) default_client_options
    (mkHelloReply kWireProtocolVersion (Sample.id 901) (Sample.id 902) (mkEpoch 1) 4096 RecoveryFidelity.Exact true true
       kStoreFormatVersion) 0.

Lemma negotiated_bound_ignored_witness :
  let frame := encode_frame (encode_response large_reply) in
  (exists sh', send_response default_server_options takes_all large_reply (sample_shared, sample_session) =
     ((sh', log_sent frame sample_session), Status.Ok)) /\
  exists c', await_frame (Arrived <$> [take 4000 frame; drop 4000 frame]) sample_narrow_client =
      (c', Some (Fail Status.LimitExceeded)) /\
    forall answers, (await_frame answers c').2 = Some (Fail Status.Corrupt).
Proof.
  intros frame.
  apply (negotiated_bound_ignored default_server_options sample_shared sample_session sample_narrow_client takes_all
    large_reply).
  - by split.
  - split; [by vm_compute|by vm_compute].
  - by vm_compute.
  - split; [apply (take_drop 4000 frame)|]. repeat constructor; by vm_compute.
Defined.

Lemma takes_all_sends data : (send_all takes_all true data).1 = IoStatus.Ok.
Proof. apply send_loop_taken; [by eexists|unfold blen; lia]. Qed.

(** Two status requests; the reply to the first comes as that to the second. *)
Definition sample_late_reply : Response :=
  mkResponse kWireProtocolVersion MessageType.StatusReply 1 (Sample.id 903) Status.Ok [] [].

Definition sample_lagging : list (Exchange * MessageType * bytes) :=
  [(mkExchange (Sample.id 905) takes_all [Arrived (encode_frame (encode_response sample_late_reply))],
    MessageType.StatusRequest, [])].

Lemma replies_are_matched_witness :
  exists results, (call_all sample_client ((mkExchange (Sample.id 903) takes_all [ReceiveFailed EAGAIN],
      MessageType.StatusRequest, []) :: sample_lagging)).2 = Some (Fail Status.Unavailable) :: results /\
    length results = 1%nat /\ Forall (fun result => result = Some (Fail Status.Conflicting)) results.
Proof.
  apply (replies_are_matched sample_client); [done|by vm_compute|by split|done|by vm_compute| |done|].
  - intros ex type body n Hin. split.
    + assert (body = []) as -> by
        (apply elem_of_cons in Hin as [[= _ _ ->]|[[= _ _ ->]|Hin%elem_of_nil]%elem_of_cons]; done).
      unfold encode_request, blen. cbn [rq_protocol_version rq_type rq_session_seq rq_id rq_payload].
      rewrite !length_app. unfold w_message_type, w_u16, w_u64, w_id128, w_u64, w_bytes, w_u32. 
      rewrite ?length_app, ?length_w_le. vm_compute. done.
    + assert (ex_send ex = takes_all) as -> by
        (apply elem_of_cons in Hin as [[= -> _ _]|[[= -> _ _]|Hin%elem_of_nil]%elem_of_cons]; done).
      apply takes_all_sends.
  - split; [|done]. exists sample_late_reply, [encode_frame (encode_response sample_late_reply)].
    split; [done|]. split; [by split|]. split; [by vm_compute|]. split; [|done].
    apply delivers_once; by vm_compute.
Defined.
