(* ===== verification/Cli.v ===== *)
(** * The command line (apps/common/cli.hpp, apps/common/cli.cpp, src/log.cpp)

    The arguments of the programs: their parser, the numbers and flags read from
    them, and the report file a program leaves behind, whose replacement is a
    sequence of file system steps.  Log levels are options by name. *)

From stdpp Require Import gmap.
From Stdlib Require Import Strings.Byte ZArith.
From S2P Require Import Prelude Outcome Ids Wire Net.

#[export] Instance byte_countable : Countable Byte.byte.
Proof.
  refine (inj_countable Byte.to_N Byte.of_N _). exact Byte.of_to_N.
Defined.

(** ** Numbers *)

(** The digit loop of [parse_u64]. *)
Fixpoint parse_u64_loop (text : bytes) (value : N) : option N :=
  match text with
  | [] => Some value
  | c :: text =>
      if negb (is_digit c) then None
      else
        let digit := Byte.to_N c - 48 in
        if (kAmountMax - digit) / 10 <? value then None
        else parse_u64_loop text (wrap64 (wrap64 (value * 10) + digit))
  end.

Definition parse_u64 (text : bytes) : option N :=
  if bool_decide (text = []) then None else parse_u64_loop text 0.

(** [static_cast<std::int64_t>] *)
Definition to_i64 (n : N) : Z :=
  if n <? 2 ^ 63 then Z.of_N n else (Z.of_N n - 2 ^ 64)%Z.

(** ** Arguments *)

Record Arguments := mkArguments { options_ : gmap bytes bytes; positionals_ : list bytes }.

Definition no_arguments : Arguments := mkArguments ∅ [].

(** A token with two leading dashes and more behind them, not a third. *)
Definition is_flag (token : bytes) : bool :=
  match token with
  | x2d :: x2d :: c :: _ => negb (bool_decide (c = x2d))
  | _ => false
  end.

Definition add_positional (token : bytes) (a : Arguments) : Arguments :=
  mkArguments (options_ a) (positionals_ a ++ [token]).
Definition set_option_value (key value : bytes) (a : Arguments) : Arguments :=
  mkArguments (<[key := value]> (options_ a)) (positionals_ a).

(** The loop of the constructor: a flag takes the token behind it as its value
    unless that is a flag. *)
Fixpoint read_arguments (tokens : list bytes) (a : Arguments) : Arguments :=
  match tokens with
  | [] => a
  | token :: tokens =>
      if negb (is_flag token) then read_arguments tokens (add_positional token a)
      else
        let key := drop 2 token in
        match tokens with
        | [] => set_option_value key (str "true") a
        | next :: rest =>
            if negb (is_flag next) then read_arguments rest (set_option_value key next a)
            else read_arguments tokens (set_option_value key (str "true") a)
        end
  end.

(** The tokens behind the name of the program. *)
Definition parse_arguments (tokens : list bytes) : Arguments := read_arguments tokens no_arguments.

Section Accessors.
Context (a : Arguments).

Definition value (flag : bytes) : option bytes := options_ a !! flag.
Definition has (flag : bytes) : bool := bool_decide (is_Some (value flag)).
Definition value_or (flag fallback : bytes) : bytes := default fallback (value flag).

Definition u64_or (flag : bytes) (fallback : N) : N :=
  match value flag with
  | None => fallback
  | Some text => default fallback (parse_u64 text)
  end.

(** [None] where the negation overflows, which is undefined behaviour. *)
Definition i64_or (flag : bytes) (fallback : Z) : option Z :=
  match value flag with
  | None => Some fallback
  | Some text =>
      let '(negative, body) :=
        match text with
        | x2d :: body => (true, body)
        | x2b :: body => (false, body)
        | _ => (false, text)
        end in
      match parse_u64 body with
      | None => Some fallback
      | Some parsed =>
          if negb negative then Some (to_i64 parsed)
          else if parsed =? 2 ^ 63 then None
          else Some (- to_i64 parsed)%Z
      end
  end.

Definition flag_or (flag : bytes) (fallback : bool) : bool :=
  match value flag with
  | None => fallback
  | Some text =>
      if bool_decide (text ∈ [str "true"; str "1"; str "yes"; str "on"]) then true
      else if bool_decide (text ∈ [str "false"; str "0"; str "no"; str "off"]) then false
      else fallback
  end.

Definition positional (index : nat) (fallback : bytes) : bytes := default fallback (positionals_ a !! index).
Definition positional_count : nat := length (positionals_ a).

Definition validate (required : list bytes) : Status :=
  if forallb has required then Status.Ok else Status.Invalid.
End Accessors.

(** The host and the port of an endpoint. *)
Definition cli_parse_endpoint (text : bytes) : Expected (bytes * N) :=
  e ← parse_endpoint text;
  Ok (host e, port e).

Definition short_hex (prefixed_identity : bytes) : bytes :=
  let body :=
    match find_char x3a prefixed_identity with
    | None => prefixed_identity
    | Some colon => drop (colon + 1) prefixed_identity
    end in
  if blen body <=? 8 then body else take 8 body.

(** ** Log levels *)

Inductive LogLevel := LogError | LogWarn | LogInfo | LogDebug | LogTrace.
#[export] Instance LogLevel_eq_dec : EqDecision LogLevel.
Proof. solve_decision. Defined.

Definition log_level_value (level : LogLevel) : N :=
  match level with LogError => 0 | LogWarn => 1 | LogInfo => 2 | LogDebug => 3 | LogTrace => 4 end.

Definition log_level_name (level : LogLevel) : bytes :=
  match level with
  | LogError => str "error" | LogWarn => str "warn" | LogInfo => str "info"
  | LogDebug => str "debug" | LogTrace => str "trace"
  end.

Definition log_level_from_name (name : bytes) : option LogLevel :=
  if bool_decide (name = str "error") then Some LogError
  else if bool_decide (name = str "warn") then Some LogWarn
  else if bool_decide (name = str "info") then Some LogInfo
  else if bool_decide (name = str "debug") then Some LogDebug
  else if bool_decide (name = str "trace") then Some LogTrace
  else None.

(** Whether a message is written. *)
Definition log_enabled (minimum level : LogLevel) : bool := log_level_value level <=? log_level_value minimum.

(** ** The report file *)

Definition Entries : Type := list (bytes * bytes).

Definition report_body (entries : Entries) : bytes :=
  mjoin ((fun entry : bytes * bytes => entry.1 ++ str "=" ++ entry.2 ++ [x0a]) <$> entries).

(** The report and the temporary file beside it. *)
Record ReportFiles := mkReportFiles { rf_report : option bytes; rf_temporary : option bytes }.

(** What the file system answers: the outcome of [ensure_parent_directory]; the
    number of bytes written when the write falls short; whether the old report
    could be removed and the temporary file renamed. *)
Record ReportAnswers := mkReportAnswers {
  ra_prepared : Status;
  ra_opened : bool;
  ra_short_write : option nat;
  ra_removed : bool;
  ra_renamed : bool;
}.

(** The states that [write_report_file] leads the files through, the last one
    last, and its outcome. *)
Definition write_report_file (os : ReportAnswers) (path : bytes) (entries : Entries) (files : ReportFiles) :
    list ReportFiles * Status :=
  if bool_decide (path = []) then ([files], Status.Ok)
  else if negb (is_ok (ra_prepared os)) then ([files], ra_prepared os)
  else if negb (ra_opened os) then ([files], Status.Unavailable)
  else
    let body := report_body entries in
    let truncated := mkReportFiles (rf_report files) (Some []) in
    match ra_short_write os with
    | Some n => ([files; truncated; mkReportFiles (rf_report files) (Some (take n body))], Status.Unavailable)
    | None =>
        let written := mkReportFiles (rf_report files) (Some body) in
        let removed := if ra_removed os then mkReportFiles None (Some body) else written in
        if ra_renamed os
        then ([files; truncated; written; removed; mkReportFiles (Some body) None], Status.Ok)
        else ([files; truncated; written; removed], Status.Unavailable)
    end.

(** ** Lemmas *)

Lemma parse_u64_loop_spec text acc :
  acc <= kAmountMax ->
  parse_u64_loop text acc =
  if forallb is_digit text && (decimal_value acc text <=? kAmountMax) then Some (decimal_value acc text) else None.
Proof.
  change kAmountMax with 18446744073709551615.
  revert acc. induction text as [|c text IH]; intros acc Hacc; cbn [parse_u64_loop forallb].
  { change (decimal_value acc []) with acc. by rewrite (proj2 (N.leb_le _ _)). }
  destruct (is_digit c) eqn:Hc; [|done]. cbn [negb andb]. unfold is_digit in Hc. to_prop.
  change (decimal_value acc (c :: text)) with (decimal_value (acc * 10 + (Byte.to_N c - 48)) text).
  set (digit := Byte.to_N c - 48) in *. assert (digit <= 9) as Hdigit by lia.
  change kAmountMax with 18446744073709551615.
  pose proof (decimal_value_le (acc * 10 + digit) text) as Hle.
  pose proof (N.Div0.mul_div_le (18446744073709551615 - digit) 10) as Hd1.
  pose proof (N.mul_succ_div_gt (18446744073709551615 - digit) 10 ltac:(done)) as Hd2.
  destruct (N.ltb_spec ((18446744073709551615 - digit) / 10) acc) as [Hlt|Hge].
  - rewrite (proj2 (N.leb_gt _ _)) by lia. by rewrite andb_false_r.
  - assert (acc * 10 + digit <= 18446744073709551615) as Hfit by lia.
    unfold wrap64. change (2 ^ 64) with 18446744073709551616.
    rewrite !N.mod_small by (rewrite ?N.mod_small; lia). by apply IH.
Qed.

(** What a command line says: words, flags, options with a value. *)
Inductive Item := Word (w : bytes) | Flag (key : bytes) | Option (key value : bytes).

Definition flag_token (key : bytes) : bytes := x2d :: x2d :: key.

Definition item_tokens (i : Item) : list bytes :=
  match i with
  | Word w => [w]
  | Flag key => [flag_token key]
  | Option key value => [flag_token key; value]
  end.

Definition render (items : list Item) : list bytes := mjoin (item_tokens <$> items).

Definition item_wf (i : Item) : Prop :=
  match i with
  | Word w => is_flag w = false
  | Flag key => is_flag (flag_token key) = true
  | Option key value => is_flag (flag_token key) = true /\ is_flag value = false
  end.

(** What an item adds to the arguments. *)
Definition add_item (a : Arguments) (i : Item) : Arguments :=
  match i with
  | Word w => add_positional w a
  | Flag key => set_option_value key (str "true") a
  | Option key value => set_option_value key value a
  end.

(** A flag takes a word behind it as its value. *)
Fixpoint captured (items : list Item) : list Item :=
  match items with
  | Flag key :: Word w :: items => Option key w :: captured items
  | i :: items => i :: captured items
  | [] => []
  end.

Lemma read_arguments_items items a :
  Forall item_wf items -> read_arguments (render items) a = foldl add_item a (captured items).
Proof.
  intros Hwf. remember (length items) as n eqn:Hn. revert items Hwf Hn a.
  induction n as [n IH] using (well_founded_induction Nat.lt_wf_0). intros items Hwf -> a.
  destruct items as [|i items]; [done|]. apply Forall_cons in Hwf as [Hi Hwf].
  assert (forall a, read_arguments (render items) a = foldl add_item a (captured items)) as IH1
    by (intros a'; by apply (IH (length items)); [cbn; lia|..]).
  unfold render in *. cbn [fmap list_fmap]. destruct i as [w|key|key v]; cbn [item_wf] in Hi.
  - cbn [item_tokens mjoin list_join app captured foldl add_item read_arguments]. rewrite Hi. apply IH1.
  - destruct items as [|[w|key'|key' v] items].
    + cbn [item_tokens fmap list_fmap mjoin list_join app captured foldl add_item read_arguments].
      rewrite Hi. by destruct key.
    + apply Forall_cons in Hwf as [Hw Hwf]. cbn [item_wf] in Hw.
      assert (forall a, read_arguments (mjoin (item_tokens <$> items)) a = foldl add_item a (captured items)) as IH2
        by (intros a'; by apply (IH (length items)); [cbn; lia|..]).
      cbn [item_tokens fmap list_fmap mjoin list_join app captured foldl add_item read_arguments].
      rewrite Hi, Hw. cbn [negb]. unfold flag_token. change (drop 2 (x2d :: x2d :: key)) with key. apply IH2.
    + pose proof Hwf as [Hk _]%Forall_cons. cbn [item_wf] in Hk.
      cbn [item_tokens fmap list_fmap mjoin list_join app captured foldl add_item] in IH1 |- *.
      cbn [read_arguments]. rewrite Hi, Hk. cbn [negb]. rewrite <-IH1. unfold flag_token.
      cbn [read_arguments]. fold (flag_token key'). by rewrite Hk.
    + pose proof Hwf as [[Hk Hv] _]%Forall_cons.
      cbn [item_tokens fmap list_fmap mjoin list_join app captured foldl add_item] in IH1 |- *.
      cbn [read_arguments]. rewrite Hi, Hk. cbn [negb]. rewrite <-IH1. unfold flag_token.
      cbn [read_arguments]. fold (flag_token key'). by rewrite Hk.
  - destruct Hi as [Hk Hv]. cbn [item_tokens mjoin list_join app captured foldl add_item read_arguments].
    rewrite Hk, Hv. cbn [negb]. unfold flag_token. change (drop 2 (x2d :: x2d :: key)) with key. apply IH1.
Qed.

Definition item_word (i : Item) : option bytes := match i with Word w => Some w | _ => None end.
Definition item_value (key : bytes) (i : Item) : option bytes :=
  match i with
  | Word _ => None
  | Flag k => if bool_decide (k = key) then Some (str "true") else None
  | Option k v => if bool_decide (k = key) then Some v else None
  end.

Lemma add_items_positionals items a :
  positionals_ (foldl add_item a items) = positionals_ a ++ omap item_word items.
Proof.
  revert a. induction items as [|i items IH]; intros a; cbn [foldl omap list_omap]; [by rewrite app_nil_r|].
  rewrite IH. destruct i; cbn [add_item item_word positionals_ add_positional set_option_value]; [|done..].
  by rewrite <-app_assoc.
Qed.

Lemma add_items_value items a key :
  options_ (foldl add_item a items) !! key =
  match last (omap (item_value key) items) with Some v => Some v | None => options_ a !! key end.
Proof.
  revert a. induction items as [|i items IH]; intros a; [done|]. cbn [foldl]. rewrite IH.
  change (omap (item_value key) (i :: items)) with
    (match item_value key i with Some v => v :: omap (item_value key) items | None => omap (item_value key) items end).
  destruct i as [w|k|k v]; cbn [item_value add_item options_ add_positional set_option_value]; [done|..];
    (case_bool_decide as Hk; [subst k; rewrite lookup_insert_eq|by rewrite lookup_insert_ne]);
    rewrite last_cons; by destruct (last (omap (item_value key) items)).
Qed.

(** ** Properties *)

(** [parse_u64] reads exactly the decimal texts of 64-bit numbers, to their
    value: no empty text, sign or other character, and no overflow. *)
Theorem parse_u64_exact text :
  (forall n, parse_u64 text = Some n <->
     text <> [] /\ forallb is_digit text = true /\ decimal_value 0 text = n /\ n <= kAmountMax) /\
  forall n, n <= kAmountMax -> parse_u64 (to_decimal n) = Some n.
Proof.
  assert (forall l n, parse_u64 l = Some n <->
    l <> [] /\ forallb is_digit l = true /\ decimal_value 0 l = n /\ n <= kAmountMax) as Hexact.
  { intros l n. unfold parse_u64. case_bool_decide as Hl; [split; [done|by intros [? _]]|].
    rewrite parse_u64_loop_spec by done. destruct (forallb is_digit l); [|naive_solver]. cbn [andb].
    destruct (N.leb_spec (decimal_value 0 l) kAmountMax); split.
    - by intros [= <-].
    - by intros (_ & _ & -> & _).
    - done.
    - intros (_ & _ & <- & Hn). lia. }
  split; [apply Hexact|]. intros n Hn. apply Hexact. destruct (to_decimal_digits n) as (H1 & H2 & H3).
  by rewrite H2.
Qed.

(** The parser reads a command line of words, flags and options with values:
    the words that stand behind no flag are the positionals, in order, and an
    option has the value it was given last, a flag without a value being true. *)
Theorem command_line_read items :
  Forall item_wf items ->
  let a := parse_arguments (render items) in
  positionals_ a = omap item_word (captured items) /\
  forall key, value a key = last (omap (item_value key) (captured items)).
Proof.
  intros Hwf a. unfold a, parse_arguments. rewrite read_arguments_items by done. split.
  - by rewrite add_items_positionals.
  - intros key. unfold value. rewrite add_items_value. by destruct (last _).
Qed.

(** C35: whatever the file system answers, a report is never seen in part: at
    every step of its replacement the report is the old one, absent or the whole
    new one, and the new one when the outcome is Ok.  But it is not replaced
    atomically: the old report is removed before the new one takes its place, and
    when that fails there is none. *)
Theorem report_never_torn os path entries files :
  path <> [] ->
  let '(states, status) := write_report_file os path entries files in
  Forall (fun f => rf_report f = rf_report files \/ rf_report f = None \/
                   rf_report f = Some (report_body entries)) states /\
  (status = Status.Ok -> rf_report <$> last states = Some (Some (report_body entries))) /\
  (ra_removed os = true -> (status = Status.Ok -> exists f, f ∈ states /\ rf_report f = None) /\
     (is_ok (ra_prepared os) = true -> ra_opened os = true -> ra_short_write os = None -> ra_renamed os = false ->
      rf_report <$> last states = Some None)).
Proof.
  intros Hpath. unfold write_report_file. rewrite bool_decide_eq_false_2 by done.
  destruct (is_ok (ra_prepared os)) eqn:Hok; cbn [negb].
  2: { split_and!; [by repeat constructor; left|by intros E; rewrite E in Hok|]. intros _. split; [|done].
       by intros E; rewrite E in Hok. }
  destruct (ra_opened os); cbn [negb]; [|split_and!; [by repeat constructor; left|done|done]].
  destruct (ra_short_write os) as [n|]; [split_and!; [by repeat constructor; left|done|done]|].
  destruct (ra_removed os), (ra_renamed os); (split_and!; [repeat constructor; cbn; naive_solver|done|]); intros Hr;
    try done; (split; [|done]); intros _; eexists; (split; [do 3 right; left|]; done).
Qed.

(** ** Witnesses *)

(** isfctl --daemon h:1 --json status: the command is taken for the value of the
    flag. *)
Definition sample_line : list Item :=
  [Option (str "daemon") (str "h:1"); Flag (str "json"); Word (str "status")].

Lemma command_line_read_witness :
  let a := parse_arguments (render sample_line) in positionals_ a = [] /\ value a (str "json") = Some (str "status").
Proof.
  destruct (command_line_read sample_line) as [H1 H2]; [by repeat constructor|]. split; [exact H1|].
  rewrite H2. by vm_compute.
Defined.

Lemma report_never_torn_witness :
  rf_report <$> last (write_report_file (mkReportAnswers Status.Ok true None true false) (str "report") []
    (mkReportFiles (Some (str "old")) None)).1 = Some None.
Proof.
  pose proof (report_never_torn (mkReportAnswers Status.Ok true None true false) (str "report") []
    (mkReportFiles (Some (str "old")) None) ltac:(done)) as (_ & _ & H).
  by apply H.
Defined.

Lemma parse_u64_exact_witness : parse_u64 (to_decimal 18446744073709551615) = Some 18446744073709551615.
Proof. apply (parse_u64_exact []). by vm_compute. Defined.
