(* ===== verification/Programs.v ===== *)
(** * Programs over a client

    A program of src/apps is the tree of what it does with its client and its
    report file, each answer selecting a branch.  It can be run over a
    [FabricClient] ([run_program]), or in conversation with a service
    ([conversation]) that others use as well: the class [AuthorityService] states what a
    program may rely on, and the daemon is shown to be a service. *)

From Stdlib Require Import Strings.Byte.
From S2P Require Import Prelude Outcome Ids Lifecycle Capacity Policy Wire Model Codecs State Ledger Changes.
From S2P Require Import Invariants PlanFabric PlanGrants Operations WellFormed Snapshot Store Journal Recovery Frames Protocol Replies Daemon.
From S2P Require Import Applicable Steps Crash Service Net Server Client Dialogue Cli.

(** ** Programs *)

(** The reading calls of the client, by the type of their result; a request to
    shut down gives its status. *)
Inductive Query : Type -> Type :=
| QueryStatus : Query StatusReport
| QuerySites : Query (list SiteRecord)
| QueryPaths : Query (list PathRecord)
| QueryGrants (filter : ListFilter) : Query (list GrantRecord)
| QueryLedger (path : PathId) : Query CapacityLedger
| QueryDigest : Query DigestReport
| QuerySnapshot : Query AuthoritySnapshot
| RequestShutdown : Query unit.

(** [Running] is a program in its waiting loop. *)
Inductive Program :=
| Exit (code : N)
| Running
| Connect (o : ClientOptions) (k : Expected HelloReply -> Program)
| Mutate (principal : PrincipalId) (op : Op) (k : Expected MutationReport -> Program)
| Ask {A : Type} (q : Query A) (k : Expected A -> Program)
| WriteReport (path : bytes) (entries : Entries) (k : Program).

(** [if (!value.ok()) return code;] *)
Definition or_exit {A} (value : Expected A) (code : N) (k : A -> Program) : Program :=
  match value with
  | Ok v => k v
  | Fail _ => Exit code
  end.

(** ** Over a client *)

Definition ask {A} (q : Query A) : Exchange -> FabricClient -> ClientResult A :=
  match q with
  | QueryStatus => client_status
  | QuerySites => list_sites
  | QueryPaths => list_paths
  | QueryGrants filter => fun ex c => client_list_grants ex c filter
  | QueryLedger path => fun ex c => client_ledger ex c path
  | QueryDigest => client_digest
  | QuerySnapshot => client_snapshot
  | RequestShutdown => fun ex c =>
      let '(c, sent, status) := request_shutdown ex c in
      (c, sent, (fun s => if is_ok s then Ok tt else Fail s) <$> status)
  end.

(** The bytes a program sends and its exit code; none while it waits for an
    answer. *)
Fixpoint run_program (p : Program) (cn : ConnectAnswers) (exs : list Exchange) (c : FabricClient) : bytes * option N :=
  match p with
  | Exit code => ([], Some code)
  | Running => ([], None)
  | Connect o k =>
      match connect cn o with
      | (sent, None) => (sent, None)
      | (sent, Some (Fail s)) => let '(more, code) := run_program (k (Fail s)) cn exs c in (sent ++ more, code)
      | (sent, Some (Ok c)) => let '(more, code) := run_program (k (Ok (fc_hello c))) cn exs c in (sent ++ more, code)
      end
  | Mutate principal op k =>
      match exs with
      | [] => ([], None)
      | ex :: exs =>
          let '(c, sent, r) := perform principal op ex c in
          match r with
          | None => (sent, None)
          | Some r => let '(more, code) := run_program (k r) cn exs c in (sent ++ more, code)
          end
      end
  | Ask q k =>
      match exs with
      | [] => ([], None)
      | ex :: exs =>
          let '(c, sent, r) := ask q ex c in
          match r with
          | None => (sent, None)
          | Some r => let '(more, code) := run_program (k r) cn exs c in (sent ++ more, code)
          end
      end
  | WriteReport _ _ k => run_program k cn exs c
  end.

(** ** Services *)

(** The operation was planned and applied, and the report carries its first
    changes. *)
Definition reported (a : Authority) (op : Op) (report : MutationReport) (a' : Authority) : Prop :=
  exists m arb n,
    u64_ok (arb_value arb) /\ op_wf op /\ plan a op arb = Ok m /\ apply a (m_changes m) arb = (a', Status.Ok) /\
    mr_changes report = take (S n) (m_changes m).

(** What a report of a single grant carries. *)
Lemma extract_single report g r n :
  grant_wf apply_limits g -> mr_changes report = take (S n) [change_for (OGrant g r)] -> extract_grant report = Ok g.
Proof.
  intros Hwf Hchanges. unfold extract_grant, extract_record, find_change. rewrite Hchanges.
  cbn [take find_entry change_for sc_kind object_kind]. rewrite bool_decide_eq_true_2 by done.
  cbn [mbind expected_bind]. change (sc_image _) with (encode_grant g).
  pose proof (decode_encode_grant extract_limits g [] Hwf) as Hd. rewrite app_nil_r in Hd. by rewrite Hd.
Qed.

(** A mutation of a single grant stores it. *)
Lemma single_applied a op m arb a' g r :
  sound a -> u64_ok (arb_value arb) -> op_wf op -> plan a op arb = Ok m -> m_objects m = [OGrant g r] ->
  apply a (m_changes m) arb = (a', Status.Ok) -> grant_wf apply_limits g /\ grants_ a' !! raw (g_id g) = Some g.
Proof.
  intros Ha Harb Hop Hp Hm Happly. pose proof (plan_decodable a (sound_wf a Ha) arb m Harb op Hop Hp) as Hobjs.
  unfold m_changes in Happly. rewrite apply_objects in Happly by done.
  apply finish_apply_ok in Happly as (a1 & Hi & ->). rewrite Hm in Hobjs, Hi.
  pose proof (proj1 (Forall_singleton _ _) Hobjs) as Hwf. split; [exact Hwf|].
  destruct (raise_arbitration_fields arb a1) as (-> & _). rewrite install_objects_cons in Hi.
  destruct (install a _ _) as [a2|s] eqn:Hinstall; [|apply install_status in Hinstall; injection Hi as _ ->; naive_solver].
  injection Hi as ->. apply install_fields in Hinstall as (-> & _). apply lookup_insert_eq.
Qed.

(** What a client program relies on: while a service is in order a successful
    call is an operation on its authority and reports it; a failed one has left
    the authority alone, has been carried out without the client learning it, or
    takes the service down, and then every call fails. *)
Class AuthorityService (W : Type) := {
  svc_authority : W -> Authority;
  svc_ok : W -> Prop;
  svc_down : W -> Prop;
  svc_call : W -> Op -> Expected MutationReport -> W -> Prop;
  svc_sound w : svc_ok w -> sound (svc_authority w);
  svc_served w op result w' :
    svc_ok w -> svc_call w op result w' ->
    match result with
    | Ok report => svc_ok w' /\ reported (svc_authority w) op report (svc_authority w')
    | Fail status => status <> Status.Ok /\
        (svc_ok w' /\ (svc_authority w' = svc_authority w \/ Step op (svc_authority w) (svc_authority w')) \/
         svc_down w')
    end;
  svc_stopped w op result w' :
    svc_down w -> svc_call w op result w' -> svc_down w' /\ exists status, result = Fail status;
}.

Section Conversation.
Context {W : Type} `{!AuthorityService W}.

(** The calls of other clients, reconciliations apart. *)
Definition others : W -> W -> Prop :=
  rtc (fun w w' => exists op result, is_reconcile op = false /\ svc_call w op result w').

(** What is seen of a program that talks to a service up to some point: its
    calls, each with its result and the service behind it, the reports it has
    written and, at its end, the exit code.  Others call the service in between;
    queries may be answered anything. *)
Fixpoint conversation (w : W) (p : Program) (calls : list (Op * Expected MutationReport * W))
    (reports : list (bytes * Entries)) (code : option N) : Prop :=
  (calls = [] /\ reports = [] /\ code = None) \/
  match p with
  | Exit n => calls = [] /\ reports = [] /\ code = Some n
  | Running => False
  | Connect _ k => exists hello, conversation w (k hello) calls reports code
  | Mutate _ op k => exists w1 w2 result rest,
      others w w1 /\ svc_call w1 op result w2 /\ calls = (op, result, w2) :: rest /\
      conversation w2 (k result) rest reports code
  | Ask _ k => exists answer, conversation w (k answer) calls reports code
  | WriteReport path entries k => exists rest, reports = (path, entries) :: rest /\ conversation w k calls rest code
  end.

(** ** Lemmas *)

Lemma reported_step a op report a' : reported a op report a' -> Step op a a'.
Proof. intros (m & arb & n & Harb & Hop & Hp & Ha & _). by econstructor. Qed.

Lemma others_down w w' : svc_down w -> others w w' -> svc_down w'.
Proof.
  intros Hd Ho. induction Ho as [|x y z (op & r & _ & Hc) _ IH]; [done|]. apply IH. by eapply svc_stopped.
Qed.

(** A call that comes to pass finds a service in order. *)
Lemma others_ok w w' :
  svc_ok w -> others w w' ->
  svc_down w' \/ svc_ok w' /\ exists ops, History ops (svc_authority w) (svc_authority w') /\
                                Forall (fun op => is_reconcile op = false) ops.
Proof.
  intros Hok Ho. induction Ho as [w|w w1 w2 (op & result & Hr & Hc) Hrest IH].
  { right. split; [done|]. exists []. split; constructor. }
  pose proof (fun Hd => others_down w1 w2 Hd Hrest) as Hdown.
  pose proof (svc_served _ _ _ _ Hok Hc) as Hs. destruct result as [report|status].
  - destruct Hs as [Hok1 Hrep]. destruct (IH Hok1) as [Hd|(Hok2 & ops & Hh & Hf)]; [by left|right].
    split; [done|]. exists (op :: ops). split; [|by constructor]. econstructor; [by eapply reported_step|done].
  - destruct Hs as [_ [[Hok1 Hstep]|Hd]]; [|left; by apply Hdown].
    destruct (IH Hok1) as [Hd|(Hok2 & ops & Hh & Hf)]; [by left|right]. split; [done|].
    destruct Hstep as [Heq|Hstep]; [rewrite Heq in Hh; by exists ops|].
    exists (op :: ops). split; [by econstructor|by constructor].
Qed.

(** A successful call behind the calls of others: what they and it have done. *)
Lemma call_ok w w1 op report w2 :
  svc_ok w -> others w w1 -> svc_call w1 op (Ok report) w2 ->
  svc_ok w1 /\ svc_ok w2 /\ reported (svc_authority w1) op report (svc_authority w2) /\
  exists ops, History ops (svc_authority w) (svc_authority w1) /\ Forall (fun op => is_reconcile op = false) ops.
Proof.
  intros Hok Ho Hc. destruct (others_ok w w1 Hok Ho) as [Hd|(Hok1 & Hh)].
  - destruct (svc_stopped _ _ _ _ Hd Hc) as [_ [s Hs]]. done.
  - destruct (svc_served _ _ _ _ Hok1 Hc) as [Hok2 Hr]. done.
Qed.

(** ** What a program ensures *)

Abbreviation Calls := (list (Op * Expected MutationReport * W)).

(** Whatever it is answered, from the calls [past] on: each report the program
    writes satisfies [R] and its exit code [E] after the calls until then. *)
Fixpoint ensures (R : Calls -> bytes -> Entries -> Prop) (E : Calls -> N -> Prop) (past : Calls) (w : W)
    (p : Program) : Prop :=
  match p with
  | Exit n => E past n
  | Running => True
  | Connect _ k => forall hello, ensures R E past w (k hello)
  | Mutate _ op k => forall w1 w2 result,
      others w w1 -> svc_call w1 op result w2 -> ensures R E (past ++ [(op, result, w2)]) w2 (k result)
  | Ask _ k => forall answer, ensures R E past w (k answer)
  | WriteReport path entries k => R past path entries /\ ensures R E past w k
  end.

Lemma ensures_sound R E past w p calls reports code :
  ensures R E past w p -> conversation w p calls reports code ->
  Forall (fun r : bytes * Entries => exists sofar, sofar `prefix_of` calls /\ R (past ++ sofar) r.1 r.2) reports /\
  forall n, code = Some n -> E (past ++ calls) n.
Proof.
  revert past w calls reports. induction p as [n| |o k IH|principal op k IH|A q k IH|path entries k IH];
    intros past w calls reports Hp; (intros [(-> & -> & ->)|Hc]; [by split|]).
  - destruct Hc as (-> & -> & ->). split; [done|]. intros n' [= <-]. by rewrite app_nil_r.
  - done.
  - destruct Hc as [hello Hc]. by eapply IH; [apply (Hp hello)|].
  - destruct Hc as (w1 & w2 & result & rest & Ho & Hcall & -> & Hc).
    destruct (IH result (past ++ [(op, result, w2)]) w2 rest reports (Hp w1 w2 result Ho Hcall) Hc) as [HR HE].
    rewrite <-app_assoc in HE. split; [|exact HE]. eapply Forall_impl; [exact HR|].
    intros r (sofar & Hpre & Hr). rewrite <-app_assoc in Hr. exists ((op, result, w2) :: sofar).
    split; [by apply prefix_cons|exact Hr].
  - destruct Hc as [answer Hc]. by eapply IH; [apply (Hp answer)|].
  - destruct Hp as [HR Hp], Hc as (rest & -> & Hc). destruct (IH past w calls rest Hp Hc) as [HRs HE].
    split; [|exact HE]. constructor; [|exact HRs]. exists []. rewrite app_nil_r. split; [apply prefix_nil|exact HR].
Qed.

(** [or_exit] goes on with the value of a success. *)
Lemma ensures_or_exit {A} (R : Calls -> bytes -> Entries -> Prop) (E : Calls -> N -> Prop) past w (v : Expected A) code k :
  E past code -> (forall x, v = Ok x -> ensures R E past w (k x)) -> ensures R E past w (or_exit v code k).
Proof. intros HE Hk. destruct v; [by apply Hk|exact HE]. Qed.
End Conversation.

(** ** The daemon as a service *)

(** What the client makes of the daemon's answer. *)
Definition result_of (answer : Answer) : Expected MutationReport :=
  if is_ok (an_status answer) then read_report (an_payload answer) else Fail (an_status answer).

(** A client's call: the daemon answers its request and the answer arrives, or is
    lost; or the request does not get there.  An operation fits the fields of its
    message. *)
Definition daemon_call (d : Daemon) (op : Op) (result : Expected MutationReport) (d' : Daemon) : Prop :=
  d' = d /\ (exists status, status <> Status.Ok /\ result = Fail status) \/
  exists principal seq id os dg now,
    op_fits op /\ texts_survive op = true /\ id_wf (raw principal) /\ u64_ok now /\
    let request := mkRequest kWireProtocolVersion (encode_op principal op).1 seq id (encode_op principal op).2 in
    let '(after, answer) := handle os dg now d request in
    d' = after /\
    (bytes_wf default_limits (an_payload answer) /\ result = result_of answer \/
     exists status, status <> Status.Ok /\ result = Fail status).

(** In service, or behind a compaction that lost its file. *)
Definition daemon_ok (d : Daemon) : Prop :=
  do_max_changes_in_reply (d_options d) <= 4096 /\ exists id es, serves id es d \/ stalled id es d.

Lemma report_changes o request arb changes :
  exists n, mr_changes (report_for o request arb changes) = take (S n) changes.
Proof.
  unfold report_for. destruct (primary_for request) as [[kind key] any]. cbn [mr_changes].
  destruct (N.eqb_spec (do_max_changes_in_reply o) 0) as [|Hne]; [by exists O|].
  exists (pred (N.to_nat (do_max_changes_in_reply o))). f_equal. lia.
Qed.

(** The answer to a mutation. *)
Lemma daemon_answers d principal op seq id os dg now :
  daemon_ok d -> op_fits op -> texts_survive op = true -> id_wf (raw principal) -> u64_ok now ->
  let request := mkRequest kWireProtocolVersion (encode_op principal op).1 seq id (encode_op principal op).2 in
  let '(d', answer) := handle os dg now d request in
  daemon_ok d' /\
    (if is_ok (an_status answer)
     then exists m arb, u64_ok (arb_value arb) /\ op_wf op /\ plan (d_authority d) op arb = Ok m /\
       apply (d_authority d) (m_changes m) arb = (d_authority d', Status.Ok) /\
       an_payload answer = encode_mutation_report (report_for (d_options d) request arb (m_changes m))
     else d_authority d' = d_authority d) \/
  is_ok (an_status answer) = false /\ d_durability_failed d' = true.
Proof.
  intros [Hmax (sid & es & Hd)] Hop Htexts Hprincipal Hnow request.
  assert (decode_op (rq_type request) (rq_payload request) = Ok op) as Hdec.
  { pose proof (decode_encode_op principal op Hop Hprincipal) as H. unfold request. by destruct (encode_op principal op). }
  assert (body_survives request) as Hbody by (intros op'; rewrite Hdec; by intros [= <-]).
  destruct (encode_op_type principal op) as (Hreq & _). unfold handle.
  assert (is_mutation (rq_type request) = true) as Hmut by apply encode_op_mutation.
  assert (message_type_is_request (rq_type request) = true) as Hreq' by exact Hreq.
  rewrite Hreq', Hmut. cbn [request rq_protocol_version]. rewrite N.eqb_refl. cbn [negb andb].
  destruct (d_durability_failed d) eqn:Hf; cbn [andb].
  { left. split; [by split; [|exists sid, es]|done]. }
  destruct Hd as [Hd|Hd].
  - pose proof (handle_mutation_cases sid es d os now request Hd Hnow Hbody) as H.
    destruct (handle_mutation os d now request) as [d' answer]. destruct H as [Ho H].
    destruct (is_ok (an_status answer)) eqn:Hok.
    + destruct H as (op' & m & arb & number & Hdec' & Hwf & Harb & Hplan & Happly & Hk & Hpayload).
      rewrite Hdec in Hdec'. injection Hdec' as <-. left. split.
      * split; [by rewrite Ho|]. destruct Hk as [Hk|[_ [Hk|Hk]]]; eauto.
      * by exists m, arb.
    + destruct H as [[Hd' Ha]|(op' & m & arb & _ & Hb)]; [left|right; split; [done|apply Hb]].
      split; [|exact Ha]. split; [by rewrite Ho|]. eauto.
  - pose proof (handle_mutation_stalled sid es d os now request Hd) as H.
    destruct (handle_mutation os d now request) as [d' answer]. destruct H as (Hd' & Ha & Ho & ->).
    left. split; [|exact Ha]. split; [by rewrite Ho|]. eauto.
Qed.

#[export] Program Instance daemon_service : AuthorityService Daemon := {
  svc_authority := d_authority;
  svc_ok := daemon_ok;
  svc_down d := d_durability_failed d = true;
  svc_call := daemon_call;
}.
Next Obligation. intros d (_ & id & es & [Hd|Hd]); [apply Hd|exact (sl_sound _ _ _ Hd)]. Qed.
Next Obligation.
  intros d op result d' Hd [[-> (status & Hne & ->)]|Hcall].
  { split; [done|]. left. split; [done|by left]. }
  destruct Hcall as (principal & seq & id & os & dg & now & Hop & Htexts & Hprincipal & Hnow & Hcall).
  pose proof (daemon_answers d principal op seq id os dg now Hd Hop Htexts Hprincipal Hnow) as H.
  cbv zeta in Hcall, H. destruct (handle os dg now d _) as [after answer]. destruct Hcall as [-> Hresult].
  destruct H as [[Hd' H]|[Hfail Hdown]].
  2:{ assert (exists status, result = Fail status /\ status <> Status.Ok) as (status & -> & Hne).
      { unfold result_of in Hresult. rewrite Hfail in Hresult.
        destruct Hresult as [[_ ->]|(status & Hne & ->)]; eexists; (split; [done|]); [|done]. by intros E; rewrite E in Hfail. }
      split; [done|by right]. }
  destruct (is_ok (an_status answer)) eqn:Hok.
  - destruct H as (m & arb & Harb & Hwf & Hplan & Happly & Hpayload).
    assert (Step op (d_authority d) (d_authority after)) as Hstep by by econstructor.
    destruct Hresult as [[Hbytes ->]|(status & Hne & ->)]; [|split; [done|left; split; [done|by right]]].
    unfold result_of. rewrite Hok, Hpayload. rewrite Hpayload in Hbytes.
    assert (Forall object_wf (m_objects m)) as Hobjs.
    { destruct Hd as (_ & sid & es & Hd).
      assert (authority_wf (d_authority d)) as Hawf
        by (destruct Hd as [Hd|Hd]; [apply (sv_sound _ _ _ Hd)|apply (sl_sound _ _ _ Hd)]).
      by apply (plan_decodable (d_authority d) Hawf arb m Harb op Hwf Hplan). }
    pose proof (report_readable (d_options d)) as Hread. unfold m_changes in Hbytes |- * at 1.
    rewrite Hread; [|exact Hobjs|exact Harb|apply Hd|exact Hbytes]. split; [exact Hd'|].
    destruct (report_changes (d_options d) (mkRequest kWireProtocolVersion (encode_op principal op).1 seq id (encode_op principal op).2)
      arb (m_changes m)) as [n Hn]. by exists m, arb, n.
  - assert (exists status, result = Fail status /\ status <> Status.Ok) as (status & -> & Hne).
    { unfold result_of in Hresult. rewrite Hok in Hresult.
      destruct Hresult as [[_ ->]|(status & Hne & ->)]; eexists; (split; [done|]); [|done]. by intros E; rewrite E in Hok. }
    split; [done|]. left. split; [exact Hd'|by left].
Qed.
Next Obligation.
  intros d op result d' Hf [[-> (status & Hne & ->)]|Hcall]; [split; [done|by exists status]|].
  destruct Hcall as (principal & seq & id & os & dg & now & _ & _ & _ & _ & Hcall). cbv zeta in Hcall.
  set (request := mkRequest _ _ _ _ _) in Hcall.
  pose proof (handle_failed os dg now d request Hf) as Hd'.
  assert (is_ok (an_status (handle os dg now d request).2) = false) as Hfail.
  { unfold handle. assert (is_mutation (rq_type request) = true) as -> by apply encode_op_mutation.
    rewrite Hf. cbn [andb]. repeat break_goal; done. }
  destruct (handle os dg now d request) as [after answer]. cbn [fst snd] in *. subst after. destruct Hcall as [-> Hresult].
  split; [done|]. unfold result_of in Hresult. rewrite Hfail in Hresult.
  destruct Hresult as [[_ ->]|(status & _ & ->)]; by eexists.
Qed.

(** ** Running a program against a daemon *)

(** The daemon's answer to an operation, at the time [now]. *)
Definition serve_op (os : CommitAnswers) (dg : Diagnostics) (now : N) (d : Daemon) (op : Op) : Daemon * Answer :=
  handle os dg now d (mkRequest kWireProtocolVersion (encode_op tid_nil op).1 1 tid_nil (encode_op tid_nil op).2).

(** An answer that does not fit the envelope is lost. *)
Definition delivered (answer : Answer) : Expected MutationReport :=
  if (blen (an_payload answer) <=? max_bytes default_limits) then result_of answer else Fail Status.Unavailable.

(** The calls of a program that is alone with the daemon and greeted with
    [hello], its reports and its exit code; its queries are not answered. *)
Fixpoint interact (os : CommitAnswers) (dg : Diagnostics) (now : N) (hello : HelloReply) (d : Daemon) (p : Program) :
    list (Op * Expected MutationReport * Daemon) * list (bytes * Entries) * option N :=
  match p with
  | Exit n => ([], [], Some n)
  | Running => ([], [], None)
  | Connect _ k => interact os dg now hello d (k (Ok hello))
  | Mutate _ op k =>
      let '(d', answer) := serve_op os dg now d op in
      let '(calls, reports, code) := interact os dg now hello d' (k (delivered answer)) in
      ((op, delivered answer, d') :: calls, reports, code)
  | Ask _ k => interact os dg now hello d (k (Fail Status.Unavailable))
  | WriteReport path entries k =>
      let '(calls, reports, code) := interact os dg now hello d k in (calls, (path, entries) :: reports, code)
  end.

Lemma interact_conversation os dg now hello d p calls reports code :
  u64_ok now -> interact os dg now hello d p = (calls, reports, code) -> code <> None ->
  Forall (fun call => op_fits call.1.1 /\ texts_survive call.1.1 = true) calls ->
  conversation d p calls reports code.
Proof.
  intros Hnow Hi Hcode Hcalls. revert d calls reports Hi Hcalls.
  induction p as [n| |o k IH|principal op k IH|A q k IH|path entries k IH]; intros d calls reports Hi Hcalls;
    cbn [interact] in Hi; cbn [conversation]; right.
  - by simplify_eq.
  - by simplify_eq.
  - exists (Ok hello). by apply IH.
  - destruct (serve_op os dg now d op) as [d' answer] eqn:Hserve.
    destruct (interact os dg now hello d' _) as [[rest reports'] code'] eqn:Hrest. simplify_eq.
    apply Forall_cons in Hcalls as [[Hop Htexts] Hcalls]. exists d, d', (delivered answer), rest.
    split_and!; [apply rtc_refl| |done|by apply IH].
    right. exists tid_nil, 1, tid_nil, os, dg, now. split_and!; [done..|]. cbv zeta.
    change (handle os dg now d _) with (serve_op os dg now d op). rewrite Hserve. split; [done|].
    unfold delivered. destruct (N.leb_spec (blen (an_payload answer)) (max_bytes default_limits)) as [Hle|Hlt];
      [left; split; [split; [done|unfold u32_ok; change (max_bytes default_limits) with 1048576 in Hle; lia]|done]|right; by exists Status.Unavailable].
  - exists (Fail Status.Unavailable). by apply IH.
  - destruct (interact os dg now hello d k) as [[calls' rest] code'] eqn:Hrest. simplify_eq.
    exists rest. split; [done|]. by apply IH.
Qed.
