(* ===== verification/Agent.v ===== *)
(** * The site agent (apps/isfsited/main.cpp)

    The program that registers a site with the daemon, drives one grant through
    its lifecycle on the site's behalf and then heartbeats.  What is drawn at
    random, the clock and the passes of its waiting loop are inputs. *)

From Stdlib Require Import Strings.Byte.
From S2P Require Import Prelude Outcome Ids Lifecycle Capacity Policy Wire Model Codecs State Ledger Changes.
From S2P Require Import Invariants PlanFabric PlanGrants Operations WellFormed Digest Snapshot Store Frames.
From S2P Require Import Protocol Replies Daemon Applicable Steps Crash Service Net Server Client Dialogue Cli.
From S2P Require Import Programs.

(** ** Options *)

Definition derive_site_id (name : bytes) : SiteId := from_seed (fnv1a64 name) 0x15F0517E.

(** What the arguments say; [ac_target_text] and [ac_class_text] are read where
    they are used. *)
Record AgentConfig := mkAgentConfig {
  ac_daemon : bytes;
  ac_site_name : bytes;
  ac_ready_file : bytes;
  ac_result_file : bytes;
  ac_fault_stage : bytes;
  ac_path_text : bytes;
  ac_register_only : bool;
  ac_reserve : N;
  ac_duration_ms : N;
  ac_heartbeat_ms : N;
  ac_run_ms : N;
  ac_reconcile_text : bytes;
  ac_site_id : SiteId;
  ac_incarnation : Incarnation;
  ac_options : ClientOptions;
  ac_advertised_capacity : N;
  ac_target_text : bytes;
  ac_class_text : bytes;
}.

(** The identity behind [flag], or [fallback]. *)
Definition option_id (tag : IdTag) (args : Arguments) (flag : bytes) (fallback : TypedId tag) : Expected (TypedId tag) :=
  if has args flag then parse_typed tag (value_or args flag []) else Ok fallback.

(** The first part of [main]; a failure is the exit code 2.  [random] is the
    incarnation that is drawn. *)
Definition read_config (args : Arguments) (random : Incarnation) : Expected AgentConfig :=
  fail_if negb (is_ok (validate args [str "daemon"; str "site-name"])) with Status.Invalid ;;
  let daemon := value_or args (str "daemon") (str "127.0.0.1:0") in
  let name := value_or args (str "site-name") [] in
  site ← option_id SiteIdTag args (str "site-id") (derive_site_id name);
  incarnation ← option_id IncarnationTag args (str "incarnation") random;
  endpoint ← parse_endpoint daemon;
  Ok (mkAgentConfig daemon name
        (value_or args (str "ready-file") []) (value_or args (str "result-file") [])
        (value_or args (str "fault-inject") []) (value_or args (str "path") [])
        (flag_or args (str "register-only") false)
        (u64_or args (str "reserve") 0) (u64_or args (str "duration-ms") 600000)
        (u64_or args (str "heartbeat-ms") 0) (u64_or args (str "run-ms") 0)
        (value_or args (str "reconcile") []) site incarnation
        (mkClientOptions endpoint (co_connect_timeout_ms default_client_options) 30000
           (co_max_frame_bytes default_client_options) (str "isfsited"))
        (u64_or args (str "advertised-capacity") 0)
        (value_or args (str "reconcile-target") (str "retired"))
        (value_or args (str "grant-class") (str "general"))).

(** ** Inputs *)

(** A pass of the waiting loop: whether a stop is requested, the time since its
    start, and the clock. *)
Record Pass := mkPass { ps_stop : bool; ps_elapsed : N; ps_now : N }.

(** What is drawn and what the clock says at the places of [main]; the detail
    behind the name of a status in a diagnostic. *)
Record AgentInputs := mkAgentInputs {
  ai_incarnation : Incarnation;
  ai_request : RequestId;
  ai_connected_ms : N;
  ai_reconcile_ms : N;
  ai_propose_ms : N;
  ai_grant_ms : N;
  ai_ack_ms : N;
  ai_detail : Status -> bytes;
  ai_passes : list Pass;
}.

(** [Outcome::to_string] *)
Definition outcome_text (detail : Status -> bytes) (s : Status) : bytes :=
  status_name s ++ (if bool_decide (detail s = []) then [] else str ": " ++ detail s).

Definition base_report (site : SiteRecord) : Entries :=
  [(str "site_id", tid_to_string (site_id site)); (str "site_name", site_name site);
   (str "site_incarnation", tid_to_string (site_incarnation site));
   (str "site_generation", to_decimal (gen_value (site_generation site)));
   (str "site_state", site_state_name (site_state site))].

(** ** The program *)

Section Agent.
Context (i : AgentInputs) (c : AgentConfig) (epoch : Epoch).

Abbreviation write_ready := (WriteReport (ac_ready_file c)).
Abbreviation write_result := (WriteReport (ac_result_file c)).
Abbreviation mutate := (Mutate tid_nil).
Definition error_entry (s : Status) : bytes * bytes := (str "error", outcome_text (ai_detail i) s).

(** [std::_Exit(EXIT_FAILURE)] *)
Definition kExitFailure : N := 1.

Definition site_heartbeat (site : SiteRecord) (now : N) : SiteHeartbeat :=
  mkSiteHeartbeat (ac_site_id c) (ac_incarnation c) (site_generation site) epoch (ac_advertised_capacity c) now.

(** The end of [main]: the waiting loop, over its passes. *)
Fixpoint agent_loop (site : SiteRecord) (report : Entries) (last_heartbeat : N) (passes : list Pass) : Program :=
  match passes with
  | [] => Running
  | pass :: passes =>
      let finish := write_result (report ++ [(str "exit", str "clean")]) (Exit 0) in
      if ps_stop pass then finish
      else if negb (ac_run_ms c =? 0) && (ac_run_ms c <=? ps_elapsed pass) then finish
      else if negb (ac_heartbeat_ms c =? 0) &&
              (ac_heartbeat_ms c <=? wrap64 (ps_elapsed pass + 2 ^ 64 - last_heartbeat)) then
        mutate (Heartbeat (site_heartbeat site (ps_now pass))) (fun beat =>
          match beat with
          | Ok _ => agent_loop site report (ps_elapsed pass) passes
          | Fail _ => write_result report (Exit 7)
          end)
      else agent_loop site report last_heartbeat passes
  end.

Definition agent_wait (site : SiteRecord) (report : Entries) : Program :=
  write_result report
    (if ac_register_only c || ((ac_run_ms c =? 0) && (ac_heartbeat_ms c =? 0)) then Exit 0
     else agent_loop site report 0 (ai_passes i)).

Definition site_proposal (site : SiteRecord) (path : PathId) : GrantProposal :=
  mkGrantProposal (ai_request i) (ac_site_id c) (ac_incarnation c) (site_generation site) path (ac_reserve c)
    (if bool_decide (ac_class_text c = str "protected") then GrantClass.Protected else GrantClass.General)
    (ac_duration_ms c) (ai_propose_ms i) (str "site agent request for " ++ ac_site_name c) tid_nil tid_nil.

Definition holder_operation (site : SiteRecord) (grant : GrantRecord) : GrantOperation :=
  mkGrantOperation (g_id grant) tid_nil (ac_site_id c) (ac_incarnation c) (site_generation site) epoch
    (mkGeneration 0) (mkGeneration 0) (mkGeneration 0) (b_lease (g_binding grant)) (ai_grant_ms i) [].

Definition holder_acknowledgement (grant : GrantRecord) : GrantAcknowledgement :=
  mkGrantAcknowledgement (g_id grant) (ac_site_id c) (ac_incarnation c) epoch (ai_ack_ms i).

(** Behind the evaluation: reservation, activation, acknowledgement. *)
Definition agent_secure (site : SiteRecord) (grant : GrantRecord) (report : Entries) : Program :=
  let op := holder_operation site grant in
  mutate (ReserveGrant op) (fun reserved =>
    match reserved with
    | Fail s => write_result (report ++ [error_entry s]) (Exit 5)
    | Ok _ =>
        if bool_decide (ac_fault_stage c = str "reserved") then write_result report (Exit kExitFailure)
        else
          mutate (ActivateGrant op) (fun activated =>
            match activated with
            | Fail s => write_result (report ++ [error_entry s]) (Exit 5)
            | Ok activated =>
                let report :=
                  match extract_grant activated with
                  | Ok active => report ++ [(str "grant_state", grant_state_name (g_state active))]
                  | Fail _ => report
                  end in
                if bool_decide (ac_fault_stage c = str "activated") then write_result report (Exit kExitFailure)
                else
                  mutate (AcknowledgeGrant (holder_acknowledgement grant)) (fun acknowledged =>
                    let text := match acknowledged with Ok _ => str "1" | Fail _ => str "0" end in
                    agent_wait site (report ++ [(str "acknowledged", text)]))
            end)
    end).

Definition agent_evaluate (site : SiteRecord) (grant : GrantRecord) (report : Entries) : Program :=
  mutate (EvaluateGrant (holder_operation site grant)) (fun evaluated =>
    match evaluated with
    | Fail s => write_result (report ++ [error_entry s]) (Exit 5)
    | Ok evaluated =>
        let state := match extract_grant evaluated with
                     | Ok g => grant_state_name (g_state g) | Fail _ => str "UNKNOWN" end in
        let report := report ++ [(str "evaluated_state", state)] in
        if negb (bool_decide (state = str "ELIGIBLE")) then write_result report (Exit 0)
        else agent_secure site grant report
    end).

(** The request for capacity, when a path and an amount are given. *)
Definition agent_request (site : SiteRecord) (report : Entries) : Program :=
  if negb (bool_decide (ac_path_text c = [])) && (0 <? ac_reserve c) then
    or_exit (parse_typed PathIdTag (ac_path_text c)) 2 (fun path =>
      mutate (ProposeGrant (site_proposal site path)) (fun proposed =>
        match proposed with
        | Fail s => write_result (report ++ [error_entry s]) (Exit 5)
        | Ok proposed =>
            or_exit (extract_grant proposed) 5 (fun grant =>
              agent_evaluate site grant
                (report ++ [(str "grant_id", tid_to_string (g_id grant));
                            (str "lease", tid_to_string (b_lease (g_binding grant)));
                            (str "arbitration", to_decimal (arb_value (g_arbitration grant)));
                            (str "grant_state", grant_state_name (g_state grant))]))
        end))
  else agent_wait site report.

Definition reconcile_operation (grant : GrantId) : GrantOperation :=
  mkGrantOperation grant tid_nil (ac_site_id c) (ac_incarnation c) (mkGeneration 0) epoch
    (mkGeneration 0) (mkGeneration 0) (mkGeneration 0) tid_nil (ai_reconcile_ms i)
    (str "operator reconciliation by site agent").

(** The reconciliation of a grant, when one is given. *)
Definition agent_reconcile (site : SiteRecord) (report : Entries) : Program :=
  if bool_decide (ac_reconcile_text c = []) then agent_request site report
  else
    or_exit (parse_typed GrantIdTag (ac_reconcile_text c)) 2 (fun grant =>
      match grant_state_from_name (if bool_decide (ac_target_text c = str "active") then str "ACTIVE" else str "RETIRED") with
      | None => Exit 2
      | Some target =>
          mutate (ReconcileGrant (reconcile_operation grant) target (from_seed (fnv1a64 (ac_site_name c)) 1))
            (fun reconciled =>
              match reconciled with
              | Fail s => write_result [error_entry s] (Exit 6)
              | Ok reconciled =>
                  let report :=
                    match extract_grant reconciled with
                    | Ok grant => report ++ [(str "grant_id", tid_to_string (g_id grant));
                                             (str "grant_state", grant_state_name (g_state grant))]
                    | Fail _ => report
                    end in
                  write_result report (if ac_run_ms c =? 0 then Exit 0 else agent_request site report)
              end)
      end).

Definition site_registration : SiteRegistration :=
  mkSiteRegistration (mkSiteDescriptor (ac_site_id c) (ac_site_name c) (ac_advertised_capacity c))
    (ac_incarnation c) epoch (ai_connected_ms i).

Definition agent_register : Program :=
  mutate (RegisterSite site_registration) (fun registered =>
    match registered with
    | Fail s => write_result [error_entry s] (Exit 4)
    | Ok registered =>
        or_exit (extract_site registered) 4 (fun site =>
          let report := base_report site ++ [(str "daemon_endpoint", ac_daemon c); (str "epoch", to_decimal (epoch_value epoch))] in
          write_ready report
            (if bool_decide (ac_fault_stage c = str "registered") then Exit kExitFailure
             else agent_reconcile site report))
    end).
End Agent.

(** [main], over the tokens behind the name of the program. *)
Definition agent_main (tokens : list bytes) (i : AgentInputs) : Program :=
  let args := parse_arguments tokens in
  if has args (str "help") then Exit 0
  else
    or_exit (read_config args (ai_incarnation i)) 2 (fun c =>
      Connect (ac_options c) (fun hello =>
        or_exit hello 3 (fun hello => agent_register i c (hr_epoch hello)))).

(** ** Lemmas *)

(** What an activated grant becomes holds capacity while it is open. *)
Lemma activated_holds t : GrantSteps GrantState.Active t -> is_terminal t = false -> holds_capacity t = true.
Proof. intros Hr%grant_steps_rank. destruct t; cbn in Hr; try done; lia. Qed.

Section Secured.
Context {W : Type} `{!AuthorityService W}.

(** A grant under the calls of others and the next successful call. *)
Lemma grant_survives w w1 op report w2 id g :
  svc_ok w -> others w w1 -> svc_call w1 op (Ok report) w2 -> is_reconcile op = false ->
  grants_ (svc_authority w) !! id = Some g ->
  svc_ok w1 /\ svc_ok w2 /\ reported (svc_authority w1) op report (svc_authority w2) /\
  exists g1 g2, grants_ (svc_authority w1) !! id = Some g1 /\ grants_ (svc_authority w2) !! id = Some g2 /\
    same_identity g g1 /\ same_identity g g2 /\ GrantSteps (g_state g) (g_state g1).
Proof.
  intros Hok Ho Hc Hr Hg. destruct (call_ok _ _ _ _ _ Hok Ho Hc) as (Hok1 & Hok2 & Hrep & ops & Hh & Hops).
  destruct (history_grant ops _ _ id g (svc_sound w Hok) Hh Hops Hg) as (g1 & Hg1 & Hid1 & Hst).
  destruct (step_grant op _ _ id g1 (svc_sound w1 Hok1) (reported_step _ _ _ _ Hrep) Hr Hg1) as (g2 & Hg2 & Hid2 & _).
  split_and!; [done..|]. exists g1, g2. split_and!; try done. by eapply same_identity_trans.
Qed.

(** The proposal behind a report stands in the authority. *)
Lemma proposed_grant_stands a p report a' g :
  sound a -> reported a (ProposeGrant p) report a' -> extract_grant report = Ok g ->
  grants_ a' !! raw (g_id g) = Some g /\ b_holder (g_binding g) = gp_holder p /\ b_path (g_binding g) = gp_path p /\
  g_amount g = gp_amount p /\ g_class g = gp_class p.
Proof.
  intros Ha (m & arb & n & Harb & Hop & Hp & Happly & Hchanges) Hextract. pose proof Hp as Hplan.
  cbn [plan] in Hp. unfold plan_propose_grant in Hp. plan_inv Hp. rename x into site, x0 into path.
  destruct (single_applied a (ProposeGrant p) _ arb a' (proposed_grant a p site path arb) false Ha Harb Hop Hplan
    eq_refl Happly) as [Hwf Hg]. cbn [m_changes m_objects fmap list_fmap] in Hchanges.
  rewrite (extract_single report _ false n Hwf Hchanges) in Hextract. injection Hextract as <-.
  split; [exact Hg|]. cbn [proposed_grant g_binding b_holder b_path g_amount g_class]. split_and!; try done.
  unfold require_path, find_path in E0. apply found_ok in E0. pose proof (wk_paths a (sound_keyed a Ha) _ _ E0) as Hk.
  destruct (path_id path), (gp_path p). cbn in Hk. by subst.
Qed.

Lemma activated_grant_active a op report a' :
  sound a -> reported a (ActivateGrant op) report a' ->
  exists g, grants_ a' !! raw (op_grant op) = Some g /\ g_state g = GrantState.Active.
Proof.
  intros Ha (m & arb & n & Harb & Hop & Hp & Happly & _). pose proof Hp as Hplan.
  cbn [plan] in Hp. unfold plan_activate_grant in Hp. plan_inv Hp.
  destruct (single_applied a (ActivateGrant op) _ arb a' _ false Ha Harb Hop Hplan eq_refl Happly) as [_ Hg].
  apply found_ok in E. cbn [set_g_updated_at_ms set_g_state g_id] in Hg.
  rewrite (wk_grants a (sound_keyed a Ha) _ _ E) in Hg. by eexists.
Qed.

Lemma acknowledged_grant_open a ack report a' g :
  sound a -> reported a (AcknowledgeGrant ack) report a' -> grants_ a !! raw (ack_grant ack) = Some g ->
  is_terminal (g_state g) = false /\
  exists g', grants_ a' !! raw (ack_grant ack) = Some g' /\ g_state g' = g_state g /\ g_acknowledged g' = true.
Proof.
  intros Ha (m & arb & n & Harb & Hop & Hp & Happly & _) Hg. pose proof Hp as Hplan.
  cbn [plan] in Hp. unfold plan_acknowledge_grant in Hp. plan_inv Hp. apply found_ok in E.
  assert (x = g) as -> by (unfold find_grant in E; congruence). split; [done|].
  destruct (single_applied a (AcknowledgeGrant ack) _ arb a' _ false Ha Harb Hop Hplan eq_refl Happly) as [_ Hg'].
  cbn [set_g_updated_at_ms set_g_ack_count set_g_acknowledged g_id] in Hg'.
  rewrite (wk_grants a (sound_keyed a Ha) _ _ Hg) in Hg'. by eexists.
Qed.

(** The capacity asked for is held, activated and acknowledged, under the
    identity that the report names. *)
Definition secured (c : AgentConfig) (calls : list (Op * Expected MutationReport * W)) (entries : Entries) : Prop :=
  exists path ack report w g,
    parse_typed PathIdTag (ac_path_text c) = Ok path /\
    (AcknowledgeGrant ack, Ok report, w) ∈ calls /\
    find_grant (svc_authority w) (ack_grant ack) = Some g /\
    holds_capacity (g_state g) = true /\ g_acknowledged g = true /\
    b_holder (g_binding g) = ac_site_id c /\ b_path (g_binding g) = path /\ g_amount g = ac_reserve c /\
    g_class g = (if bool_decide (ac_class_text c = str "protected") then GrantClass.Protected else GrantClass.General) /\
    (exists op report' w', (ActivateGrant op, Ok report', w') ∈ calls /\ op_grant op = ack_grant ack) /\
    (str "grant_id", tid_to_string (ack_grant ack)) ∈ entries.

Definition claims_only_secured (c : AgentConfig) (calls : list (Op * Expected MutationReport * W)) (entries : Entries) : Prop :=
  (str "acknowledged", str "1") ∈ entries -> secured c calls entries.

(** Entries that claim nothing. *)
Definition quiet (entries : Entries) : Prop := str "acknowledged" ∉ entries.*1.

Lemma quiet_app l k : quiet l -> quiet k -> quiet (l ++ k).
Proof. unfold quiet. rewrite fmap_app, elem_of_app. naive_solver. Qed.

Lemma quiet_concrete keys (entries : Entries) :
  entries.*1 = keys -> bool_decide (str "acknowledged" ∉ keys) = true -> quiet entries.
Proof. by intros <- H%bool_decide_eq_true. Qed.

Lemma quiet_claims c calls entries : quiet entries -> claims_only_secured c calls entries.
Proof. intros Hq Hin. destruct Hq. apply list_elem_of_fmap. by exists (str "acknowledged", str "1"). Qed.

Lemma claims_more c calls entries calls' more :
  claims_only_secured c calls entries -> quiet more -> claims_only_secured c (calls ++ calls') (entries ++ more).
Proof.
  intros Hc Hq [Hin|Hin]%elem_of_app.
  - destruct (Hc Hin) as (path & ack & report & w & g & H1 & H2 & H3 & H4 & H5 & H6 & H7 & H8 & H9 & H10 & H11).
    destruct H10 as (op & report' & w' & Hop & Heq). exists path, ack, report, w, g.
    split_and!; try done; try (apply elem_of_app; by left). exists op, report', w'.
    split; [apply elem_of_app; by left|done].
  - exfalso. apply Hq, list_elem_of_fmap. by exists (str "acknowledged", str "1").
Qed.

Lemma claims_later c calls entries calls' :
  claims_only_secured c calls entries -> claims_only_secured c (calls ++ calls') entries.
Proof. intros H. rewrite <-(app_nil_r entries). by apply claims_more; [|apply not_elem_of_nil]. Qed.

Section Program.
Context (i : AgentInputs) (c : AgentConfig) (epoch : Epoch).

Abbreviation agent_ensures := (ensures (fun calls _ entries => claims_only_secured c calls entries) (fun _ _ => True)).

Lemma loop_claims site report passes last past w :
  claims_only_secured c past report -> agent_ensures past w (agent_loop c epoch site report last passes).
Proof.
  revert last past w. induction passes as [|pass passes IH]; intros last past w Hr; [done|]. cbn [agent_loop].
  assert (agent_ensures past w (WriteReport (ac_result_file c) (report ++ [(str "exit", str "clean")]) (Exit 0)))
    as Hfinish.
  { split; [|done]. rewrite <-(app_nil_r past). apply claims_more; [exact Hr|]. by eapply quiet_concrete. }
  destruct (ps_stop pass); [exact Hfinish|]. destruct (negb _ && _); [exact Hfinish|].
  destruct (negb _ && _); [|by apply IH]. intros w1 w2 result _ _. destruct result as [beat|s].
  - apply IH. by apply claims_later.
  - split; [by apply claims_later|done].
Qed.

Lemma wait_claims site report past w :
  claims_only_secured c past report -> agent_ensures past w (agent_wait i c epoch site report).
Proof. intros Hr. split; [exact Hr|]. destruct (_ || _); [done|by apply loop_claims]. Qed.

(** The state of the service that the agent relies on behind its proposal. *)
Definition standing (path : PathId) (g : GrantRecord) (w : W) : Prop :=
  svc_ok w /\ exists cur, grants_ (svc_authority w) !! raw (g_id g) = Some cur /\ same_identity g cur /\
  b_holder (g_binding g) = ac_site_id c /\ b_path (g_binding g) = path /\ g_amount g = ac_reserve c /\
  g_class g = (if bool_decide (ac_class_text c = str "protected") then GrantClass.Protected else GrantClass.General).

Lemma standing_call path g w w1 op report w2 :
  standing path g w -> others w w1 -> svc_call w1 op (Ok report) w2 -> is_reconcile op = false -> standing path g w2.
Proof.
  intros (Hok & cur & Hcur & Hid & Hrest) Ho Hc Hr.
  destruct (grant_survives _ _ _ _ _ _ _ Hok Ho Hc Hr Hcur) as (_ & Hok2 & _ & g1 & g2 & _ & Hg2 & _ & Hid2 & _).
  split; [exact Hok2|]. exists g2. split_and!; [exact Hg2|by eapply same_identity_trans|by destruct_and!..].
Qed.

Section Grant.
Context (path : PathId) (Hpath : parse_typed PathIdTag (ac_path_text c) = Ok path).
Context (site : SiteRecord) (grant : GrantRecord).

(** The acknowledgement of an activated grant. *)
Lemma acknowledged_claims report past w op activated :
  quiet report -> (str "grant_id", tid_to_string (g_id grant)) ∈ report ->
  svc_ok w -> standing path grant w -> (ActivateGrant op, Ok activated, w) ∈ past -> op_grant op = g_id grant ->
  (exists cur, grants_ (svc_authority w) !! raw (g_id grant) = Some cur /\ g_state cur = GrantState.Active) ->
  agent_ensures past w
    (Mutate tid_nil (AcknowledgeGrant (holder_acknowledgement i c epoch grant)) (fun acknowledged =>
       let text := match acknowledged with Ok _ => str "1" | Fail _ => str "0" end in
       agent_wait i c epoch site (report ++ [(str "acknowledged", text)]))).
Proof.
  intros Hquiet Hgid Hok Hstand Hactivated Hop (cur & Hcur & Hactive) w1 w2 [rep|s] Ho Hc; apply wait_claims.
  2:{ intros [Hin|Hin]%elem_of_app; [exfalso|].
      { apply Hquiet, list_elem_of_fmap. by exists (str "acknowledged", str "1"). }
      apply list_elem_of_singleton in Hin. by vm_compute in Hin. }
  intros _. pose proof Hstand as (_ & cur' & Hcur' & Hid & H1 & H2 & H3 & H4). rewrite Hcur in Hcur'. injection Hcur' as <-.
  destruct (grant_survives _ _ _ _ _ _ _ Hok Ho Hc eq_refl Hcur) as (Hok1 & _ & Hrep & g1 & g2 & Hg1 & Hg2 & _ & Hid2 & Hsteps).
  destruct (acknowledged_grant_open _ _ _ _ g1 (svc_sound w1 Hok1) Hrep Hg1) as (Hopen & g' & Hg' & Hst & Hack).
  cbn [ack_grant holder_acknowledgement] in Hg'. rewrite Hg2 in Hg'. injection Hg' as <-.
  pose proof (same_identity_trans _ _ _ Hid Hid2) as Hid'. unfold same_identity in Hid'. destruct_and!.
  exists path, (holder_acknowledgement i c epoch grant), rep, w2, g2. rewrite Hactive in Hsteps.
  split_and!; [exact Hpath|apply elem_of_app; right; by apply list_elem_of_singleton|exact Hg2
    |by rewrite Hst; apply activated_holds|exact Hack|congruence..| |apply elem_of_app; by left].
  exists op, activated, w. split; [apply elem_of_app; by left|exact Hop].
Qed.

Lemma secure_claims report past w :
  quiet report -> (str "grant_id", tid_to_string (g_id grant)) ∈ report -> standing path grant w ->
  agent_ensures past w (agent_secure i c epoch site grant report).
Proof.
  intros Hquiet Hgid Hstand w1 w2 [reserved|s] Ho Hc.
  2:{ split; [|done]. apply quiet_claims, quiet_app; [done|]. by eapply quiet_concrete. }
  pose proof (standing_call _ _ _ _ _ _ _ Hstand Ho Hc eq_refl) as Hstand2.
  destruct (bool_decide _); [split; [by apply quiet_claims|done]|].
  intros w3 w4 [activated|s] Ho' Hc'.
  2:{ split; [|done]. apply quiet_claims, quiet_app; [done|]. by eapply quiet_concrete. }
  pose proof (standing_call _ _ _ _ _ _ _ Hstand2 Ho' Hc' eq_refl) as Hstand4.
  destruct (call_ok _ _ _ _ _ (proj1 Hstand2) Ho' Hc') as (Hok3 & Hok4 & Hrep & _).
  destruct (activated_grant_active _ _ _ _ (svc_sound w3 Hok3) Hrep) as (cur & Hcur & Hactive).
  cbn zeta. set (report' := match extract_grant activated with Ok _ => _ | Fail _ => _ end).
  assert (quiet report' /\ (str "grant_id", tid_to_string (g_id grant)) ∈ report') as [Hquiet' Hgid'].
  { unfold report'. destruct (extract_grant activated) as [g|]; [|done].
    split; [apply quiet_app; [done|by eapply quiet_concrete]|apply elem_of_app; by left]. }
  destruct (bool_decide _); [split; [by apply quiet_claims|done]|].
  eapply acknowledged_claims; [done|done|done|done|apply elem_of_app; right; by apply list_elem_of_singleton|done|].
  by exists cur.
Qed.

Lemma evaluate_claims report past w :
  quiet report -> (str "grant_id", tid_to_string (g_id grant)) ∈ report -> standing path grant w ->
  agent_ensures past w (agent_evaluate i c epoch site grant report).
Proof.
  intros Hquiet Hgid Hstand w1 w2 [evaluated|s] Ho Hc.
  2:{ split; [|done]. apply quiet_claims, quiet_app; [done|]. by eapply quiet_concrete. }
  cbn zeta. set (state := match extract_grant evaluated with Ok _ => _ | Fail _ => _ end).
  assert (quiet (report ++ [(str "evaluated_state", state)])) as Hquiet'
    by (apply quiet_app; [done|by eapply quiet_concrete]).
  destruct (negb _); [split; [by apply quiet_claims|done]|].
  apply secure_claims; [done|apply elem_of_app; by left|].
  by eapply standing_call.
Qed.
End Grant.

Lemma request_claims site report past w :
  quiet report -> svc_ok w -> agent_ensures past w (agent_request i c epoch site report).
Proof.
  intros Hquiet Hok. unfold agent_request. destruct (_ && _); [|by apply wait_claims, quiet_claims].
  apply ensures_or_exit; [done|]. intros path Hpath w1 w2 [proposed|s] Ho Hc.
  2:{ split; [|done]. apply quiet_claims, quiet_app; [done|]. by eapply quiet_concrete. }
  apply ensures_or_exit; [done|]. intros grant Hgrant.
  destruct (call_ok _ _ _ _ _ Hok Ho Hc) as (Hok1 & Hok2 & Hrep & _).
  destruct (proposed_grant_stands _ _ _ _ grant (svc_sound w1 Hok1) Hrep Hgrant) as (Hg & H1 & H2 & H3 & H4).
  eapply evaluate_claims; [exact Hpath|apply quiet_app; [done|by eapply quiet_concrete]| |].
  - apply elem_of_app. right. left.
  - split; [exact Hok2|]. exists grant. by split_and!.
Qed.

Lemma reconcile_claims site report past w :
  quiet report -> svc_ok w -> agent_ensures past w (agent_reconcile i c epoch site report).
Proof.
  intros Hquiet Hok. unfold agent_reconcile. destruct (bool_decide _); [by apply request_claims|].
  apply ensures_or_exit; [done|]. intros grant _. destruct (grant_state_from_name _) as [target|]; [|done].
  intros w1 w2 [reconciled|s] Ho Hc.
  2:{ split; [|done]. apply quiet_claims. by eapply quiet_concrete. }
  destruct (call_ok _ _ _ _ _ Hok Ho Hc) as (_ & Hok2 & _).
  cbn zeta. set (report' := match extract_grant reconciled with Ok _ => _ | Fail _ => _ end).
  assert (quiet report') as Hquiet'.
  { unfold report'. destruct (extract_grant reconciled); [|done]. apply quiet_app; [done|by eapply quiet_concrete]. }
  split; [by apply quiet_claims|]. destruct (_ =? 0); [done|by apply request_claims].
Qed.

Lemma register_claims past w : svc_ok w -> agent_ensures past w (agent_register i c epoch).
Proof.
  intros Hok w1 w2 [registered|s] Ho Hc.
  2:{ split; [|done]. apply quiet_claims. by eapply quiet_concrete. }
  destruct (call_ok _ _ _ _ _ Hok Ho Hc) as (_ & Hok2 & _).
  apply ensures_or_exit; [done|]. intros site _.
  assert (quiet (base_report site ++ [(str "daemon_endpoint", ac_daemon c); (str "epoch", to_decimal (epoch_value epoch))]))
    as Hquiet by by eapply quiet_concrete.
  split; [by apply quiet_claims|]. destruct (bool_decide _); [done|by apply reconcile_claims].
Qed.
End Program.
End Secured.

(** ** Properties *)

(** C9: the agent claims no capacity that its site does not hold.  Whatever it is
    asked and answered, and whatever others do meanwhile, reconciliation apart, when
    a report says that the grant was acknowledged then, behind the agent's acknowledgement, the
    authority had under the identity in that report a grant of the agent's site on
    the path, with the amount and class asked for, that was activated, is
    acknowledged and holds its capacity. *)
Theorem agent_secures_capacity {W : Type} `{!AuthorityService W} w tokens i calls reports code file entries :
  svc_ok w -> conversation w (agent_main tokens i) calls reports code ->
  (file, entries) ∈ reports -> (str "acknowledged", str "1") ∈ entries ->
  exists c, read_config (parse_arguments tokens) (ai_incarnation i) = Ok c /\ secured c calls entries.
Proof.
  intros Hok Hc Hfile Hack. unfold agent_main in Hc.
  assert (forall n, ~ conversation w (Exit n) calls reports code) as Hexit.
  { intros n [(_ & -> & _)|(_ & -> & _)]; by apply elem_of_nil in Hfile. }
  destruct (has _ _); [by destruct (Hexit 0)|].
  destruct (read_config _ _) as [c|s]; [|by destruct (Hexit 2)]. exists c. split; [reflexivity|].
  cbn [or_exit] in Hc. destruct Hc as [(_ & -> & _)|[hello Hc]]; [by apply elem_of_nil in Hfile|].
  destruct hello as [hello|s]; [|by destruct (Hexit 3)]. cbn [or_exit] in Hc.
  destruct (ensures_sound _ _ [] w _ calls reports code (register_claims i c (hr_epoch hello) [] w Hok) Hc) as [HR _].
  rewrite Forall_forall in HR. destruct (HR _ Hfile) as (sofar & [rest ->] & Hclaims). cbn [fst snd app] in Hclaims.
  pose proof (claims_later c sofar entries rest Hclaims) as Hlater. by apply Hlater.
Qed.

(** ** Witness *)

(** An agent for site 1 that asks for 5 units on path 3 of the sample. *)
Definition sample_tokens : list bytes :=
  [str "--daemon"; str "127.0.0.1:7000"; str "--site-name"; str "east";
   str "--site-id"; tid_to_string (Sample.id 1 : SiteId); str "--incarnation"; tid_to_string (Sample.id 101 : Incarnation);
   str "--path"; tid_to_string (Sample.id 3 : PathId); str "--reserve"; str "5"; str "--result-file"; str "out"].

Definition sample_inputs : AgentInputs :=
  mkAgentInputs (Sample.id 102) (Sample.id 250) 30 30 30 30 30 (fun _ => []) [].

Definition sample_run := interact sample_answers sample_diagnostics 30 sample_hello_reply sample_daemon
  (agent_main sample_tokens sample_inputs).

Lemma sample_run_fits :
  Forall (fun op => op_fits op /\ texts_survive op = true) ((fun call => call.1.1) <$> sample_run.1.1).
Proof.
  assert (exists ops, (fun call => call.1.1) <$> sample_run.1.1 = ops /\
    Forall (fun op => op_fits op /\ texts_survive op = true) ops) as (ops & -> & H); [|exact H].
  eexists. split; [vm_compute; reflexivity|].
  repeat (apply Forall_cons; split; [split; by vm_compute|]). apply Forall_nil_2.
Qed.

Lemma sample_run_ends : sample_run.2 = Some 0.
Proof. vm_compute. reflexivity. Qed.

Definition sample_report : Entries := default [] (snd <$> last sample_run.1.2).

Lemma sample_report_claims :
  (str "out", sample_report) ∈ sample_run.1.2 /\ (str "acknowledged", str "1") ∈ sample_report.
Proof.
  split; [|apply (bool_decide_unpack _); vm_compute; exact I].
  assert (exists first, sample_run.1.2 = [first; (str "out", sample_report)]) as [first ->].
  { eexists. vm_compute. reflexivity. }
  right. left.
Qed.

Lemma agent_secures_capacity_witness :
  daemon_ok sample_daemon /\
  exists calls entries c,
    conversation sample_daemon (agent_main sample_tokens sample_inputs) calls sample_run.1.2 (Some 0) /\
    secured c calls entries.
Proof.
  assert (daemon_ok sample_daemon) as Hok by (split; [by vm_compute|exists (Sample.id 500), sample_filling; left; exact sample_serves]).
  split; [exact Hok|]. exists sample_run.1.1, sample_report.
  assert (conversation sample_daemon (agent_main sample_tokens sample_inputs) sample_run.1.1 sample_run.1.2 (Some 0)) as Hc.
  { apply (interact_conversation sample_answers sample_diagnostics 30 sample_hello_reply); [by vm_compute| |done|].
    - rewrite <-sample_run_ends. unfold sample_run. by destruct (interact _ _ _ _ _ _) as [[? ?] ?].
    - pose proof sample_run_fits as H. rewrite Forall_fmap in H. exact H. }
  destruct (@agent_secures_capacity Daemon daemon_service sample_daemon sample_tokens sample_inputs sample_run.1.1 sample_run.1.2 (Some 0)
    (str "out") sample_report Hok Hc (proj1 sample_report_claims) (proj2 sample_report_claims)) as (c & _ & Hs).
  exists c. split; [exact Hc|exact Hs].
Defined.
