(* ===== verification/Control.v ===== *)
(** * The control program (apps/isfctl/main.cpp)

    The operator's program: one connection, the command that the first word
    names, an exit code.  A command reads what it needs, makes at most one
    mutation, and is a function from its arguments, the greeting of the daemon
    and what is drawn at random to a [Program].  What is printed is left out. *)

From Stdlib Require Import Strings.Byte.
From S2P Require Import Prelude Outcome Ids Lifecycle Capacity Policy Wire Model Codecs State Ledger Changes.
From S2P Require Import Invariants PlanFabric PlanGrants Operations WellFormed Digest Snapshot Store Frames.
From S2P Require Import Protocol Replies Daemon Applicable Steps Crash Service Net Server Client Dialogue Cli.
From S2P Require Import Programs.

(** What the clock says and what is drawn. *)
Record ControlInputs := mkControlInputs {
  ci_now : N;
  ci_incarnation : Incarnation;
  ci_attestation : AttestationId;
  ci_oversubscription : OversubscriptionId;
  ci_request : RequestId;
  ci_verification : VerificationId;
}.

Definition kInspections : list bytes :=
  [str "status"; str "sites"; str "paths"; str "grants"; str "ledger"; str "digest"; str "verify"; str "snapshot";
   str "probe"].

Definition kMutations : list bytes :=
  [str "site-register"; str "site-state"; str "path-register"; str "path-state"; str "attest"; str "oversubscribe";
   str "policy-install"; str "epoch-bump"; str "grant-propose"; str "grant-evaluate"; str "grant-reserve";
   str "grant-activate"; str "grant-degrade"; str "grant-withdraw"; str "grant-retire"; str "grant-cancel";
   str "grant-ack"; str "grant-verify"; str "grant-reconcile"; str "tick"].

Definition kCommands : list bytes := kInspections ++ kMutations ++ [str "shutdown"].

(** ** Steps of a command *)

(** [if (!answer.ok()) return 4;] *)
Definition query {A} (q : Query A) (k : A -> Program) : Program := Ask q (fun answer => or_exit answer 4 k).
Definition submit (principal : PrincipalId) (op : Op) (k : MutationReport -> Program) : Program :=
  Mutate principal op (fun result => or_exit result 4 k).

(** The loop that looks a record up: the last one found stays. *)
Definition find_record {A} (matches : A -> bool) (records : list A) : option A :=
  foldl (fun found record => if matches record then Some record else found) None records.

(** [if (!found) return 4;] *)
Definition or_missing {A} (found : option A) (k : A -> Program) : Program :=
  match found with Some record => k record | None => Exit 4 end.

(** The states of [parse_state] and [parse_path_state]; [2] on a wrong text. *)
Definition or_usage {A} (parsed : option A) (k : A -> Program) : Program :=
  match parsed with Some value => k value | None => Exit 2 end.

(** ** Arguments *)

Section Commands.
Context (args : Arguments) (i : ControlInputs) (hello : HelloReply).

(** The prefix, whatever it says, is cut off; [None] where the flag is absent or
    its text no identity. *)
Definition read_raw_id (flag : bytes) : option Id128 :=
  if negb (has args flag) then None
  else
    let text := value_or args flag [] in
    let text := match find_char x3a text with Some colon => drop (colon + 1) text | None => text end in
    match parse_id text with Ok id => Some id | Fail _ => None end.

Definition parse_incarnation (flag : bytes) : option Incarnation :=
  if negb (has args flag) then None
  else match parse_typed IncarnationTag (value_or args flag []) with Ok v => Some v | Fail _ => None end.

(** An identity flag that must be there. *)
Definition required_id (tag : IdTag) (flag : bytes) (k : TypedId tag -> Program) : Program :=
  or_exit (parse_typed tag (value_or args flag [])) 2 k.

(** The principal named by [flag], with the seed of its command. *)
Definition named_principal (flag fallback : bytes) (seed : N) : PrincipalId :=
  from_seed (fnv1a64 (value_or args flag fallback)) seed.
Definition operator (seed : N) : PrincipalId := named_principal (str "principal") (str "operator") seed.

Definition u32_or (flag : bytes) (fallback : N) : N := wrap32 (u64_or args flag fallback).

(** The digest given as evidence, or that of [subject]. *)
Definition evidence_for (subject : bytes) : Expected Digest256 :=
  parse_digest (value_or args (str "evidence") (digest_to_hex (digest_of subject))).

Abbreviation now := (ci_now i).
Abbreviation epoch := (hr_epoch hello).
Abbreviation done_with := (fun _ : MutationReport => Exit 0).

(** ** Inspection *)

Definition cmd_probe : Program := Exit 0.
Definition cmd_status : Program := query QueryStatus (fun _ => Exit 0).
Definition cmd_sites : Program := query QuerySites (fun _ => Exit 0).
Definition cmd_paths : Program := query QueryPaths (fun _ => Exit 0).
Definition cmd_digest : Program := query QueryDigest (fun _ => Exit 0).
Definition cmd_snapshot : Program := query QuerySnapshot (fun _ => Exit 0).
Definition cmd_shutdown : Program := query RequestShutdown (fun _ => Exit 0).

(** A flag that may be left out, but not be wrong. *)
Definition optional_id (tag : IdTag) (flag : bytes) (k : TypedId tag -> Program) : Program :=
  if has args flag then required_id tag flag k else k tid_nil.

Definition cmd_grants : Program :=
  optional_id PathIdTag (str "path") (fun path =>
    optional_id SiteIdTag (str "site") (fun site =>
      query (QueryGrants (mkListFilter (flag_or args (str "include-terminal") true) (u32_or (str "limit") 4096) path site))
        (fun _ => Exit 0))).

(** The ledgers of the selected paths, one request each. *)
Fixpoint check_ledgers (selected : list PathRecord) (failures : N) : Program :=
  match selected with
  | [] => Exit (if failures =? 0 then 0 else 5)
  | path :: selected =>
      Ask (QueryLedger (path_id path)) (fun ledger =>
        match ledger with
        | Fail _ => check_ledgers selected (failures + 1)
        | Ok ledger => check_ledgers selected (if is_ok (verify_closure ledger) then failures else failures + 1)
        end)
  end.

Definition cmd_verify : Program := query QueryPaths (fun paths => check_ledgers paths 0).

Definition cmd_ledger : Program :=
  query QueryPaths (fun paths =>
    required_id PathIdTag (str "path") (fun id =>
      let selected := filter (fun path => path_id path = id) paths in
      if bool_decide (selected = []) then Exit 4 else check_ledgers selected 0)).

(** ** Topology and policy *)

Definition registered_site : SiteRegistration :=
  let name := value_or args (str "name") [] in
  mkSiteRegistration
    (mkSiteDescriptor
       match read_raw_id (str "site-id") with
       | Some id => from_raw id
       | None => from_seed (fnv1a64 name) 0x15F0517E
       end name (u64_or args (str "capacity") 0))
    (default (ci_incarnation i) (parse_incarnation (str "incarnation"))) epoch now.

Definition cmd_site_register : Program :=
  submit tid_nil (RegisterSite registered_site) (fun report => or_exit (extract_site report) 4 (fun _ => Exit 0)).

Definition cmd_site_state : Program :=
  required_id SiteIdTag (str "site") (fun site =>
    or_usage (site_state_from_name (value_or args (str "state") [])) (fun state =>
      submit tid_nil (SetSiteState site state (value_or args (str "reason") []) now) done_with)).

Definition registered_path (path : PathId) (a b : SiteId) : PathRegistration :=
  mkPathRegistration
    (mkPathDescriptor path (value_or args (str "name") (value_or args (str "path") []))
       (default tid_nil (from_raw <$> read_raw_id (str "edge"))) (default tid_nil (from_raw <$> read_raw_id (str "domain")))
       a b)
    (mkGeneration (u64_or args (str "generation") 1))
    (default PathState.Up (path_state_from_name (value_or args (str "state") (str "UP"))))
    (u64_or args (str "advertised") 0) (u64_or args (str "observed") 0) now.

Definition cmd_path_register : Program :=
  required_id PathIdTag (str "path") (fun path =>
    required_id SiteIdTag (str "a") (fun a =>
      required_id SiteIdTag (str "b") (fun b =>
        submit tid_nil (RegisterPath (registered_path path a b))
          (fun report => or_exit (extract_path report) 4 (fun _ => Exit 0))))).

Definition cmd_path_state : Program :=
  required_id PathIdTag (str "path") (fun path =>
    or_usage (path_state_from_name (value_or args (str "state") [])) (fun state =>
      submit tid_nil (SetPathState path state (value_or args (str "reason") []) now) done_with)).

(** Evidence defaults to the digest of the source. *)
Definition attestation_for (path : PathRecord) (id : PathId) (evidence : Digest256) : CapacityAttestation :=
  mkCapacityAttestation (ci_attestation i) id (path_generation path)
    (mkGeneration (u64_or args (str "capacity-generation") (wrap64 (gen_value (path_capacity_generation path) + 1))))
    (u64_or args (str "usable") 0) (u64_or args (str "advertised") 0) (u64_or args (str "observed") 0)
    (hr_server_incarnation hello) epoch (default (operator 7) (from_raw <$> read_raw_id (str "principal"))) now evidence
    (value_or args (str "source") (str "isfctl")).

Definition cmd_attest : Program :=
  required_id PathIdTag (str "path") (fun id =>
    if negb (has args (str "usable")) then Exit 2
    else
      query QueryPaths (fun paths =>
        or_missing (find_record (fun path => bool_decide (path_id path = id)) paths) (fun path =>
          or_exit (evidence_for (value_or args (str "source") (str "isfctl"))) 2 (fun evidence =>
            submit tid_nil (AttestCapacity (attestation_for path id evidence)) done_with)))).

Definition oversubscription_for (path : PathRecord) (id : PathId) (status : StatusReport) : OversubscriptionAuthority :=
  mkOversubscriptionAuthority (ci_oversubscription i) id (path_generation path) (path_capacity_generation path)
    (pol_generation (sp_policy status)) epoch (hr_server_incarnation hello) (u32_or (str "ratio-bps") 0) now
    (u64_or args (str "not-after-ms") 0) (operator 8).

Definition cmd_oversubscribe : Program :=
  required_id PathIdTag (str "path") (fun id =>
    if negb (has args (str "ratio-bps")) then Exit 2
    else
      query QueryPaths (fun paths =>
        or_missing (find_record (fun path => bool_decide (path_id path = id)) paths) (fun path =>
          query QueryStatus (fun status =>
            submit tid_nil (IssueOversubscription (oversubscription_for path id status)) done_with)))).

(** The current policy with the fields that are given. *)
Definition changed_policy (p : Policy) : Policy :=
  mkPolicy (pol_id p) (mkGeneration (u64_or args (str "generation") (wrap64 (gen_value (pol_generation p) + 1))))
    (u64_or args (str "protected-units") (protected_floor_units p))
    (u32_or (str "protected-bps") (protected_floor_bps p))
    (u64_or args (str "min-free-units") (min_free_units p))
    (u32_or (str "min-free-bps") (min_free_bps p))
    (u32_or (str "max-oversubscription-bps") (max_oversubscription_bps p))
    (u64_or args (str "max-lease-ms") (max_lease_duration_ms p))
    (u32_or (str "max-grants-per-path") (max_grants_per_path p))
    (u32_or (str "max-grants-per-site") (max_grants_per_site p))
    (u32_or (str "srd-concentration-bps") (max_srd_concentration_bps p))
    (flag_or args (str "allow-degraded-activation") (allow_degraded_activation p))
    false
    (flag_or args (str "require-verification") (require_verification_for_active p))
    (flag_or args (str "auto-reconcile") (auto_reconcile_on_restart p))
    (site_lease_timeout_ms p).

Definition cmd_policy_install : Program :=
  query QueryStatus (fun status =>
    submit (operator 9) (InstallPolicy (changed_policy (sp_policy status))) done_with).

Definition cmd_epoch_bump : Program :=
  submit (operator 10) (BumpEpoch (mkEpoch (u64_or args (str "epoch") (wrap64 (epoch_value epoch + 1))))) done_with.

(** ** Grants *)

Definition proposal_for (site : SiteRecord) (holder : SiteId) (path : PathId) : GrantProposal :=
  mkGrantProposal (default (ci_request i) (from_raw <$> read_raw_id (str "request"))) holder
    (default (site_incarnation site) (parse_incarnation (str "incarnation"))) (site_generation site) path
    (u64_or args (str "amount") 0)
    (if bool_decide (value_or args (str "class") (str "general") = str "protected")
     then GrantClass.Protected else GrantClass.General)
    (u64_or args (str "duration-ms") 60000) now (value_or args (str "reason") (str "operator proposal"))
    (default tid_nil (from_raw <$> read_raw_id (str "grant"))) tid_nil.

Definition cmd_grant_propose : Program :=
  required_id SiteIdTag (str "site") (fun holder =>
    required_id PathIdTag (str "path") (fun path =>
      if negb (has args (str "amount")) then Exit 2
      else
        query QuerySites (fun sites =>
          or_missing (find_record (fun site => bool_decide (site_id site = holder)) sites) (fun site =>
            submit tid_nil (ProposeGrant (proposal_for site holder path))
              (fun report => or_exit (extract_grant report) 4 (fun _ => Exit 0)))))).

(** An operation on the grant by the site and incarnation that are given. *)
Definition actor_operation (command : bytes) (grant : GrantId) : GrantOperation :=
  mkGrantOperation grant tid_nil
    (if has args (str "site")
     then match parse_typed SiteIdTag (value_or args (str "site") []) with Ok site => site | Fail _ => tid_nil end
     else tid_nil)
    (default tid_nil (parse_incarnation (str "incarnation"))) (mkGeneration 0) epoch
    (mkGeneration 0) (mkGeneration 0) (mkGeneration 0) tid_nil now
    (value_or args (str "reason") (str "isfctl " ++ command)).

Definition lifecycle_op (command : bytes) (op : GrantOperation) : Op :=
  if bool_decide (command = str "grant-evaluate") then EvaluateGrant op
  else if bool_decide (command = str "grant-reserve") then ReserveGrant op
  else if bool_decide (command = str "grant-activate") then ActivateGrant op
  else if bool_decide (command = str "grant-degrade") then DegradeGrant op
  else if bool_decide (command = str "grant-withdraw") then WithdrawGrant op
  else if bool_decide (command = str "grant-retire") then RetireGrant op
  else CancelGrant op.

Definition cmd_grant_lifecycle (command : bytes) : Program :=
  required_id GrantIdTag (str "grant") (fun grant =>
    submit tid_nil (lifecycle_op command (actor_operation command grant))
      (fun report => or_exit (extract_grant report) 4 (fun _ => Exit 0))).

Definition cmd_grant_ack : Program :=
  required_id GrantIdTag (str "grant") (fun grant =>
    submit tid_nil (AcknowledgeGrant (mkGrantAcknowledgement grant tid_nil tid_nil epoch now)) done_with).

Definition verification_result : option VerificationState :=
  let text := value_or args (str "result") (str "verified") in
  if bool_decide (text = str "verified") then Some VerificationState.Verified
  else if bool_decide (text = str "failed") then Some VerificationState.Failed
  else if bool_decide (text = str "indeterminate") then Some VerificationState.Indeterminate
  else None.

Definition cmd_grant_verify (command : bytes) : Program :=
  required_id GrantIdTag (str "grant") (fun grant =>
    or_usage verification_result (fun result =>
      or_exit (evidence_for command) 2 (fun evidence =>
        submit tid_nil (VerifyGrant (mkGrantVerification (ci_verification i) grant
          (named_principal (str "verifier") (str "verifier") 11) result evidence now (value_or args (str "detail") [])))
          done_with))).

Definition cmd_grant_reconcile : Program :=
  required_id GrantIdTag (str "grant") (fun grant =>
    let target := if bool_decide (value_or args (str "target") (str "retired") = str "active")
                  then GrantState.Active else GrantState.Retired in
    submit tid_nil (ReconcileGrant (mkGrantOperation grant tid_nil tid_nil tid_nil (mkGeneration 0) epoch
      (mkGeneration 0) (mkGeneration 0) (mkGeneration 0) tid_nil now
      (value_or args (str "reason") (str "operator reconciliation"))) target (operator 12)) done_with).

(** A refused tick had nothing to expire. *)
Definition cmd_tick : Program :=
  Mutate tid_nil (Tick now) (fun ticked =>
    match ticked with
    | Ok _ | Fail Status.Refused => Exit 0
    | Fail _ => Exit 4
    end).

(** ** The commands by name *)

Definition lifecycle_commands : list bytes :=
  [str "grant-evaluate"; str "grant-reserve"; str "grant-activate"; str "grant-degrade"; str "grant-withdraw";
   str "grant-retire"; str "grant-cancel"].

Definition command_program (command : bytes) : Program :=
  let called name := bool_decide (command = str name) in
  if called "probe" then cmd_probe
  else if called "status" then cmd_status
  else if called "sites" then cmd_sites
  else if called "paths" then cmd_paths
  else if called "grants" then cmd_grants
  else if called "ledger" then cmd_ledger
  else if called "verify" then cmd_verify
  else if called "digest" then cmd_digest
  else if called "snapshot" then cmd_snapshot
  else if called "tick" then cmd_tick
  else if called "shutdown" then cmd_shutdown
  else if called "site-register" then cmd_site_register
  else if called "site-state" then cmd_site_state
  else if called "path-register" then cmd_path_register
  else if called "path-state" then cmd_path_state
  else if called "attest" then cmd_attest
  else if called "oversubscribe" then cmd_oversubscribe
  else if called "policy-install" then cmd_policy_install
  else if called "epoch-bump" then cmd_epoch_bump
  else if called "grant-propose" then cmd_grant_propose
  else if bool_decide (command ∈ lifecycle_commands) then cmd_grant_lifecycle command
  else if called "grant-ack" then cmd_grant_ack
  else if called "grant-verify" then cmd_grant_verify command
  else if called "grant-reconcile" then cmd_grant_reconcile
  else Exit 2.
End Commands.

(** [main], over the tokens behind the name of the program. *)
Definition control_main (tokens : list bytes) (i : ControlInputs) : Program :=
  let args := parse_arguments tokens in
  if has args (str "help") || (positional_count args =? 0)%nat then Exit (if has args (str "help") then 0 else 2)
  else
    let command := positional args 0 [] in
    if negb (bool_decide (command ∈ kCommands)) then Exit 2
    else if negb (is_ok (validate args [str "daemon"])) then Exit 2
    else
      or_exit (parse_endpoint (value_or args (str "daemon") [])) 2 (fun endpoint =>
        Connect (mkClientOptions endpoint (co_connect_timeout_ms default_client_options)
                   (co_io_timeout_ms default_client_options) (co_max_frame_bytes default_client_options) (str "isfctl"))
          (fun hello => or_exit hello 3 (fun hello => command_program args i hello command))).

(** ** What a command asks for *)

(** The command that makes an operation; an agent alone makes heartbeats. *)
Definition op_command (op : Op) : bytes :=
  match op with
  | InstallPolicy _ => str "policy-install"
  | BumpEpoch _ => str "epoch-bump"
  | RegisterSite _ => str "site-register"
  | Heartbeat _ => []
  | SetSiteState _ _ _ _ => str "site-state"
  | RegisterPath _ => str "path-register"
  | SetPathState _ _ _ _ => str "path-state"
  | AttestCapacity _ => str "attest"
  | IssueOversubscription _ => str "oversubscribe"
  | ProposeGrant _ => str "grant-propose"
  | EvaluateGrant _ => str "grant-evaluate"
  | ReserveGrant _ => str "grant-reserve"
  | ActivateGrant _ => str "grant-activate"
  | DegradeGrant _ => str "grant-degrade"
  | WithdrawGrant _ => str "grant-withdraw"
  | RetireGrant _ => str "grant-retire"
  | CancelGrant _ => str "grant-cancel"
  | AcknowledgeGrant _ => str "grant-ack"
  | VerifyGrant _ => str "grant-verify"
  | ReconcileGrant _ _ _ => str "grant-reconcile"
  | Tick _ => str "tick"
  end.

(** The objects of an operation are those that the arguments name, with the
    states and amounts they give. *)
Definition addressed (args : Arguments) (op : Op) : Prop :=
  let id tag flag := parse_typed tag (value_or args flag []) in
  let grant := id GrantIdTag (str "grant") in
  let path := id PathIdTag (str "path") in
  match op with
  | InstallPolicy p => allow_partition_optimistic_recovery p = false
  | RegisterSite r => sd_name (sr_descriptor r) = value_or args (str "name") []
  | SetSiteState site state _ _ =>
      id SiteIdTag (str "site") = Ok site /\ site_state_name state = value_or args (str "state") []
  | RegisterPath r =>
      path = Ok (pd_id (pr_descriptor r)) /\ id SiteIdTag (str "a") = Ok (pd_endpoint_a (pr_descriptor r)) /\
      id SiteIdTag (str "b") = Ok (pd_endpoint_b (pr_descriptor r))
  | SetPathState target state _ _ => path = Ok target /\ path_state_name state = value_or args (str "state") []
  | AttestCapacity t => path = Ok (att_path t) /\ has args (str "usable") = true
  | IssueOversubscription o => path = Ok (ovs_path o) /\ has args (str "ratio-bps") = true
  | ProposeGrant p =>
      id SiteIdTag (str "site") = Ok (gp_holder p) /\ path = Ok (gp_path p) /\
      gp_amount p = u64_or args (str "amount") 0
  | EvaluateGrant op | ReserveGrant op | ActivateGrant op | DegradeGrant op | WithdrawGrant op | RetireGrant op
  | CancelGrant op | ReconcileGrant op _ _ => grant = Ok (op_grant op)
  | AcknowledgeGrant ack => grant = Ok (ack_grant ack)
  | VerifyGrant v => grant = Ok (gv_grant v)
  | Heartbeat _ | BumpEpoch _ | Tick _ => True
  end.

Definition issued (args : Arguments) (command : bytes) (op : Op) : Prop :=
  op_command op = command /\ command ∈ kMutations /\ addressed args op.

(** A registration, whose reply may be too short for the record. *)
Definition is_registration (op : Op) : bool :=
  match op with RegisterSite _ | RegisterPath _ => true | _ => false end.

(** The operations whose reply is read for a grant. *)
Definition replies_grant (op : Op) : bool :=
  match op with
  | ProposeGrant _ | EvaluateGrant _ | ReserveGrant _ | ActivateGrant _ | DegradeGrant _ | WithdrawGrant _
  | RetireGrant _ | CancelGrant _ => true
  | _ => false
  end.

(** Such an operation stores a single grant. *)
Lemma replies_grant_single a op arb m :
  replies_grant op = true -> plan a op arb = Ok m -> exists g r, m_objects m = [OGrant g r].
Proof.
  destruct op; intros Hop; try done; cbn [plan]; intros Hp;
    [unfold plan_propose_grant in Hp|unfold plan_evaluate_grant in Hp|unfold plan_reserve_grant in Hp
    |unfold plan_activate_grant in Hp|unfold plan_degrade_grant in Hp|unfold plan_withdraw_grant in Hp
    |unfold plan_retire_grant in Hp|unfold plan_cancel_grant in Hp];
    plan_inv Hp; by do 2 eexists.
Qed.

(** What others do and a call do to a service in order. *)
Section Run.
Context {W : Type} `{!AuthorityService W}.

(** The reply of an operation on a grant carries it, as it is stored. *)
Lemma grant_reported a op report a' :
  sound a -> reported a op report a' -> replies_grant op = true ->
  exists g, extract_grant report = Ok g /\ find_grant a' (g_id g) = Some g.
Proof.
  intros Ha (m & arb & n & Harb & Hop & Hp & Happly & Hchanges) Hr.
  destruct (replies_grant_single a op arb m Hr Hp) as (g & r & Hm).
  destruct (single_applied a op m arb a' g r Ha Harb Hop Hp Hm Happly) as [Hwf Hg].
  exists g. split; [|exact Hg]. eapply extract_single; [exact Hwf|]. rewrite Hchanges. unfold m_changes. by rewrite Hm.
Qed.

(** A tick that had nothing to expire. *)
Definition nothing_due (op : Op) (status : Status) : bool :=
  match op, status with Tick _, Status.Refused => true | _, _ => false end.

(** How a run ends behind the call of [op]: it was made and reported; a tick was
    refused; it failed; or it was made, but its reply lacks the record. *)
Definition concluded (op : Op) (result : Expected MutationReport) (w1 w2 : W) (code : N) : Prop :=
  match result with
  | Ok report =>
      svc_ok w2 /\ reported (svc_authority w1) op report (svc_authority w2) /\
      (code = 0 \/ code = 4 /\ is_registration op = true)
  | Fail status => code = (if nothing_due op status then 0 else 4)
  end.

(** The calls of a command and its exit code. *)
Definition settled (args : Arguments) (command : bytes) (w : W)
    (calls : list (Op * Expected MutationReport * W)) (code : N) : Prop :=
  calls = [] /\ (code = 0 -> command ∉ kMutations) \/
  exists op result w1 w2,
    calls = [(op, result, w2)] /\ issued args command op /\ others w w1 /\ svc_call w1 op result w2 /\
    concluded op result w1 w2 code.

Context (args : Arguments) (i : ControlInputs) (hello : HelloReply) (command : bytes).
Context (w : W) (Hok : svc_ok w).

Abbreviation command_ensures := (ensures (fun _ _ _ => False) (settled args command w) [] w).

Lemma settled_none code : code <> 0 -> settled args command w [] code.
Proof. intros Hc. left. by split. Qed.

Lemma exit_ensures code : code <> 0 \/ command ∉ kMutations -> command_ensures (Exit code).
Proof. intros Hc. left. split; [done|]. naive_solver. Qed.

Lemma or_exit_ensures {A} (v : Expected A) code k :
  code <> 0 -> (forall x, v = Ok x -> command_ensures (k x)) -> command_ensures (or_exit v code k).
Proof. intros Hc. apply ensures_or_exit. by apply settled_none. Qed.

Lemma query_ensures {A} (q : Query A) k : (forall x, command_ensures (k x)) -> command_ensures (query q k).
Proof. intros Hk answer. by apply or_exit_ensures. Qed.

Lemma or_missing_ensures {A} (v : option A) k :
  (forall x, v = Some x -> command_ensures (k x)) -> command_ensures (or_missing v k).
Proof. intros Hk. destruct v; [by apply Hk|by apply exit_ensures; left]. Qed.

Lemma or_usage_ensures {A} (v : option A) k :
  (forall x, v = Some x -> command_ensures (k x)) -> command_ensures (or_usage v k).
Proof. intros Hk. destruct v; [by apply Hk|by apply exit_ensures; left]. Qed.

Lemma required_id_ensures tag flag k :
  (forall x, parse_typed tag (value_or args flag []) = Ok x -> command_ensures (k x)) ->
  command_ensures (required_id args tag flag k).
Proof. by apply or_exit_ensures. Qed.

(** A command that ends in a mutation, whose reply is read by [extract]. *)
Lemma submit_ensures {A} principal op (extract : MutationReport -> Expected A) :
  issued args command op -> nothing_due op Status.Refused = false ->
  (is_registration op = true \/ forall a report a', sound a -> reported a op report a' -> exists x, extract report = Ok x) ->
  command_ensures (submit principal op (fun report => or_exit (extract report) 4 (fun _ => Exit 0))).
Proof.
  intros Hi Ht Hx w1 w2 [report|status] Ho Hc; cbn [or_exit].
  - destruct (call_ok _ _ _ _ _ Hok Ho Hc) as (Hok1 & Hok2 & Hrep & _).
    assert (forall code, code = 0 \/ code = 4 /\ is_registration op = true ->
      settled args command w [(op, Ok report, w2)] code) as Hs.
    { intros code Hcode. right. exists op, (Ok report), w1, w2. by split_and!. }
    destruct (extract report) as [x|s] eqn:Hextract; cbn [or_exit ensures]; apply Hs; [by left|right].
    split; [done|]. destruct Hx as [Hx|Hx]; [done|].
    destruct (Hx _ _ _ (svc_sound w1 Hok1) Hrep) as [x Hx']. by rewrite Hextract in Hx'.
  - right. exists op, (Fail status), w1, w2. split_and!; try done. cbn [concluded].
    assert (nothing_due op status = false) as -> by (by destruct op). done.
Qed.

Lemma submit_done principal op :
  issued args command op -> nothing_due op Status.Refused = false ->
  command_ensures (submit principal op (fun _ => Exit 0)).
Proof. intros Hi Ht. apply (submit_ensures principal op (fun _ => Ok tt)); [done..|]. right. by exists tt. Qed.

Lemma submit_grant principal op :
  issued args command op -> replies_grant op = true ->
  command_ensures (submit principal op (fun report => or_exit (extract_grant report) 4 (fun _ => Exit 0))).
Proof.
  intros Hi Hr. apply submit_ensures; [done|by destruct op|]. right. intros a report a' Ha Hrep.
  destruct (grant_reported a op report a' Ha Hrep Hr) as (g & Hg & _). by exists g.
Qed.

(** *** Inspections *)

Section Inspection.
Context (Hinspect : command ∉ kMutations).

Lemma inspection_exit code : command_ensures (Exit code).
Proof. apply exit_ensures. by right. Qed.

Lemma optional_id_ensures tag flag k :
  (forall x, command_ensures (k x)) -> command_ensures (optional_id args tag flag k).
Proof. intros Hk. unfold optional_id. destruct (has args flag); [by apply required_id_ensures|apply Hk]. Qed.

Lemma check_ledgers_ensures selected failures : command_ensures (check_ledgers selected failures).
Proof.
  revert failures. induction selected as [|path selected IH]; intros failures; [apply inspection_exit|].
  intros [ledger|status]; apply IH.
Qed.

Lemma cmd_grants_ensures : command_ensures (cmd_grants args).
Proof. apply optional_id_ensures. intros path. apply optional_id_ensures. intros site. apply query_ensures. intros x. apply inspection_exit. Qed.

Lemma cmd_ledger_ensures : command_ensures (cmd_ledger args).
Proof.
  apply query_ensures. intros paths. apply required_id_ensures. intros id _. cbv zeta.
  case_bool_decide; [apply inspection_exit|apply check_ledgers_ensures].
Qed.

Lemma query_inspection_ensures {A} (q : Query A) : command_ensures (query q (fun _ => Exit 0)).
Proof. apply query_ensures. intros x. apply inspection_exit. Qed.

Lemma cmd_verify_ensures : command_ensures cmd_verify.
Proof. apply query_ensures. intros paths. apply check_ledgers_ensures. Qed.
End Inspection.

(** *** Mutations *)

(** The command is [E]'s, one that mutates, and the arguments name the objects. *)
Ltac issue E :=
  rewrite E; split_and!; [reflexivity|by apply (bool_decide_unpack _); vm_compute|cbn [addressed]; split_and?].

Lemma cmd_tick_ensures : command = str "tick" -> command_ensures (cmd_tick i).
Proof.
  intros E w1 w2 result Ho Hc.
  assert (forall code, concluded (Tick (ci_now i)) result w1 w2 code ->
    settled args command w [(Tick (ci_now i), result, w2)] code) as Hs.
  { intros code Hcode. right. exists (Tick (ci_now i)), result, w1, w2. split_and!; try done. by issue E. }
  destruct result as [report|status].
  - destruct (call_ok _ _ _ _ _ Hok Ho Hc) as (_ & Hok2 & Hrep & _). apply Hs. split_and!; [done..|by left].
  - destruct status; by apply Hs.
Qed.

Lemma cmd_site_register_ensures : command = str "site-register" -> command_ensures (cmd_site_register args i hello).
Proof. intros E. apply submit_ensures; [by issue E|done|by left]. Qed.

Lemma cmd_site_state_ensures : command = str "site-state" -> command_ensures (cmd_site_state args i).
Proof.
  intros E. apply required_id_ensures. intros site Hsite. apply or_usage_ensures. intros state Hstate.
  apply submit_done; [issue E; [exact Hsite|]|done]. symmetry. by apply state_names_roundtrip.
Qed.

Lemma cmd_path_register_ensures : command = str "path-register" -> command_ensures (cmd_path_register args i).
Proof.
  intros E. apply required_id_ensures. intros path Hpath. apply required_id_ensures. intros a Ha.
  apply required_id_ensures. intros b Hb. apply submit_ensures; [by issue E|done|by left].
Qed.

Lemma cmd_path_state_ensures : command = str "path-state" -> command_ensures (cmd_path_state args i).
Proof.
  intros E. apply required_id_ensures. intros path Hpath. apply or_usage_ensures. intros state Hstate.
  apply submit_done; [issue E; [exact Hpath|]|done]. symmetry. by apply state_names_roundtrip.
Qed.

Lemma cmd_attest_ensures : command = str "attest" -> command_ensures (cmd_attest args i hello).
Proof.
  intros E. apply required_id_ensures. intros id Hid. destruct (has args (str "usable")) eqn:Hu; [|by apply exit_ensures; left].
  apply query_ensures. intros paths. apply or_missing_ensures. intros path _. apply or_exit_ensures; [done|].
  intros evidence _. by apply submit_done; [issue E|].
Qed.

Lemma cmd_oversubscribe_ensures : command = str "oversubscribe" -> command_ensures (cmd_oversubscribe args i hello).
Proof.
  intros E. apply required_id_ensures. intros id Hid. destruct (has args (str "ratio-bps")) eqn:Hr; [|by apply exit_ensures; left].
  apply query_ensures. intros paths. apply or_missing_ensures. intros path _. apply query_ensures. intros status.
  by apply submit_done; [issue E|].
Qed.

Lemma cmd_policy_install_ensures : command = str "policy-install" -> command_ensures (cmd_policy_install args).
Proof. intros E. apply query_ensures. intros status. by apply submit_done; [issue E|]. Qed.

Lemma cmd_epoch_bump_ensures : command = str "epoch-bump" -> command_ensures (cmd_epoch_bump args hello).
Proof. intros E. by apply submit_done; [issue E|]. Qed.

Lemma cmd_grant_propose_ensures : command = str "grant-propose" -> command_ensures (cmd_grant_propose args i).
Proof.
  intros E. apply required_id_ensures. intros holder Hh. apply required_id_ensures. intros path Hp.
  destruct (has args (str "amount")); [|by apply exit_ensures; left]. apply query_ensures. intros sites.
  apply or_missing_ensures. intros site _. by apply submit_grant; [issue E|].
Qed.

Lemma cmd_grant_lifecycle_ensures :
  command ∈ lifecycle_commands -> command_ensures (cmd_grant_lifecycle args i hello command).
Proof.
  intros Hin. apply required_id_ensures. intros grant Hg. set (op := actor_operation args i hello command grant).
  assert (op_grant op = grant) as Hop by done. clearbody op.
  unfold lifecycle_commands in Hin. repeat (apply elem_of_cons in Hin as [E|Hin]); [..|by apply elem_of_nil in Hin];
    (assert (exists op', lifecycle_op command op = op' /\ issued args command op' /\ replies_grant op' = true)
       as (op' & -> & Hi & Hr)
     by (eexists; split; [rewrite E; vm_compute; reflexivity|split; [issue E; by rewrite Hop|done]])); by apply submit_grant.
Qed.

Lemma cmd_grant_ack_ensures : command = str "grant-ack" -> command_ensures (cmd_grant_ack args i hello).
Proof. intros E. apply required_id_ensures. intros grant Hg. by apply submit_done; [issue E|]. Qed.

Lemma cmd_grant_verify_ensures : command = str "grant-verify" -> command_ensures (cmd_grant_verify args i command).
Proof.
  intros E. apply required_id_ensures. intros grant Hg. apply or_usage_ensures. intros result _.
  apply or_exit_ensures; [done|]. intros evidence _. by apply submit_done; [issue E|].
Qed.

Lemma cmd_grant_reconcile_ensures : command = str "grant-reconcile" -> command_ensures (cmd_grant_reconcile args i hello).
Proof. intros E. apply required_id_ensures. intros grant Hg. by apply submit_done; [issue E|]. Qed.

(** *** Every command *)

Ltac inspects E := rewrite E; by apply (bool_decide_unpack _); vm_compute.

Lemma command_program_ensures : command_ensures (command_program args i hello command).
Proof.
  unfold command_program. cbv zeta.
  case_bool_decide as E; [apply inspection_exit; inspects E|clear E].
  case_bool_decide as E; [apply query_inspection_ensures; inspects E|clear E].
  case_bool_decide as E; [apply query_inspection_ensures; inspects E|clear E].
  case_bool_decide as E; [apply query_inspection_ensures; inspects E|clear E].
  case_bool_decide as E; [apply cmd_grants_ensures; inspects E|clear E].
  case_bool_decide as E; [apply cmd_ledger_ensures; inspects E|clear E].
  case_bool_decide as E; [apply cmd_verify_ensures; inspects E|clear E].
  case_bool_decide as E; [apply query_inspection_ensures; inspects E|clear E].
  case_bool_decide as E; [apply query_inspection_ensures; inspects E|clear E].
  case_bool_decide as E; [by apply cmd_tick_ensures|clear E].
  case_bool_decide as E; [apply query_inspection_ensures; inspects E|clear E].
  case_bool_decide as E; [by apply cmd_site_register_ensures|clear E].
  case_bool_decide as E; [by apply cmd_site_state_ensures|clear E].
  case_bool_decide as E; [by apply cmd_path_register_ensures|clear E].
  case_bool_decide as E; [by apply cmd_path_state_ensures|clear E].
  case_bool_decide as E; [by apply cmd_attest_ensures|clear E].
  case_bool_decide as E; [by apply cmd_oversubscribe_ensures|clear E].
  case_bool_decide as E; [by apply cmd_policy_install_ensures|clear E].
  case_bool_decide as E; [by apply cmd_epoch_bump_ensures|clear E].
  case_bool_decide as E; [by apply cmd_grant_propose_ensures|clear E].
  case_bool_decide as E; [by apply cmd_grant_lifecycle_ensures|clear E].
  case_bool_decide as E; [by apply cmd_grant_ack_ensures|clear E].
  case_bool_decide as E; [by apply cmd_grant_verify_ensures|clear E].
  case_bool_decide as E; [by apply cmd_grant_reconcile_ensures|clear E].
  apply exit_ensures. by left.
Qed.
End Run.

(** ** Properties *)

(** C10: a run of isfctl does what its command says, and its exit code says how that
    went.  It writes no file and makes at most one call, of the operation that the
    command names on the objects in the arguments.  Behind a call that succeeds the
    operation has been carried out and the exit code is 0, except that a site or
    path may be registered by a run that ends with 4 because its reply lacks the
    record; a call that fails ends with 4, or 0 for a tick that had nothing to
    expire.  A mutating command that makes no call does not end with 0. *)
Theorem control_runs_command {W : Type} `{!AuthorityService W} w tokens i calls reports code :
  svc_ok w -> conversation w (control_main tokens i) calls reports (Some code) ->
  let args := parse_arguments tokens in
  reports = [] /\
  (has args (str "help") = true /\ calls = [] /\ code = 0 \/ settled args (positional args 0 []) w calls code).
Proof.
  intros Hok Hc args. unfold control_main in Hc. fold args in Hc.
  assert (forall n, conversation w (Exit n) calls reports (Some code) -> reports = [] /\ calls = [] /\ code = n) as Hexit.
  { intros n [(_ & _ & ?)|(-> & -> & [= ->])]; done. }
  set (command := positional args 0 []) in *.
  assert (conversation w (Exit 2) calls reports (Some code) ->
    reports = [] /\ (has args (str "help") = true /\ calls = [] /\ code = 0 \/ settled args command w calls code)) as Husage.
  { intros (-> & -> & ->)%Hexit. split; [done|right]. by apply settled_none. }
  destruct (has args (str "help")) eqn:Hhelp.
  { apply Hexit in Hc as (-> & -> & ->). by split; [|left]. }
  cbn [orb] in Hc. destruct (_ =? 0)%nat; [by apply Husage|]. destruct (negb _); [by apply Husage|].
  destruct (negb _); [by apply Husage|]. destruct (parse_endpoint _) as [endpoint|]; [|by apply Husage].
  cbn [or_exit] in Hc. destruct Hc as [(_ & _ & ?)|[hello Hc]]; [done|].
  destruct hello as [hello|s]; cbn [or_exit] in Hc.
  2:{ apply Hexit in Hc as (-> & -> & ->). split; [done|right]. by apply settled_none. }
  destruct (ensures_sound _ _ [] w _ calls reports (Some code) (command_program_ensures args i hello command w Hok) Hc)
    as [HR HE].
  split; [|right; by apply (HE code)]. destruct reports as [|r reports]; [done|].
  apply Forall_cons in HR as [(sofar & _ & []) _].
Qed.

(** ** Witness *)

(** isfctl --daemon ... site-state on site 1 of the sample. *)
Definition sample_control_tokens : list bytes :=
  [str "--daemon"; str "127.0.0.1:7000"; str "site-state";
   str "--site"; tid_to_string (Sample.id 1 : SiteId); str "--state"; str "DRAINING"].

Definition sample_control_inputs : ControlInputs :=
  mkControlInputs 30 (Sample.id 102) (Sample.id 103) (Sample.id 104) (Sample.id 105) (Sample.id 106).

Definition sample_control_run := interact sample_answers sample_diagnostics 30 sample_hello_reply sample_daemon
  (control_main sample_control_tokens sample_control_inputs).

Lemma sample_control_fits :
  Forall (fun op => op_fits op /\ texts_survive op = true) ((fun call => call.1.1) <$> sample_control_run.1.1).
Proof.
  assert (exists ops, (fun call => call.1.1) <$> sample_control_run.1.1 = ops /\
    Forall (fun op => op_fits op /\ texts_survive op = true) ops) as (ops & -> & H); [|exact H].
  eexists. split; [vm_compute; reflexivity|].
  repeat (apply Forall_cons; split; [split; by vm_compute|]). apply Forall_nil_2.
Qed.

Lemma sample_control_command :
  positional (parse_arguments sample_control_tokens) 0 [] = str "site-state" /\
  has (parse_arguments sample_control_tokens) (str "help") = false.
Proof. by vm_compute. Qed.

Lemma sample_control_ends : sample_control_run.2 = Some 0.
Proof. vm_compute. reflexivity. Qed.

Lemma sample_control_calls : sample_control_run.1.1 <> [].
Proof. vm_compute. discriminate. Qed.

Lemma control_runs_command_witness :
  let args := parse_arguments sample_control_tokens in
  daemon_ok sample_daemon /\ sample_control_run.1.1 <> [] /\
  conversation sample_daemon (control_main sample_control_tokens sample_control_inputs)
    sample_control_run.1.1 sample_control_run.1.2 (Some 0) /\
  settled args (str "site-state") sample_daemon sample_control_run.1.1 0.
Proof.
  cbv zeta.
  assert (daemon_ok sample_daemon) as Hok by (split; [by vm_compute|exists (Sample.id 500), sample_filling; left; exact sample_serves]).
  assert (conversation sample_daemon (control_main sample_control_tokens sample_control_inputs)
    sample_control_run.1.1 sample_control_run.1.2 (Some 0)) as Hc.
  { apply (interact_conversation sample_answers sample_diagnostics 30 sample_hello_reply); [by vm_compute| |done|].
    - rewrite <-sample_control_ends. unfold sample_control_run. by destruct (interact _ _ _ _ _ _) as [[? ?] ?].
    - pose proof sample_control_fits as H. rewrite Forall_fmap in H. exact H. }
  split; [exact Hok|]. split; [exact sample_control_calls|]. split; [exact Hc|].
  destruct (@control_runs_command Daemon daemon_service sample_daemon sample_control_tokens sample_control_inputs
    sample_control_run.1.1 sample_control_run.1.2 0 Hok Hc) as [_ Hs].
  destruct sample_control_command as [Hcommand Hhelp]. rewrite Hcommand, Hhelp in Hs.
  destruct Hs as [[Hs _]|Hs]; [discriminate|exact Hs].
Defined.
