(* ===== verification/Restart.v ===== *)
(** * Restarting a daemon

    An equivalent authority is accepted by [verify_invariants] when the lost one
    was, unless the policy ties Active grants to their verification; the start
    of a daemon over a log then gives the authority of the log back. *)

From Stdlib Require Import Strings.Byte.
From S2P Require Import Prelude Outcome Ids Lifecycle Policy Wire Model Codecs State Ledger Changes.
From S2P Require Import Invariants Operations WellFormed Snapshot Store Journal Compaction Recovery.
From S2P Require Import Frames Protocol Replies Daemon Failures Applicable Steps Accounting.
From S2P Require Import Crash Reload Service Incarnations.

(** ** Consistency does not see the recovery marks *)

Section Equivalent.
Context (a a' : Authority) (Ha : a ≡ a').

(** What does not look at the grants is the same in equivalent authorities. *)
Lemma equiv_same {B} (f : Authority -> B) :
  (forall x, f (unmarked_authority x) = f x) -> f a' = f a.
Proof. intros Hf. rewrite <-(Hf a'), <-(Hf a). f_equal. by symmetry. Qed.

Lemma equiv_grants_elem g' : g' ∈ grants a' -> exists g, g ∈ grants a /\ unmarked g' = unmarked g.
Proof.
  intros [k Hk]%elem_of_grants. symmetry in Ha. destruct (equiv_grant a' a k g' Ha Hk) as (g & Hg & Hu).
  exists g. split; [apply elem_of_grants; by exists k|done].
Qed.

Lemma equiv_limits : within_limits a -> within_limits a'.
Proof.
  assert (within_limits a' = within_limits a) as ->; [|done].
  apply (equiv_same within_limits). intros x. unfold within_limits. cbn. by rewrite map_size_fmap.
Qed.

Lemma equiv_path_consistent r : amounts_wf a -> path_consistent a r -> path_consistent a' r.
Proof.
  intros Hwf Hc. unfold path_consistent in *. rewrite (equiv_totals a a' _ Ha Hwf).
  revert Hc. generalize (totals_for a (path_id r)). intros t.
  set (f := fun x : Authority => path_unavailable r <= path_authoritative_usable r /\
    ledger_fits x r t (extension_for x r (path_id r) 0) /\
    structural_of x r t <= path_authoritative_usable r + extension_for x r (path_id r) 0 /\
    tot_protected_held t <= protected_floor x r).
  change (f a -> f a'). by rewrite (equiv_same f).
Qed.

Lemma equiv_grant_consistent g g' :
  require_verification_for_active (policy a) = false -> unmarked g' = unmarked g ->
  grant_consistent a g -> grant_consistent a' g'.
Proof.
  intros Hv Hu Hc. assert (forall B (f : GrantRecord -> B), f (unmarked g') = f (unmarked g)) as Hf
    by (intros B f; by rewrite Hu).
  set (P := fun (x : Authority) (h : GrantRecord) =>
    tid_is_nil (g_id h) = false /\ arb_value (g_arbitration h) <> 0 /\
    (arb_value (g_arbitration h) <= arb_value (last_arbitration x) \/ arb_value (last_arbitration x) = 0) /\
    exists path site, find_path x (b_path (g_binding h)) = Some path /\
      find_site x (b_holder (g_binding h)) = Some site /\
      (requires_current_binding (g_state h) = true -> binding_current x site path (g_binding h))).
  assert (P a g) as HP.
  { destruct Hc as (H1 & H2 & H3 & path & site & H4 & H5 & H6 & _). split_and!; try done. by exists path, site. }
  assert (P a' g') as (H1 & H2 & H3 & path & site & H4 & H5 & H6).
  { change (P a' (unmarked g')). rewrite Hu. change (P a' g). by rewrite (equiv_same (fun x => P x g)). }
  split_and!; try done. exists path, site. split_and!; try done.
  intros _ Hreq. rewrite (equiv_same (fun x => require_verification_for_active (policy x))) in Hreq by done.
  congruence.
Qed.

Lemma equiv_consistent :
  amounts_wf a -> require_verification_for_active (policy a) = false -> consistent a -> consistent a'.
Proof.
  intros Hwf Hv [Hp Hg Hd Hr Hpol Hlim]. split.
  - intros r Hin. rewrite (equiv_same paths) in Hin by done. apply equiv_path_consistent; auto.
  - intros g' (g & Hin & Hu)%equiv_grants_elem. by eapply equiv_grant_consistent; [|exact Hu|apply Hg].
  - intros g' h' (g & Hg' & Hug)%equiv_grants_elem (h & Hh' & Huh)%equiv_grants_elem.
    specialize (Hd g h Hg' Hh'). change (grants_distinct (unmarked g') (unmarked h')). by rewrite Hug, Huh.
  - intros r Hin. rewrite (equiv_same paths) in Hin by done.
    rewrite (equiv_same (fun x => references_consistent x r)) by done. by apply Hr.
  - by rewrite (equiv_same policy).
  - by apply equiv_limits.
Qed.
End Equivalent.

Lemma equiv_verified a a' :
  sound a -> sound a' -> a ≡ a' -> require_verification_for_active (policy a) = false ->
  verify_invariants a = Status.Ok -> verify_invariants a' = Status.Ok.
Proof.
  intros Hs Hs' Ha Hv Hok. rewrite verify_invariants_ok in Hok |- * by (apply sound_keyed || apply sound_inputs; done).
  apply (equiv_consistent a a' Ha); [by apply (sound_inputs a)|done..].
Qed.

(** ** Starting over a log *)

Section Start.
Context (o : DaemonOptions) (os : StartAnswers).
Context (Hsettle : sta_settle os = settled) (Hwell : sta_open os = all_well).
Context (Hpolicy : validate (do_policy o) = Status.Ok) (Hbounded : records_bounded (do_store o)).
Context (Horigin : id_wf (raw (do_incarnation o))).

Context (Hrandom : id_wf (raw (sta_incarnation os))).

Lemma apply_replay_equiv acts b :
  sound b -> replays_to o acts b -> require_verification_for_active (policy b) = false ->
  verify_invariants b = Status.Ok ->
  exists a, apply_replay o (sta_incarnation os) acts = Ok (a, suppressed acts) /\ a ≡ b /\ sound a /\
    id_wf (raw (incarnation a)).
Proof.
  intros Hsound Hacts Hv Hok. destruct (Hacts (sta_incarnation os)) as (b' & Hb' & Hequiv & Hs').
  exists (mark_all_historical b'). pose proof (mark_all_historical_sound b' Hs') as Hm.
  assert (mark_all_historical b' ≡ b) as He by (transitivity b'; [apply mark_all_historical_equiv|done]).
  split_and!; [|done..|].
  - unfold apply_replay. rewrite Hb'. cbn [mbind expected_bind].
    rewrite (equiv_verified b _ Hsound Hm) by done. done.
  - change (incarnation (mark_all_historical b')) with (incarnation b').
    rewrite (replay_incarnation o (sta_incarnation os) acts _ b' eq_refl Hb'). by apply new_authority_incarnation.
Qed.

Lemma start_reopens id file b files now :
  settle settled files = (mkFiles (Some file) None None, Status.Ok) ->
  reopens o id (sta_store_id os) file b -> sound b -> reloads b ->
  require_verification_for_active (policy b) = false -> verify_invariants b = Status.Ok ->
  exists es d,
    start os o files now = (Ok d, mkFiles (Some (log_image id es)) None None) /\
    serves id es d /\ d_authority d ≡ b /\ d_options d = o.
Proof.
  intros Hfiles (result & store & es & sc & Hopen & Hserv & Hacts & Hrep & Hopts & Hreb & Hsize) Hsound Hrl Hv Hok.
  destruct (apply_replay_equiv (rr_actions result) b Hsound Hacts Hv Hok) as (a & Hreplay & Hequiv & Hsa & Hinc).
  pose proof (proj1 Hbounded) as (H1 & H2 & H3 & _).
  exists es. eexists. split_and!; [| | |].
  - unfold start. rewrite Hpolicy, Hsettle, Hfiles, Hwell. cbn [is_ok negb f_primary].
    rewrite (proj2 (N.eqb_neq _ 0)), (proj2 (N.eqb_neq _ 0)), (proj2 (N.eqb_neq _ 0)) by lia. cbn [orb].
    rewrite Hopen, Hserv, Hreplay. reflexivity.
  - split; cbn [opened_daemon d_authority d_store d_options d_durability_failed]; try done.
    + by apply (equiv_reloads b a).
    + by exists sc.
    + destruct Hreb as (sc' & Hs' & Hc' & Hr'). exists sc'. split_and!; [done..|].
      by apply replays_to_equiv with b.
  - exact Hequiv.
  - done.
Qed.
End Start.

(** A log without an open intent opens again. *)
Lemma log_reopens id es o a random :
  rebuilds o es a -> Forall (entry_wf (do_store o)) es -> records_bounded (do_store o) ->
  blen (log_image id es) <= max_log_bytes (do_store o) -> reopens o id random (log_image id es) a.
Proof.
  intros Hreb Hwf [Hopt _] Hsize. pose proof Hreb as (sc & Hs & Hclosed & Hto).
  destruct (open_clean (do_store o) random id es sc Hopt Hwf Hs Hclosed) as
    (result & store & Hopen & Hrep & Hopts & Hact & Hfid & _); [lia|].
  exists result, store, es, sc. split_and!; try done; [by rewrite Hfid|by rewrite Hact].
Qed.

Lemma serves_reopens id es d random :
  serves id es d -> reopens (d_options d) id random (log_image id es) (d_authority d).
Proof.
  intros [_ _ [sc Hrep] Hreb Hopt Hbounded Hsize _ _ _]. apply log_reopens; try done. rewrite <-Hopt. apply Hrep.
Qed.

(** Behind a compaction that lost its file either log opens again. *)
Lemma stalled_reopens id es d random :
  stalled id es d ->
  exists id' file, settle settled (disk d) = (mkFiles (Some file) None None, Status.Ok) /\
    reopens (d_options d) id' random file (d_authority d).
Proof.
  intros [Hsound Hrl Hreb Hes Hbounded Hsize _ Hclosed (fresh & at_ms & Hwf & Hfiles)].
  unfold disk. rewrite Hclosed. destruct (settle_compacting _ _ _ _ settled _ _ Hfiles eq_refl) as
    (log & fresh' & previous & Hsettle & Hlog & Hgone). destruct (Hgone eq_refl) as [-> ->]. destruct Hlog as [-> | ->].
  - exists id, (log_image id es). split; [exact Hsettle|]. by apply log_reopens.
  - rewrite compact_image_log in Hsettle. eexists fresh, _. split; [exact Hsettle|].
    apply log_reopens; [by apply snapshot_rebuilds|by apply Forall_singleton|done|].
    pose proof (snapshot_image_size fresh (snapshot (d_authority d)) at_ms (do_incarnation (d_options d))) as Hle.
    destruct Hwf as (_ & _ & _ & Hlen & _). destruct Hbounded as (_ & _ & Hroom). cbn [entry_payload] in Hlen. lia.
Qed.

(** ** A restart after a clean stop *)

Lemma advance_shutdown sc at_ms :
  exists sc', advance sc (EShutdown at_ms) = Some sc' /\ sc_open sc' = sc_open sc /\ sc_actions sc' = sc_actions sc.
Proof. by eexists. Qed.

(** The mark of a clean shutdown rebuilds nothing more. *)
Lemma rebuilds_shutdown o es at_ms a : rebuilds o es a -> rebuilds o (es ++ [EShutdown at_ms]) a.
Proof.
  intros (sc & Hs & Hclosed & Hto). destruct (advance_shutdown sc at_ms) as (sc' & Hadv & Hopen & Hacts).
  exists sc'. rewrite Hopen, Hacts. split_and!; [by eapply replays_app|done..].
Qed.

(** A log behind which a part of one more record was written. *)
Lemma torn_reopens id es o a e n sc random :
  rebuilds o es a -> replays es sc -> Forall (entry_wf (do_store o)) es -> records_bounded (do_store o) ->
  entry_wf (do_store o) e -> (n < length (entry_frame (sc_chain sc) (sc_sequence sc) e))%nat ->
  blen (log_image id (es ++ [e])) <= max_log_bytes (do_store o) ->
  reopens o id random (log_image id es ++ take n (entry_frame (sc_chain sc) (sc_sequence sc) e)) a.
Proof.
  intros Hreb Hs Hwf [Hopt _] He Hn Hsize. pose proof Hreb as (sc1 & Hs1 & Hclosed & Hto).
  unfold replays in Hs, Hs1. rewrite Hs in Hs1. injection Hs1 as <-.
  destruct (damaged_torn (do_store o) sc e n He) as [ended Hdam]; [by eapply (advance_all_sequence scan_start es)|done|].
  rewrite (log_image_app id es e sc Hs) in Hsize. unfold blen in Hsize. rewrite length_app in Hsize.
  destruct (open_log (do_store o) random id es sc _ ended Hopt Hwf Hs Hdam) as
    (result & store & sc2 & Hopen & Hrep & Hopts & _ & Hact & Hfid & _).
  { unfold blen. rewrite length_app, length_take. lia. }
  { by rewrite Hclosed. }
  assert (closing sc = []) as Hnil by (unfold closing; by rewrite Hclosed). rewrite Hnil, app_nil_r in *.
  exists result, store, es, sc2. rewrite Hact. split_and!; try done; [|unfold blen; lia].
  rewrite Hfid, Hclosed. by destruct Hdam as [_ [[_ ->]|[_ [-> | ->]]]].
Qed.

(** The files of a daemon that was stopped in service, however much of its mark
    the operating system took. *)
Lemma stop_reopens id es d accepted now random :
  serves id es d -> u64_ok now ->
  exists file, settle settled (disk (stop accepted d now)) = (mkFiles (Some file) None None, Status.Ok) /\
    reopens (d_options d) id random file (d_authority d).
Proof.
  intros [Hsound Hrl [sc Hrep] Hreb Hopt Hbounded Hsize Horigin _ _] Hnow.
  pose proof Hrep as [Hf Hwf Hs Hc Hq Hb Hr]. pose proof (proj1 Hbounded) as Howf. rewrite <-Hopt in *.
  pose proof (length_log_image id es) as Hlen.
  assert (entry_wf (st_options (d_store d)) (EShutdown now)) as He.
  { split_and!; [done|exact Hnow|done| |done|done]. change (blen _) with 8. apply Hbounded. }
  assert (has_room (d_store d) (EShutdown now) ->
    blen (log_image id (es ++ [EShutdown now])) <= max_log_bytes (st_options (d_store d))) as Hfits.
  { intros [Hroom _]. rewrite Hb in Hroom. rewrite (log_image_app id es (EShutdown now) sc Hs).
    unfold blen in *. rewrite length_app. unfold entry_frame. rewrite length_record_frame.
    revert Hroom. generalize (length (log_image id es)), (length (entry_payload (EShutdown now))). intros. lia. }
  unfold stop, is_open. rewrite Hf. change (append_clean_shutdown (d_store d) accepted now) with
    (append (d_store d) accepted (EShutdown now)).
  assert (exists file, st_file (append (d_store d) accepted (EShutdown now)).1 = Some file /\
    reopens (d_options d) id random file (d_authority d)) as (file & Hfile & Hreopens).
  { destruct (append_spec (d_store d) accepted (EShutdown now) _ Hf) as [[_ ->]|[(Hroom & Hlt & ->)|(Hroom & _ & ->)]];
      [apply He|done|..]; cbn [fst st_file set_file]; rewrite ?Hc, ?Hq in *; (eexists; split; [done|]).
    - apply log_reopens; rewrite <-?Hopt; done.
    - eapply torn_reopens; rewrite <-?Hopt; try done. by apply Hfits.
    - rewrite <-(log_image_app id es (EShutdown now) sc Hs). apply log_reopens; rewrite <-?Hopt; try done.
      + by apply rebuilds_shutdown.
      + by apply Forall_app; split; [|constructor].
      + by apply Hfits. }
  exists file. split; [|exact Hreopens].
  destruct (append (d_store d) accepted (EShutdown now)) as [store status]. cbn [fst] in Hfile.
  unfold disk. cbn [set_d_store set_d_files d_store d_files st_file set_file]. by rewrite Hfile.
Qed.

(** The files of a daemon that has died, or that was stopped. *)
Definition left_by (d : Daemon) (files : Files) : Prop :=
  files = disk d \/ exists accepted at_ms, u64_ok at_ms /\ files = disk (stop accepted d at_ms).

(** What such a daemon leaves opens again, under any incarnation. *)
Lemma left_reopens id es d files o random :
  serves id es d \/ stalled id es d -> left_by d files -> same_recovery (d_options d) o ->
  exists id' file, settle settled files = (mkFiles (Some file) None None, Status.Ok) /\
    reopens o id' random file (d_authority d).
Proof.
  intros Hd Hfiles Ho.
  assert (exists id' file, settle settled files = (mkFiles (Some file) None None, Status.Ok) /\
    reopens (d_options d) id' random file (d_authority d)) as (id' & file & Hs & Hr).
  2:{ exists id', file. split; [exact Hs|by eapply reopens_options]. }
  destruct Hd as [Hd|Hd].
  - destruct Hfiles as [->|(accepted & at_ms & Hat & ->)].
    + exists id, (log_image id es). split; [|by apply serves_reopens]. destruct (sv_log _ _ _ Hd) as [sc Hrep].
      unfold disk. by rewrite (rep_file _ _ _ _ Hrep).
    + destruct (stop_reopens id es d accepted at_ms random Hd Hat) as (file & H1 & H2). by exists id, file.
  - assert (files = disk d) as ->; [|by eapply stalled_reopens].
    destruct Hfiles as [->|(accepted & at_ms & _ & ->)]; [done|].
    unfold stop, is_open. by rewrite (sl_closed _ _ _ Hd).
Qed.

(** ** A restart after a failed commit *)

Lemma frames_extend chain seq es k : exists rest, frames chain seq (es ++ k) = frames chain seq es ++ rest.
Proof.
  revert chain seq. induction es as [|e es IH]; intros chain seq; [by eexists|].
  destruct (IH (entry_chain chain seq e) (wrap64 (seq + 1))) as [rest Hrest]. exists rest.
  cbn [app frames]. by rewrite Hrest, app_assoc.
Qed.

Lemma take_log_image id es k : take (length (log_image id es)) (log_image id (es ++ k)) = log_image id es.
Proof.
  unfold log_image. destruct (frames_extend zero_chain 1 es k) as [rest ->].
  by rewrite app_assoc, take_app_length.
Qed.

(** The records of the failed commit, whatever their number and time. *)
Definition failed_log (es : list Entry) (o : DaemonOptions) (m : Mutation) (arb : ArbSeq) (number now : N) :
    list Entry :=
  es ++ [EIntent number arb (m_changes m) now (do_incarnation o); ECommit number now].

Lemma failed_commit_reopens id es a op m arb d random cut :
  broken_at id es a op m arb d ->
  (forall number now, room_to_close (do_store (d_options d)) id (failed_log es (d_options d) m arb number now)) ->
  (length (log_image id es) <= cut)%nat ->
  exists file b, st_file (d_store d) = Some file /\ reopens (d_options d) id random (take cut file) b /\
    (b = a \/ apply a (effective true (m_changes m)) arb = (b, Status.Ok) \/
     apply a (m_changes m) arb = (b, Status.Ok)).
Proof.
  intros [_ Hop Harb Hp [Hsound Hreb Hes Hbounded Hsize (number & now & cut0 & Hcut0 & Hfile & Hor)] _] Hroom Hcut.
  exists (take cut0 (log_image id (failed_log es (d_options d) m arb number now))).
  destruct Hor as [->|Hwf].
  - exists a. split_and!; [exact Hfile| |by left]. unfold failed_log.
    rewrite take_log_image, take_ge by done. by apply log_reopens.
  - destruct (crash_in_commit (d_options d) id es number now now (do_incarnation (d_options d)) a op arb m Hsound
      Harb Hop Hp random (Nat.min cut cut0) (proj1 Hbounded) Hwf (Hroom number now) Hreb) as (b & Hb & Hwhich); [lia|].
    exists b. rewrite take_take. split_and!; [exact Hfile|exact Hb|].
    destruct Hwhich as [[_ Hw]|[(_ & _ & Hw)|[_ Hw]]]; auto.
Qed.

(** ** A first start *)

Lemma open_created random options :
  options_wf options ->
  open_store all_well random options None =
  (Ok (headless RecoveryFidelity.Missing random kStoreFormatVersion,
       mkStore (Some (file_header random)) options 1 128 0 zero_chain (durable_writes options)),
   Some (file_header random)).
Proof.
  intros (H1 & H2 & H3 & _). unfold open_store.
  rewrite (proj2 (N.eqb_neq _ 0)), (proj2 (N.eqb_neq _ 0)), (proj2 (N.eqb_neq _ 0)) by lia. cbn [orb default].
  rewrite (proj2 (N.ltb_ge _ _)) by (unfold blen; cbn [length]; lia). reflexivity.
Qed.

Lemma represents_created id options :
  represents id [] scan_start (mkStore (Some (file_header id)) options 1 128 0 zero_chain (durable_writes options)).
Proof.
  split; cbn [st_file st_options st_chain st_sequence st_log_bytes st_record_count]; done.
Qed.

(** A first start: where there is no file yet, a daemon with a valid policy
    creates an empty log and serves it with an authority that [verify_invariants]
    accepts. *)
Lemma first_start_serves o os now :
  sta_open os = all_well -> policy_wf (do_policy o) -> u64_ok (epoch_value (do_epoch o)) ->
  validate (do_policy o) = Status.Ok -> records_bounded (do_store o) ->
  id_wf (raw (do_incarnation o)) -> id_wf (raw (sta_incarnation os)) ->
  exists d, start os o (mkFiles None None None) now = (Ok d, mkFiles (Some (file_header (sta_store_id os))) None None) /\
    serves (sta_store_id os) [] d /\ d_authority d = new_authority (sta_incarnation os) (replay_config o) /\
    verify_invariants (d_authority d) = Status.Ok /\ d_options d = o.
Proof.
  intros Hwell Hp He Hpol Hbounded Horigin Hrandom. pose proof (proj1 Hbounded) as (H1 & H2 & H3 & _).
  pose proof (new_authority_verified o (sta_incarnation os) Hp He Hpol) as Hverified.
  eexists. split_and!.
  - unfold start. rewrite Hpol, Hwell. cbn [is_ok negb].
    rewrite (proj2 (N.eqb_neq _ 0)), (proj2 (N.eqb_neq _ 0)), (proj2 (N.eqb_neq _ 0)) by lia. cbn [orb].
    change (settle (sta_settle os) (mkFiles None None None)) with (mkFiles None None None, Status.Ok).
    change (is_ok Status.Ok) with true. cbn [negb f_primary f_fresh f_previous].
    rewrite open_created by exact (proj1 Hbounded). cbn [rr_report headless rep_fidelity].
    unfold apply_replay. cbn [servable negb rr_actions headless replay_actions mbind expected_bind].
    rewrite new_authority_historical, Hverified. change (is_ok Status.Ok) with true. cbn [negb guard_fail mbind expected_bind].
    reflexivity.
  - clear Hverified. split; cbn [opened_daemon d_authority d_store d_options d_durability_failed].
    + by apply new_authority_sound.
    + by apply new_authority_reloads.
    + exists scan_start. apply represents_created.
    + by apply rebuilds_empty.
    + reflexivity.
    + exact Hbounded.
    + rewrite length_log_image. destruct Hbounded as (_ & [H8 _] & Hroom). change (blen (frames zero_chain 1 [])) with 0. lia.
    + exact Horigin.
    + by apply new_authority_incarnation.
    + reflexivity.
  - reflexivity.
  - exact Hverified.
  - reflexivity.
Qed.

(** ** Properties *)

(** C4: a restart gives the authority back.  Over the files of a daemon in
    service, or of one whose compaction has lost its file, that died or was
    stopped, [start] succeeds under any incarnation when the lost authority was in
    order, its policy does not tie Active grants to their verification, and the
    calls of the operating system at the start succeed: the new
    daemon serves a log that was on disk, its authority is the lost one up to
    recovery marks, and every path has the ledger it had. *)
Theorem restart_recovers id es d files o os now :
  serves id es d \/ stalled id es d -> left_by d files -> same_recovery (d_options d) o ->
  sta_settle os = settled -> sta_open os = all_well ->
  id_wf (raw (do_incarnation o)) -> id_wf (raw (sta_incarnation os)) -> validate (do_policy o) = Status.Ok ->
  require_verification_for_active (policy (d_authority d)) = false ->
  verify_invariants (d_authority d) = Status.Ok ->
  exists id' es' d', start os o files now = (Ok d', mkFiles (Some (log_image id' es')) None None) /\
    serves id' es' d' /\ d_authority d' ≡ d_authority d /\
    forall p, ledger (d_authority d') p = ledger (d_authority d) p.
Proof.
  intros Hd Hfiles Ho Hsettle Hwell Horigin Hrandom Hpol Hv Hok.
  assert (sound (d_authority d) /\ reloads (d_authority d) /\ records_bounded (do_store (d_options d)))
    as (Hsound & Hrl & Hbounded) by (destruct Hd as [[]|[]]; by split_and!).
  rewrite <-(sr_store _ _ Ho) in Hbounded.
  destruct (left_reopens id es d files o (sta_store_id os) Hd Hfiles Ho) as (id' & file & Hs & Hreopens).
  destruct (start_reopens o os Hsettle Hwell Hpol Hbounded Horigin Hrandom id' file (d_authority d)
    files now Hs Hreopens Hsound Hrl Hv Hok) as (es' & d' & Hstart & Hd' & Hequiv & _).
  exists id', es', d'. split_and!; [exact Hstart|exact Hd'|exact Hequiv|].
  intros p. apply equiv_ledger; [by symmetry|by apply (sound_inputs _ Hsound)].
Qed.

(** C27: a failed commit neither loses the log nor frees capacity.  Whatever a
    later crash cuts off its records, an operator's reconciliation apart, the store
    opens again, as long as the log has room to close the intent and the calls of
    the operating system at the opening succeed; and the replay gives an authority in which every
    grant that held capacity holds it still, or the authority after the
    mutation. *)
Theorem failed_commit_recovers id es a op m arb d random cut :
  broken_at id es a op m arb d -> is_reconcile op = false ->
  (forall number now, room_to_close (do_store (d_options d)) id (failed_log es (d_options d) m arb number now)) ->
  (length (log_image id es) <= cut)%nat ->
  exists file b, st_file (d_store d) = Some file /\ reopens (d_options d) id random (take cut file) b /\
    (keeps_capacity a b \/ apply a (m_changes m) arb = (b, Status.Ok)).
Proof.
  intros Hbroken Hrec Hroom Hcut.
  destruct (failed_commit_reopens id es a op m arb d random cut Hbroken Hroom Hcut) as (file & b & Hf & Hb & Hwhich).
  exists file, b. split_and!; [done..|]. destruct Hbroken as [_ Hop Harb Hp [Hsound _ _ _ _ _] _].
  destruct Hwhich as [->|[Hw|Hw]]; [by left|left|by right]. by eapply (effective_keeps a op arb m).
Qed.

(** ** Witnesses *)

Lemma sample_checked :
  validate (do_policy sample_options) = Status.Ok /\
  require_verification_for_active (policy sample_rebuilt) = false /\
  verify_invariants sample_rebuilt = Status.Ok.
Proof. by split_and!; vm_compute. Qed.

Definition sample_start : StartAnswers :=
  mkStartAnswers settled all_well (Sample.id 1) (Sample.id 900) 0.

(** The sample daemon was stopped, its mark cut off, and starts as another
    process. *)
Definition sample_next_options : DaemonOptions :=
  mkDaemonOptions (do_policy sample_options) (do_epoch sample_options) (Sample.id 901) (do_store sample_options)
    (do_max_changes_in_reply sample_options) false true.

Lemma restart_recovers_witness :
  serves (Sample.id 500) sample_filling sample_daemon /\
  exists id es d, start sample_start sample_next_options (disk (stop 50 sample_daemon 35)) 40 =
      (Ok d, mkFiles (Some (log_image id es)) None None) /\
    forall p, ledger (d_authority d) p = ledger sample_rebuilt p.
Proof.
  split; [exact sample_serves|].
  assert (id_wf (raw (sta_incarnation sample_start))) as Hrandom by by vm_compute.
  assert (id_wf (raw (do_incarnation sample_next_options))) as Horigin by by vm_compute.
  destruct sample_checked as (Hpol & Hv & Hok).
  assert (serves (Sample.id 500) sample_filling sample_daemon \/ stalled (Sample.id 500) sample_filling sample_daemon)
    as Hd by (left; exact sample_serves).
  assert (left_by sample_daemon (disk (stop 50 sample_daemon 35))) as Hleft
    by (right; exists 50%nat, 35; split; [by vm_compute|reflexivity]).
  assert (same_recovery (d_options sample_daemon) sample_next_options) as Hsame by by split.
  destruct (restart_recovers (Sample.id 500) sample_filling sample_daemon (disk (stop 50 sample_daemon 35))
    sample_next_options sample_start 40 Hd Hleft Hsame eq_refl eq_refl Horigin Hrandom Hpol Hv Hok)
    as (id & es & d & Hstart & _ & _ & Hledger).
  exists id, es, d. split; [exact Hstart|exact Hledger].
Defined.

Lemma length_frames chain seq es :
  length (frames chain seq es) = sum_list_with (fun e => 88 + length (entry_payload e))%nat es.
Proof.
  revert chain seq. induction es as [|e es IH]; intros chain seq; [done|]. cbn [frames sum_list_with].
  rewrite length_app, IH. unfold entry_frame. rewrite length_record_frame.
  unfold kStoreRecordHeaderBytes, kStoreChainBytes. lia.
Qed.

Lemma length_failed_log id es o m arb number now :
  blen (log_image id (failed_log es o m arb number now)) =
  blen (log_image id es) + blen (encode_intent_payload 0 arb (m_changes m)) + 184.
Proof.
  unfold log_image, failed_log, blen. rewrite !length_app, !length_frames, sum_list_with_app.
  cbn [sum_list_with entry_payload].
  unfold encode_intent_payload, w_u64. rewrite !length_app, !length_w_le. lia.
Qed.

(** A retirement of which the operating system takes 100 bytes. *)
Lemma failed_commit_recovers_witness :
  let op := RetireGrant (sample_op 7 20) in
  let os := mkCommitAnswers 100 true 4096 true (ca_compact sample_answers) (Sample.id 501) in
  exists m, plan sample_rebuilt op (mkArbSeq 10) = Ok m /\
    let d := (commit os sample_daemon m (mkArbSeq 10) 30).1 in
    broken_at (Sample.id 500) sample_filling sample_rebuilt op m (mkArbSeq 10) d /\
    exists file b, st_file (d_store d) = Some file /\ reopens sample_options (Sample.id 500) (Sample.id 1) file b.
Proof.
  cbv zeta. destruct (plan sample_rebuilt (RetireGrant (sample_op 7 20)) (mkArbSeq 10)) as [m|s] eqn:Hp;
    [|vm_compute in Hp; discriminate].
  exists m. split; [reflexivity|]. set (os := mkCommitAnswers 100 _ _ _ _ _).
  assert (op_wf (RetireGrant (sample_op 7 20))) as Hop by (split; by vm_compute).
  assert (u64_ok (arb_value (mkArbSeq 10))) as Harb by by vm_compute.
  assert (blen (encode_intent_payload 0 (mkArbSeq 10) (m_changes m)) <= 4096) as Hsize
    by (vm_compute in Hp; injection Hp as <-; by vm_compute).
  assert (is_ok (commit os sample_daemon m (mkArbSeq 10) 30).2 = false) as Hs
    by (vm_compute in Hp; injection Hp as <-; by vm_compute).
  pose proof (commit_serves (Sample.id 500) sample_filling sample_daemon sample_serves
    (RetireGrant (sample_op 7 20)) m (mkArbSeq 10) 30 Harb ltac:(by vm_compute) Hop Hp os) as H.
  destruct (commit os sample_daemon m (mkArbSeq 10) 30) as [d s]. cbn [fst snd] in *.
  destruct H as [Ho H]. rewrite Hs in H. destruct H as (Hf & Hint & Hor).
  assert (broken_at (Sample.id 500) sample_filling sample_rebuilt (RetireGrant (sample_op 7 20)) m (mkArbSeq 10) d)
    as Hbroken by (split; [exact Hf|exact Hop|exact Harb|exact Hp|rewrite Ho; exact Hint|exact Hor]).
  split; [exact Hbroken|].
  assert (forall number now, room_to_close (do_store (d_options d)) (Sample.id 500)
    (failed_log sample_filling (d_options d) m (mkArbSeq 10) number now)) as Hroom.
  { intros number now. rewrite Ho. unfold room_to_close. rewrite length_failed_log.
    assert (blen (log_image (Sample.id 500) sample_filling) <= 65536) as Hfill by by vm_compute.
    split_and!; [|by vm_compute|by vm_compute].
    change (max_log_bytes (do_store (d_options sample_daemon))) with 67108864. lia. }
  destruct (failed_commit_recovers (Sample.id 500) sample_filling sample_rebuilt (RetireGrant (sample_op 7 20)) m
    (mkArbSeq 10) d (Sample.id 1) (length (default [] (st_file (d_store d))) + length (log_image (Sample.id 500) sample_filling))
    Hbroken eq_refl Hroom ltac:(lia)) as (file & b & Hfile & Hreopen & _).
  exists file, b. split; [exact Hfile|]. rewrite Hfile, Ho in Hreopen. cbn [default] in Hreopen.
  rewrite take_ge in Hreopen by (cbn; lia). exact Hreopen.
Defined.
