(* ===== verification/Blocked.v ===== *)
(** * Daemons that never start again

    Two requests that a daemon in service accepts, behind which neither it nor any
    later process over its files serves again: a mutation for whose completion
    record the log has no room, and an epoch change while a proposal is open. *)

From Stdlib Require Import Strings.Byte.
From S2P Require Import Prelude Outcome Ids Lifecycle Policy Wire Model Codecs State Ledger Changes.
From S2P Require Import Invariants PlanFabric Operations WellFormed Snapshot Store Journal Compaction Recovery.
From S2P Require Import Frames Protocol Replies Daemon Failures Applicable Steps Accounting Fencing.
From S2P Require Import Crash Reload Service Incarnations Restart.

(** ** Starts over the files of a daemon *)

(** A start: its options, what it is answered, its time. *)
Definition Attempt : Type := DaemonOptions * StartAnswers * N.

Definition attempt (t : Attempt) (files : Files) : Expected Daemon * Files :=
  let '(o, os, now) := t in start os o files now.

(** The files behind a sequence of starts, each over what the last one has left. *)
Definition attempts (ts : list Attempt) (files : Files) : Files :=
  foldl (fun files t => (attempt t files).2) files ts.

(** However often a daemon is started, it fails. *)
Definition never_starts (ok : Attempt -> Prop) (files : Files) : Prop :=
  forall ts t, Forall ok ts -> ok t -> exists s, (attempt t (attempts ts files)).1 = Fail s.

Lemma never_starts_by (inv : Files -> Prop) (ok : Attempt -> Prop) files :
  (forall t files, inv files -> ok t -> exists s files', attempt t files = (Fail s, files') /\ inv files') ->
  inv files -> never_starts ok files.
Proof.
  intros Hstep Hinv ts t Hts Ht. revert files Hinv. induction Hts as [|t' ts Ht' _ IH]; intros files Hinv.
  - destruct (Hstep t files Hinv Ht) as (s & files' & E & _). exists s. cbn. by rewrite E.
  - destruct (Hstep t' files Hinv Ht') as (s & files' & E & Hinv'). cbn [attempts foldl]. rewrite E. by apply IH.
Qed.

(** ** A commit that fails behind its intent *)

(** The log has room for the intent with this payload, and the operating system
    takes it. *)
Record takes_intent (os : CommitAnswers) (s : Store) (payload : bytes) : Prop := {
  ti_fits : blen payload <= max_record_bytes (st_options s);
  ti_log : st_log_bytes s + blen payload + 88 <= max_log_bytes (st_options s);
  ti_records : st_record_count s < max_records (st_options s);
  ti_intent : (length payload + 88 <= ca_intent os)%nat;
  ti_flush : ca_intent_flush os = true;
}.

(** Behind the intent there is no room for another record. *)
Definition filled_by (s : Store) (payload : bytes) : Prop :=
  max_log_bytes (st_options s) < st_log_bytes s + blen payload + 184 \/
  max_records (st_options s) <= st_record_count s + 1.

Section Commit.
Context (id : StoreId) (es : list Entry) (d : Daemon) (Hd : serves id es d).
Context (op : Op) (m : Mutation) (arb : ArbSeq) (now : N).
Context (Harb : u64_ok (arb_value arb)) (Hnow : u64_ok now) (Hop : op_wf op).
Context (Hp : plan (d_authority d) op arb = Ok m).

Lemma intent_durable os :
  takes_intent os (d_store d) (encode_intent_payload (commit_number d) arb (m_changes m)) ->
  exists s sc sc', make_durable (append (d_store d) (ca_intent os) (commit_intent d m arb now)) true = (s, true) /\
    replays es sc /\ advance sc (commit_intent d m arb now) = Some sc' /\
    represents id (es ++ [commit_intent d m arb now]) sc' s /\ st_options s = do_store (d_options d) /\
    entry_wf (do_store (d_options d)) (commit_intent d m arb now).
Proof.
  intros [Hfits Hlog Hrecords Hi _]. pose proof Hd as [_ _ [sc Hrep] _ Hopt Hbounded _ _ _ _].
  destruct (commit_scans id es d Hd m arb now sc Hrep) as (sc1 & sc2 & Hadv1 & _).
  assert (entry_wf (do_store (d_options d)) (commit_intent d m arb now)) as Hwf
    by (apply (commit_intent_wf id es d Hd op m arb now Harb Hnow Hop Hp); by rewrite <-Hopt).
  destruct (make_durable_succeeds id es sc sc1 (d_store d) (commit_intent d m arb now) (ca_intent os) Hrep)
    as (s1 & Hs1 & Hrep1 & Ho1); [rewrite Hopt; apply Hbounded|exact Hadv1|by rewrite Hopt|..].
  { split; cbn [entry_payload commit_intent]; unfold kStoreRecordHeaderBytes, kStoreChainBytes; lia. }
  { cbn [entry_payload commit_intent]. unfold kStoreRecordHeaderBytes, kStoreChainBytes. lia. }
  exists s1, sc, sc1. split_and!; [exact Hs1|apply Hrep|exact Hadv1|exact Hrep1|by rewrite Ho1|exact Hwf].
Qed.

(** The check rejects the state behind the mutation, or the completion record
    finds no room: the intent stays open at the end of the log. *)
Lemma commit_stops os :
  takes_intent os (d_store d) (encode_intent_payload (commit_number d) arb (m_changes m)) ->
  (do_verify_after_mutation (d_options d) = true /\
   (forall a, apply (d_authority d) (m_changes m) arb = (a, Status.Ok) -> verify_invariants a <> Status.Ok)) \/
  filled_by (d_store d) (encode_intent_payload (commit_number d) arb (m_changes m)) ->
  let '(d', s) := commit os d m arb now in
  is_ok s = false /\ d_durability_failed d' = true /\ d_files d' = d_files d /\
  st_file (d_store d') = Some (log_image id (es ++ [commit_intent d m arb now])).
Proof.
  intros Htakes Hstop. destruct (intent_durable os Htakes) as (s1 & sc & sc1 & Hs1 & Hs & Hadv & Hrep1 & Ho1 & _).
  destruct (planned_applied id es d Hd op m arb Harb Hop Hp) as (a1 & Happly & _).
  unfold commit. change (append_intent _ _ _ _ _ _ _) with (append (d_store d) (ca_intent os) (commit_intent d m arb now)).
  rewrite (ti_flush _ _ _ Htakes), Hs1. cbn [negb d_authority set_d_store next_intent]. rewrite Happly. cbn [is_ok negb].
  change (is_ok Status.Ok) with true. cbn [negb].
  change (d_options (set_d_authority a1 (set_d_store s1 (next_intent d)))) with (d_options d).
  destruct (do_verify_after_mutation (d_options d) && negb (is_ok (verify_invariants a1))) eqn:Hv.
  { apply andb_true_iff in Hv as [_ Hv]. apply negb_true_iff in Hv. split_and!; [exact Hv|done|done|apply Hrep1]. }
  destruct Hstop as [[Hcheck Hreject]|Hfull].
  { exfalso. rewrite Hcheck in Hv. cbn [andb] in Hv. apply not_is_ok in Hv. by apply (Hreject a1). }
  change (append_commit _ _ _ _) with (append s1 (ca_commit os) (ECommit (commit_number d) now)).
  destruct (append_spec s1 (ca_commit os) (ECommit (commit_number d) now) _ (rep_file _ _ _ _ Hrep1))
    as [[_ ->]|[([Hl Hc] & _)|([Hl Hc] & _)]].
  { rewrite Ho1. change (blen (entry_payload _)) with 8. apply (sv_bounded _ _ _ Hd). }
  { rewrite Ho1. apply (sv_bounded _ _ _ Hd). }
  { split_and!; [done|done|done|apply Hrep1]. }
  all: exfalso; pose proof Hd as [_ _ [sc0 Hrep] _ Hopt _ _ _ _ _].
  all: rewrite (rep_log_bytes _ _ _ _ Hrep1), (log_image_app id es _ sc Hs), Ho1, <-Hopt in Hl.
  all: rewrite (rep_records _ _ _ _ Hrep1), (advance_records _ _ _ Hadv), Ho1, <-Hopt in Hc.
  all: pose proof (rep_replays _ _ _ _ Hrep) as Hs0; unfold replays in Hs, Hs0; rewrite Hs in Hs0; injection Hs0 as <-.
  all: rewrite <-(rep_records _ _ _ _ Hrep) in Hc; destruct Hfull as [Hfull|Hfull]; [|lia].
  all: rewrite (rep_log_bytes _ _ _ _ Hrep) in Hfull; unfold blen in *; rewrite length_app in Hl.
  all: unfold entry_frame in Hl; rewrite length_record_frame in Hl; change (length (entry_payload (ECommit _ _))) with 8%nat in Hl.
  all: cbn [entry_payload commit_intent] in Hl; unfold kStoreRecordHeaderBytes, kStoreChainBytes in Hl; lia.
Qed.
End Commit.

(** The answer to a request whose commit fails. *)
Lemma handle_stops os dg now d request op m :
  let arb := mkArbSeq (wrap64 (d_arbitration d + 1)) in
  servable (rep_fidelity (d_recovery d)) = true -> d_durability_failed d = false ->
  rq_protocol_version request = kWireProtocolVersion -> message_type_is_request (rq_type request) = true ->
  is_mutation (rq_type request) = true -> decode_op (rq_type request) (rq_payload request) = Ok op ->
  plan (d_authority d) op arb = Ok m -> m_changes m <> [] ->
  is_ok (commit os (next_arbitration d) m arb now).2 = false ->
  an_status (handle os dg now d request).2 <> Status.Ok /\
  (handle os dg now d request).1 = count Failed (commit os (next_arbitration d) m arb now).1.
Proof.
  intros arb Hserv Hdur Hversion Hreq Hmut Hdec Hp Hne Hfail.
  unfold handle. rewrite Hversion, N.eqb_refl, Hreq, Hmut, Hdur. cbn [negb andb].
  unfold handle_mutation. rewrite Hserv, Hdur. cbn [negb].
  assert (plan_for (d_authority (next_arbitration d)) request arb = Ok m) as Hplan by (unfold plan_for; by rewrite Hdec).
  change (mkArbSeq (d_arbitration (next_arbitration d))) with arb. rewrite Hplan.
  rewrite bool_decide_eq_false_2 by done.
  destruct (commit os (next_arbitration d) m arb now) as [d2 s]. cbn [snd fst] in Hfail |- *. rewrite Hfail. cbn.
  split; [|done]. intros ->. done.
Qed.

(** ** A full log *)

(** An open intent that cannot be closed: [open] gives up and leaves the file. *)
Lemma open_full os random options id es sc intent :
  options_wf options -> Forall (entry_wf options) es -> replays es sc -> sc_open sc = Some intent ->
  8 <= max_record_bytes options ->
  max_log_bytes options < blen (log_image id es) + 96 \/ max_records options <= N.of_nat (length es) ->
  open_store os random options (Some (log_image id es)) = (Fail Status.Unavailable, Some (log_image id es)).
Proof.
  intros Hopt Hwf Hs Hopen H8 Hfull. pose proof Hopt as (Hm1 & Hm2 & Hm3 & _ & _ & _ & Htrunc).
  destruct (replay_log_image options id es sc [] RecoveryFidelity.Exact Hwf Hs (damaged_none options sc))
    as (result & Hrep & _ & _ & Hserv).
  rewrite app_nil_r in Hrep. unfold open_store.
  rewrite (proj2 (N.eqb_neq (max_record_bytes options) 0)), (proj2 (N.eqb_neq (max_log_bytes options) 0)),
    (proj2 (N.eqb_neq (max_records options) 0)) by lia. cbn [orb].
  change (default [] (Some (log_image id es))) with (log_image id es).
  destruct (_ <? _); [done|].
  rewrite (proj2 (Nat.ltb_ge _ _))
    by (pose proof (length_log_image id es) as Hl; unfold blen, kStoreFileHeaderBytes in *; lia).
  replace (check_header (log_image id es)) with (@None ReplayResult) by (unfold log_image; by rewrite check_file_header).
  rewrite Hrep, Hserv. unfold resume_store. cbn [negb andb bool_decide].
  rewrite bool_decide_eq_true_2 by done. cbn [negb andb length]. rewrite Nat.sub_0_r, firstn_all.
  destruct (os_reopen os); [|done]. cbn [negb]. rewrite Hopen.
  pose proof (represents_opened id es sc options Hwf Hs) as Hst. set (store := mkStore _ _ _ _ _ _ _) in *.
  change (append_abort store (os_accepted os) intent 0) with (append store (os_accepted os) (EAbort intent 0)).
  destruct (append_spec store (os_accepted os) (EAbort intent 0) _ (rep_file _ _ _ _ Hst))
    as [[_ ->]|[([Hl Hc] & _)|([Hl Hc] & _)]]; [exact H8|exact Hopt|done|..].
  all: exfalso; change (blen (entry_payload _)) with 8 in Hl; unfold store in Hl, Hc;
    cbn [st_log_bytes st_options st_record_count] in Hl, Hc; rewrite (advance_all_records _ _ _ Hs) in Hc;
    change (sc_records scan_start) with 0 in Hc; unfold kStoreRecordHeaderBytes, kStoreChainBytes in Hl; lia.
Qed.

Lemma settle_primary os log fresh previous :
  exists fresh' previous', settle os (mkFiles (Some log) fresh previous) = (mkFiles (Some log) fresh' previous', Status.Ok).
Proof. unfold settle. cbn. by do 2 eexists. Qed.

(** No start over such a file succeeds, whatever it is answered. *)
Lemma start_full id es sc intent t files :
  let '(o, _, _) := t in
  options_wf (do_store o) -> Forall (entry_wf (do_store o)) es -> replays es sc -> sc_open sc = Some intent ->
  8 <= max_record_bytes (do_store o) ->
  max_log_bytes (do_store o) < blen (log_image id es) + 96 \/ max_records (do_store o) <= N.of_nat (length es) ->
  f_primary files = Some (log_image id es) ->
  exists s files', attempt t files = (Fail s, files') /\ f_primary files' = Some (log_image id es).
Proof.
  destruct t as [[o os] now]. intros Hopt Hwf Hs Hopen H8 Hfull Hfile. cbn [attempt]. unfold start.
  destruct (negb (is_ok _)); [by do 2 eexists|]. destruct (_ || _); [by do 2 eexists|].
  destruct files as [primary fresh previous]. cbn [f_primary] in Hfile. subst primary.
  destruct (settle_primary (sta_settle os) (log_image id es) fresh previous) as (fresh' & previous' & ->).
  change (is_ok Status.Ok) with true. cbn [negb f_primary f_fresh f_previous].
  rewrite (open_full (sta_open os) (sta_store_id os) (do_store o) id es sc intent) by done.
  by do 2 eexists.
Qed.

(** ** A log that rebuilds a stale authority *)

(** A grant that must be bound to the present epoch and is not. *)
Definition stale (a : Authority) : Prop :=
  exists g, g ∈ grants a /\ requires_current_binding (g_state g) = true /\
    epoch_value (b_epoch (g_binding g)) <> epoch_value (epoch a).

Lemma stale_rejected a : sound a -> stale a -> verify_invariants a <> Status.Ok.
Proof.
  intros Hs (g & Hg & Hreq & Hne) Hok. apply verify_invariants_ok in Hok; [|by apply sound_keyed|by apply sound_inputs].
  destruct (cons_grants _ Hok g Hg) as (_ & _ & _ & path & site & _ & _ & Hcur & _).
  by destruct (Hcur Hreq) as (He & _).
Qed.

Lemma stale_equiv a a' : a ≡ a' -> stale a -> stale a'.
Proof.
  intros Ha (g & Hg & Hreq & Hne). symmetry in Ha.
  destruct (equiv_grants_elem a' a Ha g Hg) as (g' & Hg' & Hu). exists g'. split; [exact Hg'|].
  assert (forall B (f : GrantRecord -> B), f (unmarked g') = f (unmarked g)) as Hf by (intros B f; by rewrite Hu).
  assert (g_state g' = g_state g) as -> by exact (Hf _ g_state).
  assert (b_epoch (g_binding g') = b_epoch (g_binding g)) as -> by exact (Hf _ (fun x => b_epoch (g_binding x))).
  split; [exact Hreq|]. by rewrite <-(equiv_same a' a Ha epoch).
Qed.

Section Stale.
Context (o0 : DaemonOptions) (b : Authority).
Context (Hsound : sound b) (Hreloads : reloads b) (Hstale : stale b) (Hincarnation : id_wf (raw (incarnation b))).
Context (Hbounded : records_bounded (do_store o0)).

(** Starts under the options of the log at which every call of the operating
    system succeeds. *)
Definition well_answered (t : Attempt) : Prop :=
  let '(o, os, now) := t in
  same_recovery o0 o /\ sta_settle os = settled /\ sta_open os = all_well /\
  id_wf (raw (do_incarnation o)) /\ u64_ok now.

Definition rebuilds_stale (files : Files) : Prop :=
  exists id file, settle settled files = (mkFiles (Some file) None None, Status.Ok) /\
    forall random, reopens o0 id random file b.

Lemma same_recovery_sym o : same_recovery o0 o -> same_recovery o o0.
Proof. by intros [? ? ?]. Qed.

(** The check behind the replay rejects what it has rebuilt. *)
Lemma replay_rejected o random acts :
  replays_to o acts b -> exists s, apply_replay o random acts = Fail s.
Proof.
  intros Hacts. destruct (Hacts random) as (b' & Hb' & Hequiv & Hs'). unfold apply_replay. rewrite Hb'.
  cbn [mbind expected_bind].
  assert (verify_invariants (mark_all_historical b') <> Status.Ok) as Hreject.
  { apply stale_rejected; [by apply mark_all_historical_sound|]. apply (stale_equiv b); [|exact Hstale].
    symmetry. transitivity b'; [apply mark_all_historical_equiv|exact Hequiv]. }
  destruct (negb (is_ok _)) eqn:E; [by eexists|]. by apply not_is_ok in E.
Qed.

(** The stop of a daemon leaves its files whatever its authority is. *)
Lemma disk_stop_authority accepted d a now : disk (stop accepted (set_d_authority a d) now) = disk (stop accepted d now).
Proof.
  unfold stop. cbn [d_store set_d_authority]. destruct (is_open (d_store d)); [|done].
  by destruct (append_clean_shutdown _ _ _).
Qed.

Lemma start_stale t files :
  rebuilds_stale files -> well_answered t -> exists s files', attempt t files = (Fail s, files') /\ rebuilds_stale files'.
Proof.
  destruct t as [[o os] now]. intros (id & file & Hsettle & Hreopens) (Hsame & Hos & Hwell & Horigin & Hnow).
  destruct (reopens_options o0 o Hsame id (sta_store_id os) file b (Hreopens _))
    as (result & store & es & sc & Hopen & Hserv & Hacts & Hrep & Hopts & Hreb & Hsize).
  destruct (replay_rejected o (sta_incarnation os) (rr_actions result) Hacts) as [s Hfail].
  cbn [attempt]. unfold start. destruct (negb (is_ok _)).
  { do 2 eexists. split; [done|]. by exists id, file. }
  destruct (_ || _).
  { do 2 eexists. split; [done|]. by exists id, file. }
  rewrite Hos, Hsettle, Hwell. cbn [is_ok negb f_primary f_fresh f_previous]. change (is_ok Status.Ok) with true. cbn [negb].
  rewrite Hopen, Hserv, Hfail. cbn [negb]. do 2 eexists. split; [done|].
  set (d := opened_daemon _ _ _ _ _ _ _).
  assert (serves id es (set_d_authority b d)) as Hd.
  { split; cbn [set_d_authority opened_daemon d d_authority d_store d_options d_durability_failed];
      [exact Hsound|exact Hreloads|by exists sc|exact Hreb|exact Hopts|by rewrite (sr_store _ _ Hsame)|exact Hsize
      |exact Horigin|exact Hincarnation|done]. }
  assert (forall random, exists file, settle settled (disk (stop (sta_shutdown os) d now)) =
    (mkFiles (Some file) None None, Status.Ok) /\ reopens o0 id random file b) as Hstop.
  { intros random. destruct (stop_reopens id es _ (sta_shutdown os) now random Hd Hnow) as (file' & Hs' & Hr').
    rewrite disk_stop_authority in Hs'. exists file'. split; [exact Hs'|].
    exact (reopens_options o o0 (same_recovery_sym o Hsame) id random file' b Hr'). }
  destruct (Hstop (sta_store_id os)) as (file' & Hs' & _). exists id, file'. split; [exact Hs'|].
  intros random. destruct (Hstop random) as (file'' & Hs'' & Hr''). rewrite Hs' in Hs''. by injection Hs'' as <-.
Qed.
End Stale.

(** ** An epoch change while a proposal is open *)

Lemma epoch_objects_release_nothing a e arb m :
  plan a (BumpEpoch e) arb = Ok m -> retained (m_objects m) = m_objects m.
Proof.
  cbn [plan]. unfold plan_bump_epoch. intros Hp. plan_inv Hp. cbn [m_objects]. unfold retained.
  rewrite filter_cons_True by done. f_equal. induction (omap _ _) as [|g l IH]; [done|].
  rewrite fmap_cons, filter_cons_True by done. by rewrite IH.
Qed.

(** The epoch change leaves the proposal with the epoch it was made in. *)
Lemma epoch_change_stale a a' e g :
  sound a -> verify_invariants a = Status.Ok -> Step (BumpEpoch e) a a' ->
  g ∈ grants a -> g_state g = GrantState.Proposed \/ g_state g = GrantState.Eligible -> stale a'.
Proof.
  intros Ha Hok Hstep Hg Hstate. destruct (bump_epoch_step e a a' Ha Hstep) as (Hlt & He & Hmaps).
  apply verify_invariants_ok in Hok; [|by apply sound_keyed|by apply sound_inputs].
  assert (holds g = false) as Hfree by (unfold holds; by destruct Hstate as [-> | ->]).
  assert (requires_current_binding (g_state g) = true) as Hreq by (by destruct Hstate as [-> | ->]).
  destruct (cons_grants _ Hok g Hg) as (_ & _ & _ & path & site & _ & _ & Hcur & _).
  destruct (Hcur Hreq) as (Hepoch & _).
  assert (epoch_withdrawn e g = g) as Hsame by by apply epoch_withdrawn_spec.
  exists g. split; [|split; [exact Hreq|rewrite He; lia]].
  apply elem_of_grants in Hg as [k Hk]. apply elem_of_grants. exists k. rewrite Hmaps, Hk. cbn. by rewrite Hsame.
Qed.

Section Bump.
Context (id : StoreId) (es : list Entry) (d : Daemon) (Hd : serves id es d).
Context (e : Epoch) (m : Mutation) (arb : ArbSeq) (now : N).
Context (Harb : u64_ok (arb_value arb)) (Hnow : u64_ok now).
Context (Hop : op_wf (BumpEpoch e)) (Hp : plan (d_authority d) (BumpEpoch e) arb = Ok m).

(** The log that ends in the open intent of the change replays to the state
    behind it. *)
Lemma open_bump_reopens a random :
  apply (d_authority d) (m_changes m) arb = (a, Status.Ok) ->
  blen (encode_intent_payload (commit_number d) arb (m_changes m)) <= max_record_bytes (do_store (d_options d)) ->
  room_to_close (do_store (d_options d)) id (commit_entries es d m arb now) ->
  reopens (d_options d) id random (log_image id (es ++ [commit_intent d m arb now])) a.
Proof.
  intros Happly Hfits Hroom. set (log := commit_entries es d m arb now) in *.
  assert (entry_wf (do_store (d_options d)) (commit_intent d m arb now)) as Hiwf
    by by apply (commit_intent_wf id es d Hd (BumpEpoch e) m arb now Harb Hnow Hop Hp).
  assert (Forall (entry_wf (do_store (d_options d))) log) as Hwf.
  { apply Forall_app; split.
    - destruct (sv_log _ _ _ Hd) as [sc Hrep]. rewrite <-(sv_options _ _ _ Hd). apply Hrep.
    - apply Forall_cons; split; [exact Hiwf|]. apply Forall_singleton. by apply (commit_entry_wf id es d Hd). }
  set (cut := length (log_image id (es ++ [commit_intent d m arb now]))).
  destruct (sv_rebuilds _ _ _ Hd) as (sc & Hs & Hclosed & _).
  destruct (intent_closes es sc (commit_number d) arb (m_objects m) now (do_incarnation (d_options d)) Hs Hclosed false now)
    as (sci & scc & Hadv1 & Hadv2 & Hsc & _).
  assert (replays (es ++ [commit_intent d m arb now]) sci) as Hsi by (eapply replays_app; [exact Hs|exact Hadv1]).
  assert (log = (es ++ [commit_intent d m arb now]) ++ [ECommit (commit_number d) now]) as Hlog
    by (unfold log, commit_entries; by rewrite <-app_assoc).
  assert (log_image id log = log_image id (es ++ [commit_intent d m arb now]) ++
    entry_frame (sc_chain sci) (sc_sequence sci) (ECommit (commit_number d) now)) as Himage
    by (rewrite Hlog; by apply log_image_app).
  assert (length (log_image id es) <= cut)%nat as Hcut
    by (unfold cut; rewrite (log_image_app id es _ sc Hs), length_app; lia).
  assert (cut < length (log_image id log))%nat as Hshort.
  { rewrite Himage, length_app. unfold entry_frame. rewrite length_record_frame. unfold cut, kStoreRecordHeaderBytes. lia. }
  destruct (crash_in_commit (d_options d) id es (commit_number d) now now (do_incarnation (d_options d)) (d_authority d)
    (BumpEpoch e) arb m (sv_sound _ _ _ Hd) Harb Hop Hp random cut (proj1 (sv_bounded _ _ _ Hd)) Hwf Hroom
    (sv_rebuilds _ _ _ Hd) Hcut) as (b & Hb & Hwhich).
  change (committed_log es (commit_number d) now now (do_incarnation (d_options d)) arb m) with log in Hb, Hwhich.
  rewrite Himage in Hb. unfold cut in Hb. rewrite take_app_length in Hb.
  destruct Hwhich as [[Hlt _]|[(_ & _ & Heff)|[Hle _]]]; [exfalso; unfold cut in Hlt|..|exfalso; lia].
  { change (begun (commit_number d) now (do_incarnation (d_options d)) arb m) with (commit_intent d m arb now) in Hlt. lia. }
  unfold m_changes in Heff, Happly.
  rewrite effective_changes, (epoch_objects_release_nothing _ _ _ _ Hp), Happly in Heff. by injection Heff as <-.
Qed.
End Bump.

(** ** Properties *)

(** C39: a full log stops a daemon for good.  When the log has room for the intent
    of a mutation, which the operating system takes, but not for one more record,
    the mutation is refused, the daemon takes no more mutations, and no later start
    over its files succeeds, however often it is tried, under whatever options for
    the same store and whatever the operating system answers. *)
Theorem full_log_blocks_restart id es d os dg now request op m :
  serves id es d -> u64_ok now -> servable (rep_fidelity (d_recovery d)) = true ->
  rq_protocol_version request = kWireProtocolVersion -> message_type_is_request (rq_type request) = true ->
  is_mutation (rq_type request) = true ->
  decode_op (rq_type request) (rq_payload request) = Ok op -> texts_survive op = true ->
  let arb := mkArbSeq (wrap64 (d_arbitration d + 1)) in
  plan (d_authority d) op arb = Ok m -> m_changes m <> [] ->
  let payload := encode_intent_payload (wrap64 (d_intent_counter d + 1)) arb (m_changes m) in
  takes_intent os (d_store d) payload -> filled_by (d_store d) payload ->
  let '(d', answer) := handle os dg now d request in
  an_status answer <> Status.Ok /\ d_durability_failed d' = true /\
  never_starts (fun '(o, _, _) => do_store o = do_store (d_options d)) (disk d').
Proof.
  intros Hd Hnow Hserv Hversion Hreq Hmut Hdec Htexts arb Hp Hne payload Htakes Hfull.
  pose proof (decode_op_wf _ _ _ Hdec Htexts) as Hop.
  assert (serves id es (next_arbitration d)) as Hd1 by by eapply serves_ext.
  assert (u64_ok (arb_value arb)) as Harb by apply wrap64_u64.
  pose proof (commit_stops id es (next_arbitration d) Hd1 op m arb now Harb Hnow Hop Hp os Htakes (or_intror Hfull))
    as Hcommit.
  destruct (intent_durable id es (next_arbitration d) Hd1 op m arb now Harb Hnow Hop Hp os Htakes)
    as (s1 & sc & sc1 & _ & Hs & Hadv & Hrep & _ & Hiwf).
  destruct (handle_stops os dg now d request op m Hserv (sv_durable _ _ _ Hd) Hversion Hreq Hmut Hdec Hp Hne) as [Hst Hd'].
  { fold arb. destruct (commit os (next_arbitration d) m arb now) as [d2 s]. apply Hcommit. }
  fold arb in Hd'. destruct (handle os dg now d request) as [d' answer]. cbn [fst snd] in Hst, Hd'. subst d'.
  destruct (commit os (next_arbitration d) m arb now) as [d2 s]. destruct Hcommit as (_ & Hf & _ & Hfile). cbn [fst].
  split_and!; [exact Hst|exact Hf|].
  pose proof Hd as [_ _ [sc0 Hrep0] (sc' & Hs' & Hclosed & _) Hopt Hbounded _ _ _ _].
  unfold replays in Hs, Hs'. rewrite Hs in Hs'. injection Hs' as <-.
  destruct (intent_opens es sc (commit_number (next_arbitration d)) arb (m_objects m) now (do_incarnation (d_options d)) Hs
    Hclosed) as (sc2 & Hadv2 & _ & Hopen & _).
  set (intent := commit_intent (next_arbitration d) m arb now) in *.
  apply (never_starts_by (fun files => f_primary files = Some (log_image id (es ++ [intent]))));
    [|unfold disk; cbn [count d_store]; by rewrite Hfile].
  intros [[o os'] now'] files Hfiles Hsame.
  refine (start_full id (es ++ [intent]) sc1 (commit_number (next_arbitration d)) (o, os', now') files _ _ _ _ _ _ Hfiles);
    rewrite ?Hsame.
  - apply Hbounded.
  - apply Forall_app; split; [rewrite <-Hopt; apply Hrep0|by apply Forall_singleton].
  - eapply replays_app; [exact Hs|exact Hadv].
  - change (advance sc intent = Some sc2) in Hadv2. rewrite Hadv in Hadv2. injection Hadv2 as ->. exact Hopen.
  - apply Hbounded.
  - rewrite (log_image_app id es intent sc Hs), length_app. unfold blen. rewrite length_app.
    destruct Hfull as [Hfull|Hfull]; rewrite Hopt in Hfull.
    + left. rewrite (rep_log_bytes _ _ _ _ Hrep0) in Hfull. unfold entry_frame. rewrite length_record_frame.
      change (entry_payload intent) with payload. unfold blen, kStoreRecordHeaderBytes, kStoreChainBytes in *. lia.
    + right. rewrite (rep_records _ _ _ _ Hrep0) in Hfull.
      pose proof (rep_replays _ _ _ _ Hrep0) as Hs0. unfold replays in Hs0. rewrite Hs in Hs0. injection Hs0 as <-.
      rewrite (advance_all_records _ _ _ Hs) in Hfull. change (sc_records scan_start) with 0 in Hfull. cbn [length]. lia.
Qed.

(** C40: an epoch change while a proposal is open stops a daemon for good.  The
    daemon serves, its invariants hold, its log has room and the operating system
    takes everything; but the change leaves the proposals their epoch, the check
    behind the mutation rejects the new state, and the daemon takes no more
    mutations.  The intent is in the log: every later start at which all calls
    succeed replays it and fails at the same check. *)
Theorem epoch_bump_blocks_restart id es d os dg now request e m g :
  serves id es d -> u64_ok now -> servable (rep_fidelity (d_recovery d)) = true ->
  do_verify_after_mutation (d_options d) = true -> verify_invariants (d_authority d) = Status.Ok ->
  g ∈ grants (d_authority d) -> g_state g = GrantState.Proposed \/ g_state g = GrantState.Eligible ->
  rq_protocol_version request = kWireProtocolVersion -> rq_type request = MessageType.EpochBump ->
  decode_op (rq_type request) (rq_payload request) = Ok (BumpEpoch e) ->
  let arb := mkArbSeq (wrap64 (d_arbitration d + 1)) in
  plan (d_authority d) (BumpEpoch e) arb = Ok m ->
  takes_intent os (d_store d) (encode_intent_payload (wrap64 (d_intent_counter d + 1)) arb (m_changes m)) ->
  room_to_close (do_store (d_options d)) id (commit_entries es (next_arbitration d) m arb now) ->
  let '(d', answer) := handle os dg now d request in
  an_status answer <> Status.Ok /\ d_durability_failed d' = true /\
  never_starts (well_answered (d_options d)) (disk d').
Proof.
  intros Hd Hnow Hserv Hverify Hok Hg Hstate Hversion Htype Hdec arb Hp Htakes Hroom.
  pose proof (decode_op_wf _ _ _ Hdec eq_refl) as Hop.
  assert (serves id es (next_arbitration d)) as Hd1 by by eapply serves_ext.
  assert (u64_ok (arb_value arb)) as Harb by apply wrap64_u64.
  destruct (planned_applied id es _ Hd1 (BumpEpoch e) m arb Harb Hop Hp) as (a & Happly & Hsound & Hreloads & Hinc).
  cbn [next_arbitration d_authority] in Happly, Hinc.
  assert (stale a) as Hstale.
  { eapply epoch_change_stale; [apply Hd|exact Hok| |exact Hg|exact Hstate]. by econstructor. }
  assert (m_changes m <> []) as Hne.
  { cbn [plan] in Hp. unfold plan_bump_epoch in Hp. by plan_inv Hp. }
  pose proof (commit_stops id es (next_arbitration d) Hd1 (BumpEpoch e) m arb now Harb Hnow Hop Hp os Htakes) as Hcommit.
  destruct (handle_stops os dg now d request (BumpEpoch e) m Hserv (sv_durable _ _ _ Hd) Hversion) as [Hst Hd'];
    [by rewrite Htype|by rewrite Htype|exact Hdec|exact Hp|exact Hne|..].
  all: assert (forall b, apply (d_authority (next_arbitration d)) (m_changes m) arb = (b, Status.Ok) ->
    verify_invariants b <> Status.Ok) as Hreject
    by (intros b Hb; change (d_authority (next_arbitration d)) with (d_authority d) in Hb; rewrite Happly in Hb;
        injection Hb as <-; by apply stale_rejected).
  all: specialize (Hcommit (or_introl (conj Hverify Hreject))).
  { fold arb. destruct (commit os (next_arbitration d) m arb now) as [d2 s]. apply Hcommit. }
  fold arb in Hd'. destruct (handle os dg now d request) as [d' answer]. cbn [fst snd] in Hst, Hd'. subst d'.
  destruct (commit os (next_arbitration d) m arb now) as [d2 s]. destruct Hcommit as (_ & Hf & _ & Hfile). cbn [fst].
  split_and!; [exact Hst|exact Hf|].
  apply (never_starts_by (rebuilds_stale (d_options d) a)).
  { intros t files. apply start_stale; try done; [rewrite Hinc; apply Hd|apply Hd]. }
  exists id. eexists. split.
  { unfold disk. cbn [count d_store d_files]. rewrite Hfile. reflexivity. }
  intros random. apply (open_bump_reopens id es (next_arbitration d) Hd1 e m arb now Harb Hnow Hop Hp a random Happly);
    [|exact Hroom].
  pose proof (ti_fits _ _ _ Htakes) as Hfits. by rewrite (sv_options _ _ _ Hd) in Hfits.
Qed.

(** ** Witnesses *)

(** The sample daemon with room for [n] records, two of which are written, and no
    compaction. *)
Definition limited_options (n : N) : DaemonOptions :=
  let o := default_options in
  mkDaemonOptions (do_policy sample_options) (do_epoch sample_options) (do_incarnation sample_options)
    (mkStoreOptions (max_log_bytes o) n (max_record_bytes o) (compact_threshold_bytes o)
       (compact_threshold_records o) (truncate_unreadable_tail o) (durable_writes o))
    (do_max_changes_in_reply sample_options) true false.

Definition limited_daemon (n : N) : Daemon :=
  let d := sample_daemon in let s := d_store d in
  mkDaemon (limited_options n) (d_authority d)
    (mkStore (st_file s) (do_store (limited_options n)) (st_sequence s) (st_log_bytes s) (st_record_count s)
       (st_chain s) (st_durable s))
    (d_files d) false (d_intent_counter d) (d_arbitration d) 0 0 0 0 (d_recovery d) 0.

Lemma limited_serves n : 0 < n -> u64_ok n -> serves (Sample.id 500) sample_filling (limited_daemon n).
Proof.
  intros Hn Hn64. pose proof sample_serves as [H1 H2 [sc H3] H4 _ _ H7 H8 H9 _].
  split; [exact H1|exact H2| | |reflexivity| |exact H7|exact H8|exact H9|reflexivity].
  - exists sc. destruct H3. by split.
  - destruct H4 as (sc' & Hs & Ho & Hto). exists sc'. split_and!; [exact Hs|exact Ho|].
    apply (replays_to_config sample_options); [reflexivity|exact Hto].
  - destruct sample_records_bounded as [(B1 & B2 & _ & B4 & B5 & _ & B7) B8]. split; [by split_and!|exact B8].
Qed.

Definition full_daemon : Daemon := limited_daemon 3.

Lemma full_log_blocks_restart_witness :
  exists m, plan (d_authority full_daemon) (RetireGrant (sample_op 7 20)) (mkArbSeq 10) = Ok m /\
    let '(d', answer) := handle sample_answers sample_diagnostics 30 full_daemon sample_retire in
    an_status answer <> Status.Ok /\ exists s, (start sample_start (limited_options 3) (disk d') 40).1 = Fail s.
Proof.
  destruct (plan (d_authority full_daemon) (RetireGrant (sample_op 7 20)) (mkArbSeq 10)) as [m|s] eqn:Hp;
    [|vm_compute in Hp; discriminate].
  exists m. split; [reflexivity|].
  assert (takes_intent sample_answers (d_store full_daemon)
    (encode_intent_payload (wrap64 (d_intent_counter full_daemon + 1)) (mkArbSeq 10) (m_changes m))) as Htakes.
  { vm_compute in Hp; injection Hp as <-. split; [by vm_compute..| |reflexivity]. apply Nat.leb_le. by vm_compute. }
  assert (filled_by (d_store full_daemon)
    (encode_intent_payload (wrap64 (d_intent_counter full_daemon + 1)) (mkArbSeq 10) (m_changes m))) as Hfull
    by (right; by vm_compute).
  assert (m_changes m <> []) as Hne by (vm_compute in Hp; by injection Hp as <-).
  pose proof (full_log_blocks_restart (Sample.id 500) sample_filling full_daemon sample_answers sample_diagnostics 30
    sample_retire (RetireGrant (sample_op 7 20)) m (limited_serves 3 eq_refl eq_refl) ltac:(by vm_compute) eq_refl eq_refl eq_refl eq_refl
    sample_retire_decodes ltac:(by vm_compute) Hp Hne Htakes Hfull) as H.
  destruct (handle sample_answers sample_diagnostics 30 full_daemon sample_retire) as [d' answer].
  destruct H as (Hst & _ & Hnever). split; [exact Hst|].
  exact (Hnever [] ((limited_options 3), sample_start, 40) (Forall_nil_2 _) eq_refl).
Defined.

(** The sample daemon behind a proposal, which nothing has evaluated yet. *)
Definition sample_proposal : GrantProposal :=
  mkGrantProposal (Sample.id 250) (Sample.id 1) (Sample.id 101) (mkGeneration 1) (Sample.id 3) 10
    GrantClass.General 1000 20 [] (Sample.id 9) (Sample.id 390).

Definition planned (a : Authority) (op : Op) (arb : ArbSeq) : Mutation :=
  match plan a op arb with Ok m => m | Fail _ => mkMutation [] arb end.

Lemma planned_plans a op arb : runs op arb a = true -> plan a op arb = Ok (planned a op arb).
Proof. unfold runs, planned. by destruct (plan a op arb). Qed.

Definition sample_proposed : Mutation := planned sample_rebuilt (ProposeGrant sample_proposal) (mkArbSeq 10).

Definition proposing_daemon : Daemon := (commit sample_answers (limited_daemon 64) sample_proposed (mkArbSeq 10) 30).1.

Definition proposing_log : list Entry :=
  commit_entries sample_filling (limited_daemon 64) sample_proposed (mkArbSeq 10) 30.

Lemma sample_proposed_plans : plan sample_rebuilt (ProposeGrant sample_proposal) (mkArbSeq 10) = Ok sample_proposed.
Proof. apply planned_plans. by vm_compute. Qed.

Lemma proposing_options : d_options proposing_daemon = limited_options 64.
Proof. apply commit_options. Qed.

Lemma proposing_serves : serves (Sample.id 500) proposing_log proposing_daemon.
Proof.
  pose proof (commit_serves (Sample.id 500) sample_filling (limited_daemon 64) (limited_serves 64 eq_refl eq_refl)
    (ProposeGrant sample_proposal) sample_proposed (mkArbSeq 10) 30 ltac:(by vm_compute) ltac:(by vm_compute)
    ltac:(by vm_compute) sample_proposed_plans sample_answers) as H.
  unfold proposing_daemon.
  assert (is_ok (commit sample_answers (limited_daemon 64) sample_proposed (mkArbSeq 10) 30).2 = true) as Hs by by vm_compute.
  destruct (commit _ _ _ _ _) as [d s]. cbn [snd fst] in *. rewrite Hs in H. destruct H as (Ho & _ & [H|[H _]]); [exact H|].
  rewrite Ho in H. discriminate.
Qed.

Definition sample_bump : Request :=
  mkRequest kWireProtocolVersion MessageType.EpochBump 2 (Sample.id 8) (encode_epoch_bump_request (mkEpoch 2) (Sample.id 77)).

Lemma sample_start_answered now o :
  o = limited_options 64 -> u64_ok now -> well_answered o (limited_options 64, sample_start, now).
Proof. intros -> Hnow. split_and!; [done|reflexivity..|by vm_compute|exact Hnow]. Qed.

Lemma open_proposal :
  exists g, g ∈ grants (d_authority proposing_daemon) /\ g_state g = GrantState.Proposed.
Proof.
  assert (exists_proposed : match grants_ (d_authority proposing_daemon) !! mkId128 0 9 with
    | Some g => bool_decide (g_state g = GrantState.Proposed) | None => false end = true) by by vm_compute.
  revert exists_proposed. generalize (d_authority proposing_daemon) as a. intros a.
  destruct (grants_ a !! mkId128 0 9) as [g|] eqn:Hg; [|done]. intros H%bool_decide_eq_true. exists g.
  split; [apply elem_of_grants; by eexists|done].
Qed.

Lemma epoch_bump_blocks_restart_witness :
  serves (Sample.id 500) proposing_log proposing_daemon /\
  verify_invariants (d_authority proposing_daemon) = Status.Ok /\
  let '(d', answer) := handle sample_answers sample_diagnostics 40 proposing_daemon sample_bump in
  an_status answer <> Status.Ok /\ exists s, (start sample_start (limited_options 64) (disk d') 50).1 = Fail s.
Proof.
  assert (verify_invariants (d_authority proposing_daemon) = Status.Ok) as Hok by by vm_compute.
  split_and!; [exact proposing_serves|exact Hok|].
  set (arb := mkArbSeq (wrap64 (d_arbitration proposing_daemon + 1))).
  set (m := planned (d_authority proposing_daemon) (BumpEpoch (mkEpoch 2)) arb).
  assert (plan (d_authority proposing_daemon) (BumpEpoch (mkEpoch 2)) arb = Ok m) as Hp.
  { apply planned_plans. by vm_compute. }
  destruct open_proposal as (g & Hin & Hproposed).
  assert (g_state g = GrantState.Proposed \/ g_state g = GrantState.Eligible) as Hstate by by left.
  assert (takes_intent sample_answers (d_store proposing_daemon)
    (encode_intent_payload (wrap64 (d_intent_counter proposing_daemon + 1)) arb (m_changes m))) as Htakes.
  { split; [by vm_compute..| |reflexivity]. apply Nat.leb_le. by vm_compute. }
  assert (room_to_close (do_store (d_options proposing_daemon)) (Sample.id 500)
    (commit_entries proposing_log (next_arbitration proposing_daemon) m arb 40)) as Hroom
    by (split_and!; by vm_compute).
  pose proof (epoch_bump_blocks_restart (Sample.id 500) proposing_log proposing_daemon sample_answers sample_diagnostics 40
    sample_bump (mkEpoch 2) m g proposing_serves ltac:(by vm_compute) ltac:(by vm_compute) ltac:(by vm_compute) Hok Hin Hstate
    eq_refl eq_refl ltac:(by vm_compute) Hp Htakes Hroom) as H.
  destruct (handle sample_answers sample_diagnostics 40 proposing_daemon sample_bump) as [d' answer].
  destruct H as (Hst & _ & Hnever). split; [exact Hst|].
  apply (Hnever [] (limited_options 64, sample_start, 50) (Forall_nil_2 _)).
  exact (sample_start_answered 50 _ proposing_options eq_refl).
Defined.
