(* ===== verification/Isfd.v ===== *)
(** * The daemon program (apps/isfd/main.cpp)

    The process around a daemon.  [boot] reads the arguments and starts the daemon
    over the files of its store.  From there on the process is a state machine
    ([host_step]): the main thread starts the server, sets the shutdown handler,
    reads and writes the report, waits and stops both, and its steps are
    interleaved in any way with the turns of the ticker, of the accept loop and of
    the workers, which run as soon as they have been started.  The fault injection
    hook, which kills the process inside a commit, is left to the crashes of
    [Crash]. *)

From Stdlib Require Import Strings.Byte.
From S2P Require Import Prelude Outcome Ids Lifecycle Policy Wire Model Codecs State Ledger Changes.
From S2P Require Import Invariants Operations WellFormed Snapshot Store Journal Compaction Recovery.
From S2P Require Import Frames Protocol Replies Daemon Failures Applicable Steps Accounting.
From S2P Require Import Crash Reload Service Incarnations Restart Net Server Sessions Cli.

Definition recovery_fidelity_name (f : RecoveryFidelity) : bytes :=
  match f with
  | RecoveryFidelity.Exact => str "EXACT"
  | RecoveryFidelity.TornTailTruncated => str "TORN_TAIL_TRUNCATED"
  | RecoveryFidelity.DegradedTruncated => str "DEGRADED_TRUNCATED"
  | RecoveryFidelity.AmbiguousIntentResolved => str "AMBIGUOUS_INTENT_RESOLVED"
  | RecoveryFidelity.Corrupt => str "CORRUPT"
  | RecoveryFidelity.Incompatible => str "INCOMPATIBLE"
  | RecoveryFidelity.Missing => str "MISSING"
  end.

(** ** Starting *)

(** What is drawn and answered up to the start of the daemon. *)
Record BootInputs := mkBootInputs {
  bi_prepared : Status;
  bi_incarnation : Incarnation;
  bi_start : StartAnswers;
  bi_start_ms : N;
}.

(** The options that the rest of [main] and the ticker go by. *)
Record HostConfig := mkHostConfig {
  hc_run_ms : N;
  hc_ticker : bool;
  hc_state_path : bytes;
  hc_ready_file : bytes;
}.

Definition fault_stages : list bytes := [[]; str "intent-durable"; str "applied"; str "commit-durable"].

(** [DaemonOptions] with the flags that are given. *)
Definition isfd_options (args : Arguments) (random : Incarnation) : DaemonOptions :=
  mkDaemonOptions conservative_default (mkEpoch 1) random default_options 512
    (flag_or args (str "verify-after-mutation") true) (flag_or args (str "auto-compact") true).

Definition isfd_server_options (args : Arguments) (endpoint : Endpoint) : ServerOptions :=
  mkServerOptions endpoint (u64_or args (str "max-connections") 64) (so_max_frame_bytes default_server_options)
    (so_io_timeout_ms default_server_options) (so_send_timeout_ms default_server_options)
    (so_tcp_nodelay default_server_options) false.

Definition ready_report (dg : Diagnostics) (now : N) (server : FabricServer) (state_path : bytes) : Entries :=
  let report := status_report dg now (sh_daemon (fs_shared server)) in
  [(str "endpoint", endpoint_to_string (local_endpoint server)); (str "state_path", state_path);
   (str "incarnation", tid_to_string (sp_incarnation report));
   (str "epoch", to_decimal (epoch_value (sp_epoch report)));
   (str "policy_generation", to_decimal (gen_value (pol_generation (sp_policy report))));
   (str "store_fidelity", recovery_fidelity_name (sp_store_fidelity report));
   (str "store_records", to_decimal (sp_store_records report));
   (str "ambiguous_intents", to_decimal (sp_ambiguous_intents report));
   (str "store_servable", if sp_store_servable report then str "1" else str "0")].

(** ** Running *)

(** Where the main thread is: the daemon is started; the server is started; the
    handler is set; the report is read; it is written, and the waiting loop runs;
    the server is told to stop; the process has exited. *)
Inductive Phase :=
| Launching
| Listening
| Announcing
| Reporting (entries : Entries)
| Waiting
| Stopping (code : N)
| Exited (code : N).

Definition exited (p : Phase) : bool := match p with Exited _ => true | _ => false end.

Record Host := mkHost {
  h_config : HostConfig;
  h_server : FabricServer;
  h_reports : ReportFiles;
  h_phase : Phase;
}.

(** Turns of the accept loop, of a worker and of the ticker; then the steps of the
    main thread: [server.start]; [set_shutdown_handler]; [status_report] and the
    entries; [write_report_file]; a pass of the waiting loop, with the signals and
    the time since its start; the joins behind the stop of the server, followed by
    the stop of the daemon and the exit. *)
Inductive HostEvent :=
| HoAccept (answer : AcceptAnswer)
| HoWorker (n : nat) (t : Turn)
| HoTick (os : CommitAnswers) (random : RequestId) (now : N)
| HoListen (bound : Endpoint -> N -> Expected N)
| HoHandler
| HoReport (now : N)
| HoWrite (answers : ReportAnswers)
| HoPass (signalled : bool) (elapsed : N)
| HoJoin (accepted : nat) (now : N).

Definition set_daemon (d : Daemon) (calls : list Call) (sh : Shared) : Shared :=
  mkShared d (sh_stats sh) (sh_handler sh) (sh_handler_runs sh) calls.

Definition tick_call (os : CommitAnswers) (random : RequestId) (now : N) : Call :=
  mkCall (mkRequest kWireProtocolVersion MessageType.TickRequest 0 random (encode_u64_body now)) now os.

(** A tick of the ticker thread. *)
Definition tick_turn (dg : Diagnostics) (os : CommitAnswers) (random : RequestId) (now : N) (s : FabricServer) :
    FabricServer :=
  let sh := fs_shared s in
  let '(d, _) := tick_once os dg random (sh_daemon sh) now in
  set_shared (set_daemon d (sh_calls sh ++ [tick_call os random now]) sh) s.

(** The condition of the waiting loop; a shutdown request has run the handler. *)
Definition wait_over (c : HostConfig) (signalled : bool) (elapsed : N) (s : FabricServer) : bool :=
  signalled || (0 <? sh_handler_runs (fs_shared s)) || (negb (hc_run_ms c =? 0) && (hc_run_ms c <=? elapsed)).

(** The stop of the daemon behind that of the server. *)
Definition stop_daemon (accepted : nat) (now : N) (s : FabricServer) : FabricServer :=
  let sh := fs_shared s in
  set_shared (set_daemon (stop accepted (sh_daemon sh) now) (sh_calls sh) sh) s.

(** A process that gives up stops by the destructors of the server and the daemon,
    in the order in which it stops otherwise. *)
Definition host_step (dg : Diagnostics) (h : Host) (e : HostEvent) : Host :=
  let '(mkHost c s reports phase) := h in
  let turn (s : FabricServer) := mkHost c s reports phase in
  let main (s : FabricServer) (phase : Phase) := mkHost c s reports phase in
  match phase, e with
  | Exited _, _ => h
  | _, HoAccept answer => turn (accept_turn answer s)
  | _, HoWorker n t => turn (worker_turn dg n t s)
  | _, HoTick os random now => if hc_ticker c then turn (tick_turn dg os random now s) else h
  | Launching, HoListen bound =>
      let '(s, started) := start_server bound s in
      if is_ok started then main s Listening else main (stop_requested s) (Stopping 5)
  | Listening, HoHandler => main (set_shutdown_handler s) Announcing
  | Announcing, HoReport now => main s (Reporting (ready_report dg now s (hc_state_path c)))
  | Reporting entries, HoWrite answers =>
      let '(states, wrote) := write_report_file answers (hc_ready_file c) entries reports in
      let reports := default reports (last states) in
      if is_ok wrote then mkHost c s reports Waiting else mkHost c (stop_requested s) reports (Stopping 6)
  | Waiting, HoPass signalled elapsed =>
      if wait_over c signalled elapsed s then main (stop_requested s) (Stopping 0) else h
  | Stopping code, HoJoin accepted now =>
      let s := stop_completed s in
      if fs_running s then h else main (stop_daemon accepted now s) (Exited code)
  | _, _ => h
  end.

Definition host_run (dg : Diagnostics) (h : Host) (events : list HostEvent) : Host := foldl (host_step dg) h events.

Definition host_daemon (h : Host) : Daemon := sh_daemon (fs_shared (h_server h)).
Definition host_calls (h : Host) : list Call := sh_calls (fs_shared (h_server h)).

(** [main] up to the start of the daemon, over the tokens behind the name of the
    program: the exit code, or the process that goes on; the files of the store. *)
Definition boot (tokens : list bytes) (i : BootInputs) (files : Files) (reports : ReportFiles) : (N + Host) * Files :=
  let args := parse_arguments tokens in
  if has args (str "help") then (inl 0, files)
  else
    match log_level_from_name (value_or args (str "log-level") (str "info")) with
    | None => (inl 2, files)
    | Some _ =>
        if negb (bool_decide (value_or args (str "fault-inject") [] ∈ fault_stages)) then (inl 2, files)
        else if negb (is_ok (bi_prepared i)) then (inl 3, files)
        else
          match parse_endpoint (value_or args (str "listen") (str "127.0.0.1:0")) with
          | Fail _ => (inl 2, files)
          | Ok endpoint =>
              match start (bi_start i) (isfd_options args (bi_incarnation i)) files (bi_start_ms i) with
              | (Fail _, files) => (inl 4, files)
              | (Ok d, files) =>
                  let c := mkHostConfig (u64_or args (str "run-ms") 0) (flag_or args (str "ticker") true)
                    (value_or args (str "state") (str "./isf-state/daemon.isfstore"))
                    (value_or args (str "ready-file") []) in
                  (inr (mkHost c (new_server (isfd_server_options args endpoint) d) reports Launching), files)
              end
          end
    end.

(** A failure of [Listener::bind] has a status of its own. *)
Definition proper_bind (bound : Endpoint -> N -> Expected N) : Prop := forall e n s, bound e n = Fail s -> s <> Status.Ok.

(** Times have 64 bits. *)
Definition host_event_ok (e : HostEvent) : Prop :=
  match e with HoJoin _ now => u64_ok now | HoListen bound => proper_bind bound | _ => True end.

(** The ready file has been written. *)
Definition announced (h : Host) : Prop := h_phase h ∈ [Waiting; Stopping 0; Exited 0].

(** ** What the files keep *)

(** The files from which a process gets the authority [a] back: there are none
    yet, or they were left by a daemon with the state [a]. *)
Inductive kept_in : Files -> Authority -> Prop :=
| kept_fresh args random random' :
    kept_in (mkFiles None None None) (new_authority random (replay_config (isfd_options args random')))
| kept_log args random id es d files :
    serves id es d \/ stalled id es d -> left_by d files ->
    same_recovery (d_options d) (isfd_options args random) ->
    require_verification_for_active (policy (d_authority d)) = false ->
    verify_invariants (d_authority d) = Status.Ok -> kept_in files (d_authority d).

(** ** Lemmas *)

Lemma isfd_same_recovery args random args' random' :
  same_recovery (isfd_options args random) (isfd_options args' random').
Proof. by split. Qed.

Lemma isfd_policy_wf : policy_wf conservative_default.
Proof. apply (bool_decide_unpack _). vm_compute. exact I. Qed.

Lemma isfd_records_bounded : records_bounded default_options.
Proof. exact sample_records_bounded. Qed.

Lemma start_files os o files now d files' : start os o files now = (Ok d, files') -> d_files d = files'.
Proof.
  unfold start. repeat (destruct (negb _); [done|]). destruct (_ || _); [done|].
  destruct (settle _ _) as [files1 st]. destruct (negb _); [done|].
  destruct (open_store _ _ _ _) as [[[replay store]|s] primary]; [|done]. destruct (negb _); [done|].
  destruct (apply_replay _ _ _) as [[a suppressed]|s]; [|done]. by intros [= <- <-].
Qed.

(** What a start has left is on disk. *)
Lemma start_disk os o files now d id es :
  start os o files now = (Ok d, mkFiles (Some (log_image id es)) None None) -> serves id es d ->
  disk d = mkFiles (Some (log_image id es)) None None.
Proof.
  intros Hstart [_ _ [sc Hrep] _ _ _ _ _ _ _]. apply start_files in Hstart.
  unfold disk. by rewrite (rep_file _ _ _ _ Hrep), Hstart.
Qed.

(** A daemon starts over what is kept, with the authority that is kept. *)
Lemma start_kept args random os files now a :
  kept_in files a -> sta_settle os = settled -> sta_open os = all_well ->
  id_wf (raw random) -> id_wf (raw (sta_incarnation os)) ->
  exists id es d,
    start os (isfd_options args random) files now = (Ok d, disk d) /\ serves id es d /\
    d_options d = isfd_options args random /\ d_authority d ≡ a /\
    verify_invariants (d_authority d) = Status.Ok /\ require_verification_for_active (policy (d_authority d)) = false.
Proof.
  intros Hkept Hsettle Hwell Hrandom Hinc. set (o := isfd_options args random).
  destruct Hkept as [args' r r'|args' r' id es d files Hd Hleft Ho Hv Hok].
  - destruct (first_start_serves o os now Hwell isfd_policy_wf ltac:(by vm_compute) conservative_default_valid
      isfd_records_bounded Hrandom Hinc) as (d & Hstart & Hd & Ha & Hok & Hopt).
    change (file_header (sta_store_id os)) with (log_image (sta_store_id os) []) in Hstart.
    exists (sta_store_id os), [], d. rewrite (start_disk _ _ _ _ _ _ _ Hstart Hd).
    split_and!; [exact Hstart|exact Hd|exact Hopt| |exact Hok|].
    + rewrite Ha. transitivity (new_authority r (replay_config o)); [apply new_authority_equiv|].
      destruct (replay_actions_under _ _ (isfd_same_recovery args random args' r') r []) as (j & -> & _).
      symmetry. apply under_equiv.
    + rewrite Ha. unfold new_authority. cbn. by destruct (tid_is_nil _).
  - assert (sound (d_authority d) /\ reloads (d_authority d)) as [Hsound Hrl] by (destruct Hd as [[]|[]]; by split).
    assert (same_recovery (d_options d) o) as Ho' by (transitivity (isfd_options args' r'); [exact Ho|by split]).
    destruct (left_reopens id es d files o (sta_store_id os) Hd Hleft Ho') as (id' & file & Hs & Hreopens).
    destruct (start_reopens o os Hsettle Hwell conservative_default_valid isfd_records_bounded Hrandom Hinc id' file
      (d_authority d) files now Hs Hreopens Hsound Hrl Hv Hok) as (es' & d' & Hstart & Hd' & Hequiv & Hopt).
    assert (d_authority d ≡ d_authority d') as Hequiv' by by symmetry.
    exists id', es', d'. rewrite (start_disk _ _ _ _ _ _ _ Hstart Hd').
    split_and!; [exact Hstart|exact Hd'|exact Hopt|exact Hequiv| |].
    + apply (equiv_verified (d_authority d)); [exact Hsound|apply (sv_sound _ _ _ Hd')|done..].
    + by rewrite (st_policy _ _ (equiv_tables _ _ Hequiv')).
Qed.

Lemma parse_u64_u64 text n : parse_u64 text = Some n -> u64_ok n.
Proof.
  unfold parse_u64. case_bool_decide; [done|]. rewrite parse_u64_loop_spec by done.
  destruct (forallb _ _); [|done]. cbn [andb]. destruct (N.leb_spec (decimal_value 0 text) kAmountMax) as [Hle|]; [|done].
  intros [= <-]. unfold u64_ok. change kAmountMax with 18446744073709551615 in Hle. lia.
Qed.

Lemma u64_or_u64 args flag fallback : u64_ok fallback -> u64_ok (u64_or args flag fallback).
Proof.
  intros Hf. unfold u64_or. destruct (value args flag) as [text|]; [|done].
  destruct (parse_u64 text) as [n|] eqn:Hp; [by eapply parse_u64_u64|done].
Qed.

(** ** The daemon behind a run *)

(** What no request changes. *)
Lemma handle_options os dg now d request : d_options (handle os dg now d request).1 = d_options d.
Proof.
  unfold handle. destruct (negb _); [done|]. destruct (negb _); [done|]. destruct (_ && _); [done|].
  destruct (is_mutation _); [|done]. unfold handle_mutation. destruct (negb _); [done|].
  destruct (d_durability_failed d); [done|]. destruct (plan_for _ _ _) as [m|s].
  2:{ by destruct (_ && _). }
  destruct (bool_decide _); [done|]. pose proof (commit_options os (next_arbitration d) m
    (mkArbSeq (d_arbitration (next_arbitration d))) now) as Ho.
  destruct (commit _ _ _ _ _) as [d' s]. cbn [fst] in Ho. destruct (negb _); cbn; by rewrite Ho.
Qed.

Lemma handle_all_options dg d calls : d_options (handle_all dg d calls) = d_options d.
Proof. revert d. induction calls as [|c calls IH]; intros d; [done|]. cbn. by rewrite IH, handle_options. Qed.

Section Run.
Context (dg : Diagnostics) (d0 : Daemon).

(** The server of the process as long as it runs; behind the stop its daemon has
    been stopped. *)
Definition host_ok (h : Host) : Prop :=
  exists s, server_ok dg d0 s /\ u64_ok (so_max_connections (fs_options s)) /\
    match h_phase h with
    | Exited _ => exists accepted now, u64_ok now /\ h_server h = stop_daemon accepted now s
    | _ => h_server h = s
    end.

Lemma tick_turn_ok os random now s : server_ok dg d0 s -> server_ok dg d0 (tick_turn dg os random now s).
Proof.
  intros [Hd Hc Hn Hb]. unfold tick_turn, tick_once. destruct (handle _ _ _ _ _) as [d answer] eqn:Hh.
  split; cbn [fs_shared set_shared set_daemon sh_daemon sh_calls sh_stats fs_connections fs_options]; [|  |done..].
  - rewrite handle_all_snoc, <-Hd. cbn [cl_answers cl_now cl_request tick_call]. by rewrite Hh.
  - eapply Forall_impl; [exact Hc|]. intros c Hcon. by apply connection_ok_mono.
Qed.

Lemma tick_turn_options os random now s : fs_options (tick_turn dg os random now s) = fs_options s.
Proof. unfold tick_turn. by destruct (tick_once _ _ _ _ _). Qed.

(** A step of the server is one of the process. *)
Lemma host_server_ok c s reports phase e :
  server_ok dg d0 s -> u64_ok (so_max_connections (fs_options s)) ->
  exited phase = false -> host_ok (mkHost c (server_step dg s e) reports phase).
Proof.
  intros Hs Hmax Hphase. exists (server_step dg s e).
  split_and!; [by apply server_step_ok|by rewrite server_step_options|].
  cbn [h_phase h_server]. by destruct phase.
Qed.

Lemma host_step_ok h e : host_event_ok e -> host_ok h -> host_ok (host_step dg h e).
Proof.
  destruct h as [c s reports phase]. intros He Hok. destruct (exited phase) eqn:Hphase;
    [by destruct phase, e|].
  assert (server_ok dg d0 s /\ u64_ok (so_max_connections (fs_options s))) as [Hs Hmax].
  { destruct Hok as (s' & Hs & Hmax & Heq). cbn [h_phase h_server] in Heq.
    destruct phase; try (by subst s'). done. }
  assert (forall e' p reports, exited p = false -> host_ok (mkHost c (server_step dg s e') reports p)) as Hserver
    by (intros; by apply host_server_ok).
  assert (forall p reports, exited p = false -> host_ok (mkHost c s reports p)) as Hstay.
  { intros p r Hp. exists s. split_and!; [done..|]. cbn. by destruct p. }
  destruct e as [answer|n t|os random now|bound| |now|answers|signalled elapsed|accepted now].
  - assert (host_step dg (mkHost c s reports phase) (HoAccept answer) = mkHost c (server_step dg s (EvAccept answer)) reports phase)
      as -> by (by destruct phase). by apply Hserver.
  - assert (host_step dg (mkHost c s reports phase) (HoWorker n t) = mkHost c (server_step dg s (EvWorker n t)) reports phase)
      as -> by (by destruct phase). by apply Hserver.
  - assert (host_step dg (mkHost c s reports phase) (HoTick os random now) =
      if hc_ticker c then mkHost c (tick_turn dg os random now s) reports phase else mkHost c s reports phase)
      as -> by (by destruct phase).
    destruct (hc_ticker c); [|by apply Hstay]. exists (tick_turn dg os random now s).
    split_and!; [by apply tick_turn_ok|by rewrite tick_turn_options|].
    cbn. by destruct phase.
  - destruct phase; try done. cbn. pose proof (Hserver (EvStart bound) Listening reports ltac:(done)) as Hl.
    cbn [server_step] in Hl. destruct (start_server bound s) as [s1 started] eqn:Hstart.
    destruct (is_ok started); [exact Hl|]. destruct Hl as (s' & Hs1 & Hmax1 & Heq). cbn in Heq. subst s'.
    by apply (host_server_ok c s1 reports (Stopping 5) EvStopRequested).
  - destruct phase; try done. by apply (Hserver EvHandlerSet).
  - by destruct phase.
  - destruct phase; try done. cbn. destruct (write_report_file _ _ _ _) as [states wrote].
    destruct (is_ok wrote); [by apply Hstay|by apply (Hserver EvStopRequested)].
  - destruct phase; try done. cbn. destruct (wait_over _ _ _ _); [by apply (Hserver EvStopRequested)|done].
  - destruct phase; try done. cbn. destruct (fs_running (stop_completed s)); [done|].
    exists (stop_completed s). split_and!; [by apply (server_step_ok dg d0 EvStopCompleted)
      |change (stop_completed s) with (server_step dg s EvStopCompleted); by rewrite server_step_options|]. by exists accepted, now.
Qed.

Lemma host_run_ok events h : Forall host_event_ok events -> host_ok h -> host_ok (host_run dg h events).
Proof.
  intros He. revert h. induction He as [|e events He _ IH]; intros h Hh; [done|]. apply IH. by apply host_step_ok.
Qed.

Context (id : StoreId) (es : list Entry) (Hd0 : serves id es d0).
Context (args : Arguments) (random : Incarnation) (Hoptions : d_options d0 = isfd_options args random).

(** What the files keep at any time of a run. *)
Lemma host_keeps h :
  host_ok h -> Forall call_ok (host_calls h) -> d_durability_failed (host_daemon h) = false ->
  (exists ops, History ops (d_authority d0) (d_authority (host_daemon h))) /\
  (require_verification_for_active (policy (d_authority (host_daemon h))) = false ->
   verify_invariants (d_authority (host_daemon h)) = Status.Ok ->
   kept_in (disk (host_daemon h)) (d_authority (host_daemon h))).
Proof.
  intros (s & [Hday _ _ _] & _ & Hphase) Hcalls Hfailed. set (d := sh_daemon (fs_shared s)) in *.
  assert (host_calls h = sh_calls (fs_shared s) /\ d_authority (host_daemon h) = d_authority d /\
    d_durability_failed d = false /\ left_by d (disk (host_daemon h))) as (Hc & Ha & Hf & Hleft).
  { unfold host_calls, host_daemon in *.
    destruct (h_phase h); try (rewrite Hphase in *; split_and!; [done..|by left]).
    destruct Hphase as (accepted & now & Hnow & Hd). rewrite Hd in *. cbn [stop_daemon fs_shared set_shared set_daemon sh_daemon sh_calls] in *.
    split; [done|]. fold d in Hfailed |- *. unfold stop in Hfailed |- *. destruct (is_open _) eqn:Hopen; [|split_and!; [done..|by left]].
    destruct (append_clean_shutdown _ _ _) as [store st] eqn:Happ. split_and!; [done..|]. right.
    exists accepted, now. split; [done|]. unfold stop. rewrite Hopen, Happ. done. }
  rewrite Hc in Hcalls. rewrite Ha.
  assert (d_options d = isfd_options args random) as Ho by (rewrite Hday, handle_all_options; exact Hoptions).
  pose proof (handle_all_keeps dg (d_authority d0) d0 (sh_calls (fs_shared s))) as H. rewrite <-Hday in H.
  destruct H as [(ops & id' & es' & Hh & Hs)|[(_ & ops & id' & es' & Hh & Hs)|(ops & id' & es' & a & op & m & arb & _ & Hb)]].
  - exists [], id, es. split; [constructor|exact Hd0].
  - exact Hcalls.
  - split; [by exists ops|]. intros Hv Hok.
    eapply kept_log; [by left|exact Hleft| |exact Hv|exact Hok]. by rewrite Ho.
  - split; [by exists ops|]. intros Hv Hok.
    eapply kept_log; [by right|exact Hleft| |exact Hv|exact Hok]. by rewrite Ho.
  - pose proof (br_failed _ _ _ _ _ _ _ Hb) as Hbf. congruence.
Qed.
End Run.

(** ** The report *)

(** A report that is written is the report file. *)
Lemma report_written os path entries files states :
  write_report_file os path entries files = (states, Status.Ok) -> path <> [] ->
  rf_report (default files (last states)) = Some (report_body entries).
Proof.
  intros Hw Hpath. unfold write_report_file in Hw. rewrite bool_decide_eq_false_2 in Hw by done.
  destruct (negb (is_ok (ra_prepared os))) eqn:Hp; [injection Hw as _ Hs; by rewrite Hs in Hp|].
  destruct (negb (ra_opened os)); [done|]. destruct (ra_short_write os); [done|].
  destruct (ra_renamed os); [|done]. by injection Hw as <-.
Qed.

(** The server has been started and nothing has told it to stop. *)
Definition steady (s : FabricServer) : Prop := fs_running s = true /\ fs_stopping s = false.

(** The turns of the other threads do not touch these flags. *)
Definition same_flags (s s' : FabricServer) : Prop := fs_running s' = fs_running s /\ fs_stopping s' = fs_stopping s.

Lemma same_flags_steady s s' : same_flags s s' -> steady s -> steady s'.
Proof. unfold same_flags, steady. intros [-> ->]. done. Qed.

Lemma accept_turn_flags answer s : same_flags s (accept_turn answer s).
Proof.
  unfold accept_turn. destruct (negb _); [done|]. destruct (fs_stopping s) eqn:Hs; [by split|].
  destruct answer as [|stopping|peer now]; [done|by destruct stopping|]. destruct (reap_finished _ _) as [cs sh].
  by destruct (_ <=? _).
Qed.

Lemma worker_turn_flags dg n t s : same_flags s (worker_turn dg n t s).
Proof. unfold worker_turn. destruct (fs_connections s !! n); [|done]. by destruct (serve_turn _ _ _ _ _). Qed.

Lemma tick_turn_flags dg os random now s : same_flags s (tick_turn dg os random now s).
Proof. unfold tick_turn. by destruct (tick_once _ _ _ _ _). Qed.

Lemma start_server_steady bound s :
  proper_bind bound -> fs_stopping s = false ->
  let '(s', started) := start_server bound s in started = Status.Ok -> steady s'.
Proof.
  intros Hbind Hs. unfold start_server. destruct (fs_running s); [done|]. destruct (_ =? 0); [done|].
  destruct (_ || _); [done|]. destruct (bound _ _) as [port|st] eqn:Hb; [done|]. intros ->. by apply Hbind in Hb.
Qed.

Section Announced.
Context (dg : Diagnostics) (h0 : Host) (Hlaunch : h_phase h0 = Launching) (Hfresh : fs_stopping (h_server h0) = false).
Let c := h_config h0.

(** The entries that the main thread has read between two events of a run. *)
Definition read_entries (events : list HostEvent) (entries : Entries) : Prop :=
  exists before now after, events = before ++ HoReport now :: after /\
    entries = ready_report dg now (h_server (host_run dg h0 before)) (hc_state_path c).

Definition on_file (events : list HostEvent) (reports : ReportFiles) : Prop :=
  hc_ready_file c <> [] ->
  exists entries, read_entries events entries /\ rf_report reports = Some (report_body entries).

Definition told (events : list HostEvent) (h : Host) : Prop :=
  h_config h = c /\
  match h_phase h with
  | Launching => fs_stopping (h_server h) = false
  | Listening | Announcing => steady (h_server h)
  | Reporting entries => steady (h_server h) /\ read_entries events entries
  | Waiting => steady (h_server h) /\ on_file events (h_reports h)
  | Stopping code | Exited code => code = 0 -> on_file events (h_reports h)
  end.

Lemma read_entries_snoc events e entries : read_entries events entries -> read_entries (events ++ [e]) entries.
Proof.
  intros (before & now & after & -> & ->). exists before, now, (after ++ [e]). split; [|done]. by rewrite <-app_assoc.
Qed.

Lemma on_file_snoc events e reports : on_file events reports -> on_file (events ++ [e]) reports.
Proof. intros H Hpath. destruct (H Hpath) as (entries & He & Hf). exists entries. split; [by apply read_entries_snoc|done]. Qed.
(** A turn of another thread. *)
Lemma told_turn events e s' h :
  told events h -> same_flags (h_server h) s' -> told (events ++ [e]) (mkHost (h_config h) s' (h_reports h) (h_phase h)).
Proof.
  intros [Hc Hp] Hflags. split; [done|]. cbn [h_phase h_server h_reports].
  destruct (h_phase h); try (by eapply same_flags_steady).
  - destruct Hflags as [_ ->]. exact Hp.
  - destruct Hp. split; [by eapply same_flags_steady|by apply read_entries_snoc].
  - destruct Hp. split; [by eapply same_flags_steady|by apply on_file_snoc].
  - intros Hcode. by apply on_file_snoc, Hp.
  - intros Hcode. by apply on_file_snoc, Hp.
Qed.

Lemma told_stays events e h : told events h -> told (events ++ [e]) h.
Proof. intros Ht. destruct h. by apply (told_turn events e _ _ Ht). Qed.

Lemma told_step events e :
  host_event_ok e -> told events (host_run dg h0 events) -> told (events ++ [e]) (host_run dg h0 (events ++ [e])).
Proof.
  intros He Ht. assert (host_run dg h0 (events ++ [e]) = host_step dg (host_run dg h0 events) e) as ->
    by (unfold host_run; by rewrite foldl_app).
  destruct (host_run dg h0 events) as [cfg s reports phase] eqn:Hrun.
  pose proof (told_stays events e _ Ht) as Hstay.
  assert (forall s', same_flags s s' -> told (events ++ [e]) (mkHost cfg s' reports phase)) as Hturn
    by (intros s'; exact (told_turn events e s' _ Ht)).
  destruct Ht as [Hc Hp]. cbn [h_config h_server h_reports h_phase] in Hc, Hp. subst cfg.
  destruct e as [answer|n t|os random now|bound| |now|answers|signalled elapsed|accepted now], phase; try exact Hstay;
    try (by apply Hturn, accept_turn_flags); try (by apply Hturn, worker_turn_flags);
    cbn [host_step]; try (destruct (hc_ticker c); [by apply Hturn, tick_turn_flags|exact Hstay]).
  - pose proof (start_server_steady bound s He Hp) as Hs. destruct (start_server bound s) as [s' started].
    destruct (is_ok started) eqn:Hok; split; try done. cbn. apply Hs. by destruct started.
  - split; [done|]. split; [exact Hp|]. exists events, now, []. split; [done|]. by rewrite Hrun.
  - destruct Hp as [Hs Hread]. destruct (write_report_file _ _ _ _) as [states wrote] eqn:Hw.
    destruct (is_ok wrote) eqn:Hok; split; try done. split; [exact Hs|]. intros Hpath. exists entries.
    split; [by apply read_entries_snoc|]. assert (wrote = Status.Ok) as -> by by destruct wrote. by eapply report_written.
  - destruct (wait_over _ _ _ _); [|exact Hstay]. split; [done|]. intros _. by apply on_file_snoc, Hp.
  - destruct (fs_running _); [exact Hstay|]. split; [done|]. intros Hcode. by apply on_file_snoc, Hp.
Qed.

Lemma told_run events : Forall host_event_ok events -> told events (host_run dg h0 events).
Proof.
  induction events as [|e events IH] using rev_ind; intros He.
  - split; [done|]. cbn. by rewrite Hlaunch.
  - apply Forall_app in He as [He [He1 _]%Forall_cons]. by apply told_step, IH.
Qed.
End Announced.
(** ** Properties *)


(** ** Witness *)

(** A first process, whose ticker runs before its server does, which ticks once
    more, is signalled and stops. *)
Definition sample_boot_inputs : BootInputs := mkBootInputs Status.Ok (Sample.id 900) sample_start 10.

Definition sample_boot : (N + Host) * Files :=
  boot [str "--ready-file"; str "ready"] sample_boot_inputs (mkFiles None None None) (mkReportFiles None None).

Definition sample_host_events : list HostEvent :=
  [HoTick sample_answers (Sample.id 949) 15; HoListen (fun _ _ => Ok 7000); HoHandler; HoReport 17;
   HoWrite (mkReportAnswers Status.Ok true None true true); HoTick sample_answers (Sample.id 950) 20;
   HoPass true 0; HoAccept AcceptTimedOut; HoJoin 4096 30].

Definition sample_host0 : Host :=
  match sample_boot.1 with
  | inr h => h
  | inl _ => mkHost (mkHostConfig 0 false [] []) (new_server default_server_options sample_daemon)
      (mkReportFiles None None) (Exited 1)
  end.

Definition sample_host : Host := host_run sample_diagnostics sample_host0 sample_host_events.

Lemma sample_host_calls : Forall call_ok (host_calls sample_host).
Proof.
  assert (host_calls sample_host =
    [tick_call sample_answers (Sample.id 949) 15; tick_call sample_answers (Sample.id 950) 20]) as ->
    by (vm_compute; reflexivity).
  repeat apply Forall_cons_2; [..|apply Forall_nil_2]; (split; [by vm_compute|]); intros op Hop; vm_compute in Hop;
    by injection Hop as <-.
Qed.

Lemma sample_host_facts :
  h_phase sample_host = Exited 0 /\ d_durability_failed (host_daemon sample_host) = false /\
  require_verification_for_active (policy (d_authority (host_daemon sample_host))) = false /\
  verify_invariants (d_authority (host_daemon sample_host)) = Status.Ok.
Proof. split_and!; by vm_compute. Qed.

Lemma sample_boots : exists files, sample_boot = (inr sample_host0, files).
Proof. eexists. vm_compute. reflexivity. Qed.

