(* ===== verification/Divergences.v ===== *)
(** * Where the code and its documentation part

    Concrete runs, evaluated by the kernel, in which an operation the code
    accepts leads where the comments or documents say it cannot. *)

From Stdlib Require Import Strings.Byte.
From S2P Require Import Prelude Outcome Ids Lifecycle Capacity Policy Wire Model State Ledger.
From S2P Require Import Changes Invariants Rebalance PlanFabric PlanGrants Operations WellFormed.
From S2P Require Import Snapshot Store Journal Compaction Recovery Frames Protocol Replies Daemon.
From S2P Require Import Applicable Steps Accounting Crash Service Restart.

(** An operator's path state change. *)
Definition take_down : Op := SetPathState (Sample.id 3) PathState.Down [] 50.

(** Taking down a path that carries a protected grant makes the effective
    protected floor zero, while the withdrawing grant still counts as protected
    and held: [verify_invariants] rejects the state the accepted operation
    leads to. *)
Lemma path_down_breaks_invariants :
  verify_invariants Sample.fabric = Status.Ok /\ runs take_down (mkArbSeq 10) Sample.fabric = true /\
  verify_invariants (run take_down (mkArbSeq 10) Sample.fabric) = Status.Conflicting.
Proof. split_and!; vm_compute; reflexivity. Qed.

(** An epoch change withdraws the grants that hold capacity only; an eligible
    grant keeps the superseded epoch and [verify_invariants] rejects it. *)
Lemma epoch_bump_leaves_stale_proposals :
  verify_invariants eligible_fabric = Status.Ok /\
  runs (BumpEpoch (mkEpoch 2)) (mkArbSeq 10) eligible_fabric = true /\
  verify_invariants (run (BumpEpoch (mkEpoch 2)) (mkArbSeq 10) eligible_fabric) = Status.Stale.
Proof. split_and!; vm_compute; reflexivity. Qed.

(** A well-formed reason whose 512th byte starts a two-byte character. *)
Definition long_reason : bytes := replicate 511 x61 ++ [xc3; xa9].

Definition with_reason (reason : bytes) (op : GrantOperation) : GrantOperation :=
  mkGrantOperation (op_grant op) (op_request op) (op_actor op) (op_actor_incarnation op)
    (op_actor_generation op) (op_epoch op) (op_path_generation op) (op_capacity_generation op)
    (op_policy_generation op) (op_lease op) (op_now_ms op) reason.

(** [bounded] cuts the reason inside the character; the image of the planned
    grant is then no UTF-8 and [apply] rejects the plan as Corrupt. *)
Lemma reason_cut_breaks_plan :
  let op := WithdrawGrant (with_reason long_reason (sample_op 5 20)) in
  is_valid_utf8 long_reason = true /\
  match plan Sample.fabric op (mkArbSeq 10) with
  | Ok m => (apply Sample.fabric (m_changes m) (mkArbSeq 10)).2 = Status.Corrupt
  | Fail _ => False
  end.
Proof. split; vm_compute; reflexivity. Qed.

(** A proposal that names the lease of another grant. *)
Definition reusing_lease : Op :=
  ProposeGrant (mkGrantProposal (Sample.id 250) (Sample.id 1) (Sample.id 101) (mkGeneration 1)
    (Sample.id 3) 10 GrantClass.General 1000 20 [] (Sample.id 9) (Sample.id 305)).

(** The proposal is accepted, and [verify_invariants] then finds two grants
    with one lease identity. *)
Lemma lease_reuse_breaks_invariants :
  runs reusing_lease (mkArbSeq 10) Sample.fabric = true /\
  verify_invariants (run reusing_lease (mkArbSeq 10) Sample.fabric) = Status.Conflicting.
Proof. split; vm_compute; reflexivity. Qed.

(** The sample fabric with an eligible grant larger than the path. *)
Definition oversized_fabric : Authority :=
  let g := Sample.grant 8 GrantClass.General 5000 GrantState.Eligible in
  set_grants (<[raw (g_id g) := g]> (grants_ Sample.fabric))
    (set_request_index (<[raw (g_request g) := raw (g_id g)]> (request_index Sample.fabric))
      Sample.fabric).

Definition force_active : Op := ReconcileGrant (sample_op 8 20) GrantState.Active (Sample.id 77).

(** Reservation refuses the grant for want of capacity, reconciliation to
    Active accepts it without asking, and the path is oversubscribed. *)
Lemma reconcile_overbooks :
  verify_invariants oversized_fabric = Status.Ok /\
  plan oversized_fabric (ReserveGrant (sample_op 8 20)) (mkArbSeq 10) = Fail Status.Exhausted /\
  runs force_active (mkArbSeq 10) oversized_fabric = true /\
  verify_invariants (run force_active (mkArbSeq 10) oversized_fabric) = Status.Conflicting.
Proof. split_and!; vm_compute; reflexivity. Qed.

(** A policy that allows [n] grants per path. *)
Definition limited (n : N) (a : Authority) : Authority :=
  let p := policy a in
  set_config (set_cfg_policy (mkPolicy (pol_id p) (pol_generation p) (protected_floor_units p)
    (protected_floor_bps p) (min_free_units p) (min_free_bps p) (max_oversubscription_bps p)
    (max_lease_duration_ms p) n (max_grants_per_site p) (max_srd_concentration_bps p)
    (allow_degraded_activation p) (allow_partition_optimistic_recovery p)
    (require_verification_for_active p) (auto_reconcile_on_restart p) (site_lease_timeout_ms p))
    (config a)) a.

Definition only_proposed : Authority :=
  let g := Sample.grant 8 GrantClass.General 10 GrantState.Proposed in
  limited 1 (set_grants {[raw (g_id g) := g]} Sample.fabric).

(** The count of open grants includes the evaluated one: a limit of one grant
    per path is valid, and refuses the only grant of the path. *)
Lemma limit_counts_itself :
  validate (policy only_proposed) = Status.Ok /\ runs (EvaluateGrant (sample_op 8 20)) (mkArbSeq 10) only_proposed = true /\
  (g_state <$> grants_ (run (EvaluateGrant (sample_op 8 20)) (mkArbSeq 10) only_proposed) !!
    mkId128 0 8) = Some GrantState.Refused.
Proof. split_and!; vm_compute; reflexivity. Qed.

(** The aggregate ledger counts a protected obligation in [committed] or
    [reserved] and again in the protected floor, so that it does not close. *)
Lemma aggregate_does_not_close :
  (l ← ledger Sample.fabric (Sample.id 3); Ok (verify_closure l)) = Ok Status.Ok /\
  verify_closure (aggregate_ledger Sample.fabric) = Status.Incomplete.
Proof. split; vm_compute; reflexivity. Qed.

(** A policy that demands independent verification of active grants. *)
Definition verified_fabric : Authority :=
  let p := policy Sample.fabric in
  set_config (set_cfg_policy (mkPolicy (pol_id p) (pol_generation p) (protected_floor_units p)
    (protected_floor_bps p) (min_free_units p) (min_free_bps p) (max_oversubscription_bps p)
    (max_lease_duration_ms p) (max_grants_per_path p) (max_grants_per_site p)
    (max_srd_concentration_bps p) (allow_degraded_activation p)
    (allow_partition_optimistic_recovery p) true (auto_reconcile_on_restart p)
    (site_lease_timeout_ms p)) (config Sample.fabric)) Sample.fabric.

(** Replay marks every grant of the log as recovered, which takes back its
    verification; under such a policy the check that ends the replay then
    rejects a state that was in order before the restart. *)
Lemma recovery_rejects_active_grants :
  verify_invariants verified_fabric = Status.Ok /\
  verify_invariants (mark_recovered verified_fabric (Sample.id 5) Provenance.RecoveredFromLog false []).1
    = Status.Incomplete.
Proof. split; vm_compute; reflexivity. Qed.

(** ** A shutdown behind a torn record *)

(** What the start of a daemon answers over these files. *)
Definition start_status (o : DaemonOptions) (files : Files) : Status :=
  match (start sample_start o files 40).1 with Ok _ => Status.Ok | Fail s => s end.

(** A short write of an intent is survived by a restart, but the clean shutdown
    that follows it appends its record behind the torn one, and the next start
    answers Corrupt. *)
Lemma shutdown_behind_torn_intent :
  let os := mkCommitAnswers 300 true 4096 true (ca_compact sample_answers) (Sample.id 501) in
  let d := (handle os sample_diagnostics 30 sample_daemon sample_retire).1 in
  start_status sample_options (disk d) = Status.Ok /\
  start_status sample_options (disk (stop 4096 d 35)) = Status.Corrupt.
Proof. cbv zeta. split; vm_compute; reflexivity. Qed.
